(* ===== verification/_CoqProject ===== *)
-Q . S2P
Prelude.v
Text.v
GoTime.v
Langs.v
Url.v
Base64.v
Lru.v
CacheTTL.v
Rdt.v
RdtProtocol.v
Stream.v
Connmux.v
Netip.v
Stun.v
Disco.v
DiscoUdp.v
NetUdp.v
Vpn.v
Duplex.v
Socks5.v
Proxy.v
Fileshare.v
Ws.v
Secure.v
Auth.v
Peermap.v
PeermapFacts.v
PeermapInv.v
Control.v
Api.v
Login.v
P2p.v
Overlay.v
Rootless.v
Upnp.v
VpnRun.v
Daemon.v
Card.v
Relay.v
Closing.v
Ipc.v
Startup.v
Netlink.v
Serve.v
Tunnel.v
Exporter.v
Flags.v
Admin.v
Commands.v
Join.v
