(* ===== verification/Prelude.v ===== *)
(** * PeerGuard: a verification library

    PeerGuard is a peer-to-peer VPN.  A server keeps the peers of each network
    in touch; the nodes find ways to reach each other over UDP, or fall back on
    other peers and on the server, and carry IP packets, files and SOCKS5
    connections over what they found.  This library models the program in Rocq,
    component by component, and proves what makes each component, and the
    components together, correct, with the places where the program does
    something else.

    ** The program and the files

    Ground: the Go language and the parts of its library the program uses.
    - Prelude: bytes, fixed-width integers, slices with spare capacity, outcomes
      of calls ([res]: [Ok], [Err], [Panic]), lists; the tactics and the hint
      databases.
    - Text, GoTime, Url, Base64, Netip, Flags: [strconv] and [strings], [time],
      [net/url] with [http.Header], [encoding/base64], [net.IP] with [net/netip],
      [flag].
    - Langs ([langs/]): errors with codes, the nonce of a control connection.

    Caches: Lru ([cache/lru/lru.go]), CacheTTL ([cache/cache.go]).

    Streams.
    - Rdt ([rdt/]): one reliable connection, its frames, timers and listener.
    - RdtProtocol: two of them over a network that loses, reorders and duplicates.
    - Stream: what a byte stream cut into frames promises its reader.
    - Connmux ([connmux/connmux.go]): many connections over one stream.
    - Duplex: programs on the two ends of a connection, and their schedules.

    The way from node to node.
    - Stun ([stun/stun.go]), Disco ([disco/]): packets, identifiers, NAT types,
      the relay protocol of [disco/udp/relay.go].
    - DiscoUdp ([disco/udp/]): who is reachable at which address.
    - NetUdp ([net/]): read deadlines, connections over one packet socket.
    - Ws ([disco/ws/ws.go]): the control connection of a node to the server.
    - Secure ([secure/]): the two encryptions of datagrams.
    - P2p ([p2p/]): the packet connection that uses all of these.

    The server.
    - Auth ([peermap/auth], [peermap/exporter/auth], [peermap/config]): secrets,
      tokens, the configuration.
    - Peermap ([peermap/peermap.go]): peers, networks, messages, requests;
      PeermapFacts and PeermapInv hold the theorems about them.
    - Api ([peermap/api]), Exporter ([peermap/exporter/client.go]), Login
      ([peermap/oidc]): administrators, operators and users; Join
      ([peermap/network], [oidc/http.go], [peermap/ui]): the links of a login and the
      static files.

    What runs on a node.
    - Vpn, VpnRun ([vpn/], [vpn/nic/], [vpn/nic/tun/]): packets, the virtual NIC,
      the packet loops, the device, the routes and the end of it all.
    - Netlink ([netlink/], [tun.go]): addresses and routes of four kinds of systems.
    - Card, Rootless ([vpn/nic/gvisor/], [rootless/forward.go]), Relay ([relay] of
      [forward.go]), Proxy ([rootless/proxy.go]), Socks5 ([socks5/]): the same
      without a device.
    - Upnp ([upnp/upnp.go], [disco/udp/upnp.go]): a port of the router.
    - Daemon ([cmd/pgcli/vpn/vpn.go], [disco/server.go]): from flags to a running
      node, and the secret between its starts.
    - Startup, Ipc ([cmd/pgcli/vpn/vpn.go], [vpn/ipc]): what is started, in which
      order and with which ends; what a running node tells about itself.
    - Closing ([p2p/conn.go], [disco/udp/udp.go]): how a packet connection closes.
    - Fileshare ([fileshare/], [cmd/pgcli/download]), Serve ([filemanager.go]): files
      between peers, and the loop of the server of files.

    The programs: Admin ([cmd/pgcli/admin]), Commands ([cmd/pgcli], [cmd/pgmap]).

    Components together.
    - Control: [Ws] and [Peermap], what one client and the server make of the
      messages of another.
    - Overlay: [P2p], [DiscoUdp], [Ws], [Secure] and [Peermap], a datagram from
      node to node on each of the three paths.
    - Tunnel: these with [Vpn] and [Daemon], a packet from the device of one node to
      that of another.

    Each file says at its top what its state stands for.  A definition has the
    name of the function, method or type it translates, and stands beside the
    others of its source file; a receiver becomes the first argument or the
    state that is threaded through.

    ** How the code is read

    A struct is a [Record], and an object that is shared by reference (a
    [*peerConn], a [*MuxConn], a packet of the pool) is an index into an arena, so
    that aliasing is visible.  Slices that are read in place ([gslice]) carry
    their capacity, because Go can read and append beyond their length.  An
    [intN] or [uintN] wraps around where the program computes with it.  A map is
    a [gmap]; a loop over a map visits [map_to_list], and the theorems do not
    depend on the order unless they say so.

    A call that can fail gives a [res]; [Panic] stands for everything that ends the
    goroutine (and thereby the process): an index out of range, a send on a closed
    channel, a nil dereference.  A theorem that ends in [panic_iff] gives the exact
    inputs on which code panics.

    Goroutines that share state are processes whose steps interleave in an
    inductive relation, a critical section being one step; where the work of
    goroutines is sequential, it is a function.  Theorems about such relations
    hold in every reachable state or on every execution.  The programs of
    [Duplex] have one outcome on every schedule ([Duplex.session_unique]).  The
    clock, the random bytes and the answers of the outside world are arguments.
    Logs are left out, and rate
    limiters only delay.

    ** Interfaces

    - [Lru.CacheLaws], [Lru.ClearLaws]: what the users of an LRU cache rely on
      ([CacheTTL], [Secure], [P2p], [Vpn]); discharged by [LruCache].
    - [Secure.SymmAlgo] with [SymmLaws]: what one end encrypts the other decrypts;
      discharged by AES-CBC and ChaCha20-Poly1305, used by [P2p] and [Overlay].
    - [Stream.FrameReader] with [FrameReaderLaws]: reading a stream of frames;
      discharged by the connections of [Connmux] and of [Ws].
    - [Daemon.SecretStore] with [SecretStoreLaws]: a secret that is stored is loaded
      again; discharged by both stores of the program.

    ** What is shown

    - Streams: with an MTU of at most 1500, what is read is a prefix of what was
      written, whatever the network does ([read_is_prefix]); a segment is kept until
      it arrives ([pooled_or_arrived]); when the connection retransmits
      ([query_round_retransmits]) and when it never does again
      ([parked_never_retransmits]); multiplexed streams are exact, and where they
      wait ([frames_demuxed]); so are control streams ([stream_exact]), up to the
      size of a frame ([write_intact_iff]); relayed streams are prefixes, a
      half-closed one is cut, and so are long datagrams ([relay_exact]).
    - Datagrams: what one node writes another reads, over the server, over a peer
      and directly ([datagram_via_server], [datagram_via_peer],
      [datagram_direct]); both peers agree on their key ([secure_peers_agree]);
      relays are chosen in turn ([relay_round_robin]); the packet formats round-trip
      ([response_roundtrip], [relay_roundtrip]); demultiplexing ([demux_exact]);
      when closing ends ([close_ends_iff]) and what it can break
      ([closed_channel_panics]).
    - The virtual network: a packet of one device reaches the other
      ([device_to_device]); the fate of every packet ([outbound_fate]), also of one
      for the node itself ([own_packets]); a packet has one owner
      ([packets_owned_once]); the address of a node leads to it
      ([address_leads_to_node]); the end terminates, and when it panics
      ([shutdown_ends]); routes and
      discovery agree ([ignored_follow_routes]); subscriptions to the system
      ([subscription_breaks_iff]).
    - The server: its tables agree in every reachable state
      and who is found in them has shown a secret ([reachable_tables_agree]); a peer
      reaches its own network and the neighbours
      only ([messages_stay_in_reach]); which messages end the server
      ([message_panic_iff], [failed_upgrade_poisons]); leads and liveness
      ([lead_end_to_end], [live_peer_kept]); what administrators and users get
      ([api_confined], [set_meta_applies], [printed_secret_admits], [login_wedges],
      [login_links], [login_remembered]).
    - Applications: file transfer, with the deadline of its handshake
      ([resumed_download], [download_checked],
      [request_panic_iff], [link_leads_back], [added_files], [served_in_turn]),
      SOCKS5 ([session], [accepted_credentials]), the proxy ([proxy_access]),
      listeners ([combined_exact], [close_results]), the card ([card_init_panic_iff]),
      UPnP ([mapped_until_closed]).
    - Processes: how the daemon ends and what it leaves open ([run_ends]), what it
      shows ([peers_shown]),
      what command lines mean ([vpn_command_line], [main_dispatch],
      [map_configuration]).
    - Ground: the LRU cache refines a recency list ([run_refines]).

    ** Bounds and fuel

    Sequence numbers of [rdt] wrap at 2^32; the protocol theorems bound the frames of
    a connection by [max_frames] = 2^30 and the window by 16383, so that serial
    comparisons are comparisons.  Its packets are read into 1500 bytes and its
    channels hold 1024 segments and 256 NCKs and queries; a channel of [connmux] holds
    128 payloads, one of a datagram listener 512; a copy takes 32 KiB at a time.  These
    are in the model: a sender waits, a reader that is held up is a state, and what
    does not fit is cut.  The file of a transfer is shorter than 4 GiB,
    since its size is sent in a [uint32]; a link leads back for numbers below 32768.
    UPnP tries twenty ports.  A function that takes fuel has it from a
    bound on its recursion: the length of the input ([Netip], [Socks5], [Secure.blocks], [Fileshare.pieces], [Stun.foreachAttr]), the distance
    of two sequence numbers ([Rdt.nck_fuel]), the size of a pool ([Rdt.drain]), the
    digits of a number ([Text.itoa_go]: 20 for 64 bits).  That the fuel is enough is
    part of the theorem about the loop ([Rdt.sendNCK_diverges_iff] says when no fuel
    is).

    ** Outside of the sources

    Parameters of the definitions, with the laws of their documentation where a
    theorem needs them: [sha256], the AES block cipher, the AEAD construction,
    elliptic curves and base58, the codecs of JSON, base64 and URLs where they are
    not written out, the WebSocket library, the OIDC library, HTTP and XML, the
    parsers of IP headers and the ICMP serialiser, the gVisor network stack, the
    device and the sockets.  Each theorem that has such a law as a hypothesis has
    a witness in which the parameter is a concrete function.

    ** Not modelled

    - The calls of the operating systems behind [netlink/] and [tun.go], of which
      [Netlink] has the arguments and the results; [LinkByIndex], which nothing
      calls; the callbacks of Windows.
    - Printing: usage texts, progress bars, the QR code, logs.
    - The gVisor stack behind [vpn/nic/gvisor]; what hands it packets and takes
      connections from it is in [Card] and [Rootless].
    - The parsing of HTTP, JSON, YAML and XML, which is the library's: what is done
      with a parsed request or document is modelled.
    - Real time: that a timer fires, and when, is a step or an argument.
    - The zones of IPv6 addresses; errors of a UDP socket in what is built on
      [DiscoUdp.writeUDP], and there the millisecond for which [findPeerID] keeps an
      answer, which [P2p.findPeerID_kept] has; that the lock of a network is free
      while [SetIfAbsent] looks at the old connection.
    - What [encoding/json] does to texts that are not valid UTF-8: the laws of the
      documents in [Auth], [Exporter] and [Daemon] are meant for the others. *)

From Stdlib Require Import ZArith Lia Strings.Byte Strings.String.
From stdpp Require Export base list gmap countable numbers option relations sorting.

#[global] Open Scope Z_scope.
#[global] Set Default Goal Selector "!".

(** ** Bytes

    A Go [byte] is a [Byte.byte]; a Go [string] or [[]byte] value is a list of
    them.  [b2z] reads a byte as an integer and [z2b] is Go's truncating
    conversion [byte(x)]. *)

Abbreviation byte := Byte.byte (only parsing).
Abbreviation bytes := (list Byte.byte) (only parsing).

Definition b2z (b : byte) : Z := Z.of_N (Byte.to_N b).

Definition z2b (z : Z) : byte :=
  match Byte.of_N (Z.to_N (z mod 256)) with
  | Some b => b
  | None => Byte.x00
  end.

(** A string literal as the bytes Go stores for it. *)
Definition bs (s : String.string) : bytes := String.list_byte_of_string s.
Export String.StringSyntax.
Arguments bs s%_string_scope.

#[export] Instance byte_eq_dec : EqDecision Byte.byte := Byte.byte_eq_dec.

#[export] Instance byte_countable : Countable Byte.byte.
Proof.
  refine (inj_countable Byte.to_N Byte.of_N _).
  intros b. apply Byte.of_to_N.
Defined.

Lemma b2z_range b : 0 <= b2z b < 256.
Proof.
  unfold b2z. pose proof (Byte.to_N_bounded b). lia.
Qed.

Lemma z2b_b2z b : z2b (b2z b) = b.
Proof.
  pose proof (b2z_range b). unfold z2b.
  rewrite Z.mod_small by done. unfold b2z.
  rewrite N2Z.id, Byte.of_to_N. done.
Qed.

Lemma b2z_z2b z : b2z (z2b z) = z mod 256.
Proof.
  pose proof (Z.mod_pos_bound z 256 ltac:(lia)).
  unfold z2b. destruct (Byte.of_N _) as [b|] eqn:E.
  - apply Byte.to_of_N in E. unfold b2z. rewrite E. lia.
  - apply Byte.of_N_None_iff in E. lia.
Qed.

Lemma b2z_inj a b : b2z a = b2z b -> a = b.
Proof. intros H. by rewrite <- (z2b_b2z a), <- (z2b_b2z b), H. Qed.

Lemma b2z_z2b_small z : 0 <= z < 256 -> b2z (z2b z) = z.
Proof. intros. rewrite b2z_z2b. by apply Z.mod_small. Qed.

Lemma z2b_mod z : z2b (z mod 256) = z2b z.
Proof. apply b2z_inj. rewrite !b2z_z2b. by rewrite Z.mod_mod. Qed.

(** Go's [^] on bytes. *)
Definition bxor (a b : byte) : byte := z2b (Z.lxor (b2z a) (b2z b)).

Lemma lxor_bound w a b :
  0 <= w -> 0 <= a < 2 ^ w -> 0 <= b < 2 ^ w -> 0 <= Z.lxor a b < 2 ^ w.
Proof.
  intros Hw Ha Hb.
  assert (Hm : Z.lxor a b = Z.lxor a b mod 2 ^ w).
  { rewrite <- Z.land_ones by done.
    apply Z.bits_inj'. intros n Hn.
    rewrite Z.land_spec, Z.lxor_spec, Z.testbit_ones_nonneg by lia.
    destruct (Z.ltb_spec n w); [by rewrite andb_true_r|].
    rewrite andb_false_r, <- (Z.mod_small a (2 ^ w)), <- (Z.mod_small b (2 ^ w)) by done.
    rewrite !Z.mod_pow2_bits_high by lia. done. }
  rewrite Hm. apply Z.mod_pos_bound. lia.
Qed.

Lemma b2z_bxor a b : b2z (bxor a b) = Z.lxor (b2z a) (b2z b).
Proof.
  unfold bxor. apply b2z_z2b_small.
  apply (lxor_bound 8); [lia | apply b2z_range | apply b2z_range].
Qed.

Lemma bxor_cancel a k : bxor (bxor a k) k = a.
Proof.
  apply b2z_inj. rewrite !b2z_bxor.
  by rewrite Z.lxor_assoc, Z.lxor_nilpotent, Z.lxor_0_r.
Qed.

(** ** Machine words

    [uN x] is the value of the Go conversion [uintN(x)]. *)

Definition u8 (z : Z) : Z := z mod 2 ^ 8.
Definition u16 (z : Z) : Z := z mod 2 ^ 16.
Definition u32 (z : Z) : Z := z mod 2 ^ 32.
Definition u64 (z : Z) : Z := z mod 2 ^ 64.

Lemma u8_small z : 0 <= z < 256 -> u8 z = z.
Proof. apply Z.mod_small. Qed.
Lemma u16_small z : 0 <= z < 65536 -> u16 z = z.
Proof. apply Z.mod_small. Qed.
Lemma u32_small z : 0 <= z < 4294967296 -> u32 z = z.
Proof. apply Z.mod_small. Qed.
Lemma u32_range z : 0 <= u32 z < 4294967296.
Proof. by apply Z.mod_pos_bound. Qed.
Lemma u16_range z : 0 <= u16 z < 65536.
Proof. by apply Z.mod_pos_bound. Qed.

(** ** Big-endian integers ([encoding/binary])

    [be16]/[be32] are [AppendUint16]/[AppendUint32] onto nil; [de16]/[de32] are
    [Uint16]/[Uint32] on the bytes they read. *)

Definition be16 (v : Z) : bytes := [z2b (v / 256); z2b v].
Definition be32 (v : Z) : bytes :=
  [z2b (v / 16777216); z2b (v / 65536); z2b (v / 256); z2b v].

Definition de16 (a b : byte) : Z := b2z a * 256 + b2z b.
Definition de32 (a b c d : byte) : Z :=
  b2z a * 16777216 + b2z b * 65536 + b2z c * 256 + b2z d.

(** [lia] with division and modulo. *)
Ltac mlia := Z.to_euclidean_division_equations; lia.

Lemma de16_be16 v : de16 (z2b (v / 256)) (z2b v) = u16 v.
Proof. unfold de16, u16. rewrite !b2z_z2b. mlia. Qed.

Lemma de32_be32 v :
  de32 (z2b (v / 16777216)) (z2b (v / 65536)) (z2b (v / 256)) (z2b v) = u32 v.
Proof. unfold de32, u32. rewrite !b2z_z2b. mlia. Qed.

Lemma be16_de16 a b : be16 (de16 a b) = [a; b].
Proof.
  unfold be16, de16.
  pose proof (b2z_range a). pose proof (b2z_range b).
  f_equal; [|f_equal]; apply b2z_inj; rewrite b2z_z2b; mlia.
Qed.

Lemma be32_de32 a b c d : be32 (de32 a b c d) = [a; b; c; d].
Proof.
  unfold be32, de32.
  pose proof (b2z_range a). pose proof (b2z_range b).
  pose proof (b2z_range c). pose proof (b2z_range d).
  repeat f_equal; apply b2z_inj; rewrite b2z_z2b; mlia.
Qed.

Lemma de16_range a b : 0 <= de16 a b < 65536.
Proof. unfold de16. pose proof (b2z_range a). pose proof (b2z_range b). lia. Qed.

Lemma de32_range a b c d : 0 <= de32 a b c d < 4294967296.
Proof.
  unfold de32. pose proof (b2z_range a). pose proof (b2z_range b).
  pose proof (b2z_range c). pose proof (b2z_range d). lia.
Qed.

(** ** Outcomes of Go code

    [Ok] a normal return, [Err] a returned error, [Panic] a run-time panic
    (index or slice bounds out of range, close of a closed channel, nil
    dereference).  Operations that cannot return an error are polymorphic in
    the error type [E]. *)

Inductive res (E A : Type) : Type :=
| Ok (a : A)
| Err (e : E)
| Panic.
Arguments Ok {E A} a.
Arguments Err {E A} e.
Arguments Panic {E A}.

#[export] Instance res_ret E : MRet (res E) := fun _ a => Ok a.
#[export] Instance res_bind E : MBind (res E) := fun _ _ k m =>
  match m with
  | Ok a => k a
  | Err e => Err e
  | Panic => Panic
  end.

Definition res_to_option {E A} (m : res E A) : option A :=
  match m with Ok a => Some a | _ => None end.

Lemma bind_Ok {E A B} (a : A) (k : A -> res E B) : (Ok a ≫= k) = k a.
Proof. done. Qed.

Lemma res_bind_Ok E A B (m : res E A) (k : A -> res E B) b :
  m ≫= k = Ok b -> exists a, m = Ok a /\ k a = Ok b.
Proof. destruct m; simpl; naive_solver. Qed.

(** ** Lengths and slices *)

Definition zlen {A} (l : list A) : Z := Z.of_nat (length l).

Lemma zlen_nonneg {A} (l : list A) : 0 <= zlen l.
Proof. unfold zlen. lia. Qed.
Lemma zlen_app {A} (l k : list A) : zlen (l ++ k) = zlen l + zlen k.
Proof. unfold zlen. rewrite length_app. lia. Qed.
Lemma zlen_cons {A} (x : A) l : zlen (x :: l) = 1 + zlen l.
Proof. unfold zlen. simpl. lia. Qed.
Lemma zlen_nil {A} : zlen (@nil A) = 0.
Proof. done. Qed.

(** A Go slice of bytes: the visible elements and the spare ones up to its
    capacity.  Slicing [s[lo:hi]] is bounded by the capacity, indexing and
    [s[lo:]] by the length. *)
Record gslice := GSlice { vis : bytes; spare : bytes }.

Definition exact (l : bytes) : gslice := GSlice l [].
Definition sl_len (s : gslice) : Z := zlen (vis s).
Definition sl_cap (s : gslice) : Z := zlen (vis s) + zlen (spare s).

Definition sl_get {E} (s : gslice) (i : Z) : res E byte :=
  if bool_decide (0 <= i < sl_len s) then
    match vis s !! Z.to_nat i with
    | Some b => Ok b
    | None => Panic
    end
  else Panic.

Definition sl_sub {E} (s : gslice) (lo hi : Z) : res E gslice :=
  if bool_decide (0 <= lo <= hi /\ hi <= sl_cap s) then
    let all := vis s ++ spare s in
    Ok (GSlice (take (Z.to_nat (hi - lo)) (drop (Z.to_nat lo) all))
               (drop (Z.to_nat hi) all))
  else Panic.

Definition sl_from {E} (s : gslice) (lo : Z) : res E gslice :=
  if bool_decide (0 <= lo <= sl_len s) then sl_sub s lo (sl_len s) else Panic.

(** [binary.BigEndian.Uint16/Uint32] on a slice. *)
Definition sl_be16 {E} (s : gslice) : res E Z :=
  a ← sl_get s 0; b ← sl_get s 1; Ok (de16 a b).
Definition sl_be32 {E} (s : gslice) : res E Z :=
  a ← sl_get s 0; b ← sl_get s 1; c ← sl_get s 2; d ← sl_get s 3;
  Ok (de32 a b c d).

Lemma sl_get_app {E} p b q sp i :
  i = zlen p -> @sl_get E (GSlice (p ++ b :: q) sp) i = Ok b.
Proof.
  intros ->. unfold sl_get, sl_len, zlen; simpl.
  rewrite bool_decide_true by (rewrite length_app; simpl; lia).
  rewrite Nat2Z.id, list_lookup_middle; done.
Qed.

Lemma sl_get_oob {E} s i : sl_len s <= i -> @sl_get E s i = Panic.
Proof. intros H. unfold sl_get. by rewrite bool_decide_false by lia. Qed.

Lemma sl_sub_app {E} p m q sp lo hi :
  lo = zlen p -> hi = zlen p + zlen m ->
  @sl_sub E (GSlice (p ++ m ++ q) sp) lo hi = Ok (GSlice m (q ++ sp)).
Proof.
  intros -> ->. unfold sl_sub, sl_cap; simpl.
  pose proof (zlen_nonneg q). pose proof (zlen_nonneg sp). pose proof (zlen_nonneg m).
  pose proof (zlen_nonneg p).
  rewrite bool_decide_true by (rewrite !zlen_app; lia).
  replace (zlen p + zlen m - zlen p) with (zlen m) by lia.
  rewrite Z2Nat.inj_add by done. unfold zlen. rewrite !Nat2Z.id.
  rewrite <- !app_assoc, <- drop_drop, !drop_app_length, take_app_length.
  done.
Qed.

Lemma sl_sub_0 {E} m q sp hi :
  hi = zlen m -> @sl_sub E (GSlice (m ++ q) sp) 0 hi = Ok (GSlice m (q ++ sp)).
Proof. intros ->. by apply (sl_sub_app []). Qed.

Lemma sl_from_app {E} p q sp lo :
  lo = zlen p -> @sl_from E (GSlice (p ++ q) sp) lo = Ok (GSlice q sp).
Proof.
  intros ->. unfold sl_from, sl_len; simpl.
  pose proof (zlen_nonneg q). pose proof (zlen_nonneg p).
  rewrite bool_decide_true by (rewrite zlen_app; lia).
  pose proof (@sl_sub_app E p q [] sp (zlen p) (zlen (p ++ q))) as H1.
  rewrite app_nil_r in H1. apply H1; [done|]. apply zlen_app.
Qed.

Lemma sl_from_oob {E} s lo : sl_len s < lo -> @sl_from E s lo = Panic.
Proof. intros H. unfold sl_from. by rewrite bool_decide_false by lia. Qed.

Lemma sl_sub_oob {E} s lo hi : sl_cap s < hi \/ hi < lo -> @sl_sub E s lo hi = Panic.
Proof. intros H. unfold sl_sub. by rewrite bool_decide_false by lia. Qed.

Lemma sl_be32_app {E} v q sp :
  @sl_be32 E (GSlice (be32 v ++ q) sp) = Ok (u32 v).
Proof.
  unfold sl_be32. rewrite <- de32_be32.
  unfold sl_get, sl_len, be32, zlen; simpl.
  by rewrite !bool_decide_true by lia.
Qed.

Lemma sl_be16_app {E} v q sp :
  @sl_be16 E (GSlice (be16 v ++ q) sp) = Ok (u16 v).
Proof.
  unfold sl_be16. rewrite <- de16_be16.
  unfold sl_get, sl_len, be16, zlen; simpl.
  by rewrite !bool_decide_true by lia.
Qed.

Lemma length_be16 v : length (be16 v) = 2%nat.
Proof. done. Qed.
Lemma length_be32 v : length (be32 v) = 4%nat.
Proof. done. Qed.
Lemma zlen_be16 v : zlen (be16 v) = 2.
Proof. done. Qed.
Lemma zlen_be32 v : zlen (be32 v) = 4.
Proof. done. Qed.

(** The in-place loop [for i, v := range b { b[i] = v ^ nonce }]. *)
Definition xor_all (nonce : byte) (b : bytes) : bytes := (fun v => bxor v nonce) <$> b.

Lemma xor_all_cancel k b : xor_all k (xor_all k b) = b.
Proof.
  unfold xor_all. induction b as [|x b IH]; [done|].
  rewrite !fmap_cons, IH, bxor_cancel. done.
Qed.

(** ** Stateful code

    [GoM S E A] is Go code over the state [S]: it always leaves a state behind,
    also when it panics, so that a deferred [recover()] keeps the effects made
    before the panic. *)

Definition GoM (S E A : Type) : Type := S -> res E A * S.

#[export] Instance gom_ret S E : MRet (GoM S E) := fun _ a s => (Ok a, s).
#[export] Instance gom_bind S E : MBind (GoM S E) := fun _ _ k m s =>
  match m s with
  | (Ok a, s') => k a s'
  | (Err e, s') => (Err e, s')
  | (Panic, s') => (Panic, s')
  end.

Definition gets {S E A} (f : S -> A) : GoM S E A := fun s => (Ok (f s), s).
Definition modify {S E} (f : S -> S) : GoM S E unit := fun s => (Ok tt, f s).
Definition lift {S E A} (r : res E A) : GoM S E A := fun s => (r, s).
Definition panic {S E A} : GoM S E A := fun s => (Panic, s).

Lemma lift_bind {S E A B} (r : res E A) (k : A -> GoM S E B) s :
  (lift r ≫= k) s = match r with Ok a => k a s | Err e => (Err e, s) | Panic => (Panic, s) end.
Proof. by destruct r. Qed.

Lemma gets_bind {S E A B} (f : S -> A) (k : A -> GoM S E B) s : (gets f ≫= k) s = k (f s) s.
Proof. done. Qed.

Lemma modify_bind {S E B} (f : S -> S) (k : unit -> GoM S E B) s : (modify f ≫= k) s = k tt (f s).
Proof. done. Qed.

Lemma gom_bind_run {S E A B} (m : GoM S E A) (k : A -> GoM S E B) s :
  (m ≫= k) s = match m s with (Ok a, s') => k a s' | (Err e, s') => (Err e, s') | (Panic, s') => (Panic, s') end.
Proof. done. Qed.

Lemma lift_bind2 {S E A B C} (r : res E A) (k : A -> res E B) (f : B -> GoM S E C) s :
  (p ← lift r; n ← lift (k p); f n) s =
  match (p ← r; k p) with Ok a => f a s | Err e => (Err e, s) | Panic => (Panic, s) end.
Proof.
  destruct r as [a| |]; [|done..].
  unfold mbind, gom_bind, res_bind, lift. by destruct (k a).
Qed.

(** [defer func() { recover() }()] around a body without results. *)
Definition recovering {S E} (m : GoM S E unit) : GoM S E unit := fun s =>
  match m s with
  | (Panic, s') => (Ok tt, s')
  | r => r
  end.

(** ** Channels

    The elements sent and not yet received, oldest first, and whether the
    channel is closed.  A send that blocks until there is room does nothing in
    the meantime, so a send is modelled at the moment it completes; where the wait holds
    up something else ([Rdt], [RdtProtocol], [Connmux], [NetUdp], [Closing]), it is a
    state of its own there. *)

Record chan (A : Type) := Chan { queue : list A; closed : bool }.
Arguments Chan {A} _ _.
Arguments queue {A} _.
Arguments closed {A} _.

Definition make_chan {A} : chan A := Chan [] false.
Definition chan_send {E A} (x : A) (c : chan A) : res E (chan A) :=
  if closed c then Panic else Ok (Chan (queue c ++ [x]) false).
Definition chan_close {E A} (c : chan A) : res E (chan A) :=
  if closed c then Panic else Ok (Chan (queue c) true).
(** A receive: [None] when it blocks, [Some (None, _)] on a closed and drained
    channel. *)
Definition chan_recv {A} (c : chan A) : option (option A * chan A) :=
  match queue c with
  | x :: q => Some (Some x, Chan q (closed c))
  | [] => if closed c then Some (None, c) else None
  end.

(** ** Lists *)

Lemma filter_all {A} (P : A -> Prop) `{!forall x, Decision (P x)} (l : list A) :
  (forall x, x ∈ l -> P x) -> filter P l = l.
Proof.
  induction l as [|x l IH]; intros Hl; [done|].
  rewrite filter_cons_True by (apply Hl; left). f_equal. apply IH.
  intros y Hy. apply Hl. by right.
Qed.

Lemma filter_none {A} (P : A -> Prop) `{!forall x, Decision (P x)} (l : list A) :
  Forall (fun x => ~ P x) l -> filter P l = [].
Proof. induction 1 as [|x l Hx _ IH]; [done|]. by rewrite filter_cons_False. Qed.

Lemma prefix_concat_take {A} n (l : list (list A)) : concat (take n l) `prefix_of` concat l.
Proof. exists (concat (drop n l)). by rewrite <- concat_app, take_drop. Qed.

(** The head of a rotated list, and what follows it. *)
Lemma take_rotate_S {A} n k (l : list A) p :
  (k < length l)%nat -> l !! (n mod length l)%nat = Some p ->
  take (S k) (rotate n l) = p :: take k (rotate (S n) l).
Proof.
  intros Hk Hp.
  assert (Hrot : forall m i, (i < length l)%nat -> rotate m l !! i = l !! ((m + i) mod length l)%nat).
  { intros m i Hi. rewrite lookup_rotate_r by done. unfold rotate_nat_add.
    f_equal. rewrite <- Nat2Z.inj_add, <- Nat2Z.inj_mod. apply Nat2Z.id. }
  apply list_eq. intros [|i].
  - rewrite lookup_take_lt, Hrot by lia. by rewrite Nat.add_0_r.
  - change ((p :: take k (rotate (S n) l)) !! S i) with (take k (rotate (S n) l) !! i).
    destruct (decide (i < k)%nat) as [Hi|Hi].
    + rewrite !lookup_take_lt, !Hrot by lia.
      replace (n + S i)%nat with (S n + i)%nat by lia. done.
    + by rewrite !lookup_take_ge by lia.
Qed.

(** ** Step relations *)

Lemma rtc_invariant {A} (R : relation A) (P : A -> Prop) x y :
  (forall a b, R a b -> P a -> P b) -> rtc R x y -> P x -> P y.
Proof. intros Hstep. induction 1; eauto. Qed.

(** ** Automation *)

Create HintDb pg.
Create HintDb zlen.
#[export] Hint Resolve zlen_nonneg b2z_range u32_range u16_range : pg.
#[export] Hint Rewrite @zlen_app @zlen_cons @zlen_nil zlen_be16 zlen_be32 : zlen.

(** Lengths of concatenations, then linear arithmetic. *)
Ltac zlen_lia :=
  autorewrite with zlen in *;
  repeat match goal with
  | |- context [zlen ?l] =>
      lazymatch goal with
      | _ : 0 <= zlen l |- _ => fail
      | _ => pose proof (zlen_nonneg l)
      end
  | _ : context [zlen ?l] |- _ =>
      lazymatch goal with
      | _ : 0 <= zlen l |- _ => fail
      | _ => pose proof (zlen_nonneg l)
      end
  end; lia.

(** Case analysis on the outermost bind or conditional of a hypothesis. *)
Ltac res_inv :=
  repeat match goal with
  | H : (_ ≫= _) = Ok _ |- _ =>
      let a := fresh "a" in apply res_bind_Ok in H as [a [? H]]; simpl in H
  | H : Ok _ = Ok _ |- _ => injection H as H; subst
  | H : Ok _ = Err _ |- _ => discriminate H
  | H : Err _ = Ok _ |- _ => discriminate H
  | H : Ok _ = Panic |- _ => discriminate H
  | H : Panic = Ok _ |- _ => discriminate H
  end.
