(* ===== verification/Text.v ===== *)
(** * Text: what the program uses of [strconv] and [strings] *)

From S2P Require Import Prelude.

(** ** Decimal numbers *)

Definition digit (d : Z) : byte := z2b (48 + d).
Definition digit_val (c : byte) : option Z :=
  if bool_decide (48 <= b2z c <= 57) then Some (b2z c - 48) else None.

(** [strconv.Itoa] of a non-negative number below [10^fuel]. *)
Fixpoint itoa_go (fuel : nat) (n : Z) : bytes :=
  match fuel with
  | O => []
  | S fuel => if bool_decide (n < 10) then [digit n] else itoa_go fuel (n / 10) ++ [digit (n mod 10)]
  end.
Definition itoa_nat (n : Z) : bytes := itoa_go 20 n.
Definition Itoa (n : Z) : bytes := if bool_decide (n < 0) then bs "-" ++ itoa_nat (- n) else itoa_nat n.

(** The value of a string of digits. *)
Definition dec_step (acc : option Z) (c : byte) : option Z :=
  a ← acc; d ← digit_val c; Some (a * 10 + d).
Definition dec_val (s : bytes) : option Z := fold_left dec_step s (Some 0).

(** [strconv.ParseUint(s, 10, bits)] and [ParseInt(s, 10, bits)]: [None] is an error. *)
Definition ParseUint (bits : Z) (s : bytes) : option Z :=
  if bool_decide (s = []) then None
  else v ← dec_val s; if bool_decide (v < 2 ^ bits) then Some v else None.

Definition ParseInt (bits : Z) (s : bytes) : option Z :=
  match s with
  | [] => None
  | c :: rest =>
      let neg := bool_decide (b2z c = 45) in
      let s := if bool_decide (b2z c = 45 \/ b2z c = 43) then rest else s in
      if bool_decide (s = []) then None
      else
        v ← dec_val s;
        if neg then if bool_decide (v <= 2 ^ (bits - 1)) then Some (- v) else None
        else if bool_decide (v < 2 ^ (bits - 1)) then Some v else None
  end.

Lemma digit_val_digit d : 0 <= d < 10 -> digit_val (digit d) = Some d.
Proof.
  intros Hd. unfold digit_val, digit. rewrite b2z_z2b_small by lia.
  rewrite bool_decide_true by lia. f_equal. lia.
Qed.

Lemma dec_val_snoc s a d :
  dec_val s = Some a -> 0 <= d < 10 -> dec_val (s ++ [digit d]) = Some (a * 10 + d).
Proof.
  intros Hs Hd. unfold dec_val in *. rewrite fold_left_app, Hs. simpl. by rewrite digit_val_digit.
Qed.

Lemma dec_val_itoa_go fuel n : 0 <= n < 10 ^ Z.of_nat fuel -> dec_val (itoa_go fuel n) = Some n.
Proof.
  revert n. induction fuel as [|fuel IH]; intros n Hn.
  - change (10 ^ Z.of_nat 0) with 1 in Hn. simpl. unfold dec_val. simpl. f_equal. lia.
  - simpl. rewrite Nat2Z.inj_succ, Z.pow_succ_r in Hn by lia. case_bool_decide.
    + unfold dec_val. simpl. rewrite digit_val_digit by lia. done.
    + rewrite (dec_val_snoc _ (n / 10)); [f_equal; mlia|apply IH|mlia].
      split; [mlia|]. apply Z.div_lt_upper_bound; lia.
Qed.

Lemma dec_val_itoa n : 0 <= n < 10 ^ 20 -> dec_val (itoa_nat n) = Some n.
Proof. apply (dec_val_itoa_go 20). Qed.

Lemma itoa_go_nonempty fuel n : itoa_go (S fuel) n <> [].
Proof. simpl. case_bool_decide; [done|]. intros [_ Hn]%app_nil. done. Qed.

Lemma itoa_nonempty n : itoa_nat n <> [].
Proof. apply (itoa_go_nonempty 19). Qed.

Lemma ParseUint_itoa bits n : 0 <= n < 10 ^ 20 -> n < 2 ^ bits -> ParseUint bits (itoa_nat n) = Some n.
Proof.
  intros Hn Hb. unfold ParseUint. rewrite bool_decide_false by apply itoa_nonempty.
  rewrite dec_val_itoa by done. simpl. by rewrite bool_decide_true.
Qed.

Lemma itoa_go_head f m : 0 <= m -> exists d s, itoa_go (S f) m = digit d :: s /\ 0 <= d < 10.
Proof.
  revert m. induction f as [|f IH]; intros m Hm.
  - cbn [itoa_go]. case_bool_decide; [exists m, []; split; [done|lia]|].
    exists (m mod 10), []. split; [done|mlia].
  - change (itoa_go (S (S f)) m) with
      (if bool_decide (m < 10) then [digit m] else itoa_go (S f) (m / 10) ++ [digit (m mod 10)]).
    case_bool_decide; [exists m, []; split; [done|lia]|].
    destruct (IH (m / 10) ltac:(mlia)) as (d & s & Hd & Hr). rewrite Hd.
    by exists d, (s ++ [digit (m mod 10)]).
Qed.

Lemma itoa_head n : 0 <= n -> exists d s, itoa_nat n = digit d :: s /\ 0 <= d < 10.
Proof. apply (itoa_go_head 19). Qed.

Lemma ParseInt_Itoa_bits bits n :
  0 <= n < 10 ^ 20 -> ParseInt bits (Itoa n) = if bool_decide (n < 2 ^ (bits - 1)) then Some n else None.
Proof.
  intros Hn. unfold Itoa. rewrite (bool_decide_false (n < 0)) by lia.
  destruct (itoa_head n ltac:(lia)) as (d & s & Hs & Hd).
  pose proof (dec_val_itoa n ltac:(lia)) as Hv. rewrite Hs in Hv |- *. unfold ParseInt.
  assert (Hb : b2z (digit d) = 48 + d) by (apply b2z_z2b_small; lia).
  rewrite Hb. rewrite (bool_decide_false (48 + d = 45)), (bool_decide_false (48 + d = 45 \/ 48 + d = 43)) by lia.
  rewrite (bool_decide_false (_ = [])) by done. rewrite Hv. done.
Qed.

Lemma ParseInt_Itoa n : 0 <= n < 2 ^ 63 -> ParseInt 64 (Itoa n) = Some n.
Proof. intros Hn. rewrite ParseInt_Itoa_bits by lia. by rewrite bool_decide_true by lia. Qed.

Lemma itoa_digits n : 0 <= n -> Forall (fun c => exists d, c = digit d /\ 0 <= d < 10) (itoa_nat n).
Proof.
  unfold itoa_nat. generalize 20%nat. intros f. revert n. induction f as [|f IH]; intros n Hn; simpl; [constructor|].
  case_bool_decide; [repeat constructor; exists n; split; [done|lia]|].
  apply Forall_app. split; [apply IH; mlia|]. repeat constructor. exists (n mod 10). split; [done|mlia].
Qed.

(** What is not a digit is not in a number. *)
Lemma not_in_Itoa n c : 0 <= n -> ~ 48 <= b2z c < 58 -> c ∉ Itoa n.
Proof.
  intros Hn Hc Hin. unfold Itoa in Hin. rewrite bool_decide_false in Hin by lia.
  pose proof (itoa_digits n Hn) as Hd. rewrite Forall_forall in Hd. destruct (Hd c Hin) as (d & -> & Hr).
  apply Hc. unfold digit. rewrite b2z_z2b_small; lia.
Qed.

(** ** Hexadecimal digits *)

Definition hex_digit (d : Z) : byte := z2b (if bool_decide (d < 10) then 48 + d else 87 + d).
Definition hex_val (c : byte) : option Z :=
  let c := b2z c in
  if bool_decide (48 <= c <= 57) then Some (c - 48)
  else if bool_decide (97 <= c <= 102) then Some (c - 87)
  else if bool_decide (65 <= c <= 70) then Some (c - 55)
  else None.

(** A 16-bit group without leading zeros. *)
Fixpoint hex_go (fuel : nat) (n : Z) : bytes :=
  match fuel with
  | O => []
  | S fuel => if bool_decide (n < 16) then [hex_digit n] else hex_go fuel (n / 16) ++ [hex_digit (n mod 16)]
  end.

(** ** Strings *)

Fixpoint Split (sep : byte) (s : bytes) : list bytes :=
  match s with
  | [] => [[]]
  | c :: s =>
      if bool_decide (c = sep) then [] :: Split sep s
      else match Split sep s with
           | x :: xs => (c :: x) :: xs
           | [] => [[c]]
           end
  end.

Fixpoint index_byte (c : byte) (s : bytes) : option nat :=
  match s with
  | [] => None
  | x :: s => if bool_decide (x = c) then Some O else S <$> index_byte c s
  end.

Definition HasPrefix (s prefix : bytes) : bool := bool_decide (take (length prefix) s = prefix).
Definition HasSuffix (s suffix : bytes) : bool :=
  bool_decide (length suffix <= length s)%nat &&
  bool_decide (drop (length s - length suffix) s = suffix).

(** [strings.Contains] *)
Fixpoint str_Contains (s sub : bytes) : bool :=
  HasPrefix s sub || match s with [] => false | _ :: s => str_Contains s sub end.

Fixpoint str_Compare (a b : bytes) : Z :=
  match a, b with
  | [], [] => 0
  | [], _ => -1
  | _, [] => 1
  | x :: a, y :: b =>
      if bool_decide (b2z x < b2z y) then -1
      else if bool_decide (b2z x > b2z y) then 1 else str_Compare a b
  end.

Definition to_lower (c : byte) : byte :=
  if bool_decide (65 <= b2z c <= 90) then z2b (b2z c + 32) else c.

(** *** Places in strings *)

Lemma index_byte_app c s t : c ∉ s -> index_byte c (s ++ c :: t) = Some (length s).
Proof.
  induction s as [|x s IH]; intros Hs; simpl; [by rewrite bool_decide_true|].
  apply not_elem_of_cons in Hs as [Hx Hs]. rewrite bool_decide_false by done. by rewrite IH.
Qed.

Lemma index_byte_lookup c s i : index_byte c s = Some i -> s !! i = Some c.
Proof.
  revert i. induction s as [|x s IH]; intros i; [done|]. simpl. case_bool_decide as Hx; [intros [= <-]; by subst|].
  intros (j & Hj & ->)%fmap_Some. by apply IH.
Qed.
