(* ===== verification/GoTime.v ===== *)
(** * Time: instants, durations and unix seconds as [time.Time] computes them

    An instant without a monotonic reading is a count of seconds since year 1 in
    an [int64] that wraps around, and nanoseconds below one second; a
    [time.Duration] is an [int64] of nanoseconds.  [time.Now] is an argument of
    the operations that read the clock. *)

From S2P Require Import Prelude.

Definition i64 (z : Z) : Z := (z + 2 ^ 63) mod 2 ^ 64 - 2 ^ 63.
Definition MaxInt64 : Z := 2 ^ 63 - 1.

Record time := Time { t_sec : Z; t_nsec : Z }.

#[export] Instance time_eq_dec : EqDecision time.
Proof. solve_decision. Defined.

Definition zero_time : time := Time 0 0.
Definition unixToInternal : Z := 62135596800.
Definition Nanosecond : Z := 1.
Definition Millisecond : Z := 1000000.
Definition Second : Z := 1000000000.
Definition Minute : Z := 60 * Second.
Definition Hour : Z := 60 * Minute.

(** [time.Unix(sec, 0)] and [t.Unix()]. *)
Definition UnixTime (sec : Z) : time := Time (i64 (sec + unixToInternal)) 0.
Definition Unix (t : time) : Z := i64 (t_sec t - unixToInternal).

Definition Before (t u : time) : bool :=
  bool_decide (t_sec t < t_sec u \/ t_sec t = t_sec u /\ t_nsec t < t_nsec u).
Definition After (t u : time) : bool := Before u t.

(** Go's division truncates towards zero. *)
Definition Add (t : time) (d : Z) : time :=
  let dsec := Z.quot d Second in
  let nsec := t_nsec t + Z.rem d Second in
  if bool_decide (nsec >= Second) then Time (i64 (t_sec t + (dsec + 1))) (nsec - Second)
  else if bool_decide (nsec < 0) then Time (i64 (t_sec t + (dsec - 1))) (nsec + Second)
  else Time (i64 (t_sec t + dsec)) nsec.

Definition minDuration : Z := - 2 ^ 63.
Definition maxDuration : Z := 2 ^ 63 - 1.

(** [t.Sub(u)], which saturates; [time.Until(t)] is [t.Sub(now)]. *)
Definition Sub (t u : time) : Z :=
  let d := i64 (i64 (i64 (t_sec t - t_sec u) * Second) + (t_nsec t - t_nsec u)) in
  if bool_decide (Add u d = t) then d
  else if Before t u then minDuration else maxDuration.
Definition Until (t now : time) : Z := Sub t now.

Definition wf_time (t : time) : Prop := - 2 ^ 63 <= t_sec t < 2 ^ 63 /\ 0 <= t_nsec t < Second.

Lemma i64_small z : - 2 ^ 63 <= z < 2 ^ 63 -> i64 z = z.
Proof. intros Hz. unfold i64. rewrite Z.mod_small by lia. lia. Qed.

Lemma i64_range z : - 2 ^ 63 <= i64 z < 2 ^ 63.
Proof. unfold i64. pose proof (Z.mod_pos_bound (z + 2 ^ 63) (2 ^ 64) ltac:(lia)). lia. Qed.

(** The instants between the years 1 and 200 000, where nothing wraps. *)
Definition sane (t : time) : Prop := 0 <= t_sec t < 2 ^ 42 /\ 0 <= t_nsec t < Second.
(** The instants within 290 years of each other: their difference is a duration. *)
Definition near (t u : time) : Prop := Z.abs (t_sec t - t_sec u) <= 9000000000.

Definition nanos (t : time) : Z := t_sec t * Second + t_nsec t.

Lemma Add_sane t d :
  sane t -> - 2 ^ 63 <= d < 2 ^ 63 -> 
  nanos (Add t d) = nanos t + d /\ 0 <= t_nsec (Add t d) < Second.
Proof.
  intros [Hs Hn] Hd. unfold Add, nanos, Second in *.
  assert (Hq : d = 1000000000 * Z.quot d 1000000000 + Z.rem d 1000000000) by (apply Z.quot_rem; lia).
  assert (Hr : -1000000000 < Z.rem d 1000000000 < 1000000000).
  { pose proof (Z.rem_bound_abs d 1000000000 ltac:(lia)). lia. }
  assert (Hq' : -9223372037 <= Z.quot d 1000000000 <= 9223372037) by lia.
  repeat case_bool_decide; cbn [t_sec t_nsec]; rewrite i64_small by lia; lia.
Qed.

Lemma nanos_inj t u :
  0 <= t_nsec t < Second -> 0 <= t_nsec u < Second -> nanos t = nanos u -> t = u.
Proof.
  unfold nanos, Second. destruct t as [s n], u as [s' n']. simpl. intros.
  assert (s = s') by lia. subst. f_equal. lia.
Qed.

Lemma Sub_sane t u : sane t -> sane u -> near t u -> Sub t u = nanos t - nanos u.
Proof.
  intros [Ht Htn] [Hu Hun] Hn. unfold near in Hn. unfold Sub.
  rewrite (i64_small (t_sec t - t_sec u)) by lia.
  unfold Second in *.
  rewrite (i64_small ((t_sec t - t_sec u) * 1000000000)) by lia.
  rewrite i64_small by lia.
  rewrite bool_decide_true; [unfold nanos, Second; lia|].
  apply nanos_inj; unfold Second.
  - apply Add_sane; [split; unfold Second; lia|lia].
  - lia.
  - destruct (Add_sane u ((t_sec t - t_sec u) * 1000000000 + (t_nsec t - t_nsec u))) as [-> _];
      [split; unfold Second; lia|lia|]. unfold nanos, Second. lia.
Qed.
