(* ===== verification/Langs.v ===== *)
(** * Small language helpers ([langs])

    Errors with a code, the nonce of a control connection, and the conversions
    of outcomes into values. *)

From S2P Require Import Prelude Text.

(** ** Errors *)

Record Error := MkError { Code : Z; Msg : bytes }.

#[export] Instance Error_eq_dec : EqDecision Error.
Proof. solve_decision. Defined.

(** A Go [error] value: a [langs.Error] or another error with its text. *)
Inductive go_error := Known (e : Error) | Other (text : bytes).

Definition Error_Error (e : Error) : bytes := bs "ENO" ++ Itoa (Code e) ++ bs ": " ++ Msg e.
Definition error_text (e : go_error) : bytes :=
  match e with Known e => Error_Error e | Other t => t end.
Definition Wrap (e : Error) (err : go_error) : Error :=
  MkError (Code e) (Msg e ++ bs ": " ++ error_text err).
Definition Err_of (err : go_error) : Error :=
  match err with
  | Known knownErr => knownErr
  | Other t => MkError 5000 t
  end.

(** What is written to a response: the document of the value, on a line. *)
Record Data_ (T : Type) := MkData { d_Error : Error; d_Data : T }.
Definition MarshalTo {T} (json : T -> bytes) (e : T) : bytes := json e ++ [z2b 10].

(** ** Conditionals and forced results *)

Definition IfElse {T} (cond : bool) (v1 v2 : T) : T := if cond then v1 else v2.
Definition Must {E T} (v : res E T) : res Empty_set T :=
  match v with Ok v => Ok v | _ => Panic end.

(** ** Nonces *)

(** [rand.Read] of one byte, call after call: the byte it reads, [None] when it
    reads nothing.  The stream of its answers is given; it never ends in the
    program, [None] at its end stands for a generator that answers only zeros. *)
Fixpoint NewNonce (rand : list (option byte)) : option bytes :=
  match rand with
  | [] => None
  | None :: _ => Some (bs "0")
  | Some b :: rand => if bool_decide (b2z b = 0) then NewNonce rand else Some (Itoa (b2z b))
  end.

Definition MustParseNonce (nonce : bytes) : byte :=
  match ParseUint 8 nonce with
  | None => z2b 0
  | Some v => z2b v
  end.

Lemma MustParseNonce_Itoa b : MustParseNonce (Itoa (b2z b)) = b.
Proof.
  pose proof (b2z_range b). unfold MustParseNonce, Itoa. rewrite bool_decide_false by lia.
  rewrite ParseUint_itoa by lia. apply z2b_b2z.
Qed.

(** The nonce a client draws is the one the server parses, and it is zero (no
    masking) only when the generator fails. *)
Lemma NewNonce_parse rand s :
  NewNonce rand = Some s ->
  (exists b, Some b ∈ rand /\ b2z b <> 0 /\ MustParseNonce s = b) \/
  (None ∈ rand /\ MustParseNonce s = z2b 0).
Proof.
  induction rand as [|[b|] rand IH]; cbn [NewNonce]; [done| |].
  - case_bool_decide as Hb.
    + intros Hs. destruct (IH Hs) as [(b' & ? & ? & ?)|[? ?]]; [left; exists b'|right]; split_and?; try done; by right.
    + intros [= <-]. left. exists b. split_and?; [left|done|apply MustParseNonce_Itoa].
  - intros [= <-]. right. split; [left|done].
Qed.
