(* ===== verification/Url.v ===== *)
(** * Url: what the program uses of [net/url] and of [http.Header]

    [Values] maps keys to lists of values; [Encode] writes them as a query
    string and [ParseQuery] reads one, keeping what it can read when a part of it
    is malformed. *)

From S2P Require Import Prelude Text.

Abbreviation Values := (gmap (list Byte.byte) (list (list Byte.byte))) (only parsing).

Definition vals_Get (v : Values) (key : bytes) : bytes := default [] (v !! key ≫= head).
Definition vals_Has (v : Values) (key : bytes) : bool := bool_decide (is_Some (v !! key)).
Definition vals_Set (v : Values) (key value : bytes) : Values := <[key := [value]]> v.
Definition vals_Add (v : Values) (key value : bytes) : Values :=
  <[key := default [] (v !! key) ++ [value]]> v.
Definition vals_Del (v : Values) (key : bytes) : Values := delete key v.

(** ** Escaping *)

Definition unreserved (c : byte) : bool :=
  let z := b2z c in
  bool_decide (97 <= z <= 122) || bool_decide (65 <= z <= 90) || bool_decide (48 <= z <= 57) ||
  bool_decide (z = 45 \/ z = 95 \/ z = 46 \/ z = 126).

Definition upper_hex (d : Z) : byte := z2b (if bool_decide (d < 10) then 48 + d else 55 + d).

Definition escape_byte (c : byte) : bytes :=
  if unreserved c then [c]
  else if bool_decide (b2z c = 32) then bs "+"
  else [z2b 37; upper_hex (b2z c / 16); upper_hex (b2z c mod 16)].

Definition QueryEscape (s : bytes) : bytes := concat (escape_byte <$> s).

Fixpoint QueryUnescape (s : bytes) : option bytes :=
  match s with
  | [] => Some []
  | c :: s =>
      if bool_decide (b2z c = 37) then
        match s with
        | a :: b :: s =>
            ha ← hex_val a; hb ← hex_val b; r ← QueryUnescape s; Some (z2b (ha * 16 + hb) :: r)
        | _ => None
        end
      else r ← QueryUnescape s; Some ((if bool_decide (b2z c = 43) then z2b 32 else c) :: r)
  end.

(** [strings.Cut] at a byte. *)
Definition Cut (sep : byte) (s : bytes) : bytes * bytes :=
  match index_byte sep s with
  | Some i => (take i s, drop (S i) s)
  | None => (s, [])
  end.

(** ** Query strings *)

Definition key_le (a b : bytes) : Prop := str_Compare a b <= 0.
#[export] Instance key_le_dec a b : Decision (key_le a b).
Proof. unfold key_le. apply _. Defined.

Definition entry_le (a b : bytes * list bytes) : Prop := key_le a.1 b.1.
#[export] Instance entry_le_dec a b : Decision (entry_le a b).
Proof. unfold entry_le. apply _. Defined.

(** The entries in the order of their keys. *)
Definition entries (v : Values) : list (bytes * list bytes) := merge_sort entry_le (map_to_list v).

Definition pair_text (k v : bytes) : bytes := QueryEscape k ++ bs "=" ++ QueryEscape v.
Definition pieces (es : list (bytes * list bytes)) : list bytes :=
  concat ((fun e : bytes * list bytes => pair_text e.1 <$> e.2) <$> es).

Fixpoint join (sep : bytes) (l : list bytes) : bytes :=
  match l with
  | [] => []
  | [x] => x
  | x :: l => x ++ sep ++ join sep l
  end.

Definition Encode (v : Values) : bytes := join (bs "&") (pieces (entries v)).

(** One piece of a query string: whether it is malformed and the values with it. *)
Definition parse_piece (acc : Values * bool) (piece : bytes) : Values * bool :=
  if bool_decide (z2b 59 ∈ piece) then (acc.1, true)
  else if bool_decide (piece = []) then acc
  else
    let kv := Cut (z2b 61) piece in
    match QueryUnescape kv.1, QueryUnescape kv.2 with
    | Some k, Some v => (vals_Add acc.1 k v, acc.2)
    | _, _ => (acc.1, true)
    end.

(** The values read and whether there was an error. *)
Definition ParseQuery (query : bytes) : Values * bool :=
  fold_left parse_piece (Split (z2b 38) query) (∅, false).

(** ** Round trip *)

Definition plain_byte (c : byte) : bool :=
  negb (bool_decide (b2z c = 38) || bool_decide (b2z c = 59) || bool_decide (b2z c = 61)).

Lemma escape_byte_plain c : forallb plain_byte (escape_byte c) = true.
Proof. destruct c; vm_compute; reflexivity. Qed.

Lemma unescape_escape_byte c s : QueryUnescape (escape_byte c ++ s) = r ← QueryUnescape s; Some (c :: r).
Proof. destruct c; reflexivity. Qed.

Lemma QueryEscape_cons c s : QueryEscape (c :: s) = escape_byte c ++ QueryEscape s.
Proof. done. Qed.

Lemma QueryUnescape_Escape s : QueryUnescape (QueryEscape s) = Some s.
Proof.
  induction s as [|c s IH]; [done|]. by rewrite QueryEscape_cons, unescape_escape_byte, IH.
Qed.

Lemma QueryEscape_plain s : forallb plain_byte (QueryEscape s) = true.
Proof.
  induction s as [|c s IH]; [done|]. by rewrite QueryEscape_cons, forallb_app, escape_byte_plain, IH.
Qed.

Lemma plain_not_in s c : forallb plain_byte s = true -> plain_byte c = false -> c ∉ s.
Proof.
  rewrite forallb_forall. intros Hs Hc Hin. apply list_elem_of_In in Hin.
  rewrite (Hs _ Hin) in Hc. done.
Qed.

Lemma drop_past {A} (s : list A) c t : drop (S (length s)) (s ++ c :: t) = t.
Proof. induction s; [done|]. by simpl. Qed.

Lemma Cut_pair k v : Cut (z2b 61) (pair_text k v) = (QueryEscape k, QueryEscape v).
Proof.
  unfold Cut, pair_text. change (bs "=") with [z2b 61]. simpl.
  rewrite index_byte_app by (apply plain_not_in; [apply QueryEscape_plain|done]).
  rewrite take_app_length, drop_past. done.
Qed.

Lemma pair_no_amp k v : z2b 38 ∉ pair_text k v /\ z2b 59 ∉ pair_text k v.
Proof.
  unfold pair_text. rewrite !not_elem_of_app.
  split_and!; try (apply plain_not_in; [apply QueryEscape_plain|done]).
  - intros H%list_elem_of_singleton. apply (f_equal b2z) in H. vm_compute in H. done.
  - intros H%list_elem_of_singleton. apply (f_equal b2z) in H. vm_compute in H. done.
Qed.

Lemma parse_piece_pair acc k v : parse_piece acc (pair_text k v) = (vals_Add acc.1 k v, acc.2).
Proof.
  unfold parse_piece. rewrite bool_decide_false by apply pair_no_amp.
  rewrite bool_decide_false.
  - rewrite Cut_pair. cbn [fst snd]. by rewrite !QueryUnescape_Escape.
  - unfold pair_text. change (bs "=") with [z2b 61]. destruct (QueryEscape k); done.
Qed.

Lemma Split_no_sep c s : c ∉ s -> Split c s = [s].
Proof.
  induction s as [|x s IH]; intros Hs; [done|]. apply not_elem_of_cons in Hs as [Hx Hs].
  simpl. rewrite bool_decide_false by done. by rewrite IH.
Qed.

Lemma Split_app c s t : c ∉ s -> Split c (s ++ c :: t) = s :: Split c t.
Proof.
  induction s as [|x s IH]; intros Hs; simpl; [by rewrite bool_decide_true|].
  apply not_elem_of_cons in Hs as [Hx Hs]. rewrite bool_decide_false by done. by rewrite IH.
Qed.

Lemma Split_join c l : l <> [] -> Forall (fun s => c ∉ s) l -> Split c (join [c] l) = l.
Proof.
  intros Hne Hl. induction Hl as [|x l Hx Hl IH]; [done|].
  destruct l as [|y l]; [by apply Split_no_sep|].
  change (join [c] (x :: y :: l)) with (x ++ c :: join [c] (y :: l)).
  rewrite Split_app by done. by rewrite IH.
Qed.

(** Values as [ParseQuery] makes them: no key without a value. *)
Definition wf_values (v : Values) : Prop := map_Forall (fun _ vs => vs <> []) v.

Lemma fold_key k vs : forall (m : Values) (e : bool),
  vs <> [] ->
  fold_left parse_piece (pair_text k <$> vs) (m, e) = (<[k := default [] (m !! k) ++ vs]> m, e).
Proof.
  induction vs as [|x vs IH]; intros m e Hne; [done|].
  cbn [fmap list_fmap fold_left]. rewrite parse_piece_pair. cbn [fst snd].
  destruct vs as [|y vs]; [done|]. rewrite IH by done. unfold vals_Add.
  rewrite lookup_insert_eq, insert_insert_eq. simpl. by rewrite <- app_assoc.
Qed.

Lemma fold_entries es : forall (m : Values) (e : bool),
  NoDup es.*1 -> Forall (fun x => x.2 <> [] /\ m !! x.1 = None) es ->
  fold_left parse_piece (pieces es) (m, e) = (list_to_map es ∪ m, e).
Proof.
  induction es as [|[k vs] es IH]; intros m e Hnd Hes.
  - by rewrite list_to_map_nil, (left_id_L ∅ (∪)).
  - apply Forall_cons in Hes as [[Hvs Hk] Hes]. cbn [fst snd] in *.
    change (pieces ((k, vs) :: es)) with ((pair_text k <$> vs) ++ pieces es).
    apply NoDup_cons in Hnd as [Hk' Hnd]. rewrite fold_left_app, fold_key by done. rewrite Hk. simpl.
    rewrite IH; [|done|].
    + f_equal. cbn [list_to_map fst snd]. rewrite <- insert_union_r, insert_union_l; [done|].
      by apply not_elem_of_list_to_map_1.
    + apply Forall_forall. intros [k' vs'] Hin.
      rewrite Forall_forall in Hes. destruct (Hes _ Hin) as [? ?]. split; [done|]. cbn [fst snd] in *.
      rewrite lookup_insert_ne; [done|]. intros <-. apply Hk'. apply list_elem_of_fmap. by exists (k, vs').
Qed.

Lemma entries_perm v : entries v ≡ₚ map_to_list v.
Proof. apply merge_sort_Permutation. Qed.

Lemma pieces_safe es : Forall (fun s => z2b 38 ∉ s) (pieces es).
Proof.
  unfold pieces. apply Forall_concat, Forall_fmap, Forall_forall. intros [k vs] _. simpl.
  apply Forall_fmap, Forall_forall. intros v _. simpl. apply pair_no_amp.
Qed.

Lemma ParseQuery_Encode v : wf_values v -> ParseQuery (Encode v) = (v, false).
Proof.
  intros Hv. unfold ParseQuery, Encode. change (bs "&") with [z2b 38].
  destruct (decide (pieces (entries v) = [])) as [Hnil|Hne].
  - rewrite Hnil. simpl. destruct (decide (v = ∅)) as [->|Hv0]; [done|]. exfalso.
    apply map_choose in Hv0 as (k & vs & Hk). pose proof (Hv k vs Hk) as Hvs. simpl in Hvs.
    assert (Hin : (k, vs) ∈ entries v) by (rewrite entries_perm; by apply elem_of_map_to_list).
    destruct vs as [|x vs]; [done|].
    assert (Hp : pair_text k x ∈ pieces (entries v)).
    { unfold pieces. apply list_elem_of_In, in_concat. exists (pair_text k <$> (x :: vs)).
      split; [|by left]. apply list_elem_of_In, list_elem_of_fmap. by exists (k, x :: vs). }
    rewrite Hnil in Hp. by apply elem_of_nil in Hp.
  - rewrite Split_join by (done || apply pieces_safe).
    rewrite fold_entries.
    + rewrite (right_id_L ∅ (∪)). f_equal.
      rewrite (list_to_map_proper _ (map_to_list v)), list_to_map_to_list; [done| |apply entries_perm].
      rewrite entries_perm. apply NoDup_fst_map_to_list.
    + rewrite entries_perm. apply NoDup_fst_map_to_list.
    + rewrite entries_perm. apply Forall_forall. intros [k vs] Hin%elem_of_map_to_list.
      split; [by apply (Hv k)|done].
Qed.

(** What [ParseQuery] reads never has a key without a value. *)
Lemma ParseQuery_wf q : wf_values (ParseQuery q).1.
Proof.
  unfold ParseQuery. assert (H : wf_values ∅) by apply map_Forall_empty.
  revert H. generalize (∅ : Values), false. generalize (Split (z2b 38) q) as ps.
  induction ps as [|p ps IH]; intros m e Hm; [done|]. cbn [fold_left].
  unfold parse_piece at 2. cbn [fst snd].
  repeat case_bool_decide; [by apply IH..|].
  destruct (QueryUnescape _) as [k|]; [|by apply IH].
  destruct (QueryUnescape _) as [x|]; [|by apply IH].
  apply IH. unfold vals_Add. apply map_Forall_insert_2; [by destruct (default _ _)|done].
Qed.
