(* ===== verification/Base64.v ===== *)
(** * Base64: what the program uses of [encoding/base64] and of [net/http]'s basic authentication

    The standard alphabet with padding.  As in the library, line breaks are skipped
    and the bits that padding leaves over are not looked at. *)

From S2P Require Import Prelude Text.

Definition b64_char (v : Z) : byte :=
  z2b (if bool_decide (v < 26) then 65 + v else if bool_decide (v < 52) then 71 + v
       else if bool_decide (v < 62) then v - 4 else if bool_decide (v = 62) then 43 else 47).
Definition b64_val (c : byte) : option Z :=
  let c := b2z c in
  if bool_decide (65 <= c <= 90) then Some (c - 65)
  else if bool_decide (97 <= c <= 122) then Some (c - 71)
  else if bool_decide (48 <= c <= 57) then Some (c + 4)
  else if bool_decide (c = 43) then Some 62
  else if bool_decide (c = 47) then Some 63
  else None.
Definition pad : byte := z2b 61.

(** [StdEncoding.EncodeToString] *)
Definition b64_quad (a b c : Z) : Z * Z * Z * Z := (a / 4, a mod 4 * 16 + b / 16, b mod 16 * 4 + c / 64, c mod 64).
Fixpoint b64_Encode (s : bytes) : bytes :=
  match s with
  | [] => []
  | [a] => let '(p, q, _, _) := b64_quad (b2z a) 0 0 in [b64_char p; b64_char q; pad; pad]
  | [a; b] => let '(p, q, r, _) := b64_quad (b2z a) (b2z b) 0 in [b64_char p; b64_char q; b64_char r; pad]
  | a :: b :: c :: rest =>
      let '(p, q, r, t) := b64_quad (b2z a) (b2z b) (b2z c) in
      [b64_char p; b64_char q; b64_char r; b64_char t] ++ b64_Encode rest
  end.

(** [StdEncoding.DecodeString] *)
Definition b64_bytes (p q r t : Z) : bytes := [z2b (p * 4 + q / 16); z2b (q mod 16 * 16 + r / 4); z2b (r mod 4 * 64 + t)].
Fixpoint b64_quads (s : bytes) : option bytes :=
  match s with
  | [] => Some []
  | a :: b :: c :: d :: rest =>
      p ← b64_val a; q ← b64_val b;
      if bool_decide (c = pad) then
        if bool_decide (d = pad /\ rest = []) then Some (take 1 (b64_bytes p q 0 0)) else None
      else
        r ← b64_val c;
        if bool_decide (d = pad) then
          if bool_decide (rest = []) then Some (take 2 (b64_bytes p q r 0)) else None
        else t ← b64_val d; l ← b64_quads rest; Some (b64_bytes p q r t ++ l)
  | _ => None
  end.
Definition not_break (c : byte) : Prop := b2z c <> 10 /\ b2z c <> 13.
#[export] Instance not_break_dec c : Decision (not_break c).
Proof. unfold not_break. apply _. Defined.
Definition b64_Decode (s : bytes) : option bytes := b64_quads (filter not_break s).

(** [parseBasicAuth] of [net/http]: the user and the password of a header. *)
Definition fold_eq (a b : bytes) : bool := bool_decide ((to_lower <$> a) = (to_lower <$> b)).
Definition cut (sep : byte) (s : bytes) : option (bytes * bytes) :=
  i ← index_byte sep s; Some (take i s, drop (S i) s).
Definition parseBasicAuth (auth : bytes) : option (bytes * bytes) :=
  if bool_decide (6 <= length auth)%nat && fold_eq (take 6 auth) (bs "Basic ") then
    c ← b64_Decode (drop 6 auth); cut (z2b 58) c
  else None.

(** ** Lemmas *)

Lemma b64_char_val v : 0 <= v < 64 -> b64_val (b64_char v) = Some v /\ b64_char v <> pad /\ not_break (b64_char v).
Proof.
  intros Hv. assert (Hall : forallb (fun v => bool_decide (b64_val (b64_char v) = Some v /\ b64_char v <> pad /\ not_break (b64_char v)))
    (seqZ 0 64) = true) by (vm_compute; reflexivity).
  rewrite forallb_forall in Hall. specialize (Hall v). rewrite bool_decide_eq_true in Hall. apply Hall, list_elem_of_In, elem_of_seqZ. lia.
Qed.

Lemma b64_quad_range a b c :
  0 <= a < 256 -> 0 <= b < 256 -> 0 <= c < 256 ->
  let '(p, q, r, t) := b64_quad a b c in
  0 <= p < 64 /\ 0 <= q < 64 /\ 0 <= r < 64 /\ 0 <= t < 64 /\ b64_bytes p q r t = [z2b a; z2b b; z2b c].
Proof.
  intros Ha Hb Hc. unfold b64_quad, b64_bytes. split_and!; try mlia.
  replace (a / 4 * 4 + (a mod 4 * 16 + b / 16) / 16) with a by mlia.
  replace ((a mod 4 * 16 + b / 16) mod 16 * 16 + (b mod 16 * 4 + c / 64) / 4) with b by mlia.
  by replace ((b mod 16 * 4 + c / 64) mod 4 * 64 + c mod 64) with c by mlia.
Qed.

Lemma pad_ok : not_break pad.
Proof. by split. Qed.

(** Encoding gives no line break, and what was encoded is read again. *)
Lemma b64_Encode_ok n : forall s, (length s <= n)%nat -> Forall not_break (b64_Encode s) /\ b64_quads (b64_Encode s) = Some s.
Proof.
  induction n as [|n IH]; intros s Hn; [destruct s; [by split; [constructor|]|simpl in Hn; lia]|].
  destruct s as [|a [|b [|c s]]]; [by split; [constructor|]|..].
  - pose proof (b64_quad_range (b2z a) 0 0 (b2z_range a) ltac:(lia) ltac:(lia)) as Hq. cbn [b64_Encode].
    destruct (b64_quad _ _ _) as [[[p q] r] t]. destruct Hq as (Hp & Hq & _ & _ & Hb).
    destruct (b64_char_val p Hp) as (Vp & Np & Bp), (b64_char_val q Hq) as (Vq & Nq & Bq).
    split; [repeat (apply Forall_cons_2; [first [assumption | exact pad_ok]|]); try done; apply Forall_nil_2|]. cbn [b64_quads]. rewrite Vp, Vq. cbn. unfold b64_bytes in Hb. injection Hb as Hb _ _.
    by rewrite Hb, z2b_b2z.
  - pose proof (b64_quad_range (b2z a) (b2z b) 0 (b2z_range a) (b2z_range b) ltac:(lia)) as Hq. cbn [b64_Encode].
    destruct (b64_quad _ _ _) as [[[p q] r] t]. destruct Hq as (Hp & Hq & Hr & _ & Hb).
    destruct (b64_char_val p Hp) as (Vp & Np & Bp), (b64_char_val q Hq) as (Vq & Nq & Bq), (b64_char_val r Hr) as (Vr & Nr & Br).
    split; [repeat (apply Forall_cons_2; [first [assumption | exact pad_ok]|]); try done; apply Forall_nil_2|]. cbn [b64_quads]. rewrite Vp, Vq. cbn [mbind option_bind]. rewrite bool_decide_false, Vr by done. cbn.
    unfold b64_bytes in Hb. injection Hb as H1 H2 _. by rewrite H1, H2, !z2b_b2z.
  - pose proof (b64_quad_range (b2z a) (b2z b) (b2z c) (b2z_range a) (b2z_range b) (b2z_range c)) as Hq. cbn [b64_Encode].
    destruct (b64_quad _ _ _) as [[[p q] r] t]. destruct Hq as (Hp & Hq & Hr & Ht & Hb).
    destruct (b64_char_val p Hp) as (Vp & Np & Bp), (b64_char_val q Hq) as (Vq & Nq & Bq), (b64_char_val r Hr) as (Vr & Nr & Br),
      (b64_char_val t Ht) as (Vt & Nt & Bt).
    destruct (IH s) as [Hf Hs]; [simpl in Hn; lia|]. split; [repeat (apply Forall_cons_2; [first [assumption | exact pad_ok]|]); try done; apply Forall_nil_2|]. cbn [b64_quads app]. rewrite Vp, Vq.
    cbn [mbind option_bind]. rewrite (bool_decide_false (_ = pad)), Vr by done. cbn [mbind option_bind].
    rewrite (bool_decide_false (_ = pad)), Vt, Hs by done. cbn [mbind option_bind]. by rewrite Hb, !z2b_b2z.
Qed.

Lemma b64_roundtrip s : b64_Decode (b64_Encode s) = Some s.
Proof.
  destruct (b64_Encode_ok (length s) s (le_n _)) as [Hf Hs]. unfold b64_Decode.
  rewrite filter_all; [done|by apply Forall_forall].
Qed.

(** The header of a user whose name has no colon. *)
Lemma parseBasicAuth_header user pass :
  z2b 58 ∉ user -> parseBasicAuth (bs "Basic " ++ b64_Encode (user ++ bs ":" ++ pass)) = Some (user, pass).
Proof.
  intros Hu. unfold parseBasicAuth. rewrite bool_decide_true by (simpl; lia).
  change (take 6 (bs "Basic " ++ _)) with (bs "Basic "). unfold fold_eq. rewrite bool_decide_true by done. cbn [andb].
  change (drop 6 (bs "Basic " ++ ?x)) with x. rewrite b64_roundtrip. cbn [mbind option_bind]. unfold cut.
  change (bs ":") with [z2b 58]. cbn [app]. rewrite index_byte_app by done. cbn [mbind option_bind].
  rewrite take_app_length. do 2 f_equal. clear. by induction user.
Qed.

Example basic_auth : parseBasicAuth (bs "basic Ym9iOnMzY3JldA==") = Some (bs "bob", bs "s3cret").
Proof. vm_compute. reflexivity. Qed.
Example basic_auth_bad : parseBasicAuth (bs "Basic Ym9iOnMzY3JldA=") = None /\ parseBasicAuth (bs "Bearer x") = None.
Proof. vm_compute. done. Qed.
