(* ===== verification/Lru.v ===== *)
(** * The LRU cache ([cache/lru/lru.go])

    [Module LruCache] models [lru.Cache]: the [map[K]*list.Element], the
    doubly-linked [container/list] (front first) and the entries the elements
    point to.  [Module LruSpec] is the abstract recency list the cache
    implements; [LruCache.run_refines] is the refinement.  The class [CacheLaws] is
    the interface the clients of the cache rely on (packet connection, virtual
    NIC, cipher caches). *)

From S2P Require Import Prelude.

(** ** Abstract specification: a bounded recency list, most recent first *)

Module LruSpec.
Section Spec.
Context {K V : Type} `{EqDecision K}.

Fixpoint lookup (k : K) (l : list (K * V)) : option V :=
  match l with
  | [] => None
  | (k', v) :: l' => if decide (k' = k) then Some v else lookup k l'
  end.

Definition remove (k : K) (l : list (K * V)) : list (K * V) :=
  filter (fun p => p.1 <> k) l.

Definition get (k : K) (l : list (K * V)) : option V * list (K * V) :=
  match lookup k l with
  | Some v => (Some v, (k, v) :: remove k l)
  | None => (None, l)
  end.

Definition evict (cap : nat) (l : list (K * V)) : list (K * V) :=
  if decide (length l = cap) then take (length l - 1) l else l.

Definition put (cap : nat) (k : K) (v : V) (l : list (K * V)) : list (K * V) :=
  match lookup k l with
  | Some _ => (k, v) :: remove k l
  | None => (k, v) :: evict cap l
  end.

Lemma lookup_Some k v l : lookup k l = Some v -> (k, v) ∈ l.
Proof.
  induction l as [|[k' v'] l IH]; simpl; [done|].
  case_decide; [intros [= ->]; subst; left | intros; right; auto].
Qed.

Lemma lookup_None k l : lookup k l = None <-> k ∉ l.*1.
Proof.
  induction l as [|[k' v'] l IH]; simpl; [set_solver|].
  rewrite elem_of_cons. case_decide; [|rewrite IH]; naive_solver.
Qed.

Lemma lookup_NoDup k v l : NoDup l.*1 -> (k, v) ∈ l -> lookup k l = Some v.
Proof.
  induction l as [|[k' v'] l IH]; simpl; [set_solver|].
  intros [Hk Hl]%NoDup_cons [Heq|Hin]%elem_of_cons.
  - simplify_eq. by rewrite decide_True.
  - rewrite decide_False; [auto|]. intros ->. apply Hk.
    apply list_elem_of_fmap. by exists (k, v).
Qed.

Lemma remove_keys k l : k ∉ (remove k l).*1.
Proof.
  unfold remove. rewrite list_elem_of_fmap.
  intros ([k' v] & -> & [Hne _]%list_elem_of_filter). done.
Qed.

Lemma remove_NoDup k l : NoDup l.*1 -> NoDup (remove k l).*1.
Proof.
  unfold remove. induction l as [|[k' v] l IH]; [done|].
  intros [Hk Hl]%NoDup_cons. rewrite filter_cons. case_decide; [|auto].
  simpl. apply NoDup_cons. split; [|auto].
  intros (p & Hp & [_ Hin]%list_elem_of_filter)%list_elem_of_fmap.
  apply Hk, list_elem_of_fmap. by exists p.
Qed.
End Spec.
End LruSpec.

Module LruCache.
Section Cache.
Context {K V : Type} `{Countable K}.

(** [lru.entry] *)
Record entry := Entry { key : K; value : V }.

(** [lru.Cache].  [*list.Element] pointers are numbers; [entries] is what each
    element points to and [fresh] the next pointer [PushFront] allocates. *)
Record Cache := MkCache {
  capacity : Z;
  cache : gmap K nat;
  elems : list nat;
  entries : gmap nat entry;
  fresh : nat
}.

(** [New] panics on a non-positive capacity. *)
Definition New (cap : Z) : res Empty_set Cache :=
  if bool_decide (cap <= 0) then Panic
  else Ok {| capacity := cap; cache := ∅; elems := []; entries := ∅; fresh := 0 |}.

(** [list.Remove] and [list.MoveToFront]. *)
Definition list_remove (e : nat) (l : list nat) : list nat := filter (fun e' => e' <> e) l.
Definition move_to_front (e : nat) (l : list nat) : list nat :=
  if decide (e ∈ l) then e :: list_remove e l else l.

Definition set_elems (l : list nat) (c : Cache) : Cache :=
  {| capacity := capacity c; cache := cache c; elems := l;
     entries := entries c; fresh := fresh c |}.

Definition Get (k : K) (c : Cache) : option V * Cache :=
  match cache c !! k with
  | Some e => (value <$> entries c !! e, set_elems (move_to_front e (elems c)) c)
  | None => (None, c)
  end.

(** [Find] walks the map; [order] is the iteration order of its keys. *)
Fixpoint find_in (order : list K) (filter : K -> V -> bool) (c : Cache)
    : option (K * V) * Cache :=
  match order with
  | [] => (None, c)
  | k :: order' =>
      match cache c !! k with
      | Some e =>
          match entries c !! e with
          | Some en =>
              if filter k (value en)
              then (Some (k, value en), set_elems (move_to_front e (elems c)) c)
              else find_in order' filter c
          | None => find_in order' filter c
          end
      | None => find_in order' filter c
      end
  end.
Definition Find (order : list K) (filter : K -> V -> bool) (c : Cache) :=
  find_in order filter c.

(** The eviction at lines 54-60. *)
Definition evict (c : Cache) : Cache :=
  if bool_decide (zlen (elems c) = capacity c) then
    match last (elems c) with
    | Some oldest =>
        {| capacity := capacity c;
           cache := match entries c !! oldest with
                    | Some en => delete (key en) (cache c)
                    | None => cache c
                    end;
           elems := list_remove oldest (elems c);
           entries := entries c; fresh := fresh c |}
    | None => c
    end
  else c.

Definition Put (k : K) (v : V) (c : Cache) : Cache :=
  match cache c !! k with
  | Some e =>
      {| capacity := capacity c; cache := cache c;
         elems := move_to_front e (elems c);
         entries := <[e := Entry k v]> (entries c); fresh := fresh c |}
  | None =>
      let c := evict c in
      {| capacity := capacity c; cache := <[k := fresh c]> (cache c);
         elems := fresh c :: elems c;
         entries := <[fresh c := Entry k v]> (entries c);
         fresh := S (fresh c) |}
  end.

Definition Del (k : K) (c : Cache) : Cache :=
  match cache c !! k with
  | Some e =>
      {| capacity := capacity c; cache := delete k (cache c);
         elems := list_remove e (elems c);
         entries := entries c; fresh := fresh c |}
  | None => c
  end.

Definition Clear (c : Cache) : Cache :=
  {| capacity := capacity c; cache := ∅; elems := [];
     entries := entries c; fresh := fresh c |}.

Definition Dump (c : Cache) : gmap K V :=
  omap (fun e => value <$> entries c !! e) (cache c).

(** ** Representation: the cache [c] holds the recency list [l] *)

Record repr (c : Cache) (l : list (K * V)) : Prop := {
  repr_entries : Forall2 (fun e p => entries c !! e = Some (Entry p.1 p.2)) (elems c) l;
  repr_index k e : cache c !! k = Some e <-> e ∈ elems c /\ key <$> entries c !! e = Some k;
  repr_elems : NoDup (elems c);
  repr_keys : NoDup l.*1;
  repr_fresh : Forall (fun e => e < fresh c)%nat (elems c);
  repr_bound : zlen (elems c) <= capacity c;
  repr_cap : 0 < capacity c
}.

Lemma Forall2_elem_l (P : nat -> K * V -> Prop) es l e :
  Forall2 P es l -> e ∈ es -> exists p, p ∈ l /\ P e p.
Proof. intros Hl. induction Hl; set_solver. Qed.

Lemma repr_lookup c l k e :
  repr c l -> cache c !! k = Some e ->
  exists v, entries c !! e = Some (Entry k v) /\ LruSpec.lookup k l = Some v /\ e ∈ elems c.
Proof.
  intros R [He Hk]%(repr_index _ _ R).
  destruct (Forall2_elem_l _ _ _ _ (repr_entries _ _ R) He) as ([k' v] & Hp & Hen).
  rewrite Hen in Hk. simplify_eq/=. exists v. split_and!; [done| |done].
  apply LruSpec.lookup_NoDup; [apply R|done].
Qed.

Lemma Forall2_elem_r (P : nat -> K * V -> Prop) es l p :
  Forall2 P es l -> p ∈ l -> exists e, e ∈ es /\ P e p.
Proof. intros Hl. induction Hl; set_solver. Qed.

Lemma repr_lookup_None c l k :
  repr c l -> cache c !! k = None -> LruSpec.lookup k l = None.
Proof.
  intros R Hk. destruct (LruSpec.lookup k l) as [v|] eqn:Hv; [|done].
  apply LruSpec.lookup_Some in Hv.
  destruct (Forall2_elem_r _ _ _ _ (repr_entries _ _ R) Hv) as (e & He & Hen).
  assert (cache c !! k = Some e); [|congruence].
  apply (repr_index _ _ R). by rewrite Hen.
Qed.

(** Removing the element of [k] is removing [k]. *)
Lemma repr_remove c l k e :
  repr c l -> cache c !! k = Some e ->
  Forall2 (fun e p => entries c !! e = Some (Entry p.1 p.2))
    (list_remove e (elems c)) (LruSpec.remove k l).
Proof.
  intros R Hk.
  assert (Hsync : forall e' p, e' ∈ elems c -> entries c !! e' = Some (Entry p.1 p.2) ->
    (e' = e <-> p.1 = k)).
  { intros e' [k' v'] He' Hen. simpl. split.
    - intros ->. apply (repr_index _ _ R) in Hk as [_ Hk].
      rewrite Hen in Hk. by simplify_eq/=.
    - intros ->. assert (cache c !! k = Some e'); [|congruence].
      apply (repr_index _ _ R). by rewrite Hen. }
  pose proof (repr_entries _ _ R) as HF. revert Hsync HF.
  clear R Hk. generalize (elems c). intros es Hsync HF. revert Hsync.
  unfold list_remove, LruSpec.remove.
  induction HF as [|e' p es' l' Hep HF IH]; intros Hsync; [constructor|].
  assert (Hs := Hsync e' p (list_elem_of_here _ _) Hep).
  rewrite !filter_cons.
  assert (Hrec := IH (fun x q Hx => Hsync x q (list_elem_of_further _ _ _ Hx))).
  repeat case_decide; simpl in *; first [by constructor | exfalso; tauto | done].
Qed.

Lemma list_remove_elem e e' l : e' ∈ list_remove e l <-> e' <> e /\ e' ∈ l.
Proof. unfold list_remove. by rewrite list_elem_of_filter. Qed.

Lemma NoDup_list_remove e l : NoDup l -> NoDup (list_remove e l).
Proof. apply NoDup_filter. Qed.

Lemma list_remove_perm e l : NoDup l -> e ∈ l -> e :: list_remove e l ≡ₚ l.
Proof.
  intros Hl He. symmetry. apply NoDup_Permutation; [done| |].
  - apply NoDup_cons. split; [rewrite list_remove_elem; naive_solver|].
    by apply NoDup_list_remove.
  - intros x. rewrite elem_of_cons, list_remove_elem.
    destruct (decide (x = e)); naive_solver.
Qed.

(** A cache whose elements are [e :: rest] after touching the element of [k],
    with [v] stored in it. *)
Lemma repr_touch c l k e v :
  repr c l -> cache c !! k = Some e ->
  repr {| capacity := capacity c; cache := cache c;
          elems := move_to_front e (elems c);
          entries := <[e := Entry k v]> (entries c); fresh := fresh c |}
       ((k, v) :: LruSpec.remove k l).
Proof.
  intros R Hk. destruct (repr_lookup _ _ _ _ R Hk) as (v0 & Hen & _ & He).
  pose proof (list_remove_perm e _ (repr_elems _ _ R) He) as Hp.
  unfold move_to_front. rewrite decide_True by done.
  constructor; simpl.
  - constructor; [by rewrite lookup_insert_eq|].
    eapply Forall2_impl; [|intros ?? Hx; exact Hx].
    pose proof (repr_remove _ _ _ _ R Hk) as HF.
    apply Forall2_same_length_lookup in HF as [Hlen HF].
    apply Forall2_same_length_lookup. split; [done|].
    intros i e' p Hi Hj. rewrite lookup_insert_ne; [by eapply HF|].
    apply list_elem_of_lookup_2 in Hi.
    apply list_remove_elem in Hi. naive_solver.
  - intros k' e'. rewrite Hp, (repr_index _ _ R).
    destruct (decide (e' = e)) as [->|]; [|by rewrite lookup_insert_ne].
    by rewrite lookup_insert_eq, Hen.
  - rewrite Hp. apply R.
  - apply NoDup_cons. split; [apply LruSpec.remove_keys|].
    apply LruSpec.remove_NoDup, R.
  - rewrite Hp. apply R.
  - unfold zlen. rewrite Hp. apply R.
  - apply R.
Qed.

Lemma repr_New cap c : New cap = Ok c -> repr c [].
Proof.
  unfold New. case_bool_decide; [done|]. intros [= <-].
  constructor; simpl; try constructor; try set_solver; try (rewrite zlen_nil; lia); lia.
Qed.

Lemma repr_Get k c l :
  repr c l ->
  (Get k c).1 = (LruSpec.get k l).1 /\ repr (Get k c).2 (LruSpec.get k l).2.
Proof.
  intros R. unfold Get, LruSpec.get.
  destruct (cache c !! k) as [e|] eqn:Hk.
  - destruct (repr_lookup _ _ _ _ R Hk) as (v & Hen & Hl & He).
    rewrite Hl, Hen. split; [done|]. simpl.
    pose proof (repr_touch c l k e v R Hk) as R'.
    by rewrite (insert_id (entries c) e) in R' by done.
  - by rewrite (repr_lookup_None _ _ _ R Hk).
Qed.

Lemma repr_length c l : repr c l -> length (elems c) = length l.
Proof. intros R. eapply Forall2_length, R. Qed.

Lemma list_remove_last e l : NoDup (l ++ [e]) -> list_remove e (l ++ [e]) = l.
Proof.
  intros (Hl & Hd & _)%NoDup_app. unfold list_remove.
  rewrite filter_app, filter_cons_False, app_nil_r by naive_solver.
  apply filter_all. intros x Hx ->. apply (Hd e Hx). left.
Qed.

Lemma repr_evict c l :
  repr c l ->
  repr (evict c) (LruSpec.evict (Z.to_nat (capacity c)) l) /\
  zlen (elems (evict c)) < capacity c /\ capacity (evict c) = capacity c.
Proof.
  intros R. pose proof (repr_length _ _ R) as Hlen.
  pose proof (repr_cap _ _ R) as Hcap. pose proof (repr_bound _ _ R) as Hb.
  unfold evict, LruSpec.evict. unfold zlen in *.
  case_bool_decide as Hfull; [|rewrite decide_False by lia; split_and!; [done|lia|done]].
  rewrite decide_True by lia.
  destruct (last (elems c)) as [old|] eqn:Hlast; [|apply last_None in Hlast; rewrite Hlast in *; simpl in *; lia].
  apply last_Some in Hlast as [es Hes].
  pose proof (repr_entries _ _ R) as HF. rewrite Hes in HF.
  apply Forall2_app_inv_l in HF as (l' & lx & HF & Hx & ->).
  apply Forall2_cons_inv_l in Hx as ([k0 v0] & lnil & Hen & Hnil & ->).
  apply Forall2_nil_inv_l in Hnil as ->. simpl in Hen.
  pose proof (repr_elems _ _ R) as Hnd. pose proof (repr_keys _ _ R) as Hkeys.
  pose proof (repr_fresh _ _ R) as Hfr. rewrite Hes in Hnd, Hfr.
  rewrite Hen, Hes, list_remove_last by done. rewrite length_app in *; simpl in *.
  replace (length l' + 1 - 1)%nat with (length l') by lia. rewrite take_app_length.
  rewrite fmap_app in Hkeys. apply NoDup_app in Hkeys as (Hk1 & Hk2 & _).
  apply Forall_app in Hfr as [Hfr _].
  assert (Hnotin : old ∉ es) by (apply NoDup_app in Hnd as (_ & Hd & _); intros Ho; by apply (Hd _ Ho); left).
  rewrite Hes, length_app in *; simpl in *.
  split_and!; [|lia|done].
  constructor; simpl; try done.
  - intros k e. rewrite lookup_delete. case_decide as Hk.
    + subst k0. split; [done|]. intros [He Hek].
      destruct (Forall2_elem_l _ _ _ _ HF He) as ([k' v'] & Hp & Hen').
      rewrite Hen' in Hek. simplify_eq/=. exfalso. apply (Hk2 k); [|left].
      apply list_elem_of_fmap. by exists (k, v').
    + rewrite (repr_index _ _ R), Hes, elem_of_app, list_elem_of_singleton.
      split; [|naive_solver]. intros [[He| ->] Hek]; [done|].
      rewrite Hen in Hek. by simplify_eq/=.
  - by apply NoDup_app in Hnd as [? _].
  - unfold zlen. lia.
Qed.

Lemma evict_fresh c k : fresh (evict c) = fresh c /\ (cache c !! k = None -> cache (evict c) !! k = None).
Proof.
  unfold evict. case_bool_decide; [|done]. destruct (last _); [|done]. simpl.
  split; [done|]. intros Hk. destruct (entries c !! n); [|done].
  rewrite lookup_delete. by case_decide.
Qed.

(** [PushFront] of an entry for a key that is not in the cache. *)
Lemma repr_push k v c l :
  repr c l -> cache c !! k = None -> zlen (elems c) < capacity c ->
  repr {| capacity := capacity c; cache := <[k := fresh c]> (cache c);
          elems := fresh c :: elems c;
          entries := <[fresh c := Entry k v]> (entries c);
          fresh := S (fresh c) |}
       ((k, v) :: l).
Proof.
  intros R Hno Hlt.
  pose proof (repr_fresh _ _ R) as HF. rewrite Forall_forall in HF.
  assert (Hnew : fresh c ∉ elems c) by (intros Hin%HF; lia).
  constructor; simpl.
  - constructor; [by rewrite lookup_insert_eq|].
    pose proof (repr_entries _ _ R) as HE.
    apply Forall2_same_length_lookup in HE as [Hlen HE].
    apply Forall2_same_length_lookup. split; [done|].
    intros i e p Hi Hj. rewrite lookup_insert_ne; [by eapply HE|].
    apply list_elem_of_lookup_2 in Hi. naive_solver.
  - intros k' e. rewrite lookup_insert, elem_of_cons. case_decide as Hkk.
    + subst k'. split; [intros [= <-]; rewrite lookup_insert_eq; auto|].
      intros [[->|He] Hek]; [done|]. exfalso.
      rewrite lookup_insert_ne in Hek by naive_solver.
      assert (cache c !! k = Some e) by by apply (repr_index _ _ R). congruence.
    + rewrite (repr_index _ _ R). split.
      * intros [He Hek]. split; [by right|]. by rewrite lookup_insert_ne by naive_solver.
      * intros [[->|He] Hek]; [rewrite lookup_insert_eq in Hek; by simplify_eq/=|].
        rewrite lookup_insert_ne in Hek by naive_solver. done.
  - apply NoDup_cons. split; [done|apply R].
  - apply NoDup_cons. split; [|apply R].
    apply LruSpec.lookup_None. by eapply repr_lookup_None.
  - constructor; [lia|]. apply Forall_forall. intros x Hx%HF. lia.
  - rewrite zlen_cons. lia.
  - apply R.
Qed.

Lemma repr_Put k v c l :
  repr c l -> repr (Put k v c) (LruSpec.put (Z.to_nat (capacity c)) k v l).
Proof.
  intros R. unfold Put, LruSpec.put.
  destruct (cache c !! k) as [e|] eqn:Hk.
  - destruct (repr_lookup _ _ _ _ R Hk) as (v0 & Hen & Hl & He). rewrite Hl.
    by apply repr_touch.
  - rewrite (repr_lookup_None _ _ _ R Hk).
    destruct (repr_evict _ _ R) as (R' & Hlt & Hcap).
    destruct (evict_fresh c k) as [_ Hno].
    apply repr_push; [done|auto|lia].
Qed.

Lemma repr_Del k c l : repr c l -> repr (Del k c) (LruSpec.remove k l).
Proof.
  intros R. unfold Del. destruct (cache c !! k) as [e|] eqn:Hk.
  - pose proof (repr_remove _ _ _ _ R Hk) as HF.
    constructor; simpl; [done| | | | | |apply R].
    + intros k' e'. rewrite lookup_delete. case_decide as Hkk.
      * subst k'. split; [done|]. intros [[Hne He]%list_remove_elem Hek].
        assert (cache c !! k = Some e') by by apply (repr_index _ _ R). congruence.
      * rewrite (repr_index _ _ R), list_remove_elem. split; [|naive_solver].
        intros [He Hek]. split_and!; [|done|done]. intros ->.
        apply (repr_index _ _ R) in Hk as [_ Hk]. congruence.
    + apply NoDup_list_remove, R.
    + apply LruSpec.remove_NoDup, R.
    + apply Forall_forall. intros x [_ Hx]%list_remove_elem.
      pose proof (repr_fresh _ _ R) as Hf. rewrite Forall_forall in Hf. auto.
    + pose proof (repr_bound _ _ R) as Hb. unfold zlen in *.
      pose proof (length_filter (fun e' => e' <> e) (elems c)). unfold list_remove. lia.
  - pose proof (repr_lookup_None _ _ _ R Hk) as Hn.
    apply LruSpec.lookup_None in Hn. unfold LruSpec.remove.
    rewrite filter_all; [done|]. intros p Hp <-. apply Hn. apply list_elem_of_fmap. by exists p.
Qed.

Lemma repr_Clear c l : repr c l -> repr (Clear c) [].
Proof.
  intros R. pose proof (repr_cap _ _ R).
  constructor; simpl; try constructor; try set_solver; try (rewrite zlen_nil; lia); lia.
Qed.

(** [Dump] is the recency list as a map. *)
Lemma repr_Dump c l k : repr c l -> Dump c !! k = LruSpec.lookup k l.
Proof.
  intros R. unfold Dump. rewrite lookup_omap.
  destruct (cache c !! k) as [e|] eqn:Hk; simpl.
  - destruct (repr_lookup _ _ _ _ R Hk) as (v & -> & -> & _). done.
  - by rewrite (repr_lookup_None _ _ _ R Hk).
Qed.

(** ** Runs of operations *)

Inductive op := OpGet (k : K) | OpPut (k : K) (v : V) | OpDel (k : K) | OpClear.

Definition exec (o : op) (c : Cache) : option V * Cache :=
  match o with
  | OpGet k => Get k c
  | OpPut k v => (None, Put k v c)
  | OpDel k => (None, Del k c)
  | OpClear => (None, Clear c)
  end.

Definition spec_exec (cap : nat) (o : op) (l : list (K * V)) : option V * list (K * V) :=
  match o with
  | OpGet k => LruSpec.get k l
  | OpPut k v => (None, LruSpec.put cap k v l)
  | OpDel k => (None, LruSpec.remove k l)
  | OpClear => (None, [])
  end.

Fixpoint run {S} (step : op -> S -> option V * S) (ops : list op) (s : S)
    : list (option V) * S :=
  match ops with
  | [] => ([], s)
  | o :: ops' =>
      let '(r, s1) := step o s in
      let '(rs, s2) := run step ops' s1 in (r :: rs, s2)
  end.

Lemma exec_capacity o c : capacity (exec o c).2 = capacity c.
Proof.
  destruct o; simpl; [unfold Get; by case_match| |unfold Del; by case_match|done].
  unfold Put, evict. case_match; [done|]. simpl.
  case_bool_decide; [|done]. by destruct (last _).
Qed.

Lemma exec_refines o c l :
  repr c l ->
  (exec o c).1 = (spec_exec (Z.to_nat (capacity c)) o l).1 /\
  repr (exec o c).2 (spec_exec (Z.to_nat (capacity c)) o l).2.
Proof.
  intros R. destruct o; simpl;
    [by apply repr_Get|split; [done|by apply repr_Put]
    |split; [done|by apply repr_Del]|split; [done|by eapply repr_Clear]].
Qed.

Lemma run_simulates ops c l :
  repr c l ->
  (run exec ops c).1 = (run (spec_exec (Z.to_nat (capacity c))) ops l).1 /\
  repr (run exec ops c).2 (run (spec_exec (Z.to_nat (capacity c))) ops l).2.
Proof.
  revert c l. induction ops as [|o ops IH]; intros c l R; simpl; [done|].
  destruct (exec_refines o c l R) as [Hr R'].
  pose proof (exec_capacity o c) as Hcap.
  destruct (exec o c) as [r c1], (spec_exec _ o l) as [r' l1]; simpl in *; subst r'.
  specialize (IH c1 l1 R'). rewrite Hcap in IH.
  destruct (run exec ops c1), (run _ ops l1). simpl in *. naive_solver.
Qed.

Lemma repr_size c l : repr c l -> size (cache c) = length l.
Proof.
  intros R. rewrite <- (length_fmap fst l), <- size_dom.
  rewrite <- (size_list_to_set (C := gset K) l.*1) by apply R.
  f_equal. apply set_eq. intros k. rewrite elem_of_list_to_set, elem_of_dom.
  destruct (cache c !! k) as [e|] eqn:Hk.
  - destruct (repr_lookup _ _ _ _ R Hk) as (v & _ & Hl & _).
    split; [intros _|by intros _; eexists].
    destruct (decide (k ∈ l.*1)) as [|Hn]; [done|].
    apply LruSpec.lookup_None in Hn. congruence.
  - pose proof (repr_lookup_None _ _ _ R Hk) as Hl%LruSpec.lookup_None.
    split; [by intros [? ?]|done].
Qed.

(** C37. Refinement: every sequence of [Get]/[Put]/[Del]/[Clear] on a cache
    made by [New cap] answers exactly like the abstract recency list bounded
    by [cap], the final cache represents the final list, and neither the map
    nor the list ever holds more than [cap] entries. *)
Theorem run_refines cap c ops :
  New cap = Ok c ->
  let '(answers, c') := run exec ops c in
  let '(answers', l') := run (spec_exec (Z.to_nat cap)) ops [] in
  answers = answers' /\ repr c' l' /\
  Z.of_nat (size (cache c')) = zlen (elems c') /\ zlen (elems c') <= cap.
Proof.
  intros HN. pose proof (repr_New _ _ HN) as R.
  assert (Hcap : capacity c = cap) by (unfold New in HN; case_bool_decide; by simplify_eq/=).
  pose proof (run_simulates ops c [] R) as [Hr R']. rewrite Hcap in *.
  assert (Hc' : capacity (run exec ops c).2 = cap).
  { rewrite <- Hcap. clear. revert c. induction ops as [|o ops IH]; intros c; [done|].
    simpl. pose proof (exec_capacity o c). destruct (exec o c). simpl in *.
    specialize (IH c0). destruct (run exec ops c0). simpl in *. congruence. }
  destruct (run exec ops c) as [a c'], (run _ ops []) as [a' l']. simpl in *.
  pose proof (repr_bound _ _ R'). rewrite (repr_size _ _ R'). unfold zlen in *.
  rewrite (repr_length _ _ R') in *. split_and!; [done..|lia].
Qed.

Lemma spec_take_lookup (l : list (K * V)) k0 v0 k :
  NoDup (l ++ [(k0, v0)]).*1 ->
  LruSpec.lookup k l = if decide (k = k0) then None else LruSpec.lookup k (l ++ [(k0, v0)]).
Proof.
  intros Hnd. case_decide as Hk.
  - subst k0. apply LruSpec.lookup_None. rewrite fmap_app in Hnd.
    apply NoDup_app in Hnd as (_ & Hd & _). intros Hin. apply (Hd k Hin). left.
  - clear Hnd. induction l as [|[k' v'] l IH]; simpl; [by rewrite decide_False|].
    by case_decide.
Qed.

(** Eviction: putting a new key into a full cache drops exactly the least
    recently used entry; every other entry and the new one can be looked up
    afterwards with the values they had. *)
Theorem put_evicts_oldest c l k0 v0 k v :
  repr c (l ++ [(k0, v0)]) -> zlen (elems c) = capacity c -> Dump c !! k = None ->
  forall k', (Get k' (Put k v c)).1 =
    if decide (k' = k) then Some v
    else if decide (k' = k0) then None else (Get k' c).1.
Proof.
  intros R Hfull Hk k'.
  rewrite (repr_Dump _ _ _ R) in Hk.
  pose proof (repr_Put k v c _ R) as R'.
  unfold LruSpec.put, LruSpec.evict in R'. rewrite Hk in R'.
  pose proof (repr_length _ _ R) as Hlen. pose proof (repr_cap _ _ R).
  rewrite decide_True in R' by (unfold zlen in *; lia).
  rewrite length_app, Nat.add_sub, take_app_length in R'.
  rewrite (proj1 (repr_Get k' _ _ R')), (proj1 (repr_Get k' _ _ R)).
  unfold LruSpec.get. simpl.
  rewrite (decide_ext (k = k') (k' = k)) by naive_solver.
  case_decide as Hkk; [done|].
  rewrite (spec_take_lookup _ _ v0) by apply R.
  case_decide; [done|]. by destruct (LruSpec.lookup k' _).
Qed.

(** [Find], for every iteration order of the map: it answers with an entry
    of the cache that satisfies the filter, answers nothing only when no entry
    does, and leaves the set of entries as it was. *)
Theorem Find_correct c l order f :
  repr c l -> order ≡ₚ l.*1 ->
  match Find order f c with
  | (Some (k, v), c') => Dump c !! k = Some v /\ f k v = true /\
      repr c' ((k, v) :: LruSpec.remove k l) /\ Dump c' = Dump c
  | (None, c') => c' = c /\ forall k v, Dump c !! k = Some v -> f k v = false
  end.
Proof.
  intros R Hperm. unfold Find.
  assert (Hall : forall k v, Dump c !! k = Some v -> k ∉ order -> f k v = false).
  { intros k v Hd Hn. rewrite Hperm in Hn.
    rewrite (repr_Dump _ _ _ R) in Hd. by apply LruSpec.lookup_None in Hn; congruence. }
  clear Hperm. induction order as [|k order IH]; simpl; [split; [done|set_solver]|].
  assert (Hd := repr_Dump c l k R). unfold Dump in Hd. rewrite lookup_omap in Hd.
  destruct (cache c !! k) as [e|] eqn:Hk; simpl in Hd.
  - destruct (repr_lookup _ _ _ _ R Hk) as (v & Hen & Hl & He). rewrite Hen.
    rewrite <- (repr_Dump _ _ _ R) in Hl. simpl.
    destruct (f k v) eqn:Hf.
    + pose proof (repr_touch c l k e v R Hk) as R'.
      rewrite (insert_id (entries c) e) in R' by done. done.
    + apply IH. intros k' v' Hd' Hn.
      destruct (decide (k' = k)) as [->|]; [congruence|].
      apply Hall; [done|]. by apply not_elem_of_cons.
  - apply IH. intros k' v' Hd' Hn.
    destruct (decide (k' = k)) as [->|].
    + rewrite (repr_Dump _ _ _ R) in Hd'.
      rewrite (repr_lookup_None _ _ _ R Hk) in Hd'. done.
    + apply Hall; [done|]. by apply not_elem_of_cons.
Qed.

End Cache.
Arguments Cache K V {_ _}.
Arguments op K V : clear implicits.
End LruCache.

(** ** The interface the clients use

    [cview c k] is the value cached for [k].  A lookup never changes the
    contents; an insertion binds its key and may only drop other keys. *)

Class CacheLaws (C K V : Type) := {
  cget : K -> C -> option V * C;
  cput : K -> V -> C -> C;
  cview : C -> K -> option V;
  cok : C -> Prop;
  cget_view k c : cok c -> (cget k c).1 = cview c k;
  cget_ok k c : cok c -> cok (cget k c).2;
  cget_keeps k c k' : cok c -> cview (cget k c).2 k' = cview c k';
  cput_ok k v c : cok c -> cok (cput k v c);
  cput_view k v c : cok c -> cview (cput k v c) k = Some v;
  cput_other k v c k' w :
    cok c -> k' <> k -> cview (cput k v c) k' = Some w -> cview c k' = Some w
}.

(** A cache that can be emptied. *)
Class ClearLaws (C K V : Type) `{!CacheLaws C K V} := {
  cclear : C -> C;
  cclear_ok c : cok c -> cok (cclear c);
  cclear_view c k : cok c -> cview (cclear c) k = None
}.

Section Instance_.
Context {K V : Type} `{Countable K}.
Import LruCache.

Lemma lookup_remove_ne (k k' : K) (l : list (K * V)) :
  k' <> k -> LruSpec.lookup k' (LruSpec.remove k l) = LruSpec.lookup k' l.
Proof.
  intros Hne. unfold LruSpec.remove. induction l as [|[k1 v1] l IH]; [done|].
  rewrite filter_cons. repeat case_decide; simpl in *; repeat case_decide; naive_solver.
Qed.

Lemma lookup_take (k : K) (v : V) n l :
  LruSpec.lookup k (take n l) = Some v -> LruSpec.lookup k l = Some v.
Proof.
  revert n. induction l as [|[k1 v1] l IH]; intros [|n]; simpl; try done.
  case_decide; [done|]. apply IH.
Qed.

#[export] Program Instance lru_laws : CacheLaws (Cache K V) K V := {|
  cget := Get;
  cput := Put;
  cview c k := Dump c !! k;
  cok c := exists l, repr c l
|}.
Next Obligation.
  intros k c [l R]. rewrite (proj1 (repr_Get k c l R)), (repr_Dump _ _ _ R).
  unfold LruSpec.get. by destruct (LruSpec.lookup k l).
Qed.
Next Obligation. intros k c [l R]. eexists. by apply repr_Get. Qed.
Next Obligation. intros k c k' [l R]. unfold Dump, Get. by case_match. Qed.
Next Obligation. intros k v c [l R]. eexists. by apply repr_Put. Qed.
Next Obligation.
  intros k v c [l R]. simpl. rewrite (repr_Dump _ _ _ (repr_Put k v c l R)).
  unfold LruSpec.put. case_match; simpl; by rewrite decide_True.
Qed.
Next Obligation.
  intros k v c k' w [l R] Hne. simpl.
  rewrite (repr_Dump _ _ _ (repr_Put k v c l R)), (repr_Dump _ _ _ R).
  unfold LruSpec.put, LruSpec.evict. case_match; simpl; rewrite decide_False by done.
  - by rewrite lookup_remove_ne.
  - case_decide; [apply lookup_take|done].
Qed.

#[export] Program Instance lru_clear : ClearLaws (Cache K V) K V := {| cclear := Clear |}.
Next Obligation. intros c [l R]. exists []. by eapply repr_Clear. Qed.
Next Obligation. intros c k [l R]. simpl. by rewrite (repr_Dump _ _ _ (repr_Clear c l R)). Qed.
End Instance_.

(** ** Concrete runs *)

Module Examples.
Import LruCache.

Definition ex_ops : list (@op Z Z) :=
  [OpPut 1 10; OpPut 2 20; OpGet 1; OpPut 3 30; OpGet 2; OpGet 1].

Lemma run_refines_witness :
  exists c, @New Z Z _ _ 2 = Ok c /\
  let '(answers, c') := run exec ex_ops c in
  let '(answers', l') := run (spec_exec (Z.to_nat 2)) ex_ops [] in
  answers = answers' /\ repr c' l' /\
  Z.of_nat (size (cache c')) = zlen (elems c') /\ zlen (elems c') <= 2.
Proof.
  destruct (@New Z Z _ _ 2) as [c| |] eqn:HN; [|by destruct e|done].
  exists c. split; [reflexivity|]. exact (run_refines 2 c ex_ops HN).
Defined.

Lemma ex_run :
  ((fun c => (run exec ex_ops c).1) <$> res_to_option (@New Z Z _ _ 2)) =
  Some [None; None; Some 10; None; None; Some 10].
Proof. vm_compute. reflexivity. Qed.

Lemma put_evicts_oldest_witness :
  exists c, (Get 1 (Put 2 20 c)).1 = None /\ (Get 1 c).1 = Some 10.
Proof.
  destruct (@New Z Z _ _ 1) as [c0| |] eqn:HN; [|by destruct e|done].
  exists (Put 1 10 c0).
  pose proof (repr_Put 1 10 c0 [] (repr_New _ _ HN)) as R.
  injection HN as <-.
  split; [|reflexivity].
  pose proof (put_evicts_oldest _ [] 1 10 2 20 R eq_refl eq_refl 1) as Hget.
  exact Hget.
Defined.

Lemma Find_correct_witness :
  exists c l, Dump c = {[1 := 10; 2 := 20]} /\
  match Find [2; 1] (fun k _ => bool_decide (k = 1)) c with
  | (Some (k, v), c') => Dump c !! k = Some v /\ bool_decide (k = 1) = true /\
      repr c' ((k, v) :: LruSpec.remove k l) /\ Dump c' = Dump c
  | (None, c') => c' = c /\ forall k v, Dump c !! k = Some v -> bool_decide (k = 1) = false
  end.
Proof.
  destruct (@New Z Z _ _ 4) as [c0| |] eqn:HN; [|by destruct e|done].
  exists (Put 2 20 (Put 1 10 c0)). eexists.
  pose proof (repr_Put 2 20 _ _ (repr_Put 1 10 c0 [] (repr_New _ _ HN))) as R.
  injection HN as <-. split; [reflexivity|].
  exact (Find_correct _ _ [2; 1] (fun k _ => bool_decide (k = 1)) R (Permutation_refl _)).
Defined.
End Examples.
