(* ===== verification/CacheTTL.v ===== *)
(** * Values cached for a time ([cache/cache.go])

    A [CacheValue] is a cell with the time of its last update; the default cache
    pool is an LRU cache of pointers to such cells, so the pool is an arena of
    cells and a cache of indices into it.  The pool is used through
    [CacheLaws], which [Lru.v] proves of the LRU cache.  Times are nanoseconds;
    a call is given the time it reads first and the time it stores. *)

From S2P Require Import Prelude Lru.

Section CacheValue_.
Context {T : Type}.

Record CacheValue := MkCacheValue { updateTime : option Z; value : option T }.

Definition second : Z := 1000000000.
Definition maxDuration : Z := 9223372036854775807.

(** [time.Since] saturates, and the zero time is centuries away. *)
Definition since (now : Z) (t : option Z) : Z :=
  match t with None => maxDuration | Some t => Z.min maxDuration (now - t) end.

(** [cmp.Or(ttl, time.Second)] *)
Definition ttl_or_default (ttl : Z) : Z := if bool_decide (ttl = 0) then second else ttl.

Definition expired (now ttl : Z) (v : CacheValue) : bool :=
  bool_decide (since now (updateTime v) > ttl_or_default ttl).

(** [LoadTTL] of a cell.  Loading a value that was never stored is a failed type
    assertion. *)
Definition value_LoadTTL {E} (now now' ttl : Z) (newValue : T) (v : CacheValue) :
    res E T * CacheValue :=
  let v := if expired now ttl v then MkCacheValue (Some now') (Some newValue) else v in
  (match value v with Some x => Ok x | None => Panic end, v).

Definition value_Load {E} (now now' : Z) (newValue : T) (v : CacheValue) : res E T * CacheValue :=
  value_LoadTTL now now' 0 newValue v.

Definition empty_value : CacheValue := MkCacheValue None None.

(** ** The default cache pool *)

Context {C : Type} `{CacheLaws C bytes nat}.

Record pool := Pool { cells : list CacheValue; defaultCache : C }.

(** The lookup of [LoadTTL]: the cell of the key, a new one when there is none.
    Both lookups of the source happen when the first one fails. *)
Definition find_cell (key : bytes) (p : pool) : nat * pool :=
  match cget key (defaultCache p) with
  | (Some r, c) => (r, Pool (cells p) c)
  | (None, c) =>
      match cget key c with
      | (Some r, c) => (r, Pool (cells p) c)
      | (None, c) =>
          let r := length (cells p) in
          (r, Pool (cells p ++ [empty_value]) (cput key r c))
      end
  end.

Definition LoadTTL {E} (now now' ttl : Z) (key : bytes) (newValue : bytes -> T) (p : pool) :
    res E T * pool :=
  let '(r, p) := find_cell key p in
  match cells p !! r with
  | Some v =>
      let '(x, v) := value_LoadTTL now now' ttl (newValue key) v in
      (x, Pool (<[r := v]> (cells p)) (defaultCache p))
  | None => (Panic, p)
  end.

Definition Load {E} (now now' : Z) (key : bytes) (newValue : bytes -> T) (p : pool) :
    res E T * pool := LoadTTL now now' 0 key newValue p.

(** ** Lemmas *)

(** What is cached for a key. *)
Definition cell (p : pool) (key : bytes) : option CacheValue :=
  r ← cview (defaultCache p) key; cells p !! r.

Definition cell_ok (v : CacheValue) : Prop := is_Some (updateTime v) <-> is_Some (value v).

(** Every key has its own cell, and stored times come with stored values. *)
Record wf (p : pool) : Prop := {
  wf_cache : cok (defaultCache p);
  wf_cells : Forall cell_ok (cells p);
  wf_refs : forall k r, cview (defaultCache p) k = Some r -> is_Some (cells p !! r);
  wf_own : forall k k' r, cview (defaultCache p) k = Some r -> cview (defaultCache p) k' = Some r -> k = k'
}.

Lemma find_cell_spec key p :
  wf p ->
  let '(r, p') := find_cell key p in
  wf p' /\ cview (defaultCache p') key = Some r /\
  cells p' !! r = Some (default empty_value (cell p key)) /\
  (forall k v, k <> key -> cell p' k = Some v -> cell p k = Some v).
Proof.
  intros [Hc Hf Hr Ho]. unfold find_cell, cell.
  pose proof (cget_view key _ Hc) as Hv. pose proof (cget_ok key _ Hc) as Hok.
  pose proof (fun k' => cget_keeps key _ k' Hc) as Hkeep.
  destruct (cget key (defaultCache p)) as [[r|] c]; simpl in *.
  - rewrite <- Hv. simpl. destruct (Hr key r (eq_sym Hv)) as [v Hcell].
    rewrite Hcell. split_and!; [|by rewrite Hkeep|done|].
    + split; simpl; [done|done|..]; intros *; rewrite ?Hkeep; eauto.
    + intros k w _. by rewrite Hkeep.
  - pose proof (cget_view key _ Hok) as Hv2. pose proof (cget_ok key _ Hok) as Hok2.
    pose proof (fun k' => cget_keeps key _ k' Hok) as Hkeep2. rewrite Hkeep, <- Hv in Hv2.
    destruct (cget key c) as [o c2]; simpl in *. subst o. rewrite <- Hv. simpl.
    set (r := length (cells p)). set (c3 := cput key r c2).
    assert (Hview : forall k, cview c2 k = cview (defaultCache p) k) by (intros; by rewrite Hkeep2, Hkeep).
    assert (Hnew : cview c3 key = Some r) by by apply cput_view.
    assert (Hold : forall k w, k <> key -> cview c3 k = Some w -> cview (defaultCache p) k = Some w).
    { intros k w Hne Hw. rewrite <- Hview. by eapply cput_other. }
    assert (Hlt : forall k w, cview (defaultCache p) k = Some w -> (w < r)%nat).
    { intros k w Hw. by apply lookup_lt_is_Some, (Hr k). }
    split_and!; [|done|by apply list_lookup_middle|].
    + split; simpl.
      * by apply cput_ok.
      * apply Forall_app. split; [done|]. apply Forall_singleton. unfold cell_ok. simpl.
        split; intros [? ?]; done.
      * intros k w Hw. apply lookup_lt_is_Some. rewrite length_app. simpl.
        destruct (decide (k = key)) as [->|Hne]; [rewrite Hnew in Hw; injection Hw as <-; unfold r; lia|].
        specialize (Hlt k w (Hold k w Hne Hw)). unfold r in Hlt. lia.
      * intros k k' w Hw Hw'. destruct (decide (k = key)) as [->|Hne], (decide (k' = key)) as [->|Hne']; [done|..].
        -- rewrite Hnew in Hw. injection Hw as <-. specialize (Hlt k' r (Hold k' r Hne' Hw')). lia.
        -- rewrite Hnew in Hw'. injection Hw' as <-. specialize (Hlt k r (Hold k r Hne Hw)). lia.
        -- eauto.
    + intros k v Hne. destruct (cview c3 k) as [w|] eqn:Hw; [|done]. simpl.
      rewrite (Hold k w Hne Hw). simpl. intros Hcell.
      rewrite lookup_app_l in Hcell; [done|]. by eapply Hlt, Hold.
Qed.

(** ** Properties *)

(** The pool answers a key with a value computed for that key, not older than
    the time to live: it returns the stored value exactly when it was stored at
    most that long ago, and otherwise computes, stores and returns a new one; it
    never fails, and whatever another key has cached is what it had before. *)
Theorem LoadTTL_fresh now now' ttl key newValue p :
  wf p -> now - now' <= maxDuration -> ttl < maxDuration ->
  let old := cell p key in
  let stored := old ≫= value in
  let age := since now (old ≫= updateTime) in
  let '(r, p') := @LoadTTL Empty_set now now' ttl key newValue p in
  wf p' /\
  (age <= ttl_or_default ttl ->
     exists v, stored = Some v /\ r = Ok v /\ cell p' key = old) /\
  (age > ttl_or_default ttl ->
     r = Ok (newValue key) /\ cell p' key = Some (MkCacheValue (Some now') (Some (newValue key)))) /\
  (forall k v, k <> key -> cell p' k = Some v -> cell p k = Some v).
Proof.
  intros Hwf Hnow Httl old stored age. unfold LoadTTL.
  pose proof (find_cell_spec key p Hwf) as Hfind.
  destruct (find_cell key p) as [r p1]. destruct Hfind as (Hwf1 & Hview & Hcell & Hother).
  rewrite Hcell. unfold value_LoadTTL, expired. fold old in Hcell. set (v0 := default empty_value (cell p key)) in *.
  assert (Hage : since now (updateTime v0) = age) by (unfold v0, age, old; by destruct (cell p key)).
  rewrite Hage. set (v1 := if bool_decide (age > ttl_or_default ttl) then _ else v0).
  assert (Hlt : (r < length (cells p1))%nat) by by eapply lookup_lt_Some.
  assert (Hok0 : cell_ok v0).
  { pose proof (wf_cells _ Hwf1) as Hall. rewrite Forall_forall in Hall.
    apply Hall. by eapply list_elem_of_lookup_2. }
  assert (Hok1 : cell_ok v1).
  { unfold v1. case_bool_decide; [|done]. unfold cell_ok. simpl. split; by eexists. }
  assert (Hkey : cell (Pool (<[r:=v1]> (cells p1)) (defaultCache p1)) key = Some v1).
  { unfold cell. simpl. rewrite Hview. simpl. by apply list_lookup_insert_eq. }
  split; [|split; [|split]].
  - destruct Hwf1 as [W1 W2 W3 W4]. split; simpl; [done| | |done].
    + by apply Forall_insert.
    + intros k w Hw. destruct (W3 k w Hw) as [c Hc]. destruct (decide (w = r)) as [->|].
      * rewrite list_lookup_insert_eq by done. by eexists.
      * rewrite list_lookup_insert_ne by done. by eexists.
  - intros Hle. unfold v1 in *. rewrite bool_decide_false in * by lia.
    assert (Hsome : exists v, old = Some v /\ is_Some (updateTime v)).
    { unfold age in Hle. destruct old as [v|]; simpl in *.
      - exists v. split; [done|]. destruct (updateTime v); [by eexists|].
        simpl in Hle. unfold ttl_or_default, second, maxDuration in *. case_bool_decide; lia.
      - unfold ttl_or_default, second, maxDuration in *. case_bool_decide; lia. }
    destruct Hsome as (v & Hold & Hup). unfold stored. rewrite Hold. simpl.
    assert (v0 = v) as Hv by (unfold v0; fold old; by rewrite Hold).
    rewrite Hv in *. destruct (proj1 Hok0 Hup) as [x Hx]. exists x. rewrite Hx, Hkey. done.
  - intros Hgt. unfold v1 in *. rewrite bool_decide_true in * by lia. done.
  - intros k v Hne. unfold cell. simpl. destruct (cview (defaultCache p1) k) as [w|] eqn:Hw; [|done]. simpl.
    rewrite list_lookup_insert_ne by (intros <-; apply Hne; by apply (wf_own _ Hwf1 k key r)).
    intros Hv. apply Hother; [done|]. unfold cell. by rewrite Hw.
Qed.

End CacheValue_.
Arguments CacheValue : clear implicits.
Arguments pool : clear implicits.

(** ** Witnesses *)

Module Examples.

(** The pool of the program: an LRU cache of 2048 entries. *)
Definition init_pool (T : Type) : res Empty_set (pool T (LruCache.Cache bytes nat)) :=
  c ← LruCache.New 2048; Ok (Pool [] c).

Lemma init_wf T p : init_pool T = Ok p -> wf p.
Proof.
  unfold init_pool. destruct (LruCache.New 2048) as [c| |] eqn:HN; [|done|done]. intros [= <-].
  pose proof (LruCache.repr_New _ _ HN) as R.
  assert (Hview : forall k, cview c k = None) by (intros k; simpl; by rewrite (LruCache.repr_Dump _ _ _ R)).
  split; cbn [defaultCache cells].
  - by exists [].
  - constructor.
  - intros k r. by rewrite Hview.
  - intros k k' r. by rewrite Hview.
Qed.

Lemma LoadTTL_fresh_witness :
  exists p : pool Z (LruCache.Cache bytes nat), wf p /\
  let '(r, p') := @LoadTTL Z _ _ Empty_set 10 11 1000 (bs "a") (fun _ => 7) p in
  wf p' /\
  (since 10 (cell p (bs "a") ≫= updateTime) <= ttl_or_default 1000 ->
     exists v, cell p (bs "a") ≫= value = Some v /\ r = Ok v /\ cell p' (bs "a") = cell p (bs "a")) /\
  (since 10 (cell p (bs "a") ≫= updateTime) > ttl_or_default 1000 ->
     r = Ok 7 /\ cell p' (bs "a") = Some (MkCacheValue (Some 11) (Some 7))) /\
  (forall k v, k <> bs "a" -> cell p' k = Some v -> cell p k = Some v).
Proof.
  destruct (init_pool Z) as [p| |] eqn:HN; [|by destruct e|done].
  exists p. pose proof (init_wf _ _ HN) as Hwf. split; [exact Hwf|].
  exact (LoadTTL_fresh 10 11 1000 (bs "a") (fun _ => 7) p Hwf ltac:(unfold maxDuration; lia) ltac:(unfold maxDuration; lia)).
Defined.
End Examples.
