(* ===== verification/Rdt.v ===== *)
(** * The reliable data transfer protocol ([rdt/rdt.go], [rdt/config.go],
    [rdt/stats.go])

    [Module Frame] is the frame codec, [Module Conn] an [rdtConn] with every
    operation that changes it, [Module Listener] the demultiplexing listener.
    The protocol between two connections over a network that loses, reorders
    and duplicates is in [RdtProtocol.v].

    Logging is left out.  [wire] records the frames handed to
    [PacketConn.WriteTo], oldest first.  The unbuffered channel [sendEvent] is
    the pair of [parked] (the NCK loop is blocked sending on it) and
    [sendEventClosed]. *)

From S2P Require Import Prelude.

(** States of a connection (rdt.go:18-23). *)
Definition Established : Z := 0.
Definition FIN_WAIT1 : Z := 2.
Definition FIN_WAIT2 : Z := 3.
Definition CLOSED : Z := 5.

Record nck := Nck { nck_no : Z; missing : list Z }.

(** Endless loops of the source show as this error of the model. *)
Inductive loop_error := Diverges.

(** ** Configuration *)

Record Config := MkConfig { MTU : Z; Interval : Z; StatsServerListen : bytes }.
Definition Option_ : Type := Config -> Config.
Definition WithMTU (mtu : Z) : Option_ := fun cfg =>
  MkConfig mtu (Interval cfg) (StatsServerListen cfg).
Definition StateInterval (interval : Z) : Option_ := fun cfg =>
  MkConfig (MTU cfg) interval (StatsServerListen cfg).
Definition EnableStatsServer (addr : bytes) : Option_ := fun cfg =>
  MkConfig (MTU cfg) (Interval cfg) addr.

(** The configuration [Listen] uses: defaults (durations in nanoseconds), then
    the options in order. *)
Definition listen_config (opts : list Option_) : Config :=
  fold_left (fun cfg opt => opt cfg) opts (MkConfig 1428 100000000 []).

(** ** Frames *)

Definition buildFrame (cmd : byte) (no length : Z) (data : bytes) : bytes :=
  [cmd] ++ be32 no ++ be16 length ++ data.

(** [send] marks the frames of a server connection in place (rdt.go:253-255);
    [recvPacket] clears the mark (rdt.go:538). *)
Definition mark (server : bool) (pkt : bytes) : bytes :=
  if server then
    match pkt with
    | b :: rest => z2b (Z.lor (b2z b) 128) :: rest
    | [] => []
    end
  else pkt.

Definition unmark (b : byte) : byte := z2b (Z.shiftr (b2z (z2b (Z.shiftl (b2z b) 1))) 1).

(** ** Connections *)

Record conn := Conn {
  server : bool;
  window : Z;
  frameSize : Z;
  exit : chan unit;
  inbound : chan bytes;
  nckc : chan nck;
  nckQuery : chan Z;
  fin : chan Z;
  finack : chan Z;
  parked : bool;
  sendEventClosed : bool;
  inboundBuf : option bytes;
  recvNO : Z;
  sentNO : Z;
  ackNO : Z;
  recvPool : gmap Z bytes;
  sendPool : gmap Z bytes;
  rs : Z;
  state : Z;
  closeOnce : bool;
  wire : list bytes
}.

(** [newConn] (rdt.go:572-596). *)
Definition newConn (cfg : Config) : conn := {|
  server := false;
  window := u32 (Z.quot (MTU cfg - 7) 4);
  frameSize := MTU cfg - 7;
  exit := make_chan; inbound := make_chan; nckc := make_chan;
  nckQuery := make_chan; fin := make_chan; finack := make_chan;
  parked := false; sendEventClosed := false;
  inboundBuf := None;
  recvNO := 0; sentNO := 0; ackNO := 0;
  recvPool := ∅; sendPool := ∅;
  rs := 0; state := Established; closeOnce := false; wire := []
|}.

(** Field updates. *)
Definition set_server (x : bool) (c : conn) : conn :=
  Conn x (window c) (frameSize c) (exit c) (inbound c) (nckc c) (nckQuery c) (fin c)
  (finack c) (parked c) (sendEventClosed c) (inboundBuf c) (recvNO c) (sentNO c) (ackNO
  c) (recvPool c) (sendPool c) (rs c) (state c) (closeOnce c) (wire c).
Definition set_exit (x : chan unit) (c : conn) : conn :=
  Conn (server c) (window c) (frameSize c) x (inbound c) (nckc c) (nckQuery c) (fin c)
  (finack c) (parked c) (sendEventClosed c) (inboundBuf c) (recvNO c) (sentNO c) (ackNO
  c) (recvPool c) (sendPool c) (rs c) (state c) (closeOnce c) (wire c).
Definition set_inbound (x : chan bytes) (c : conn) : conn :=
  Conn (server c) (window c) (frameSize c) (exit c) x (nckc c) (nckQuery c) (fin c)
  (finack c) (parked c) (sendEventClosed c) (inboundBuf c) (recvNO c) (sentNO c) (ackNO
  c) (recvPool c) (sendPool c) (rs c) (state c) (closeOnce c) (wire c).
Definition set_nckc (x : chan nck) (c : conn) : conn :=
  Conn (server c) (window c) (frameSize c) (exit c) (inbound c) x (nckQuery c) (fin c)
  (finack c) (parked c) (sendEventClosed c) (inboundBuf c) (recvNO c) (sentNO c) (ackNO
  c) (recvPool c) (sendPool c) (rs c) (state c) (closeOnce c) (wire c).
Definition set_nckQuery (x : chan Z) (c : conn) : conn :=
  Conn (server c) (window c) (frameSize c) (exit c) (inbound c) (nckc c) x (fin c)
  (finack c) (parked c) (sendEventClosed c) (inboundBuf c) (recvNO c) (sentNO c) (ackNO
  c) (recvPool c) (sendPool c) (rs c) (state c) (closeOnce c) (wire c).
Definition set_fin (x : chan Z) (c : conn) : conn :=
  Conn (server c) (window c) (frameSize c) (exit c) (inbound c) (nckc c) (nckQuery c) x
  (finack c) (parked c) (sendEventClosed c) (inboundBuf c) (recvNO c) (sentNO c) (ackNO
  c) (recvPool c) (sendPool c) (rs c) (state c) (closeOnce c) (wire c).
Definition set_finack (x : chan Z) (c : conn) : conn :=
  Conn (server c) (window c) (frameSize c) (exit c) (inbound c) (nckc c) (nckQuery c)
  (fin c) x (parked c) (sendEventClosed c) (inboundBuf c) (recvNO c) (sentNO c) (ackNO
  c) (recvPool c) (sendPool c) (rs c) (state c) (closeOnce c) (wire c).
Definition set_parked (x : bool) (c : conn) : conn :=
  Conn (server c) (window c) (frameSize c) (exit c) (inbound c) (nckc c) (nckQuery c)
  (fin c) (finack c) x (sendEventClosed c) (inboundBuf c) (recvNO c) (sentNO c) (ackNO
  c) (recvPool c) (sendPool c) (rs c) (state c) (closeOnce c) (wire c).
Definition set_sendEventClosed (x : bool) (c : conn) : conn :=
  Conn (server c) (window c) (frameSize c) (exit c) (inbound c) (nckc c) (nckQuery c)
  (fin c) (finack c) (parked c) x (inboundBuf c) (recvNO c) (sentNO c) (ackNO c)
  (recvPool c) (sendPool c) (rs c) (state c) (closeOnce c) (wire c).
Definition set_inboundBuf (x : option bytes) (c : conn) : conn :=
  Conn (server c) (window c) (frameSize c) (exit c) (inbound c) (nckc c) (nckQuery c)
  (fin c) (finack c) (parked c) (sendEventClosed c) x (recvNO c) (sentNO c) (ackNO c)
  (recvPool c) (sendPool c) (rs c) (state c) (closeOnce c) (wire c).
Definition set_recvNO (x : Z) (c : conn) : conn :=
  Conn (server c) (window c) (frameSize c) (exit c) (inbound c) (nckc c) (nckQuery c)
  (fin c) (finack c) (parked c) (sendEventClosed c) (inboundBuf c) x (sentNO c) (ackNO
  c) (recvPool c) (sendPool c) (rs c) (state c) (closeOnce c) (wire c).
Definition set_sentNO (x : Z) (c : conn) : conn :=
  Conn (server c) (window c) (frameSize c) (exit c) (inbound c) (nckc c) (nckQuery c)
  (fin c) (finack c) (parked c) (sendEventClosed c) (inboundBuf c) (recvNO c) x (ackNO
  c) (recvPool c) (sendPool c) (rs c) (state c) (closeOnce c) (wire c).
Definition set_ackNO (x : Z) (c : conn) : conn :=
  Conn (server c) (window c) (frameSize c) (exit c) (inbound c) (nckc c) (nckQuery c)
  (fin c) (finack c) (parked c) (sendEventClosed c) (inboundBuf c) (recvNO c) (sentNO c)
  x (recvPool c) (sendPool c) (rs c) (state c) (closeOnce c) (wire c).
Definition set_recvPool (x : gmap Z bytes) (c : conn) : conn :=
  Conn (server c) (window c) (frameSize c) (exit c) (inbound c) (nckc c) (nckQuery c)
  (fin c) (finack c) (parked c) (sendEventClosed c) (inboundBuf c) (recvNO c) (sentNO c)
  (ackNO c) x (sendPool c) (rs c) (state c) (closeOnce c) (wire c).
Definition set_sendPool (x : gmap Z bytes) (c : conn) : conn :=
  Conn (server c) (window c) (frameSize c) (exit c) (inbound c) (nckc c) (nckQuery c)
  (fin c) (finack c) (parked c) (sendEventClosed c) (inboundBuf c) (recvNO c) (sentNO c)
  (ackNO c) (recvPool c) x (rs c) (state c) (closeOnce c) (wire c).
Definition set_rs (x : Z) (c : conn) : conn :=
  Conn (server c) (window c) (frameSize c) (exit c) (inbound c) (nckc c) (nckQuery c)
  (fin c) (finack c) (parked c) (sendEventClosed c) (inboundBuf c) (recvNO c) (sentNO c)
  (ackNO c) (recvPool c) (sendPool c) x (state c) (closeOnce c) (wire c).
Definition set_state (x : Z) (c : conn) : conn :=
  Conn (server c) (window c) (frameSize c) (exit c) (inbound c) (nckc c) (nckQuery c)
  (fin c) (finack c) (parked c) (sendEventClosed c) (inboundBuf c) (recvNO c) (sentNO c)
  (ackNO c) (recvPool c) (sendPool c) (rs c) x (closeOnce c) (wire c).
Definition set_closeOnce (x : bool) (c : conn) : conn :=
  Conn (server c) (window c) (frameSize c) (exit c) (inbound c) (nckc c) (nckQuery c)
  (fin c) (finack c) (parked c) (sendEventClosed c) (inboundBuf c) (recvNO c) (sentNO c)
  (ackNO c) (recvPool c) (sendPool c) (rs c) (state c) x (wire c).
Definition set_wire (x : list bytes) (c : conn) : conn :=
  Conn (server c) (window c) (frameSize c) (exit c) (inbound c) (nckc c) (nckQuery c)
  (fin c) (finack c) (parked c) (sendEventClosed c) (inboundBuf c) (recvNO c) (sentNO c)
  (ackNO c) (recvPool c) (sendPool c) (rs c) (state c) (closeOnce c) x.

Abbreviation M := (GoM conn loop_error).

(** A channel send of the connection. *)
Definition chan_push {A} (get : conn -> chan A) (set : chan A -> conn -> conn) (x : A) : M unit :=
  fun c => match chan_send x (get c) with
           | Ok ch => (Ok tt, set ch c)
           | Err e => (Err e, c)
           | Panic => (Panic, c)
           end.

(** [send] (rdt.go:252-259): marks the frame and writes it out. *)
Definition send (pkt : bytes) : M unit :=
  modify (fun c => set_wire (wire c ++ [mark (server c) pkt]) c).

(** The loop of [sendNCK] (rdt.go:352-360): the numbers from [i] up to [no]
    that are not in the pool, [None] when [fuel] iterations do not reach its
    end.  [i] is a [uint32]. *)
Fixpoint nck_scan (fuel : nat) (i no : Z) (pool : gmap Z bytes) : option (list Z) :=
  match fuel with
  | O => None
  | S fuel =>
      if bool_decide (i <= no) then
        rest ← nck_scan fuel (u32 (i + 1)) no pool;
        Some (match pool !! i with Some _ => rest | None => i :: rest end)
      else Some []
  end.

Definition nck_fuel (i no : Z) : nat := S (Z.to_nat (no + 1 - i)).

Definition sendNCK (no : Z) : M unit :=
  c ← gets id;
  let i := u32 (recvNO c + 1) in
  match nck_scan (nck_fuel i no) i no (recvPool c) with
  | None => lift (Err Diverges)
  | Some ms =>
      let missing := u16 (zlen ms) in
      if bool_decide (missing > u16 (window c)) then mret tt
      else send (buildFrame (z2b 2) no (u16 (missing * 4)) (concat (be32 <$> ms)))
  end.

Definition askNCK (no : Z) : M unit := send (buildFrame (z2b 1) no 0 []).

(** The loop of [recvData] that delivers frames from the pool (rdt.go:320-333). *)
Fixpoint drain (fuel : nat) : M unit :=
  match fuel with
  | O => lift (Err Diverges)
  | S fuel =>
      c ← gets id;
      match recvPool c !! u32 (recvNO c + 1) with
      | Some k =>
          modify (fun c => set_recvPool (delete (recvNO c) (recvPool c)) c);;
          chan_push inbound set_inbound k;;
          modify (fun c => set_recvNO (u32 (recvNO c + 1)) c);;
          drain fuel
      | None => mret tt
      end
  end.

(** [recvData] (rdt.go:306-343); the pool bounds the iterations of its loop. *)
Definition recvData (no : Z) (data : bytes) : M unit :=
  c ← gets id;
  if bool_decide (state c = CLOSED) then mret tt
  else if bool_decide (window c = 0) then panic
  else
    (if bool_decide (no mod window c = 0)
     then sendNCK (Z.min (u32 (recvNO c + window c)) no)
     else mret tt);;
    if bool_decide (no <= recvNO c) then mret tt
    else if bool_decide (no = u32 (recvNO c + 1)) then
      chan_push inbound set_inbound data;;
      modify (fun c => set_recvNO (u32 (recvNO c + 1)) c);;
      drain (S (size (recvPool c)))
    else if bool_decide (u32 (no - recvNO c) > u32 (window c * 2)) then
      sendNCK (u32 (recvNO c + window c))
    else modify (fun c => set_recvPool (<[no := data]> (recvPool c)) c).

(** [Write] (rdt.go:100-136).  [segments] is the slicing of lines 105-110: the
    [i]-th frame carries [b[i*frameSize : i*frameSize+length]]. *)
Definition segment (frameSize : Z) (b : bytes) (i : nat) : bytes :=
  let start := Z.of_nat i * frameSize in
  let length := if bool_decide (zlen b - start < frameSize) then zlen b - start else frameSize in
  take (Z.to_nat length) (drop (Z.to_nat start) b).

Definition ceil_div (a b : Z) : Z := - ((- a) / b).

Definition segments (frameSize : Z) (b : bytes) : list bytes :=
  segment frameSize b <$> seq 0 (Z.to_nat (ceil_div (zlen b) frameSize)).

Definition window_full (c : conn) : bool :=
  bool_decide (Z.of_nat (size (sendPool c)) >= window c).

(** One iteration of [Write]'s loop once the window has room (lines 127-132).
    The pool and [send] share the slice, so the pooled frame carries the mark. *)
Definition push_frame (data : bytes) (c : conn) : conn :=
  let no := u32 (sentNO c + 1) in
  let pkt := mark (server c) (buildFrame (z2b 0) no (u16 (zlen data)) data) in
  let c := set_sendPool (<[no := pkt]> (sendPool c)) c in
  let c := set_sentNO (u32 (sentNO c + 1)) c in
  (send pkt c).2.

(** The guard of [Write] (lines 101-104): [true] when it fails with [wClosed]. *)
Definition write_refused (c : conn) : bool := bool_decide (state c > 0).

(** A writer blocked on a full window receives from [sendEvent] (line 115): it
    takes the event of the parked NCK loop, or fails when it is closed. *)
Definition await_event (c : conn) : option (res loop_error unit * conn) :=
  if sendEventClosed c then Some (Panic, c)
  else if parked c then Some (Ok tt, set_parked false c)
  else None.

(** [resend] (rdt.go:229-250).  The final send on [sendEvent] parks the NCK
    loop until a writer receives, and is recovered when the channel is closed. *)
Definition resend_frames (ms : list Z) (c : conn) : conn :=
  fold_left (fun c n =>
    match sendPool c !! n with
    | Some pkt => set_rs (u32 (rs c + 1)) (send pkt c).2
    | None => c
    end) ms c.

Definition resend (n : nck) (c : conn) : conn :=
  let c := resend_frames (missing n) c in
  let c := set_sendPool
    (filter (fun kv => ~ (kv.1 ∉ missing n /\ kv.1 <= nck_no n)) (sendPool c)) c in
  if sendEventClosed c then c else set_parked true c.

(** [Close] (rdt.go:140-173).  [fins] is how many FIN frames the retransmitting
    goroutine of [sendFIN] sends (between 1 and 5) before the wait ends and
    [acks] what the wait receives from [finack]. *)
Inductive fin_result := FinAcked | FinTimeout | FinClosed.

Fixpoint fin_wait (sentNO : Z) (acks : list Z) : fin_result :=
  match acks with
  | [] => FinClosed
  | a :: acks =>
      if bool_decide (a = 0) then FinTimeout
      else if bool_decide (a <> sentNO) then fin_wait sentNO acks
      else FinAcked
  end.

Definition sendFIN (fins : nat) (acks : list Z) (c : conn) : fin_result * conn :=
  (fin_wait (sentNO c) acks,
   fold_left (fun c _ => (send (buildFrame (z2b 21) (sentNO c) 0 []) c).2) (seq 0 fins) c).

Definition close_chan {A} (ch : chan A) : chan A := Chan (queue ch) true.

Definition Close (fins : nat) (acks : list Z) (c : conn) : conn :=
  if closeOnce c then c
  else
    let c := set_closeOnce true c in
    let c := set_state FIN_WAIT1 c in
    let c := (sendFIN fins acks c).2 in
    let c := set_state FIN_WAIT2 c in
    let c := set_exit (close_chan (exit c)) c in
    let c := set_inbound (close_chan (inbound c)) c in
    let c := set_nckc (close_chan (nckc c)) c in
    let c := set_finack (close_chan (finack c)) c in
    let c := set_parked false (set_sendEventClosed true c) in
    let c := set_inboundBuf None c in
    let c := set_sentNO 0 c in
    set_sendPool ∅ c.

(** The goroutine [Close] starts, once a FIN arrives or 15 s pass (lines 152-158). *)
Definition close_finish (c : conn) : conn :=
  let c := set_state CLOSED c in
  let c := set_fin (close_chan (fin c)) c in
  let c := set_nckQuery (close_chan (nckQuery c)) c in
  let c := set_recvNO 0 c in
  set_recvPool ∅ c.

(** [Read] (rdt.go:69-95).  When no frame is buffered the [select] takes one of
    its ready arms, given by [arm]; [None] when that arm is not ready. *)
Inductive read_arm := ArmExit | ArmDeadline (ok : bool) | ArmInbound.
Inductive read_error := EOF | ErrDeadline.

Definition read_copy (cap : Z) (buf : bytes) (c : conn) : bytes * conn :=
  let n := Z.min cap (zlen buf) in
  let out := take (Z.to_nat n) buf in
  (out, set_inboundBuf (if bool_decide (n = zlen buf) then None
                        else Some (drop (Z.to_nat n) buf)) c).

Definition Read (cap : Z) (arm : read_arm) (c : conn) : option ((bytes + read_error) * conn) :=
  match inboundBuf c with
  | Some buf => let '(out, c) := read_copy cap buf c in Some (inl out, c)
  | None =>
      match arm with
      | ArmExit => if closed (exit c) then Some (inr EOF, c) else None
      | ArmDeadline ok => Some (inr (if ok then ErrDeadline else EOF), c)
      | ArmInbound =>
          match chan_recv (inbound c) with
          | Some (Some pkt, ch) =>
              let '(out, c) := read_copy cap pkt (set_inbound ch c) in Some (inl out, c)
          | Some (None, _) => Some (inr EOF, c)
          | None => None
          end
      end
  end.

(** [recv] (rdt.go:269-304).  [pkt] has at least the seven header bytes
    (rdt.go:528) and possibly spare capacity.  The deferred [recover] keeps what
    was done before a panic.  [fins] and [acks] are for the [Close] of a FIN. *)
Definition nck_entries (pkt : gslice) (l : Z) : M (list Z) :=
  fold_right (fun i rest =>
    let s := u16 (7 + u16 (Z.of_nat i * 4)) in
    p ← lift (sl_sub pkt s (u16 (s + 4)));
    n ← lift (sl_be32 p);
    ns ← rest;
    mret (n :: ns)) (mret []) (seq 0 (Z.to_nat (l / 4))).

Definition recv (fins : nat) (acks : list Z) (pkt : gslice) : M unit := recovering (
  h ← lift (sl_sub pkt 1 5);
  no ← lift (sl_be32 h);
  h ← lift (sl_sub pkt 5 7);
  l ← lift (sl_be16 h);
  cmd ← lift (sl_get pkt 0);
  let cmd := b2z cmd in
  if bool_decide (cmd = 0) then
    data ← lift (sl_sub pkt 7 (u16 (l + 7)));
    recvData no (vis data)
  else if bool_decide (cmd = 1) then chan_push nckQuery set_nckQuery no
  else if bool_decide (cmd = 2) then
    ms ← nck_entries pkt l;
    c ← gets id;
    (if bool_decide (ms = [] /\ no > ackNO c) then modify (set_ackNO no) else mret tt);;
    chan_push nckc set_nckc (Nck no ms)
  else if bool_decide (cmd = 21) then
    c ← gets id;
    if bool_decide (recvNO c < no) then sendNCK no
    else
      send (buildFrame (z2b 22) no 0 []);;
      chan_push fin set_fin no;;
      modify (Close fins acks)
  else if bool_decide (cmd = 22) then chan_push finack set_finack no
  else mret tt).

(** The event loops (rdt.go:403-446): one iteration each, [None] when the
    iteration has nothing to receive or the loop is blocked. *)
Definition check_loop (c : conn) : conn :=
  if bool_decide (Z.of_nat (size (sendPool c)) > 0)
  then (askNCK (Z.min (sentNO c) (u32 (ackNO c + window c))) c).2
  else c.

Definition nck_loop (c : conn) : option conn :=
  if parked c then None
  else match queue (nckc c) with
       | n :: q => Some (resend n (set_nckc (Chan q (closed (nckc c))) c))
       | [] => None
       end.

Definition nck_query_loop (c : conn) : option (res loop_error unit * conn) :=
  match queue (nckQuery c) with
  | q :: qs => Some (sendNCK q (set_nckQuery (Chan qs (closed (nckQuery c))) c))
  | [] => None
  end.

(** [SetWriteDeadline] always fails, and so does [SetDeadline], which joins the
    errors of both after it set the read deadline. *)
Inductive deadline_result := DeadlineNil | ErrUnsupported.
Definition SetReadDeadline : deadline_result := DeadlineNil.
Definition SetWriteDeadline : deadline_result := ErrUnsupported.
Definition SetDeadline : deadline_result :=
  match SetReadDeadline, SetWriteDeadline with
  | DeadlineNil, DeadlineNil => DeadlineNil
  | _, _ => ErrUnsupported
  end.

(** ** The listener *)

Record listener := Listener {
  cfg : Config;
  accept : list bytes;
  acceptConnMap : gmap bytes conn;
  openConnMap : gmap bytes conn
}.

Definition recv_into (fins : nat) (acks : list Z) (pkt : gslice) (c : conn) : conn :=
  (recv fins acks pkt c).2.

(** [recvPacket] (rdt.go:536-570) for a packet [b :: rest] of [addr]; [accept]
    lists the addresses of the connections queued for [Accept]. *)
Definition recvPacket (fins : nat) (acks : list Z) (addr : bytes)
    (b : byte) (rest : bytes) (sp : bytes) (l : listener) : listener :=
  let marked := bool_decide (Z.land 128 (b2z b) = 128) in
  let b := if marked then unmark b else b in
  let pkt := GSlice (b :: rest) sp in
  let deliver_accept :=
    match acceptConnMap l !! addr with
    | Some c =>
        if bool_decide (state c < CLOSED) then
          Some (Listener (cfg l) (accept l)
                 (<[addr := recv_into fins acks pkt c]> (acceptConnMap l)) (openConnMap l))
        else None
    | None => None
    end in
  match (if marked then openConnMap l !! addr else None) with
  | Some c => Listener (cfg l) (accept l) (acceptConnMap l)
                (<[addr := recv_into fins acks pkt c]> (openConnMap l))
  | None =>
      match deliver_accept with
      | Some l => l
      | None =>
          if bool_decide (b2z b <> 0) then l
          else
            let c := set_server true (newConn (cfg l)) in
            Listener (cfg l) (accept l ++ [addr])
              (<[addr := recv_into fins acks pkt c]> (acceptConnMap l)) (openConnMap l)
      end
  end.

(** One iteration of [runPacketReadLoop] on a datagram (rdt.go:513-532): what does
    not fit the buffer is lost. *)
Definition read_buffer : Z := 1500.

Definition read_packet (fins : nat) (acks : list Z) (addr : bytes) (pkt sp : bytes)
    (l : listener) : listener :=
  let pkt := take (Z.to_nat read_buffer) pkt in
  if bool_decide (zlen pkt < 7) then l
  else match pkt with
       | b :: rest => recvPacket fins acks addr b rest sp l
       | [] => l
       end.

Definition OpenStream (addr : bytes) (l : listener) : listener :=
  Listener (cfg l) (accept l) (acceptConnMap l) (<[addr := newConn (cfg l)]> (openConnMap l)).

Definition Listen (opts : list Option_) : listener := Listener (listen_config opts) [] ∅ ∅.

(** [Accept] takes the oldest connection waiting, and blocks while there is none. *)
Definition Accept (l : listener) : option (bytes * listener) :=
  match accept l with
  | addr :: q => Some (addr, Listener (cfg l) q (acceptConnMap l) (openConnMap l))
  | [] => None
  end.

(** [Close] of the listener closes every connection; [fins] and [acks] give what
    each connection's [Close] sees. *)
Definition listener_Close (fins : bytes -> nat) (acks : bytes -> list Z) (l : listener) : listener :=
  let close_all := map_imap (fun addr c => Some (Close (fins addr) (acks addr) c)) in
  Listener (cfg l) (accept l) (close_all (acceptConnMap l)) (close_all (openConnMap l)).

(** The statistics of one connection (stats.go:9-49). *)
Record Stat := MkStat {
  RemoteAddr : bytes; st_RecvNO : Z; st_SentNO : Z; st_ACKNO : Z; st_State : Z;
  st_RecvPool : Z; st_SendPool : Z; st_Resend : Z
}.
Definition stat_of (addr : bytes) (c : conn) : Stat :=
  MkStat addr (recvNO c) (sentNO c) (ackNO c) (state c)
    (Z.of_nat (size (recvPool c))) (Z.of_nat (size (sendPool c))) (rs c).

(** The two lists the [/stat] handler encodes, in some order of the map. *)
Definition serve_stat (l : listener) : list Stat * list Stat :=
  ((fun p => stat_of p.1 p.2) <$> map_to_list (acceptConnMap l),
   (fun p => stat_of p.1 p.2) <$> map_to_list (openConnMap l)).

(** ** Lemmas: frames *)

Lemma length_buildFrame cmd no l data : length (buildFrame cmd no l data) = (7 + length data)%nat.
Proof. done. Qed.

Lemma zlen_buildFrame cmd no l data : zlen (buildFrame cmd no l data) = 7 + zlen data.
Proof. unfold zlen. rewrite length_buildFrame. lia. Qed.

(** Marking sets the top bit of the command, clearing it gives it back. *)
Lemma mark_buildFrame srv cmd no l data :
  mark srv (buildFrame cmd no l data) =
  buildFrame (if srv then z2b (Z.lor (b2z cmd) 128) else cmd) no l data.
Proof. by destruct srv. Qed.

Lemma mark_idemp srv pkt : mark srv (mark srv pkt) = mark srv pkt.
Proof.
  destruct srv, pkt as [|b pkt]; simpl; try done.
  f_equal. apply b2z_inj. destruct b; reflexivity.
Qed.

Definition is_marked (b : byte) : bool := bool_decide (Z.land 128 (b2z b) = 128).

Lemma unmark_mark (srv : bool) cmd :
  is_marked cmd = false ->
  let b := if srv then z2b (Z.lor (b2z cmd) 128) else cmd in
  (if is_marked b then unmark b else b) = cmd /\ is_marked b = srv.
Proof. destruct srv, cmd; vm_compute; intros [=]; split; reflexivity. Qed.

(** What a receiver sees of a frame: the listener clears the mark. *)
Definition received (pkt : bytes) : bytes :=
  match pkt with
  | b :: rest => (if is_marked b then unmark b else b) :: rest
  | [] => []
  end.

Lemma received_mark srv cmd no l data :
  is_marked cmd = false ->
  received (mark srv (buildFrame cmd no l data)) = buildFrame cmd no l data.
Proof.
  intros Hc. rewrite mark_buildFrame. unfold received, buildFrame. simpl.
  by rewrite (proj1 (unmark_mark srv cmd Hc)).
Qed.

Section Header.
Context {E : Type} (cmd : byte) (no l : Z) (data sp : bytes).
Let pkt := GSlice (buildFrame cmd no l data) sp.

Lemma frame_no : (h ← @sl_sub E pkt 1 5; sl_be32 h) = Ok (u32 no).
Proof.
  unfold pkt, buildFrame.
  rewrite (sl_sub_app [cmd] (be32 no) (be16 l ++ data) sp) by done. simpl.
  rewrite <- (app_nil_r (be32 no)). apply sl_be32_app.
Qed.

Lemma frame_len : (h ← @sl_sub E pkt 5 7; sl_be16 h) = Ok (u16 l).
Proof.
  unfold pkt, buildFrame. rewrite (app_assoc [cmd]).
  rewrite (sl_sub_app ([cmd] ++ be32 no) (be16 l) data sp) by done. simpl.
  rewrite <- (app_nil_r (be16 l)). apply sl_be16_app.
Qed.

Lemma frame_cmd : @sl_get E pkt 0 = Ok cmd.
Proof. unfold pkt, buildFrame. by apply (sl_get_app []). Qed.

Lemma frame_payload m q :
  data = m ++ q -> @sl_sub E pkt 7 (7 + zlen m) = Ok (GSlice m (q ++ sp)).
Proof.
  intros Hd. unfold pkt, buildFrame. rewrite Hd, !(app_assoc _ (be16 l)), (app_assoc [cmd]).
  by apply sl_sub_app.
Qed.
End Header.

(** [recv] after its header is decoded. *)
Definition recv_body (fins : nat) (acks : list Z) (pkt : gslice) (cmd no l : Z) : M unit :=
  if bool_decide (cmd = 0) then
    data ← lift (sl_sub pkt 7 (u16 (l + 7)));
    recvData no (vis data)
  else if bool_decide (cmd = 1) then chan_push nckQuery set_nckQuery no
  else if bool_decide (cmd = 2) then
    ms ← nck_entries pkt l;
    c ← gets id;
    (if bool_decide (ms = [] /\ no > ackNO c) then modify (set_ackNO no) else mret tt);;
    chan_push nckc set_nckc (Nck no ms)
  else if bool_decide (cmd = 21) then
    c ← gets id;
    if bool_decide (recvNO c < no) then sendNCK no
    else
      send (buildFrame (z2b 22) no 0 []);;
      chan_push fin set_fin no;;
      modify (Close fins acks)
  else if bool_decide (cmd = 22) then chan_push finack set_finack no
  else mret tt.

Lemma recv_frame fins acks cmd no l data sp c :
  let pkt := GSlice (buildFrame cmd no l data) sp in
  recv fins acks pkt c = recovering (recv_body fins acks pkt (b2z cmd) (u32 no) (u16 l)) c.
Proof.
  intros pkt. unfold recv, recovering.
  assert (Hno := frame_no (E := loop_error) cmd no l data sp).
  assert (Hl := frame_len (E := loop_error) cmd no l data sp).
  assert (Hc := frame_cmd (E := loop_error) cmd no l data sp).
  fold pkt in Hno, Hl, Hc.
  destruct (sl_sub pkt 1 5) as [h1| |] eqn:H1; [|done|done]. simpl in Hno.
  destruct (sl_sub pkt 5 7) as [h2| |] eqn:H2; [|done|done]. simpl in Hl.
  unfold mbind, gom_bind, lift. rewrite Hno, Hl, Hc. done.
Qed.

(** Data frames: the payload and the sequence number arrive as sent. *)
Lemma recv_data_frame fins acks no data sp c :
  zlen data + 7 < 65536 ->
  recv fins acks (GSlice (buildFrame (z2b 0) no (zlen data) data) sp) c =
  recovering (recvData (u32 no) data) c.
Proof.
  intros Hlen. rewrite recv_frame. unfold recv_body. rewrite b2z_z2b_small by lia.
  rewrite bool_decide_true by done. rewrite (u16_small (zlen data)) by zlen_lia.
  rewrite u16_small by zlen_lia. unfold recovering. rewrite lift_bind.
  rewrite Z.add_comm, (frame_payload (z2b 0) no (zlen data) data sp data []) by (by rewrite app_nil_r).
  done.
Qed.

Lemma zlen_concat_be32 ms : zlen (concat (be32 <$> ms)) = 4 * zlen ms.
Proof.
  induction ms as [|n ms IH]; [done|].
  rewrite fmap_cons, concat_cons, zlen_app, IH, zlen_be32, zlen_cons. lia.
Qed.

Lemma nck_entry {E} cmd no l pre n q sp :
  zlen pre < 16382 ->
  let pkt := GSlice (buildFrame cmd no l (concat (be32 <$> pre) ++ be32 n ++ q)) sp in
  let s := u16 (7 + u16 (zlen pre * 4)) in
  (p ← @sl_sub E pkt s (u16 (s + 4)); sl_be32 p) = Ok (u32 n).
Proof.
  intros Hp pkt s.
  assert (Hs : s = 7 + 4 * zlen pre) by (unfold s; rewrite (u16_small (zlen pre * 4)), u16_small by zlen_lia; lia).
  rewrite Hs, u16_small by zlen_lia.
  unfold pkt, buildFrame. rewrite !(app_assoc _ (be16 l)), (app_assoc [cmd]), (app_assoc _ (concat _)).
  pose proof (zlen_concat_be32 pre).
  rewrite sl_sub_app by zlen_lia. simpl.
  rewrite <- (app_nil_r (be32 n)). apply sl_be32_app.
Qed.

Lemma nck_entries_go cmd no l pre ms sp c :
  zlen (pre ++ ms) <= 16382 ->
  let pkt := GSlice (buildFrame cmd no l (concat (be32 <$> (pre ++ ms)))) sp in
  fold_right (fun i (rest : M (list Z)) =>
    let s := u16 (7 + u16 (Z.of_nat i * 4)) in
    p ← lift (sl_sub pkt s (u16 (s + 4)));
    n ← lift (sl_be32 p);
    ns ← rest;
    mret (n :: ns)) (mret []) (seq (length pre) (length ms)) c = (Ok (u32 <$> ms), c).
Proof.
  revert pre. induction ms as [|n ms IH]; intros pre Hlen pkt; [done|].
  simpl. rewrite lift_bind2.
  assert (He := nck_entry (E := loop_error) cmd no l pre n (concat (be32 <$> ms)) sp
                  ltac:(zlen_lia)).
  assert (Hpkt : GSlice (buildFrame cmd no l (concat (be32 <$> pre) ++ be32 n ++ concat (be32 <$> ms))) sp = pkt).
  { unfold pkt. by rewrite fmap_app, concat_app. }
  rewrite Hpkt in He. unfold zlen in He. cbv zeta in He. rewrite He.
  specialize (IH (pre ++ [n])). rewrite <- app_assoc, length_app, Nat.add_1_r in IH. simpl in IH.
  specialize (IH ltac:(zlen_lia)). fold pkt in IH.
  unfold mbind at 1, gom_bind at 1. rewrite IH. done.
Qed.

Lemma nck_entries_frame cmd no l ms sp c :
  zlen ms <= 16382 -> l = 4 * zlen ms ->
  nck_entries (GSlice (buildFrame cmd no l (concat (be32 <$> ms))) sp) l c = (Ok (u32 <$> ms), c).
Proof.
  intros Hlen ->. unfold nck_entries.
  replace (4 * zlen ms / 4) with (zlen ms) by mlia.
  unfold zlen at 2. rewrite Nat2Z.id. by apply (nck_entries_go cmd no _ []).
Qed.

(** NCK frames: the acknowledged number and the missing list arrive as sent. *)
Lemma recv_nck_frame fins acks no ms sp c :
  zlen ms <= 16382 -> closed (nckc c) = false ->
  recv fins acks (GSlice (buildFrame (z2b 2) no (4 * zlen ms) (concat (be32 <$> ms))) sp) c =
  (Ok tt,
   let c := if bool_decide (ms = [] /\ u32 no > ackNO c) then set_ackNO (u32 no) c else c in
   set_nckc (Chan (queue (nckc c) ++ [Nck (u32 no) (u32 <$> ms)]) false) c).
Proof.
  intros Hlen Hopen. rewrite recv_frame. unfold recv_body. rewrite b2z_z2b_small by lia.
  rewrite !bool_decide_false by done. rewrite bool_decide_true by done.
  rewrite u16_small by zlen_lia. unfold recovering.
  unfold mbind at 1, gom_bind at 1. rewrite nck_entries_frame by done.
  unfold mbind, gom_bind, gets, modify, mret, gom_ret, chan_push, chan_send. simpl.
  rewrite (bool_decide_ext (u32 <$> ms = [] /\ u32 no > ackNO c) (ms = [] /\ u32 no > ackNO c)).
  { case_bool_decide; simpl; by rewrite Hopen. }
  destruct ms; naive_solver.
Qed.

(** ** Lemmas: the missing list of an NCK *)

Definition gaps (pool : gmap Z bytes) (lo hi : Z) : list Z :=
  filter (fun n => pool !! n = None) (seqZ lo (hi + 1 - lo)).

Lemma gaps_nil pool lo hi : hi < lo -> gaps pool lo hi = [].
Proof. intros. unfold gaps. rewrite seqZ_nil by lia. done. Qed.

Lemma gaps_cons pool lo hi :
  lo <= hi ->
  gaps pool lo hi =
  match pool !! lo with Some _ => gaps pool (lo + 1) hi | None => lo :: gaps pool (lo + 1) hi end.
Proof.
  intros. unfold gaps. rewrite (seqZ_cons lo (hi + 1 - lo)) by lia. rewrite filter_cons.
  replace (Z.pred (hi + 1 - lo)) with (hi + 1 - (lo + 1)) by lia.
  replace (Z.succ lo) with (lo + 1) by lia.
  destruct (pool !! lo); case_decide; done.
Qed.

Lemma elem_of_gaps pool lo hi n :
  n ∈ gaps pool lo hi <-> lo <= n <= hi /\ pool !! n = None.
Proof. unfold gaps. rewrite list_elem_of_filter, elem_of_seqZ. split; intros; intuition lia. Qed.

Lemma length_gaps pool lo hi : zlen (gaps pool lo hi) <= Z.max 0 (hi + 1 - lo).
Proof.
  unfold gaps, zlen. pose proof (length_filter (fun n => pool !! n = None) (seqZ lo (hi + 1 - lo))).
  rewrite length_seqZ in *. lia.
Qed.

Lemma nck_scan_gaps fuel i no pool :
  0 <= i < 4294967296 -> 0 <= no < 4294967295 -> (Z.to_nat (no + 1 - i) < fuel)%nat ->
  nck_scan fuel i no pool = Some (gaps pool i no).
Proof.
  revert i. induction fuel as [|fuel IH]; intros i Hi Hno Hf; [lia|].
  simpl. case_bool_decide as Hle; [|by rewrite gaps_nil by lia].
  rewrite u32_small by lia. rewrite IH by lia. simpl.
  by rewrite (gaps_cons pool i no) by lia.
Qed.

Lemma sendNCK_scan c no :
  0 <= no < 4294967295 ->
  let i := u32 (recvNO c + 1) in
  nck_scan (nck_fuel i no) i no (recvPool c) = Some (gaps (recvPool c) i no).
Proof.
  intros Hno i. apply nck_scan_gaps; [apply u32_range|done|unfold nck_fuel; lia].
Qed.

Lemma nck_scan_diverges fuel i pool :
  0 <= i < 4294967296 -> nck_scan fuel i 4294967295 pool = None.
Proof.
  revert i. induction fuel as [|fuel IH]; intros i Hi; [done|]. simpl.
  rewrite bool_decide_true by lia. rewrite IH; [done|apply u32_range].
Qed.

(** ** Lemmas: draining the pool *)

Definition drain_step (k : bytes) (c : conn) : conn :=
  let c := set_recvPool (delete (recvNO c) (recvPool c)) c in
  let c := set_inbound (Chan (queue (inbound c) ++ [k]) false) c in
  set_recvNO (u32 (recvNO c + 1)) c.

Lemma drain_S fuel c :
  closed (inbound c) = false ->
  drain (S fuel) c =
  match recvPool c !! u32 (recvNO c + 1) with
  | Some k => drain fuel (drain_step k c)
  | None => (Ok tt, c)
  end.
Proof.
  intros Hopen. simpl. unfold mbind, gom_bind, gets, modify, chan_push, chan_send, id; simpl.
  destruct (recvPool c !! _); [|done]. by rewrite Hopen.
Qed.

(** Induction over the frames [drain] delivers. *)
Lemma drain_ind (P : conn -> Prop) fuel c :
  (forall c k, P c -> recvPool c !! u32 (recvNO c + 1) = Some k -> P (drain_step k c)) ->
  closed (inbound c) = false -> P c -> P (drain fuel c).2.
Proof.
  intros Hstep. revert c. induction fuel as [|fuel IH]; intros c Hopen Hc; [done|].
  rewrite drain_S by done. destruct (recvPool c !! _) eqn:Hk; [|done].
  apply IH; [done|]. by apply Hstep.
Qed.

Lemma drain_diverges_keys fuel c :
  closed (inbound c) = false -> 0 <= recvNO c < 4294967296 ->
  (drain fuel c).1 = Err Diverges ->
  forall i : nat, (i < fuel)%nat -> is_Some (recvPool c !! u32 (recvNO c + 1 + Z.of_nat i)).
Proof.
  revert c. induction fuel as [|fuel IH]; intros c Hopen Hr Hd i Hi; [lia|].
  rewrite drain_S in Hd by done.
  destruct (recvPool c !! u32 (recvNO c + 1)) as [k|] eqn:Hk; [|done].
  destruct i as [|i]; [by rewrite Z.add_0_r, Hk|].
  specialize (IH (drain_step k c) eq_refl (u32_range _) Hd i ltac:(lia)). simpl in IH.
  assert (Heq : u32 (u32 (recvNO c + 1) + 1 + Z.of_nat i) = u32 (recvNO c + 1 + Z.of_nat (S i))).
  { unfold u32. rewrite <- Z.add_assoc, Zplus_mod_idemp_l. f_equal. lia. }
  rewrite Heq in IH. destruct IH as [x Hx]. apply lookup_delete_Some in Hx as [_ Hx]. by eexists.
Qed.

Lemma NoDup_dom_size {A} (m : gmap Z A) (l : list Z) :
  NoDup l -> (forall k, k ∈ l -> is_Some (m !! k)) -> (length l <= size m)%nat.
Proof.
  intros Hnd Hl. rewrite <- (size_list_to_set (C := gset Z) l) by done.
  rewrite <- size_dom. apply subseteq_size. intros k Hk%elem_of_list_to_set.
  by apply elem_of_dom, Hl.
Qed.

Lemma drain_terminates c :
  closed (inbound c) = false -> 0 <= recvNO c < 4294967296 ->
  Z.of_nat (size (recvPool c)) < 4294967296 ->
  (drain (S (size (recvPool c))) c).1 <> Err Diverges.
Proof.
  intros Hopen Hr Hsize Hd.
  pose proof (drain_diverges_keys _ _ Hopen Hr Hd) as Hkeys.
  set (n := size (recvPool c)) in *.
  set (l := (fun i : nat => u32 (recvNO c + 1 + Z.of_nat i)) <$> seq 0 (S n)).
  assert (Hnd : NoDup l).
  { apply NoDup_fmap_2_strong; [|apply NoDup_seq].
    intros i j [_ Hi]%elem_of_seq [_ Hj]%elem_of_seq Heq. unfold u32 in Heq. mlia. }
  assert (length l <= n)%nat; [|unfold l in *; rewrite length_fmap, length_seq in *; lia].
  apply NoDup_dom_size; [done|]. intros k (i & -> & [_ Hi]%elem_of_seq)%list_elem_of_fmap.
  apply Hkeys. lia.
Qed.

(** What [drain] does when it returns: it delivers the frames that follow
    [recvNO] in the pool without a gap. *)
Definition drained (n : nat) (ks : list bytes) (c c' : conn) : Prop :=
  length ks = n /\
  (forall (i : nat) k, ks !! i = Some k -> recvPool c !! (recvNO c + 1 + Z.of_nat i) = Some k) /\
  recvPool c !! (recvNO c + 1 + Z.of_nat n) = None /\
  exists pool,
    c' = set_recvNO (recvNO c + Z.of_nat n)
          (set_inbound (Chan (queue (inbound c) ++ ks) false) (set_recvPool pool c)) /\
    forall k, pool !! k =
      (if bool_decide (recvNO c <= k < recvNO c + Z.of_nat n) then None else recvPool c !! k).

Lemma set_drain_step r i p k c :
  set_recvNO r (set_inbound i (set_recvPool p (drain_step k c))) =
  set_recvNO r (set_inbound i (set_recvPool p c)).
Proof. reflexivity. Qed.

Lemma drain_spec fuel c :
  closed (inbound c) = false -> 0 <= recvNO c -> recvNO c + Z.of_nat fuel < 4294967296 ->
  (drain fuel c).1 = Err Diverges \/
  exists n ks c', drain fuel c = (Ok tt, c') /\ drained n ks c c'.
Proof.
  revert c. induction fuel as [|fuel IH]; intros c Hopen H0 Hmax; [by left|].
  rewrite drain_S, u32_small by (done || lia).
  destruct (recvPool c !! (recvNO c + 1)) as [k|] eqn:Hk.
  - destruct (IH (drain_step k c)) as [Hd|(n & ks & c' & Hrun & Hlen & Hks & Hend & pool & -> & Hpool)];
      [done|simpl; rewrite u32_small by lia; lia..|by left|right].
    simpl in *. rewrite u32_small in * by lia.
    exists (S n), (k :: ks). eexists. split; [exact Hrun|]. unfold drained. simpl. split_and!; [lia| | |].
    + intros [|i] x; simpl; [intros [= <-]; by rewrite Z.add_0_r|].
      intros Hx%Hks. apply lookup_delete_Some in Hx as [_ Hx].
      by replace (recvNO c + 1 + Z.of_nat (S i)) with (recvNO c + 1 + 1 + Z.of_nat i) by lia.
    + rewrite lookup_delete_ne in Hend by lia.
      by replace (recvNO c + 1 + Z.of_nat (S n)) with (recvNO c + 1 + 1 + Z.of_nat n) by lia.
    + exists pool. split.
      * rewrite <- app_assoc, set_drain_step. f_equal. lia.
      * intros j. rewrite Hpool.
        repeat case_bool_decide; try lia; try done.
        -- assert (j = recvNO c) as -> by lia. by rewrite lookup_delete_eq.
        -- by rewrite lookup_delete_ne by lia.
  - right. exists 0%nat, [], c. split; [done|]. unfold drained. split_and!; [done..| |].
    + by rewrite Z.add_0_r.
    + exists (recvPool c). split.
      * rewrite app_nil_r, Z.add_0_r. destruct c as [??? ? [q b]]; simpl in *. by subst.
      * intros j. by rewrite bool_decide_false by lia.
Qed.

Lemma drain_all c :
  closed (inbound c) = false -> 0 <= recvNO c ->
  recvNO c + 1 + Z.of_nat (size (recvPool c)) < 4294967296 ->
  exists n ks c', drain (S (size (recvPool c))) c = (Ok tt, c') /\ drained n ks c c'.
Proof.
  intros Hopen H0 Hmax.
  destruct (drain_spec (S (size (recvPool c))) c) as [Hd|?]; [done|done|lia| |done].
  exfalso. revert Hd. apply drain_terminates; [done|lia|lia].
Qed.

(** ** Lemmas: segmentation *)

Lemma segment_step fs b i :
  0 < fs ->
  segment fs b i ++ drop (Z.to_nat (Z.of_nat (S i) * fs)) b = drop (Z.to_nat (Z.of_nat i * fs)) b.
Proof.
  intros Hfs. unfold segment. set (st := Z.of_nat i * fs).
  replace (Z.of_nat (S i) * fs) with (st + fs) by (unfold st; lia).
  assert (0 <= st) by (unfold st; lia).
  case_bool_decide as Hlt; unfold zlen in *.
  - rewrite (drop_ge b (Z.to_nat (st + fs))) by lia. rewrite app_nil_r.
    apply take_ge. rewrite length_drop. lia.
  - replace (Z.to_nat (st + fs)) with (Z.to_nat st + Z.to_nat fs)%nat by lia.
    rewrite <- drop_drop. apply take_drop.
Qed.

Lemma concat_segments_go fs b k i :
  0 < fs -> zlen b <= (Z.of_nat i + Z.of_nat k) * fs ->
  concat (segment fs b <$> seq i k) = drop (Z.to_nat (Z.of_nat i * fs)) b.
Proof.
  intros Hfs. revert i. induction k as [|k IH]; intros i Hb; simpl.
  - symmetry. apply drop_ge. unfold zlen in *. lia.
  - rewrite IH by lia. by apply segment_step.
Qed.

Lemma ceil_div_bounds a b : 0 < b -> 0 <= a -> a <= ceil_div a b * b < a + b /\ 0 <= ceil_div a b.
Proof. intros. unfold ceil_div. nia || mlia. Qed.

(** ** Lemmas: resending *)

Definition in_pool (c : conn) (ms : list Z) : list (Z * bytes) :=
  omap (fun n => pair n <$> sendPool c !! n) ms.

Lemma in_pool_cons c n ms :
  in_pool c (n :: ms) =
  match sendPool c !! n with Some pkt => (n, pkt) :: in_pool c ms | None => in_pool c ms end.
Proof. unfold in_pool. simpl. by destruct (sendPool c !! n). Qed.

Lemma resend_frames_spec ms c :
  resend_frames ms c =
  set_rs (u32 (rs c + zlen (in_pool c ms)))
    (set_wire (wire c ++ ((fun p => mark (server c) p.2) <$> in_pool c ms)) c) \/
  in_pool c ms = [] /\ resend_frames ms c = c.
Proof.
  revert c. induction ms as [|n ms IH]; intros c; [by right|].
  change (resend_frames (n :: ms) c) with
    (resend_frames ms (match sendPool c !! n with
                       | Some pkt => set_rs (u32 (rs c + 1)) (send pkt c).2
                       | None => c
                       end)).
  rewrite in_pool_cons. destruct (sendPool c !! n) as [pkt|] eqn:Hn; [|apply IH].
  left. set (c1 := set_rs _ _).
  assert (Hp : in_pool c1 ms = in_pool c ms) by done.
  destruct (IH c1) as [->|[Hnil ->]]; rewrite Hp in *; rewrite fmap_cons, zlen_cons.
  - unfold c1. simpl. rewrite <- app_assoc, Z.add_assoc. unfold u32. by rewrite Zplus_mod_idemp_l.
  - rewrite Hnil. done.
Qed.

Lemma resend_frames_keeps ms c :
  sendPool (resend_frames ms c) = sendPool c /\ sendEventClosed (resend_frames ms c) = sendEventClosed c.
Proof. destruct (resend_frames_spec ms c) as [->|[_ ->]]; done. Qed.

(** ** Properties *)

(** The frame codec between the two ends, for both roles: what a connection
    sends as a data frame is received as [recvData] of the same number and
    payload, and what it sends as an NCK is queued for the NCK loop with the
    same acknowledged number and missing list.  The server mark that travels in
    the command byte is removed. *)
Theorem frame_roundtrip srv fins acks no data ms sp c :
  zlen data + 7 < 65536 -> zlen ms <= 16382 ->
  0 <= no < 4294967296 -> Forall (fun n => 0 <= n < 4294967296) ms ->
  closed (nckc c) = false ->
  let data_frame := mark srv (buildFrame (z2b 0) no (u16 (zlen data)) data) in
  let nck_frame := mark srv (buildFrame (z2b 2) no (u16 (zlen ms * 4)) (concat (be32 <$> ms))) in
  recv fins acks (GSlice (received data_frame) sp) c = recovering (recvData no data) c /\
  exists c', recv fins acks (GSlice (received nck_frame) sp) c = (Ok tt, c') /\
    queue (nckc c') = queue (nckc c) ++ [Nck no ms].
Proof.
  intros Hd Hms Hno Hall Hopen df nf. unfold df, nf. rewrite !received_mark by done.
  rewrite (u16_small (zlen data)), (u16_small (zlen ms * 4)), (Z.mul_comm (zlen ms)) by zlen_lia.
  split; [by rewrite recv_data_frame, u32_small|].
  eexists. split; [by apply recv_nck_frame|]. rewrite u32_small by done.
  assert (u32 <$> ms = ms) as ->.
  { clear - Hall. induction Hall; [done|]. rewrite fmap_cons, u32_small by done. by f_equal. }
  by case_bool_decide.
Qed.

(** [Write] cuts its argument into frames that are neither empty nor longer
    than [frameSize], whose concatenation is the argument, nothing lost at
    either end. *)
Theorem segments_concat fs b :
  0 < fs ->
  concat (segments fs b) = b /\ Forall (fun s => 0 < zlen s <= fs) (segments fs b).
Proof.
  intros Hfs. pose proof (zlen_nonneg b) as Hb.
  pose proof (ceil_div_bounds (zlen b) fs Hfs Hb) as [[Hlo Hhi] H0].
  unfold segments. split.
  - rewrite concat_segments_go by lia. done.
  - apply Forall_fmap, Forall_forall. intros i [_ Hi]%elem_of_seq.
    assert (Z.of_nat i * fs < zlen b) by nia. unfold segment, zlen in *. simpl.
    rewrite length_take, length_drop. case_bool_decide; lia.
Qed.

(** [sendNCK] returns for every request except the number 2^32-1: there the
    [uint32] loop variable never exceeds its bound, so no number of iterations
    reaches the end of the loop.  The number comes from the peer's QueryNCK. *)
Theorem sendNCK_diverges_iff c no :
  0 <= no < 4294967296 ->
  ((sendNCK no c).1 = Err Diverges <-> no = 4294967295) /\
  (no = 4294967295 -> forall fuel, nck_scan fuel (u32 (recvNO c + 1)) no (recvPool c) = None).
Proof.
  intros Hno. split.
  - unfold sendNCK, mbind, gom_bind, gets, id.
    destruct (decide (no = 4294967295)) as [->|Hne].
    + rewrite nck_scan_diverges by apply u32_range. done.
    + rewrite sendNCK_scan by lia. split; [|done].
      by case_bool_decide.
  - intros -> fuel. apply nck_scan_diverges, u32_range.
Qed.

(** Answering an NCK query: the frame lists exactly the numbers up to [no]
    that were neither delivered nor pooled; when more than a window of them is
    missing nothing is sent; the connection is otherwise unchanged. *)
Theorem sendNCK_exact c no :
  0 <= recvNO c -> recvNO c < 4294967295 -> 0 <= no < 4294967295 ->
  0 <= window c < 16384 -> no - recvNO c < 65536 ->
  let ms := gaps (recvPool c) (recvNO c + 1) no in
  sendNCK no c =
    (Ok tt, if bool_decide (zlen ms <= window c)
            then set_wire (wire c ++ [mark (server c)
                   (buildFrame (z2b 2) no (u16 (zlen ms * 4)) (concat (be32 <$> ms)))]) c
            else c) /\
  forall n, n ∈ ms <-> recvNO c < n <= no /\ recvPool c !! n = None.
Proof.
  intros Hr Hr' Hno Hw Hspan ms. split.
  - unfold sendNCK, mbind, gom_bind, gets, id.
    rewrite sendNCK_scan by lia. rewrite (u32_small (recvNO c + 1)) by lia. fold ms.
    pose proof (length_gaps (recvPool c) (recvNO c + 1) no) as Hlen. fold ms in Hlen.
    rewrite (u16_small (zlen ms)), (u16_small (window c)) by zlen_lia.
    repeat case_bool_decide; try lia; [done|].
    unfold send, modify. done.
  - intros n. unfold ms. rewrite elem_of_gaps. intuition lia.
Qed.

(** Processing an NCK: every reported frame that is still pooled is written
    again, in the order of the report, and counted; afterwards the pool holds
    exactly the frames that were reported missing or lie above the
    acknowledged number. *)
Theorem resend_exact n c :
  wire (resend n c) = wire c ++ ((fun p => mark (server c) p.2) <$> in_pool c (missing n)) /\
  (forall k, sendPool (resend n c) !! k =
    if bool_decide (k ∈ missing n \/ nck_no n < k) then sendPool c !! k else None) /\
  parked (resend n c) = (if sendEventClosed c then parked c else true).
Proof.
  unfold resend. destruct (resend_frames_keeps (missing n) c) as [Hpool Hev].
  split_and!.
  - assert (Hw : wire (resend_frames (missing n) c) =
      wire c ++ ((fun p => mark (server c) p.2) <$> in_pool c (missing n))).
    { destruct (resend_frames_spec (missing n) c) as [->|[-> ->]]; simpl; [done|by rewrite app_nil_r]. }
    rewrite <- Hw. by destruct (sendEventClosed _).
  - intros k. transitivity (filter (fun kv : Z * bytes => ~ (kv.1 ∉ missing n /\ kv.1 <= nck_no n)) (sendPool c) !! k).
    { rewrite <- Hpool. by destruct (sendEventClosed _). }
    rewrite map_lookup_filter. destruct (sendPool c !! k); simpl; [|by case_bool_decide].
    case_bool_decide as Hk; destruct (decide (k ∈ missing n)); case_guard; simpl in *; try done;
      exfalso; destruct (decide (k <= nck_no n)); intuition lia.
  - simpl. rewrite Hev. destruct (resend_frames_spec (missing n) c) as [->|[_ ->]]; by destruct (sendEventClosed c) eqn:E1; simpl; rewrite ?E1.
Qed.

(** ** Lemmas: receiving data *)

Lemma sendNCK_ok c no :
  0 <= no < 4294967295 ->
  exists w, sendNCK no c = (Ok tt, set_wire w c).
Proof.
  intros Hno. unfold sendNCK, mbind, gom_bind, gets, id.
  rewrite sendNCK_scan by lia. case_bool_decide.
  - exists (wire c). by destruct c.
  - by eexists.
Qed.

(** The part of [recvData] before the frame is placed. *)
Definition ack_step (no : Z) (c : conn) : conn :=
  if bool_decide (no mod window c = 0)
  then (sendNCK (Z.min (recvNO c + window c) no) c).2 else c.

Definition deliver (data : bytes) (c : conn) : conn :=
  set_recvNO (recvNO c + 1) (set_inbound (Chan (queue (inbound c) ++ [data]) false) c).

Lemma ack_step_wire no c :
  0 <= no < 4294967295 -> 0 <= recvNO c -> 0 <= window c ->
  exists w, ack_step no c = set_wire w c /\
    (bool_decide (no mod window c = 0) = true ->
     sendNCK (Z.min (recvNO c + window c) no) c = (Ok tt, set_wire w c)).
Proof.
  intros Hno Hr Hw. unfold ack_step. case_bool_decide.
  - destruct (sendNCK_ok c (Z.min (recvNO c + window c) no)) as [w Hs]; [lia|].
    exists w. by rewrite Hs.
  - exists (wire c). by destruct c.
Qed.

(** [recvData] as a choice between four outcomes. *)
Lemma recvData_unfold no data c :
  state c <> CLOSED -> closed (inbound c) = false -> 0 < window c < 16384 ->
  0 <= recvNO c -> 0 <= no < 4294967295 -> recvNO c + 2 * window c < 4294967295 ->
  recvData no data c =
  let c1 := ack_step no c in
  if bool_decide (no <= recvNO c) then (Ok tt, c1)
  else if bool_decide (no = recvNO c + 1) then
    drain (S (size (recvPool c))) (deliver data c1)
  else if bool_decide (no - recvNO c > window c * 2) then sendNCK (recvNO c + window c) c1
  else (Ok tt, set_recvPool (<[no := data]> (recvPool c)) c1).
Proof.
  intros Hst Hopen Hw Hr Hno Hmax. unfold recvData.
  destruct (ack_step_wire no c Hno Hr ltac:(lia)) as [w [Heq Hs]]. rewrite Heq.
  unfold mbind, gom_bind, gets, modify, mret, gom_ret, panic, id.
  rewrite (bool_decide_false (state c = CLOSED)), (bool_decide_false (window c = 0)) by (done || lia).
  rewrite !(u32_small (recvNO c + _)) by lia. rewrite (u32_small (window c * 2)) by lia.
  assert (Hack : (if bool_decide (no mod window c = 0)
    then sendNCK (Z.min (recvNO c + window c) no)
    else fun s => (Ok tt, s)) c = (Ok tt, set_wire w c)).
  { unfold ack_step in Heq. destruct (bool_decide (no mod window c = 0)); [by apply Hs|].
    f_equal. exact Heq. }
  rewrite Hack. clear Hs Hack. case_bool_decide; [done|]. case_bool_decide.
  - unfold chan_push, chan_send. simpl. rewrite Hopen. simpl. rewrite u32_small by lia.
    unfold deliver. simpl. done.
  - rewrite (u32_small (no - recvNO c)) by lia. case_bool_decide; done.
Qed.

(** Receiving a data frame returns, on every branch, and does exactly this: a
    number that is a multiple of the window is acknowledged first ([ack_step]);
    an old number is dropped; the next number is delivered, followed by every
    frame that was waiting for it, up to the first gap; a number more than two
    windows ahead is answered with an NCK and dropped; any other number waits in
    the pool. *)
Theorem recvData_exact no data c :
  state c <> CLOSED -> closed (inbound c) = false -> 0 < window c < 16384 ->
  0 <= recvNO c -> 0 <= no < 4294967295 ->
  recvNO c + 2 * window c + 2 + Z.of_nat (size (recvPool c)) < 4294967295 ->
  exists c', recvData no data c = (Ok tt, c') /\
  (no <= recvNO c -> c' = ack_step no c) /\
  (no = recvNO c + 1 -> exists n ks, drained n ks (deliver data (ack_step no c)) c') /\
  (recvNO c + 1 < no <= recvNO c + 2 * window c ->
     c' = set_recvPool (<[no := data]> (recvPool c)) (ack_step no c)) /\
  (recvNO c + 2 * window c < no -> c' = (sendNCK (recvNO c + window c) (ack_step no c)).2).
Proof.
  intros Hst Hopen Hw Hr Hno Hmax. rewrite recvData_unfold by (done || lia). cbv zeta.
  destruct (ack_step_wire no c Hno Hr ltac:(lia)) as [w [Heq _]]. rewrite Heq.
  case_bool_decide; [|case_bool_decide; [|case_bool_decide]].
  - eexists. split; [done|]. split_and!; intros; (done || lia).
  - destruct (drain_all (deliver data (set_wire w c))) as (n & ks & c' & Hd & Hdr); [done|simpl; lia..|].
    exists c'. split; [exact Hd|]. split_and!; intros; try lia. by exists n, ks.
  - destruct (sendNCK_ok (set_wire w c) (recvNO c + window c)) as [w' Hs]; [lia|].
    rewrite Hs. eexists. split; [done|]. split_and!; intros; (done || lia).
  - eexists. split; [done|]. split_and!; intros; (done || lia).
Qed.

(** ** Lemmas: the listener *)

(** Routing at the listener: a frame of a client (unmarked) never touches the
    connections this side opened, a frame of a server (marked) goes to the
    connection opened to its address and to nothing else, and an unknown peer
    gets a connection, in server role, only with a data frame. *)
Theorem recvPacket_routes fins acks addr cmd no len data sp l :
  is_marked cmd = false -> zlen data <= read_buffer - 7 ->
  let frame srv := mark srv (buildFrame cmd no len data) in
  let run srv := read_packet fins acks addr (frame srv) sp l in
  let pkt := GSlice (buildFrame cmd no len data) sp in
  openConnMap (run false) = openConnMap l /\
  (forall c, openConnMap l !! addr = Some c ->
     run true = Listener (cfg l) (accept l) (acceptConnMap l)
                  (<[addr := recv_into fins acks pkt c]> (openConnMap l))) /\
  (forall c, acceptConnMap l !! addr = Some c -> state c < CLOSED ->
     acceptConnMap (run false) = <[addr := recv_into fins acks pkt c]> (acceptConnMap l) /\
     accept (run false) = accept l) /\
  (acceptConnMap l !! addr = None ->
     (b2z cmd <> 0 -> run false = l) /\
     (b2z cmd = 0 -> accept (run false) = accept l ++ [addr] /\
        acceptConnMap (run false) =
        <[addr := recv_into fins acks pkt (set_server true (newConn (cfg l)))]> (acceptConnMap l))).
Proof.
  intros Hc Hlen frame run pkt. unfold read_buffer in Hlen.
  assert (Hrun : forall srv, run srv = recvPacket fins acks addr
    (if srv then z2b (Z.lor (b2z cmd) 128) else cmd) (be32 no ++ be16 len ++ data) sp l).
  { intros srv. unfold run, frame. rewrite mark_buildFrame. unfold read_packet.
    rewrite take_ge by (rewrite length_buildFrame; unfold read_buffer, zlen in *; lia).
    cbv zeta. rewrite bool_decide_false by (rewrite zlen_buildFrame; zlen_lia). done. }
  assert (Hcmd : forall srv : bool, let b := if srv then z2b (Z.lor (b2z cmd) 128) else cmd in
    (if bool_decide (Z.land 128 (b2z b) = 128) then unmark b else b) = cmd /\
    bool_decide (Z.land 128 (b2z b) = 128) = srv) by (intros srv; by apply unmark_mark).
  rewrite !Hrun. unfold recvPacket. cbv zeta in Hcmd.
  destruct (Hcmd true) as [-> ->], (Hcmd false) as [Hb Hm]. rewrite Hm.
  change (GSlice (cmd :: be32 no ++ be16 len ++ data) sp) with pkt.
  destruct (openConnMap l !! addr), (acceptConnMap l !! addr) as [a|]; simpl.
  all: repeat case_bool_decide; simpl; split_and!; intros; simplify_eq/=; try done; try lia.
  all: split_and!; intros; simplify_eq/=; try done; lia.
Qed.

(** ** Witnesses *)

Module Examples.

Definition ex_cfg : Config := listen_config [WithMTU 31].
(** Window 6, two frames received, frames 4 and 5 waiting. *)
Definition ex_conn : conn :=
  set_recvPool (<[4 := bs "d"]> (<[5 := bs "e"]> ∅)) (set_recvNO 2 (newConn ex_cfg)).

Lemma frame_roundtrip_witness :
  recv 1 [] (GSlice (received (mark true (buildFrame (z2b 0) 7 (u16 2) (bs "ab")))) []) ex_conn =
    recovering (recvData 7 (bs "ab")) ex_conn /\
  exists c', recv 1 [] (GSlice (received
      (mark true (buildFrame (z2b 2) 7 (u16 (zlen [3; 6] * 4)) (concat (be32 <$> [3; 6]))))) []) ex_conn
    = (Ok tt, c') /\ queue (nckc c') = queue (nckc ex_conn) ++ [Nck 7 [3; 6]].
Proof.
  apply (frame_roundtrip true 1 [] 7 (bs "ab") [3; 6] [] ex_conn);
    [done|done|lia|repeat constructor; lia|done].
Defined.

Lemma segments_concat_witness :
  concat (segments 4 (bs "hello wor")) = bs "hello wor" /\
  Forall (fun s => 0 < zlen s <= 4) (segments 4 (bs "hello wor")).
Proof. apply segments_concat. lia. Defined.

Lemma sendNCK_diverges_iff_witness :
  ((sendNCK 4294967295 ex_conn).1 = Err Diverges <-> 4294967295 = 4294967295) /\
  (4294967295 = 4294967295 ->
   forall fuel, nck_scan fuel (u32 (recvNO ex_conn + 1)) 4294967295 (recvPool ex_conn) = None).
Proof. apply (sendNCK_diverges_iff ex_conn 4294967295). lia. Defined.

Lemma sendNCK_exact_witness :
  let ms := gaps (recvPool ex_conn) 3 8 in
  sendNCK 8 ex_conn =
    (Ok tt, if bool_decide (zlen ms <= window ex_conn)
            then set_wire (wire ex_conn ++ [mark (server ex_conn)
                   (buildFrame (z2b 2) 8 (u16 (zlen ms * 4)) (concat (be32 <$> ms)))]) ex_conn
            else ex_conn) /\
  forall n, n ∈ ms <-> recvNO ex_conn < n <= 8 /\ recvPool ex_conn !! n = None.
Proof. apply (sendNCK_exact ex_conn 8); vm_compute; (done || (split; done)). Defined.

(** Frame 3 arrives: it is delivered with 4 and 5. *)
Lemma recvData_exact_witness :
  exists c', recvData 3 (bs "c") ex_conn = (Ok tt, c') /\
  (3 <= recvNO ex_conn -> c' = ack_step 3 ex_conn) /\
  (3 = recvNO ex_conn + 1 -> exists n ks, drained n ks (deliver (bs "c") (ack_step 3 ex_conn)) c') /\
  (recvNO ex_conn + 1 < 3 <= recvNO ex_conn + 2 * window ex_conn ->
     c' = set_recvPool (<[3 := bs "c"]> (recvPool ex_conn)) (ack_step 3 ex_conn)) /\
  (recvNO ex_conn + 2 * window ex_conn < 3 ->
     c' = (sendNCK (recvNO ex_conn + window ex_conn) (ack_step 3 ex_conn)).2).
Proof. apply (recvData_exact 3 (bs "c") ex_conn); vm_compute; (done || (split; done)). Defined.

Lemma ex_delivered :
  queue (inbound (recvData 3 (bs "c") ex_conn).2) = [bs "c"; bs "d"; bs "e"] /\
  recvNO (recvData 3 (bs "c") ex_conn).2 = 5.
Proof. split; vm_compute; reflexivity. Qed.

Definition ex_listener : listener := Listener ex_cfg [] ∅ {[bs "b" := ex_conn]}.

Lemma recvPacket_routes_witness :
  let run srv := read_packet 1 [] (bs "a") (mark srv (buildFrame (z2b 0) 1 2 (bs "hi"))) [] ex_listener in
  openConnMap (run false) = openConnMap ex_listener /\ accept (run false) = [bs "a"].
Proof.
  pose proof (recvPacket_routes 1 [] (bs "a") (z2b 0) 1 2 (bs "hi") [] ex_listener eq_refl ltac:(done))
    as (H1 & _ & _ & H4).
  split; [exact H1|]. exact (proj1 (proj2 (H4 eq_refl) eq_refl)).
Defined.

End Examples.
