(* ===== verification/RdtProtocol.v ===== *)
(** * Two [rdt] connections over an unreliable network

    The two ends of a stream run the operations of [Rdt.v] in any interleaving.
    The network may lose, reorder and duplicate: any frame an end ever put on
    its [wire] may reach the other end at any later moment, any number of times,
    or never.  The bytes of a frame are not altered on the way (the packet
    connection underneath is authenticated), but the reading loop takes them
    through a buffer of 1500 bytes and loses what does not fit.

    The channels of a connection have their capacities.  The reading loop, which
    handles one frame at a time, stops at a full channel and goes on when there
    is room: [take_frame] is the handling of a frame up to the first channel
    send, [put] a send with what follows it up to the next one.  [puts_recv]
    shows that the two together are [recv] of [Rdt.v].

    The end that calls [OpenStream] has its connection from the start; the other
    end has one when the first data frame arrives ([StepCreate]), and drops
    everything before.

    An [endpoint] is a connection with: whether it exists ([opened]), the send
    its reading loop is blocked in ([pending]), the segments [Write] has sent,
    the bytes [Read] has returned, and the segment a blocked [Write] is holding.
    Connections stay open: [Close] is the end of the protocol described here.
    Sequence numbers do not wrap: at most [max_frames] = 2^30 frames are
    written. *)

From S2P Require Import Prelude Rdt.

Definition max_frames : Z := 1073741824.

(** The capacities of the channels (rdt.go:579-581). *)
Definition inbound_cap : Z := 1024.
Definition nck_cap : Z := 256.
Definition nckQuery_cap : Z := 256.

(** ** The reading loop, one channel send at a time *)

(** What [recv] is about to send, and to which channel. *)
Inductive incoming := InData (data : bytes) | InQuery (no : Z) | InNck (n : nck).

(** [recvData] (rdt.go:306-343) up to the send of the next frame. *)
Definition take_data (no : Z) (data : bytes) : M (option incoming) :=
  c ← gets id;
  if bool_decide (state c = CLOSED) then mret None
  else if bool_decide (window c = 0) then panic
  else
    (if bool_decide (no mod window c = 0)
     then sendNCK (Z.min (u32 (recvNO c + window c)) no)
     else mret tt);;
    if bool_decide (no <= recvNO c) then mret None
    else if bool_decide (no = u32 (recvNO c + 1)) then mret (Some (InData data))
    else if bool_decide (u32 (no - recvNO c) > u32 (window c * 2)) then
      sendNCK (u32 (recvNO c + window c));; mret None
    else modify (fun c => set_recvPool (<[no := data]> (recvPool c)) c);; mret None.

(** [recv] (rdt.go:269-304) up to its first channel send.  The frames that end a
    connection are not part of the protocol: they are left to [Rdt.recv]. *)
Definition take_frame (fins : nat) (acks : list Z) (pkt : gslice) : M (option incoming) :=
  h ← lift (sl_sub pkt 1 5);
  no ← lift (sl_be32 h);
  h ← lift (sl_sub pkt 5 7);
  l ← lift (sl_be16 h);
  cmd ← lift (sl_get pkt 0);
  let cmd := b2z cmd in
  if bool_decide (cmd = 0) then
    data ← lift (sl_sub pkt 7 (u16 (l + 7)));
    take_data no (vis data)
  else if bool_decide (cmd = 1) then mret (Some (InQuery no))
  else if bool_decide (cmd = 2) then
    ms ← nck_entries pkt l;
    c ← gets id;
    (if bool_decide (ms = [] /\ no > ackNO c) then modify (set_ackNO no) else mret tt);;
    mret (Some (InNck (Nck no ms)))
  else recv fins acks pkt;; mret None.

(** The deferred [recover] of [recv]; [None] when it never returns. *)
Definition recovered (r : res loop_error (option incoming) * conn) : option (option incoming * conn) :=
  match r with
  | (Ok x, c) => Some (x, c)
  | (Panic, c) => Some (None, c)
  | (Err _, _) => None
  end.

Definition arrive (fins : nat) (acks : list Z) (pkt : gslice) (c : conn)
    : option (option incoming * conn) := recovered (take_frame fins acks pkt c).

(** The loop of [recvData] (rdt.go:320-333): the frame it sends next. *)
Definition next_pooled (c : conn) : option incoming * conn :=
  match recvPool c !! u32 (recvNO c + 1) with
  | Some k => (Some (InData k), set_recvPool (delete (recvNO c) (recvPool c)) c)
  | None => (None, c)
  end.

(** A channel send of the reading loop with what it does next; [None] while the
    channel is full.  A send on a closed channel panics, which [recv] recovers. *)
Definition put (x : incoming) (c : conn) : option (option incoming * conn) :=
  let send_to {A} (get : conn -> chan A) (set : chan A -> conn -> conn) (cap : Z) (v : A)
      (next : conn -> option incoming * conn) :=
    match chan_push get set v c with
    | (Ok _, c') => if bool_decide (zlen (queue (get c)) < cap) then Some (next c') else None
    | (_, c') => Some (None, c')
    end in
  match x with
  | InData d => send_to inbound set_inbound inbound_cap d
      (fun c => next_pooled (set_recvNO (u32 (recvNO c + 1)) c))
  | InQuery q => send_to nckQuery set_nckQuery nckQuery_cap q (fun c => (None, c))
  | InNck n => send_to nckc set_nckc nck_cap n (fun c => (None, c))
  end.

(** ** The ends and their steps *)

Record endpoint := Endpoint {
  ep : conn;
  opened : bool;
  pending : option incoming;
  written : list bytes;
  got : bytes;
  waiting : option bytes
}.

Definition with_conn (c : conn) (e : endpoint) : endpoint :=
  Endpoint c (opened e) (pending e) (written e) (got e) (waiting e).

(** The end after its reading loop has moved to [(x, c)]. *)
Definition with_reader (x : option incoming) (c : conn) (e : endpoint) : endpoint :=
  Endpoint c true x (written e) (got e) (waiting e).

(** One iteration of the loop of [Write] on segment [seg] when the window has
    room. *)
Definition write_segment (seg : bytes) (c : conn) (e : endpoint) : endpoint :=
  Endpoint (push_frame seg c) (opened e) (pending e) (written e ++ [seg]) (got e) None.

(** A [Write] may take up the segment [seg]. *)
Definition may_write (seg : bytes) (e : endpoint) : Prop :=
  waiting e = None /\ write_refused (ep e) = false /\
  0 < zlen seg <= frameSize (ep e) /\ zlen (written e) < max_frames.

(** What one [ReadFrom] of the reading loop sees of the frame [f], mark cleared. *)
Definition datagram (f : bytes) : bytes := received (take (Z.to_nat read_buffer) f).

(** The reading loop hands the datagram [d] to the end [e] (rdt.go:521-532): it is
    free, and does not skip a datagram shorter than a header. *)
Inductive takes (e : endpoint) (d : bytes) : option incoming -> conn -> Prop :=
| Takes fins acks sp x c :
    pending e = None -> 7 <= zlen d -> arrive fins acks (GSlice d sp) (ep e) = Some (x, c) ->
    takes e d x c.

(** The steps of one end; [peer] is the connection at the other. *)
Inductive local (peer : conn) (e : endpoint) : endpoint -> Prop :=
| LWrite seg :
    may_write seg e -> window_full (ep e) = false ->
    local peer e (write_segment seg (ep e) e)
| LBlock seg :
    may_write seg e -> window_full (ep e) = true ->
    local peer e (Endpoint (ep e) (opened e) (pending e) (written e) (got e) (Some seg))
| LWake seg c :
    waiting e = Some seg -> await_event (ep e) = Some (Ok tt, c) ->
    local peer e (if window_full c then with_conn c e else write_segment seg c e)
| LRecv f x c :
    f ∈ wire peer -> takes e (datagram f) x c -> local peer e (with_reader x c e)
| LPut x y c :
    pending e = Some x -> put x (ep e) = Some (y, c) -> local peer e (with_reader y c e)
| LCheck :
    local peer e (with_conn (check_loop (ep e)) e)
| LNck c :
    nck_loop (ep e) = Some c -> local peer e (with_conn c e)
| LQuery r c :
    nck_query_loop (ep e) = Some (r, c) -> local peer e (with_conn c e)
| LRead cap arm out c :
    0 <= cap -> Read cap arm (ep e) = Some (inl out, c) ->
    local peer e (Endpoint c (opened e) (pending e) (written e) (got e ++ out) (waiting e)).

(** An end runs only once it has a connection; the right end gets its connection
    with the first data frame it receives, and drops any other frame before
    (rdt.go:554-563). *)
Inductive step : endpoint * endpoint -> endpoint * endpoint -> Prop :=
| StepLeft e e' p : opened e = true -> local (ep p) e e' -> step (e, p) (e', p)
| StepRight e p p' : opened p = true -> local (ep e) p p' -> step (e, p) (e, p')
| StepCreate e p f x c :
    opened p = false -> f ∈ wire (ep e) -> head (datagram f) = Some (z2b 0) ->
    takes p (datagram f) x c -> step (e, p) (e, with_reader x c p).

(** A stream right after [OpenStream] at one side; the connection of the other
    side is the one the first data frame will create. *)
Definition initial (cfg : Config) : endpoint * endpoint :=
  (Endpoint (newConn cfg) true None [] [] None,
   Endpoint (set_server true (newConn cfg)) false None [] [] None).

Definition reachable (cfg : Config) (s : endpoint * endpoint) : Prop := rtc step (initial cfg) s.

(** A configuration whose window is not empty and whose frames fit the buffer of
    the reading loop; the default MTU is 1428.  [large_mtu_corrupts] shows what
    happens above 1500. *)
Definition good_cfg (cfg : Config) : Prop := 11 <= MTU cfg <= read_buffer.

(** ** [take_frame] and [put] together are [recv] *)

(** The sends of the reading loop, with room in the channels. *)
Definition puts : option incoming * conn -> option incoming * conn -> Prop :=
  rtc (fun s s' => exists x, s.1 = Some x /\ put x s.2 = Some s').

Lemma put_data d c :
  closed (inbound c) = false -> zlen (queue (inbound c)) < inbound_cap ->
  put (InData d) c = Some (next_pooled (set_recvNO (u32 (recvNO c + 1))
    (set_inbound (Chan (queue (inbound c) ++ [d]) false) c))).
Proof.
  intros Hopen Hroom. unfold put, chan_push, chan_send. rewrite Hopen.
  by rewrite bool_decide_true.
Qed.

Lemma put_query q c :
  closed (nckQuery c) = false -> zlen (queue (nckQuery c)) < nckQuery_cap ->
  put (InQuery q) c = Some (None, set_nckQuery (Chan (queue (nckQuery c) ++ [q]) false) c).
Proof.
  intros Hopen Hroom. unfold put, chan_push, chan_send. rewrite Hopen. by rewrite bool_decide_true.
Qed.

Lemma put_nck n c :
  closed (nckc c) = false -> zlen (queue (nckc c)) < nck_cap ->
  put (InNck n) c = Some (None, set_nckc (Chan (queue (nckc c) ++ [n]) false) c).
Proof.
  intros Hopen Hroom. unfold put, chan_push, chan_send. rewrite Hopen. by rewrite bool_decide_true.
Qed.

Lemma puts_drain fuel c c' :
  closed (inbound c) = false -> drain fuel c = (Ok tt, c') ->
  zlen (queue (inbound c')) <= inbound_cap ->
  puts (next_pooled c) (None, c') /\ zlen (queue (inbound c)) <= zlen (queue (inbound c')).
Proof.
  revert c. induction fuel as [|fuel IH]; intros c Hopen; [done|].
  rewrite drain_S by done. unfold next_pooled.
  destruct (recvPool c !! _) as [k|] eqn:Hk; [|intros [= <-]; split; [apply rtc_refl|lia]].
  intros Hrun Hcap. destruct (IH (drain_step k c)) as [Hp Hle]; [done|done|done|]. simpl in Hle.
  rewrite zlen_app, zlen_cons, zlen_nil in Hle. split; [|lia].
  eapply rtc_l; [|exact Hp]. eexists. split; [done|].
  cbn [fst snd]. by rewrite put_data by (simpl; done || lia).
Qed.

(** Decoding an NCK reads the frame only. *)
Lemma nck_entries_state pkt l c : (nck_entries pkt l c).2 = c.
Proof.
  unfold nck_entries. generalize (seq 0 (Z.to_nat (l / 4))). intros js.
  induction js as [|j js IH]; [done|]. cbn [fold_right]. rewrite gom_bind_run. cbn [lift].
  destruct (sl_sub _ _ _); [|done|done]. rewrite gom_bind_run. cbn [lift].
  destruct (sl_be32 _); [|done|done]. rewrite gom_bind_run.
  match goal with H : (?r).2 = c |- _ => destruct r as [[] ?] end; done.
Qed.

Lemma drain_no_panic fuel c : closed (inbound c) = false -> (drain fuel c).1 <> Panic.
Proof.
  revert c. induction fuel as [|fuel IH]; intros c Hopen; [done|].
  rewrite drain_S by done. destruct (recvPool c !! _); [by apply IH|done].
Qed.

Lemma sendNCK_shape no c : exists r w, sendNCK no c = (r, set_wire w c) /\ r <> Panic.
Proof.
  unfold sendNCK, mbind, gom_bind, gets, lift, send, modify, id.
  destruct (nck_scan _ _ _ _); simpl; [|eexists _, (wire c); by destruct c].
  case_bool_decide; [eexists _, (wire c); by destruct c|]. by eexists _, _.
Qed.

(** The handling of a data frame. *)
Lemma puts_recvData no data c c' :
  closed (inbound c) = false -> recovering (recvData no data) c = (Ok tt, c') ->
  zlen (queue (inbound c')) <= inbound_cap ->
  exists s, recovered (take_data no data c) = Some s /\ puts s (None, c').
Proof.
  intros Hopen. unfold recovering, recvData, take_data.
  unfold mbind, gom_bind, gets, modify, mret, gom_ret, panic, id. cbn [fst snd].
  case_bool_decide; [intros [= <-] _; by eexists; split; [done|apply rtc_refl]|].
  case_bool_decide; [intros [= <-] _; by eexists; split; [done|apply rtc_refl]|].
  set (ack := if bool_decide (no mod window c = 0) then _ else _).
  assert (Hack : exists r w, ack c = (r, set_wire w c) /\ r <> Panic).
  { unfold ack. case_bool_decide; [apply sendNCK_shape|]. eexists _, (wire c). by destruct c. }
  destruct Hack as (r & w & -> & Hr). clearbody ack. destruct r as [[]|[]|]; [|done|done].
  set (c1 := set_wire w c). assert (H1 : closed (inbound c1) = false) by done.
  case_bool_decide; [|case_bool_decide; [|case_bool_decide]].
  - intros [= <-] _. by eexists; split; [done|apply rtc_refl].
  - unfold chan_push, chan_send. rewrite H1. cbn [fst snd].
    set (c2 := set_recvNO _ _). destruct (drain _ c2) as [r c3] eqn:Hd.
    intros Hrun Hcap. assert (r = Ok tt /\ c3 = c') as [-> ->].
    { pose proof (drain_no_panic _ c2 eq_refl : (drain (S (size (recvPool c))) c2).1 <> Panic) as Hnp.
      rewrite Hd in Hnp. destruct r as [[]|[]|]; [by simplify_eq|done|done]. }
    destruct (puts_drain _ _ _ (eq_refl : closed (inbound c2) = false) Hd Hcap) as [Hp Hle].
    simpl in Hle. rewrite zlen_app, zlen_cons, zlen_nil in Hle.
    eexists. split; [done|]. eapply rtc_l; [|exact Hp]. eexists. split; [done|].
    cbn [fst snd]. by rewrite put_data by (simpl; done || lia).
  - destruct (sendNCK_shape (u32 (recvNO c + window c)) c1) as (r & w' & -> & _).
    destruct r as [[]|[]|]; [|done|]; intros [= <-] _;
      by eexists; split; [done|apply rtc_refl].
  - intros [= <-] _. by eexists; split; [done|apply rtc_refl].
Qed.

(** The reading loop stops early, with nothing to send. *)
Local Ltac stop := intros [= <-] ? ? ?; eexists; split; [done|apply rtc_refl].

(** What [recv] does to a frame is what the reading loop does in its steps, as
    long as the result fits the channels. *)
Theorem puts_recv fins acks pkt c c' :
  closed (inbound c) = false -> closed (nckc c) = false -> closed (nckQuery c) = false ->
  recv fins acks pkt c = (Ok tt, c') ->
  zlen (queue (inbound c')) <= inbound_cap -> zlen (queue (nckc c')) <= nck_cap ->
  zlen (queue (nckQuery c')) <= nckQuery_cap ->
  exists s, arrive fins acks pkt c = Some s /\ puts s (None, c').
Proof.
  intros Hin Hn Hq Hrecv. pose proof Hrecv as Hrecv'. revert Hrecv'.
  unfold recv at 1, recovering at 1, arrive, take_frame.
  unfold mbind, gom_bind, res_bind, lift, gets, modify, mret, gom_ret, panic, id.
  destruct (sl_sub pkt 1 5) as [h1| |]; [|done|stop].
  destruct (sl_be32 h1) as [no| |]; [|done|stop].
  destruct (sl_sub pkt 5 7) as [h2| |]; [|done|stop].
  destruct (sl_be16 h2) as [l| |]; [|done|stop].
  destruct (sl_get pkt 0) as [cmd| |]; [|done|stop].
  case_bool_decide; [|case_bool_decide; [|case_bool_decide]].
  - destruct (sl_sub pkt 7 _) as [d| |]; [|done|stop].
    intros Hrun Hc1 _ _. by apply puts_recvData.
  - unfold chan_push, chan_send. rewrite Hq. intros [= <-] _ _ Hcap. simpl in Hcap.
    rewrite zlen_app, zlen_cons, zlen_nil in Hcap.
    eexists. split; [done|]. apply rtc_once. eexists. split; [done|]. cbn [snd].
    by rewrite put_query by (done || lia).
  - destruct (nck_entries pkt l c) as [r c1] eqn:Hms.
    assert (c1 = c) as -> by (by apply (f_equal snd) in Hms; rewrite nck_entries_state in Hms).
    destruct r as [ms|[]|]; [|done|stop].
    set (upd := if bool_decide (ms = [] /\ no > ackNO c) then _ else _).
    assert (Hupd : exists a, upd c = (Ok tt, set_ackNO a c)).
    { unfold upd. case_bool_decide; [by eexists|]. exists (ackNO c). by destruct c. }
    destruct Hupd as [a ->]. clearbody upd.
    unfold chan_push, chan_send. cbn [nckc set_ackNO]. rewrite Hn. intros [= <-] _ Hcap _.
    simpl in Hcap. rewrite zlen_app, zlen_cons, zlen_nil in Hcap.
    eexists. split; [done|]. apply rtc_once. eexists. split; [done|]. cbn [snd].
    by rewrite put_nck by (simpl; done || lia).
  - intros _ _ _ _. rewrite Hrecv. eexists. split; [done|apply rtc_refl].
Qed.

(** ** What is known of frame [k] at a receiver *)

Definition nth_seg (w : list bytes) (k : Z) : option bytes :=
  if bool_decide (1 <= k) then w !! Z.to_nat (k - 1) else None.

(** Frame [k] has arrived. *)
Definition has (c : conn) (k : Z) : Prop := k <= recvNO c \/ is_Some (recvPool c !! k).

Definition data_frame (srv : bool) (k : Z) (seg : bytes) : bytes :=
  mark srv (buildFrame (z2b 0) k (u16 (zlen seg)) seg).
Definition query_frame (srv : bool) (q : Z) : bytes := mark srv (buildFrame (z2b 1) q 0 []).
Definition nck_frame (srv : bool) (no : Z) (ms : list Z) : bytes :=
  mark srv (buildFrame (z2b 2) no (u16 (zlen ms * 4)) (concat (be32 <$> ms))).

Lemma nth_seg_Some w k s : nth_seg w k = Some s -> 1 <= k <= zlen w.
Proof.
  unfold nth_seg. case_bool_decide; [|done]. intros Hs%lookup_lt_Some. unfold zlen. lia.
Qed.

Lemma nth_seg_is_Some w k : 1 <= k <= zlen w -> is_Some (nth_seg w k).
Proof.
  intros Hk. unfold nth_seg. rewrite bool_decide_true by lia.
  apply lookup_lt_is_Some. unfold zlen in *. lia.
Qed.

Lemma nth_seg_app w x k s : nth_seg w k = Some s -> nth_seg (w ++ x) k = Some s.
Proof.
  unfold nth_seg. case_bool_decide; [|done]. apply lookup_app_l_Some.
Qed.

Lemma nth_seg_end w s : nth_seg (w ++ [s]) (zlen w + 1) = Some s.
Proof.
  pose proof (zlen_nonneg w). unfold nth_seg. rewrite bool_decide_true by lia.
  replace (Z.to_nat (zlen w + 1 - 1)) with (length w) by (unfold zlen; lia).
  by apply list_lookup_middle.
Qed.

Section Invariant.
(** The window and frame size of both ends. *)
Variables w fs : Z.
Hypothesis Hw : 0 < w < 16383.
Hypothesis Hfs : 0 < fs /\ 4 * w <= fs <= 1493.

(** Everything up to [n] has arrived at [c]. *)
Definition upto (c : conn) (n : Z) : Prop := forall k, 1 <= k <= n -> has c k.

(** A query the receiver [c] can answer with one frame. *)
Definition query_ok (c : conn) (q : Z) : Prop := 0 <= q <= max_frames + w /\ upto c (q - w).

(** An NCK a receiver [c] has sent: what it does not list has arrived. *)
Definition nck_ok (c : conn) (no : Z) (ms : list Z) : Prop :=
  0 <= no <= max_frames + w /\ zlen ms <= w /\ Forall (fun n => 0 <= n < 4294967296) ms /\
  forall k, 1 <= k <= no -> k ∉ ms -> has c k.

(** The frames [x] may have sent: its own segments [wx], queries the peer [y] can
    answer, and correct NCKs. *)
Inductive good_frame (x : conn) (wx : list bytes) (y : conn) (f : bytes) : Prop :=
| GData k seg : nth_seg wx k = Some seg -> f = data_frame (server x) k seg -> good_frame x wx y f
| GQuery q : query_ok y q -> f = query_frame (server x) q -> good_frame x wx y f
| GNck no ms : nck_ok x no ms -> f = nck_frame (server x) no ms -> good_frame x wx y f.

Record Static (c : conn) : Prop := {
  st_window : window c = w;
  st_frameSize : frameSize c = fs;
  st_state : state c = Established;
  st_inbound : closed (inbound c) = false;
  st_nckc : closed (nckc c) = false;
  st_nckQuery : closed (nckQuery c) = false;
  st_sendEvent : sendEventClosed c = false
}.

(** [x] as the sender of [wx] to [y]. *)
Record Snd (x : conn) (wx : list bytes) (y : conn) : Prop := {
  snd_no : sentNO x = zlen wx;
  snd_max : zlen wx <= max_frames;
  snd_segs : Forall (fun s => zlen s <= fs) wx;
  snd_pool : forall k pkt, sendPool x !! k = Some pkt ->
    exists seg, nth_seg wx k = Some seg /\ pkt = data_frame (server x) k seg;
  snd_ack : 0 <= ackNO x /\ upto y (ackNO x);
  snd_ncks : Forall (fun n => nck_ok y (nck_no n) (missing n)) (queue (nckc x));
  snd_noloss : forall k, 1 <= k <= zlen wx -> is_Some (sendPool x !! k) \/ has y k;
  snd_window : Z.of_nat (size (sendPool x)) <= w;
  snd_wire : Forall (good_frame x wx y) (wire x)
}.

(** [y] as the receiver of [wx]; its [Read] calls returned [gy] so far. *)
Record Rcv (wx : list bytes) (y : conn) (gy : bytes) : Prop := {
  rcv_no : 0 <= recvNO y <= zlen wx;
  rcv_max : zlen wx <= max_frames;
  rcv_pool : forall k seg, recvPool y !! k = Some seg -> nth_seg wx k = Some seg;
  rcv_stream : gy ++ default [] (inboundBuf y) ++ concat (queue (inbound y)) =
               concat (take (Z.to_nat (recvNO y)) wx);
  rcv_query : Forall (query_ok y) (queue (nckQuery y))
}.

(** The reading loop of [x], the receiver of [wy], between two sends: nothing is
    left to deliver, or the frame being delivered is the next one; a query can be
    answered, an NCK is correct. *)
Definition pend_ok (wy : list bytes) (x y : conn) (p : option incoming) : Prop :=
  match p with
  | Some (InData d) => nth_seg wy (recvNO x + 1) = Some d
  | Some (InQuery q) => recvPool x !! (recvNO x + 1) = None /\ query_ok x q
  | Some (InNck n) => recvPool x !! (recvNO x + 1) = None /\ nck_ok y (nck_no n) (missing n)
  | None => recvPool x !! (recvNO x + 1) = None
  end.

Record Inv (e p : endpoint) : Prop := {
  inv_static : Static (ep e);
  inv_static' : Static (ep p);
  inv_snd : Snd (ep e) (written e) (ep p);
  inv_snd' : Snd (ep p) (written p) (ep e);
  inv_rcv : Rcv (written p) (ep e) (got e);
  inv_rcv' : Rcv (written e) (ep p) (got p);
  inv_pend : pend_ok (written p) (ep e) (ep p) (pending e);
  inv_pend' : pend_ok (written e) (ep p) (ep e) (pending p);
  inv_wait : forall seg, waiting e = Some seg -> 0 < zlen seg <= fs /\ zlen (written e) < max_frames;
  inv_wait' : forall seg, waiting p = Some seg -> 0 < zlen seg <= fs /\ zlen (written p) < max_frames
}.

Lemma Inv_sym e p : Inv e p -> Inv p e.
Proof. intros []. by constructor. Qed.

(** *** Monotonicity *)

(** What has arrived at [c] has arrived at [c']. *)
Definition extends (c c' : conn) : Prop :=
  recvNO c <= recvNO c' /\ forall k, has c k -> has c' k.

Lemma extends_same c c' : recvNO c' = recvNO c -> recvPool c' = recvPool c -> extends c c'.
Proof. intros H1 H2. split; [lia|]. unfold has. by rewrite H1, H2. Qed.

Lemma upto_extends c c' n : extends c c' -> upto c n -> upto c' n.
Proof. intros [_ He] H k Hk. auto. Qed.

Lemma query_ok_extends c c' q : extends c c' -> query_ok c q -> query_ok c' q.
Proof. intros He [H1 H2]. split; [done|]. by eapply upto_extends. Qed.

Lemma nck_ok_extends c c' no ms : extends c c' -> nck_ok c no ms -> nck_ok c' no ms.
Proof. intros [_ He] (H1 & H2 & H3 & H4). refine (conj H1 (conj H2 (conj H3 _))). naive_solver. Qed.

Lemma good_frame_mono x x' wx wx' y y' f :
  extends x x' -> server x' = server x -> wx `prefix_of` wx' -> extends y y' ->
  good_frame x wx y f -> good_frame x' wx' y' f.
Proof.
  intros He Hs [ex ->] Hr [k seg Hk ->|q Hq ->|no ms Hn ->]; rewrite <- Hs.
  - eapply GData; [|done]. by apply nth_seg_app.
  - eapply GQuery; [|done]. by eapply query_ok_extends.
  - eapply GNck; [|done]. by eapply nck_ok_extends.
Qed.

(** The reader is the same, its peer may have advanced and written. *)
Lemma pend_keep wy wy' x x' y y' p :
  recvNO x' = recvNO x -> recvPool x' = recvPool x -> extends y y' -> wy `prefix_of` wy' ->
  pend_ok wy x y p -> pend_ok wy' x' y' p.
Proof.
  intros H1 H2 Hy [ex ->]. assert (Hx : extends x x') by by apply extends_same.
  destruct p as [[d|q|n]|]; simpl; rewrite H1, ?H2; [by apply nth_seg_app| | |done].
  - intros [? ?]. split; [done|]. by eapply query_ok_extends.
  - intros [? ?]. split; [done|]. by eapply nck_ok_extends.
Qed.

(** The receiver advances. *)
Lemma Snd_extends x wx y y' : extends y y' -> Snd x wx y -> Snd x wx y'.
Proof.
  intros He [H1 H2 H3 H4 H5 H6 H7 H8 H9]. assert (He' := He). destruct He' as [Hr Hh].
  constructor; try done.
  - split; [apply H5|]. by eapply upto_extends, H5.
  - eapply Forall_impl; [exact H6|]. intros n. by apply nck_ok_extends.
  - intros k Hk. destruct (H7 k Hk); [by left|right; auto].
  - eapply Forall_impl; [exact H9|]. intros f.
    by apply good_frame_mono; [apply extends_same| | |].
Qed.

(** The sender does something other than sending data: its state as a sender is
    the same and the frames it adds are good. *)
Definition same_sender (x x' : conn) : Prop :=
  server x' = server x /\ sentNO x' = sentNO x /\ sendPool x' = sendPool x /\ ackNO x' = ackNO x /\
  queue (nckc x') = queue (nckc x).

Lemma Snd_keep x x' wx y new :
  same_sender x x' -> extends x x' ->
  wire x' = wire x ++ new -> Forall (good_frame x' wx y) new ->
  Snd x wx y -> Snd x' wx y.
Proof.
  intros (Hs & Hn & Hp & Ha & Hq) He Hwi Hnew [H1 H2 H3 H4 H5 H6 H7 H8 H9].
  constructor; rewrite ?Hn, ?Hp, ?Ha, ?Hq, ?Hs; try done.
  rewrite Hwi. apply Forall_app. split; [|done].
  eapply Forall_impl; [exact H9|]. intros f. by apply good_frame_mono.
Qed.

(** The sender takes in or handles an NCK. *)
Lemma Snd_control x x' wx y :
  server x' = server x -> sentNO x' = sentNO x -> sendPool x' = sendPool x -> wire x' = wire x ->
  extends x x' -> 0 <= ackNO x' /\ upto y (ackNO x') ->
  Forall (fun n => nck_ok y (nck_no n) (missing n)) (queue (nckc x')) ->
  Snd x wx y -> Snd x' wx y.
Proof.
  intros E1 E2 E3 E4 He Ha Hq [H1 H2 H3 H4 H5 H6 H7 H8 H9].
  constructor; rewrite ?E1, ?E2, ?E3, ?E4; try done.
  eapply Forall_impl; [exact H9|]. intros f. by apply good_frame_mono.
Qed.

Lemma Rcv_written wx s y gy : zlen wx < max_frames -> Rcv wx y gy -> Rcv (wx ++ [s]) y gy.
Proof.
  intros Hm [H1 H2 H3 H4 H5]. constructor; try done.
  - rewrite zlen_app. pose proof (zlen_nonneg [s]). lia.
  - rewrite zlen_app, zlen_cons, zlen_nil. lia.
  - intros k seg Hk. apply nth_seg_app. auto.
  - rewrite H4, take_app_le; [done|]. unfold zlen in *. lia.
Qed.

(** The receiver side of [y] is the same. *)
Lemma Rcv_keep wx y y' gy :
  recvNO y' = recvNO y -> recvPool y' = recvPool y -> inboundBuf y' = inboundBuf y ->
  queue (inbound y') = queue (inbound y) -> queue (nckQuery y') = queue (nckQuery y) ->
  Rcv wx y gy -> Rcv wx y' gy.
Proof.
  intros E1 E2 E3 E4 E5 [H1 H2 H3 H4 H5]. constructor; rewrite ?E1, ?E2, ?E3, ?E4, ?E5; try done.
  eapply Forall_impl; [exact H5|]. intros q. apply query_ok_extends. by apply extends_same.
Qed.

(** What has arrived has been written. *)
Lemma has_written wx y g k : Rcv wx y g -> has y k -> k <= zlen wx.
Proof.
  intros [H1 _ H3 _ _] [Hk|[s Hs]]; [lia|]. apply H3, nth_seg_Some in Hs. lia.
Qed.

Lemma upto_written wx y g n : Rcv wx y g -> upto y n -> n <= zlen wx.
Proof.
  intros HR Hu. pose proof (rcv_no _ _ _ HR). destruct (Z_le_gt_dec n 0); [lia|].
  eapply has_written; [exact HR|]. apply Hu. lia.
Qed.

(** *** Sending an NCK *)

Definition nck_of (c : conn) (f : bytes) : Prop :=
  exists no ms, nck_ok c no ms /\ f = nck_frame (server c) no ms.

Lemma nck_of_good c wx y new : Forall (nck_of c) new -> Forall (good_frame c wx y) new.
Proof. intros H. eapply Forall_impl; [exact H|]. intros f (no & ms & ? & ->). by eapply GNck. Qed.

Lemma nck_of_extends c c' new :
  extends c c' -> server c' = server c -> Forall (nck_of c) new -> Forall (nck_of c') new.
Proof.
  intros He Hs H. eapply Forall_impl; [exact H|]. intros f (no & ms & ? & ->).
  exists no, ms. rewrite Hs. split; [by eapply nck_ok_extends|done].
Qed.

(** Numbers in the pool are not reported. *)
Lemma gaps_skip pool lo m hi :
  lo <= m -> (forall k, lo <= k < m -> is_Some (pool !! k)) -> gaps pool lo hi = gaps pool m hi \/ hi < m.
Proof.
  intros Hle Hpool. destruct (Z_lt_ge_dec hi m); [by right|left].
  remember (Z.to_nat (m - lo)) as n eqn:Hn. revert lo Hle Hpool Hn.
  induction n as [|n IH]; intros lo Hle Hpool Hn; [by replace lo with m by lia|].
  rewrite gaps_cons by lia. destruct (Hpool lo) as [x ->]; [lia|].
  apply IH; [lia| |lia]. intros k Hk. apply Hpool. lia.
Qed.

Lemma length_gaps_query c q :
  0 <= recvNO c -> query_ok c q -> zlen (gaps (recvPool c) (recvNO c + 1) q) <= w.
Proof.
  intros Hr [_ Hu]. destruct (Z_le_gt_dec (q - w) (recvNO c)).
  { pose proof (length_gaps (recvPool c) (recvNO c + 1) q). lia. }
  destruct (gaps_skip (recvPool c) (recvNO c + 1) (q - w + 1) q) as [->|?]; [lia| | |lia].
  - intros k Hk. destruct (Hu k) as [?|?]; [lia|lia|done].
  - pose proof (length_gaps (recvPool c) (q - w + 1) q). lia.
Qed.

(** An NCK for the query [q]. *)
Lemma gaps_ok c q :
  0 <= recvNO c -> query_ok c q -> nck_ok c q (gaps (recvPool c) (recvNO c + 1) q).
Proof.
  intros Hr Hq. pose proof (length_gaps_query c q Hr Hq). destruct Hq as [Hq _].
  unfold nck_ok, max_frames in *. split_and!; try done; try lia.
  - apply Forall_forall. intros n [Hn _]%elem_of_gaps. lia.
  - intros k Hk Hg. unfold has. destruct (recvPool c !! k) eqn:Hp; [right; by eexists|left].
    destruct (decide (k <= recvNO c)); [done|]. destruct Hg. apply elem_of_gaps. split; [lia|done].
Qed.

Lemma sendNCK_good c q :
  Static c -> 0 <= recvNO c <= max_frames -> query_ok c q ->
  sendNCK q c = (Ok tt, set_wire
    (wire c ++ [nck_frame (server c) q (gaps (recvPool c) (recvNO c + 1) q)]) c) /\
  nck_ok c q (gaps (recvPool c) (recvNO c + 1) q).
Proof.
  intros Hst Hr Hq. pose proof (gaps_ok c q ltac:(lia) Hq) as Hok. split; [|done].
  destruct Hok as (Hno & Hlen & _). unfold max_frames in *.
  unfold sendNCK, mbind, gom_bind, gets, id. rewrite sendNCK_scan by lia.
  rewrite (u32_small (recvNO c + 1)) by lia. set (ms := gaps _ _ _) in *.
  pose proof (zlen_nonneg ms). rewrite (st_window _ Hst), (u16_small (zlen ms)), (u16_small w) by lia.
  rewrite bool_decide_false by lia. done.
Qed.

Lemma query_near c no :
  0 <= recvNO c <= max_frames -> 0 <= no <= recvNO c + w -> query_ok c no.
Proof. intros Hr Hno. split; [lia|]. intros k Hk. left. lia. Qed.

Lemma sendNCK_new c q :
  Static c -> 0 <= recvNO c <= max_frames -> query_ok c q ->
  exists new, sendNCK q c = (Ok tt, set_wire (wire c ++ new) c) /\ Forall (nck_of c) new.
Proof.
  intros Hst Hr Hno. destruct (sendNCK_good c q Hst Hr Hno) as [Heq Hok].
  eexists. split; [exact Heq|]. repeat constructor. by eexists _, _.
Qed.

(** *** Receiving data *)

(** The outcome of a step of a receiver: it stays a receiver of the same stream,
    extends what has arrived, keeps the state of the sender in it, and adds only
    correct NCKs to the wire. *)
Record received_step (wx : list bytes) (g : bytes) (c c' : conn) : Prop := {
  rs_static : Static c';
  rs_rcv : Rcv wx c' g;
  rs_extends : extends c c';
  rs_sender : same_sender c c';
  rs_parked : parked c' = parked c;
  rs_wire : exists new, wire c' = wire c ++ new /\ Forall (nck_of c') new
}.

Lemma received_wire wx g c new :
  Static c -> Rcv wx c g -> Forall (nck_of c) new ->
  received_step wx g c (set_wire (wire c ++ new) c).
Proof.
  intros Hst Hr Hn. split.
  - by destruct Hst.
  - by apply (Rcv_keep _ c).
  - by apply extends_same.
  - done.
  - done.
  - exists new. split; [done|]. by eapply nck_of_extends; [apply extends_same| |].
Qed.

Lemma received_trans wx g a b c :
  received_step wx g a b -> received_step wx g b c -> received_step wx g a c.
Proof.
  intros [_ _ [Hr1 H3] H4 P1 (n1 & W1 & N1)] [S2 R2 [Hr2 H3'] H4' P2 (n2 & W2 & N2)].
  assert (server c = server b) as Hs by apply H4'.
  split; [done|done|split; [lia|auto]| | |].
  - unfold same_sender in *. intuition congruence.
  - congruence.
  - exists (n1 ++ n2). rewrite W2, W1, <- app_assoc. split; [done|].
    apply Forall_app. split; [|done]. by eapply nck_of_extends; [split| |].
Qed.

(** The reading loop while it handles a data frame. *)
Definition data_pend (wx : list bytes) (c : conn) (p : option incoming) : Prop :=
  match p with
  | Some (InData d) => nth_seg wx (recvNO c + 1) = Some d
  | None => recvPool c !! (recvNO c + 1) = None
  | _ => False
  end.

Lemma data_pend_ok wx c y p : data_pend wx c p -> pend_ok wx c y p.
Proof. by destruct p as [[]|]. Qed.

(** The send of the next frame. *)
Lemma put_data_ok wx g c d s :
  Static c -> Rcv wx c g -> nth_seg wx (recvNO c + 1) = Some d -> put (InData d) c = Some s ->
  received_step wx g c s.2 /\ data_pend wx s.2 s.1 /\ recvNO s.2 = recvNO c + 1.
Proof.
  intros Hst HR Hd Hput. pose proof (nth_seg_Some _ _ _ Hd) as Hle.
  destruct (decide (zlen (queue (inbound c)) < inbound_cap)) as [Hroom|Hroom].
  2: { unfold put, chan_push, chan_send in Hput. rewrite (st_inbound _ Hst) in Hput.
       by rewrite bool_decide_false in Hput. }
  rewrite put_data in Hput by (apply Hst || done). injection Hput as <-.
  destruct HR as [H1 H2 H3 H4 H5]. unfold max_frames in *. rewrite u32_small by lia.
  set (c1 := set_recvNO _ _).
  assert (Hs : received_step wx g c c1).
  { split; simpl.
    - by destruct Hst.
    - constructor; simpl; [lia|done|done| |].
      + assert (Hnth : wx !! Z.to_nat (recvNO c) = Some d).
        { unfold nth_seg in Hd. rewrite bool_decide_true in Hd by lia. rewrite <- Hd. f_equal. lia. }
        replace (Z.to_nat (recvNO c + 1)) with (S (Z.to_nat (recvNO c))) by lia.
        rewrite (take_S_r _ _ d) by done. rewrite !concat_app, <- H4. simpl.
        by rewrite app_nil_r, <- !app_assoc.
      + eapply Forall_impl; [exact H5|]. intros q. apply query_ok_extends.
        split; [simpl; lia|]. intros k [?|?]; [left; simpl; lia|by right].
    - split; [simpl; lia|]. intros k [?|?]; [left; simpl; lia|by right].
    - done.
    - done.
    - exists []. by rewrite app_nil_r. }
  unfold next_pooled. change (recvNO c1) with (recvNO c + 1). change (recvPool c1) with (recvPool c).
  destruct (decide (recvNO c + 1 + 1 < 4294967296)); [|lia]. rewrite u32_small by lia.
  destruct (recvPool c !! (recvNO c + 1 + 1)) as [k|] eqn:Hk; simpl; [|done].
  split; [|split; [by apply H3|done]].
  eapply received_trans; [exact Hs|]. destruct Hs as [[] [R1 R2 R3 R4 R5] _ _ _ _].
  assert (Hex : extends c1 (set_recvPool (delete (recvNO c + 1) (recvPool c)) c1)).
  { split; [done|]. intros i [?|Hi]; [by left|]. destruct (decide (i = recvNO c + 1)) as [->|].
    - left. simpl. lia.
    - right. simpl in *. by rewrite lookup_delete_ne by done. }
  split; [by constructor| |exact Hex|done|done|exists []; by rewrite app_nil_r].
  constructor; simpl; try done.
  - intros i seg [_ Hi]%lookup_delete_Some. by apply H3.
  - eapply Forall_impl; [exact R5|]. intros q. by apply query_ok_extends.
Qed.

Lemma ack_step_received wx g c no :
  Static c -> Rcv wx c g -> 0 <= no < 4294967295 ->
  exists new, ack_step no c = set_wire (wire c ++ new) c /\ Forall (nck_of c) new.
Proof.
  intros Hst HR Hno. destruct (HR) as [H1 H2 _ _ _]. unfold ack_step. case_bool_decide.
  - destruct (sendNCK_new c (Z.min (recvNO c + window c) no)) as (new & Heq & Hn);
      rewrite ?(st_window _ Hst); try done; try lia; [apply query_near; lia|].
    exists new. rewrite <- (st_window _ Hst), Heq. done.
  - exists []. rewrite app_nil_r. by destruct c.
Qed.

(** [take_data] as a choice between four outcomes. *)
Lemma take_data_unfold no data c :
  state c <> CLOSED -> 0 < window c < 16384 ->
  0 <= recvNO c -> 0 <= no < 4294967295 -> recvNO c + 2 * window c < 4294967295 ->
  take_data no data c =
  let c1 := ack_step no c in
  if bool_decide (no <= recvNO c) then (Ok None, c1)
  else if bool_decide (no = recvNO c + 1) then (Ok (Some (InData data)), c1)
  else if bool_decide (no - recvNO c > window c * 2) then
    (sendNCK (recvNO c + window c);; mret None) c1
  else (Ok None, set_recvPool (<[no := data]> (recvPool c1)) c1).
Proof.
  intros Hst Hw' Hr Hno Hmax. unfold take_data.
  destruct (ack_step_wire no c Hno Hr ltac:(lia)) as [v [Heq Hs]]. rewrite Heq.
  unfold mbind, gom_bind, gets, modify, mret, gom_ret, panic, id.
  rewrite (bool_decide_false (state c = CLOSED)), (bool_decide_false (window c = 0)) by (done || lia).
  rewrite !(u32_small (recvNO c + _)) by lia. rewrite (u32_small (window c * 2)) by lia.
  assert (Hack : (if bool_decide (no mod window c = 0)
    then sendNCK (Z.min (recvNO c + window c) no)
    else fun s => (Ok tt, s)) c = (Ok tt, set_wire v c)).
  { unfold ack_step in Heq. destruct (bool_decide (no mod window c = 0)); [by apply Hs|].
    f_equal. exact Heq. }
  rewrite Hack. clear Hs Hack. case_bool_decide; [done|]. case_bool_decide; [done|].
  rewrite (u32_small (no - recvNO c)) by lia. case_bool_decide; done.
Qed.

Lemma take_data_ok wx g c no data :
  Static c -> Rcv wx c g -> recvPool c !! (recvNO c + 1) = None -> nth_seg wx no = Some data ->
  exists x c', take_data no data c = (Ok x, c') /\ received_step wx g c c' /\ data_pend wx c' x.
Proof.
  intros Hst HR Hgap Hdata. pose proof (nth_seg_Some _ _ _ Hdata) as Hno.
  destruct (HR) as [H1 H2 _ _ _]. pose proof (st_window _ Hst) as Hwin. unfold max_frames in *.
  rewrite take_data_unfold by (rewrite ?(st_state _ Hst), ?Hwin; done || lia).
  destruct (ack_step_received wx g c no Hst HR) as (new & Heq & Hnew); [lia|].
  pose proof (received_wire _ _ _ _ Hst HR Hnew) as Hstep1. rewrite Heq. set (c1 := set_wire _ c) in *.
  cbv zeta. case_bool_decide; [|case_bool_decide; [|case_bool_decide]].
  - by eexists None, _.
  - subst no. by eexists (Some (InData data)), _.
  - destruct (sendNCK_new c1 (recvNO c + w)) as (new' & Hrun & Hn');
      [apply Hstep1|unfold max_frames; simpl; lia|apply query_near; unfold max_frames; simpl; lia|].
    eexists None, _. rewrite Hwin, gom_bind_run, Hrun. split; [done|]. split; [|done].
    eapply received_trans; [exact Hstep1|]. apply received_wire; [apply Hstep1|apply Hstep1|done].
  - eexists None, _. split; [done|]. split; [|simpl; by rewrite lookup_insert_ne by lia].
    eapply received_trans; [exact Hstep1|].
    destruct (rs_rcv _ _ _ _ Hstep1) as [R1 R2 R3 R4 R5].
    assert (Hex : extends c1 (set_recvPool (<[no:=data]> (recvPool c1)) c1)).
    { split; [done|]. unfold has. simpl. intros k [?|[x Hx]]; [by left|right].
      destruct (decide (k = no)) as [->|]; [rewrite lookup_insert_eq; by eexists|].
      rewrite lookup_insert_ne by done. by eexists. }
    split; [by destruct Hst| |exact Hex|done|done|exists []; by rewrite app_nil_r].
    constructor; simpl; try done.
    + intros k seg. destruct (decide (k = no)) as [->|].
      * rewrite lookup_insert_eq. congruence.
      * rewrite lookup_insert_ne by done. apply R3.
    + eapply Forall_impl; [exact R5|]. intros q. by apply query_ok_extends.
Qed.

(** *** The steps of one end preserve the invariant *)

(** What every step of [e] has to establish about its new connection. *)
Record local_ok (wx wy : list bytes) (gx : bytes) (y x x' : conn) : Prop := {
  lo_static : Static x';
  lo_snd : Snd x' wx y;
  lo_rcv : Rcv wy x' gx;
  lo_extends : extends x x'
}.

Lemma local_ok_inv e p x' o px gx :
  Inv e p -> local_ok (written e) (written p) gx (ep p) (ep e) x' ->
  pend_ok (written p) x' (ep p) px ->
  Inv (Endpoint x' o px (written e) gx (waiting e)) p.
Proof.
  intros [H1 H2 H3 H4 H5 H6 H7 H8 H9 H10] [S1 S2 S3 S4] Hp. constructor; simpl; try done.
  - by eapply Snd_extends.
  - by eapply pend_keep.
Qed.

(** A step that leaves the reading loop alone. *)
Lemma local_same_inv e p x' gx :
  Inv e p -> local_ok (written e) (written p) gx (ep p) (ep e) x' ->
  recvNO x' = recvNO (ep e) -> recvPool x' = recvPool (ep e) ->
  Inv (Endpoint x' (opened e) (pending e) (written e) gx (waiting e)) p.
Proof.
  intros H Hl H1 H2. apply local_ok_inv; [done|done|]. by eapply pend_keep, inv_pend.
Qed.

Lemma push_frame_ok x wx y seg :
  Static x -> Snd x wx y -> window_full x = false -> zlen seg <= fs -> zlen wx < max_frames ->
  Static (push_frame seg x) /\ Snd (push_frame seg x) (wx ++ [seg]) y.
Proof.
  intros Hst [H1 H2 H3 H4 H5 H6 H7 H8 H9] Hroom Hseg Hmax.
  pose proof (zlen_nonneg wx). pose proof (st_window _ Hst) as Hwin.
  assert (Hno : u32 (sentNO x + 1) = zlen wx + 1) by (rewrite H1, u32_small; unfold max_frames in *; lia).
  unfold push_frame. rewrite Hno. fold (data_frame (server x) (zlen wx + 1) seg).
  split; [by destruct Hst|]. constructor; simpl; try done.
  - by rewrite zlen_app, zlen_cons, zlen_nil, Z.add_0_r.
  - rewrite zlen_app, zlen_cons, zlen_nil. lia.
  - apply Forall_app. split; [done|]. by constructor.
  - intros k pkt Hk. destruct (decide (k = zlen wx + 1)) as [->|].
    + rewrite lookup_insert_eq in Hk. injection Hk as <-.
      exists seg. split; [apply nth_seg_end|done].
    + rewrite lookup_insert_ne in Hk by done. destruct (H4 k pkt Hk) as (s & Hs & ->).
      exists s. split; [by apply nth_seg_app|done].
  - intros k Hk. destruct (decide (k = zlen wx + 1)) as [->|].
    + left. rewrite lookup_insert_eq. by eexists.
    + rewrite lookup_insert_ne by done. apply H7.
      rewrite zlen_app, zlen_cons, zlen_nil in Hk. lia.
  - unfold window_full in Hroom. apply bool_decide_eq_false in Hroom.
    pose proof (map_size_insert (zlen wx + 1) (data_frame (server x) (zlen wx + 1) seg) (sendPool x)) as Hsz.
    rewrite Hsz. destruct (sendPool x !! (zlen wx + 1)); unfold id; lia.
  - apply Forall_app. split.
    + eapply Forall_impl; [exact H9|]. intros f.
      apply good_frame_mono; [by apply extends_same|done|by eexists|done].
    + constructor; [|constructor]. eapply GData; [apply nth_seg_end|]. unfold data_frame. apply mark_idemp.
Qed.

(** Writing the next segment. *)
Lemma write_inv e p seg c :
  Inv e p -> c = ep e \/ c = set_parked false (ep e) ->
  window_full c = false -> 0 < zlen seg <= fs -> zlen (written e) < max_frames ->
  Inv (write_segment seg c e) p.
Proof.
  intros [H1 H2 H3 H4 H5 H6 H7 H8 H9 H10] Hc Hroom Hseg Hmax.
  assert (Hcs : Static c /\ Snd c (written e) (ep p) /\ Snd (ep p) (written p) c /\
    Rcv (written p) c (got e)).
  { destruct Hc as [->| ->]; [done|]. split_and!.
    - by destruct H1.
    - apply (Snd_keep (ep e) _ _ _ []); [done|by apply extends_same|by rewrite app_nil_r|done|done].
    - apply (Snd_extends _ _ (ep e)); [by apply extends_same|done].
    - by apply (Rcv_keep _ (ep e)). }
  destruct Hcs as (C1 & C3 & C4 & C5).
  destruct (push_frame_ok c (written e) (ep p) seg C1 C3 Hroom) as [P1 P3]; [lia|done|].
  constructor; simpl; try done.
  - apply (Snd_extends _ _ c); [by apply extends_same|done].
  - by apply (Rcv_keep _ c).
  - by apply Rcv_written.
  - eapply pend_keep; [| | | |exact H7]; try done; by destruct Hc as [->| ->].
  - eapply pend_keep; [done|done| |by eexists|exact H8].
    apply extends_same; by destruct Hc as [->| ->].
Qed.

(** *** Receiving any frame of the peer *)

(** The first byte of a data frame, once the mark is cleared. *)
Definition is_data (f : bytes) : bool :=
  match received f with b :: _ => bool_decide (b = z2b 0) | [] => false end.

Lemma is_data_control srv cmd no l d :
  is_marked cmd = false -> cmd <> z2b 0 -> is_data (mark srv (buildFrame cmd no l d)) = false.
Proof.
  intros Hm Hc. unfold is_data. rewrite received_mark by done. simpl. by apply bool_decide_eq_false.
Qed.

(** No data frame is sent, and the pool of sent frames is left alone. *)
Definition quiet (c c' : conn) : Prop :=
  sendPool c' = sendPool c /\ parked c' = parked c /\ filter is_data (wire c') = filter is_data (wire c).

Lemma quiet_wire c c' new :
  sendPool c' = sendPool c -> parked c' = parked c -> wire c' = wire c ++ new ->
  Forall (fun f => is_data f = false) new -> quiet c c'.
Proof.
  intros H1 H2 H3 Hn. split_and!; [done|done|]. rewrite H3, filter_app.
  rewrite (filter_none _ new); [by rewrite app_nil_r|].
  eapply Forall_impl; [exact Hn|]. intros f Hf. cbv beta in *. rewrite Hf. intros [].
Qed.

Lemma nck_of_control c new : Forall (nck_of c) new -> Forall (fun f => is_data f = false) new.
Proof.
  intros H. eapply Forall_impl; [exact H|]. intros f (no & ms & _ & ->). by apply is_data_control.
Qed.

Lemma received_ok wx wy g x x' y :
  Snd x wx y -> received_step wy g x x' ->
  local_ok wx wy g y x x' /\ quiet x x'.
Proof.
  intros HS [R1 R2 R3 R4 R5 (new & W & N)]. split.
  - constructor; try done. eapply Snd_keep; try done. by apply nck_of_good.
  - eapply quiet_wire; [apply R4|done|exact W|]. by eapply nck_of_control.
Qed.

(** What the reading loop does with each kind of frame. *)
Lemma take_frame_header fins acks cmd no l data sp c :
  b2z cmd <= 2 ->
  take_frame fins acks (GSlice (buildFrame cmd no l data) sp) c =
  (if bool_decide (b2z cmd = 0) then
     data ← lift (sl_sub (GSlice (buildFrame cmd no l data) sp) 7 (u16 (u16 l + 7)));
     take_data (u32 no) (vis data)
   else if bool_decide (b2z cmd = 1) then mret (Some (InQuery (u32 no)))
   else
     ms ← nck_entries (GSlice (buildFrame cmd no l data) sp) (u16 l);
     c ← gets id;
     (if bool_decide (ms = [] /\ u32 no > ackNO c) then modify (set_ackNO (u32 no)) else mret tt);;
     mret (Some (InNck (Nck (u32 no) ms)))) c.
Proof.
  intros Hle. set (pkt := GSlice _ sp). unfold take_frame.
  assert (Hno := frame_no (E := loop_error) cmd no l data sp).
  assert (Hl := frame_len (E := loop_error) cmd no l data sp).
  assert (Hc := frame_cmd (E := loop_error) cmd no l data sp).
  fold pkt in Hno, Hl, Hc.
  destruct (sl_sub pkt 1 5) as [h1| |] eqn:H1; [|done|done]. simpl in Hno.
  destruct (sl_sub pkt 5 7) as [h2| |] eqn:H2; [|done|done]. simpl in Hl.
  rewrite lift_bind, Hno, lift_bind, lift_bind, Hl, lift_bind, Hc, lift_bind. cbv zeta.
  destruct (bool_decide (b2z cmd = 0)) eqn:B0; [done|].
  destruct (bool_decide (b2z cmd = 1)) eqn:B1; [done|].
  apply bool_decide_eq_false in B0, B1. pose proof (b2z_range cmd).
  rewrite bool_decide_true by lia. done.
Qed.

(** A frame that fits the buffer of the reading loop arrives whole. *)
Lemma datagram_fits srv cmd no l data :
  is_marked cmd = false -> zlen data <= 1493 ->
  datagram (mark srv (buildFrame cmd no l data)) = buildFrame cmd no l data.
Proof.
  intros Hc Hlen. unfold datagram. rewrite take_ge; [by apply received_mark|].
  pose proof (zlen_nonneg data). rewrite mark_buildFrame, length_buildFrame.
  unfold read_buffer, zlen in *. lia.
Qed.

Lemma arrive_query fins acks srv q sp c :
  0 <= q < 4294967296 ->
  arrive fins acks (GSlice (datagram (query_frame srv q)) sp) c = Some (Some (InQuery q), c).
Proof.
  intros Hq. unfold arrive, query_frame.
  rewrite datagram_fits, take_frame_header by (done || by rewrite b2z_z2b_small by lia).
  rewrite b2z_z2b_small, bool_decide_false, bool_decide_true, u32_small by done. done.
Qed.

Lemma nck_ok_u32 y no ms : nck_ok y no ms -> u32 <$> ms = ms /\ u32 no = no.
Proof.
  intros (N1 & _ & N3 & _). split; [|unfold max_frames in *; rewrite u32_small; lia].
  clear - N3. induction N3; [done|]. rewrite fmap_cons, u32_small by done. by f_equal.
Qed.

Lemma arrive_nck fins acks srv no ms sp y c :
  nck_ok y no ms ->
  arrive fins acks (GSlice (datagram (nck_frame srv no ms)) sp) c =
  Some (Some (InNck (Nck no ms)),
        if bool_decide (ms = [] /\ no > ackNO c) then set_ackNO no c else c).
Proof.
  intros Hok. destruct (nck_ok_u32 _ _ _ Hok) as [Hms Hno]. destruct Hok as (_ & N2 & _).
  pose proof (zlen_nonneg ms). unfold arrive, nck_frame.
  rewrite datagram_fits, take_frame_header
    by (rewrite ?zlen_concat_be32, ?b2z_z2b_small; (done || lia)).
  rewrite b2z_z2b_small, !bool_decide_false by done. rewrite gom_bind_run.
  rewrite !(u16_small (zlen ms * 4)) by lia.
  rewrite nck_entries_frame by lia. rewrite Hms, Hno.
  unfold mbind, gom_bind, gets, modify, mret, gom_ret, id. by case_bool_decide.
Qed.

Lemma arrive_data fins acks srv k seg sp c :
  0 <= k < 4294967296 -> zlen seg <= 1493 ->
  arrive fins acks (GSlice (datagram (data_frame srv k seg)) sp) c = recovered (take_data k seg c).
Proof.
  intros Hk Hlen. pose proof (zlen_nonneg seg). unfold arrive, data_frame.
  rewrite datagram_fits, take_frame_header by (done || by rewrite b2z_z2b_small by lia).
  rewrite b2z_z2b_small, bool_decide_true by done. rewrite !(u16_small (zlen seg)) by lia.
  rewrite (u16_small (zlen seg + 7)), lift_bind by lia.
  rewrite Z.add_comm, (frame_payload (z2b 0) k (zlen seg) seg sp seg []) by (by rewrite app_nil_r).
  by rewrite u32_small.
Qed.

(** The reading loop takes any frame of the peer. *)
Lemma takes_ok e p f x c :
  Inv e p -> f ∈ wire (ep p) -> takes e (datagram f) x c ->
  local_ok (written e) (written p) (got e) (ep p) (ep e) c /\
  pend_ok (written p) c (ep p) x /\ quiet (ep e) c.
Proof.
  intros [Hst Hst' HS HSp HR HRp Hpd _ _ _] Hf [fins acks sp x' c' Hnone _ Harr].
  rewrite Hnone in Hpd. simpl in Hpd.
  pose proof (snd_wire _ _ _ HSp) as Hall.
  rewrite Forall_forall in Hall. destruct (Hall f Hf) as [k seg Hk ->|q Hq ->|no ms Hn ->].
  - pose proof (nth_seg_Some _ _ _ Hk) as Hk'. pose proof (snd_max _ _ _ HSp). unfold max_frames in *.
    assert (zlen seg <= fs).
    { pose proof (snd_segs _ _ _ HSp) as Hs. rewrite Forall_forall in Hs. apply Hs.
      unfold nth_seg in Hk. case_bool_decide; [|done]. by eapply list_elem_of_lookup_2. }
    rewrite arrive_data in Harr by lia.
    destruct (take_data_ok (written p) (got e) (ep e) k seg Hst HR Hpd Hk) as (x1 & c1 & Hrun & Hstep & Hp).
    rewrite Hrun in Harr. injection Harr as <- <-.
    destruct (received_ok _ _ _ _ _ _ HS Hstep). split; [done|]. split; [by apply data_pend_ok|done].
  - assert (Hq' := Hq). destruct Hq' as [Hq1 _]. unfold max_frames in *.
    rewrite arrive_query in Harr by lia. injection Harr as <- <-.
    split; [by constructor|]. split; [by split|by split_and!].
  - rewrite (arrive_nck _ _ _ _ _ _ (ep p)) in Harr by done. injection Harr as <- <-.
    destruct Hn as (N1 & N2 & N3 & N4).
    case_bool_decide as Hb; (split; [|split; [by split|by split_and!]]).
    + constructor; simpl; [by destruct Hst| |by apply (Rcv_keep _ (ep e))|by apply extends_same].
      destruct Hb as [-> Hgt]. apply (Snd_control (ep e)); simpl; try done; [|apply HS].
      split; [lia|]. intros k Hk. apply N4; [done|apply not_elem_of_nil].
    + by constructor.
Qed.

(** A send of the reading loop. *)
Lemma put_ok e p x s :
  Inv e p -> pending e = Some x -> put x (ep e) = Some s ->
  local_ok (written e) (written p) (got e) (ep p) (ep e) s.2 /\
  pend_ok (written p) s.2 (ep p) s.1 /\ quiet (ep e) s.2.
Proof.
  intros [Hst Hst' HS HSp HR HRp Hpd _ _ _] Hx Hput. rewrite Hx in Hpd. destruct x as [d|q|n]; simpl in Hpd.
  - destruct (put_data_ok (written p) (got e) (ep e) d s Hst HR Hpd Hput) as (Hs & Hp & _).
    destruct (received_ok _ _ _ _ _ _ HS Hs). split; [done|]. split; [by apply data_pend_ok|done].
  - destruct Hpd as [Hgap Hq]. unfold put, chan_push, chan_send in Hput.
    rewrite (st_nckQuery _ Hst) in Hput. case_bool_decide; [|done]. injection Hput as <-.
    split; [|split; [done|by split_and!]]. simpl. destruct HR as [R1 R2 R3 R4 R5]. constructor.
    + by destruct Hst.
    + apply (Snd_keep (ep e) _ _ _ []); [done|by apply extends_same|by rewrite app_nil_r|done|done].
    + constructor; simpl; try done. apply Forall_app. split; [done|]. by apply Forall_singleton.
    + by apply extends_same.
  - destruct Hpd as [Hgap Hn]. unfold put, chan_push, chan_send in Hput.
    rewrite (st_nckc _ Hst) in Hput. case_bool_decide; [|done]. injection Hput as <-.
    split; [|split; [done|by split_and!]]. simpl. constructor.
    + by destruct Hst.
    + apply (Snd_control (ep e)); simpl; try done; [apply HS|].
      apply Forall_app. split; [apply HS|]. by apply Forall_singleton.
    + by apply (Rcv_keep _ (ep e)).
    + by apply extends_same.
Qed.

(** *** The event loops and [Read] *)

Lemma check_ok x wx wy gx y gy :
  Static x -> Snd x wx y -> Rcv wy x gx -> Rcv wx y gy ->
  local_ok wx wy gx y x (check_loop x) /\ quiet x (check_loop x) /\
  (0 < Z.of_nat (size (sendPool x)) ->
   check_loop x = set_wire (wire x ++ [query_frame (server x) (Z.min (sentNO x) (ackNO x + w))]) x).
Proof.
  intros Hst HS HR HRy. pose proof (snd_ack _ _ _ HS) as [Ha Hu].
  pose proof (upto_written _ _ _ _ HRy Hu). pose proof (snd_max _ _ _ HS).
  pose proof (snd_no _ _ _ HS) as Hn. pose proof (zlen_nonneg wx). unfold max_frames in *.
  unfold check_loop. rewrite (st_window _ Hst), u32_small by lia. case_bool_decide as Hc.
  - set (q := Z.min _ _). change (askNCK q x).2 with (set_wire (wire x ++ [query_frame (server x) q]) x).
    split; [constructor|split]; simpl.
    + by destruct Hst.
    + eapply (Snd_keep x); [done|by apply extends_same|done| |done].
      apply Forall_singleton. eapply (GQuery _ _ _ _ q); [|done].
      split; [unfold q, max_frames; lia|]. intros k Hk. apply Hu. lia.
    + by apply (Rcv_keep _ x).
    + by apply extends_same.
    + eapply quiet_wire; [done|done|done|]. apply Forall_singleton. by apply is_data_control.
    + done.
  - split; [|split; [by split_and!|lia]]. constructor; try done.
Qed.

Lemma resend_shape n c :
  exists p s r, resend n c = set_parked p (set_sendPool s (set_rs r
    (set_wire (wire c ++ ((fun p => mark (server c) p.2) <$> in_pool c (missing n))) c))).
Proof.
  exists (if sendEventClosed c then parked c else true),
    (filter (fun kv => ~ (kv.1 ∉ missing n /\ kv.1 <= nck_no n)) (sendPool c)).
  unfold resend. destruct (resend_frames_spec (missing n) c) as [->|[-> ->]]; rewrite ?app_nil_r.
  - exists (u32 (rs c + zlen (in_pool c (missing n)))).
    destruct c as [?????????? ev]. by destruct ev.
  - exists (rs c). destruct c as [?????????? ev]. by destruct ev.
Qed.

Lemma in_pool_lookup c ms k pkt : (k, pkt) ∈ in_pool c ms <-> k ∈ ms /\ sendPool c !! k = Some pkt.
Proof.
  unfold in_pool. rewrite list_elem_of_omap. split.
  - intros (n & Hn & Hs). destruct (sendPool c !! n) eqn:Hp; simpl in Hs; [|done].
    injection Hs as <- <-. done.
  - intros [Hk Hp]. exists k. split; [done|]. by rewrite Hp.
Qed.

Lemma resend_ok n x wx wy gx y :
  Static x -> Snd x wx y -> Rcv wy x gx -> nck_ok y (nck_no n) (missing n) ->
  local_ok wx wy gx y x (resend n x).
Proof.
  intros Hst HS HR (N1 & N2 & N3 & N4).
  destruct (resend_exact n x) as (_ & Hpool & _).
  destruct (resend_shape n x) as (p & s & r & Heq). rewrite Heq in *. simpl in Hpool.
  destruct HS as [S1 S2 S3 S4 S5 S6 S7 S8 S9]. constructor; simpl.
  - by destruct Hst.
  - constructor; simpl; try done.
    + intros k pkt. rewrite Hpool. case_bool_decide; [apply S4|done].
    + intros k Hk. rewrite Hpool. case_bool_decide as Hb; [by apply S7|].
      right. apply N4; [|naive_solver]. destruct (Z_le_gt_dec k (nck_no n)); [lia|].
      destruct Hb. right. lia.
    + etransitivity; [|exact S8]. apply inj_le. rewrite <- !size_dom. apply subseteq_size.
      intros k [v Hv]%elem_of_dom. rewrite Hpool in Hv.
      case_bool_decide; [|done]. apply elem_of_dom. by eexists.
    + apply Forall_app. split.
      * eapply Forall_impl; [exact S9|]. intros f. by apply good_frame_mono; [apply extends_same| | |].
      * apply Forall_fmap, Forall_forall. intros [k pkt] [_ Hp]%in_pool_lookup.
        destruct (S4 _ _ Hp) as (seg & Hs & ->). eapply GData; [exact Hs|].
        simpl. unfold data_frame. apply mark_idemp.
  - by apply (Rcv_keep _ x).
  - by apply extends_same.
Qed.

Lemma nck_loop_ok x wx wy gx y c :
  Static x -> Snd x wx y -> Rcv wy x gx -> nck_loop x = Some c ->
  local_ok wx wy gx y x c /\ parked x = false.
Proof.
  intros Hst HS HR. unfold nck_loop. destruct (parked x); [done|].
  destruct (queue (nckc x)) as [|n q] eqn:Hq; [done|]. intros [= <-]. split; [|done].
  pose proof (snd_ncks _ _ _ HS) as Hn. rewrite Hq in Hn. inversion_clear Hn as [|?? Hn1 Hn2].
  set (x1 := set_nckc _ x).
  destruct (resend_ok n x1 wx wy gx y) as [R1 R2 R3 R4].
  - by destruct Hst.
  - apply (Snd_control x); simpl; try done; apply HS.
  - by apply (Rcv_keep _ x).
  - done.
  - constructor; done.
Qed.

Lemma query_loop_ok x wx wy gx y r c :
  Static x -> Snd x wx y -> Rcv wy x gx -> nck_query_loop x = Some (r, c) ->
  local_ok wx wy gx y x c /\ quiet x c.
Proof.
  intros Hst HS HR. unfold nck_query_loop.
  destruct (queue (nckQuery x)) as [|q qs] eqn:Hq; [done|]. intros Heq.
  pose proof HR as [R1 R2 R3 R4 R5]. rewrite Hq in R5. inversion_clear R5 as [|?? Hq1 Hq2].
  set (x1 := set_nckQuery _ x) in Heq.
  assert (Hst1 : Static x1) by (by destruct Hst).
  assert (HR1 : Rcv wy x1 gx) by (by constructor).
  assert (HS1 : Snd x1 wx y).
  { apply (Snd_control x); simpl; try done; apply HS. }
  destruct (sendNCK_new x1 q Hst1) as (new & Hrun & Hnew); [simpl; lia|done|].
  rewrite Hrun in Heq. injection Heq as <- <-.
  destruct (received_ok wx wy gx x1 _ y HS1 (received_wire _ _ _ _ Hst1 HR1 Hnew)) as [[]].
  split; [by constructor|done].
Qed.

Lemma read_copy_spec cap buf c :
  0 <= cap ->
  exists out rest, read_copy cap buf c = (out, set_inboundBuf rest c) /\ out ++ default [] rest = buf.
Proof.
  intros Hc. unfold read_copy. eexists _, _. split; [done|].
  case_bool_decide as Hn; simpl; [|apply take_drop].
  rewrite app_nil_r. apply take_ge. unfold zlen in *. lia.
Qed.

Lemma read_ok cap arm out x wx wy gx y c :
  0 <= cap -> Static x -> Snd x wx y -> Rcv wy x gx -> Read cap arm x = Some (inl out, c) ->
  local_ok wx wy (gx ++ out) y x c /\ quiet x c.
Proof.
  intros Hc Hst HS HR Hread. pose proof HR as [R1 R2 R3 R4 R5].
  assert (Hshape : exists rest q, c = set_inboundBuf rest (set_inbound q x) /\ closed q = false /\
    out ++ default [] rest ++ concat (queue q) = default [] (inboundBuf x) ++ concat (queue (inbound x))).
  { unfold Read in Hread. destruct (inboundBuf x) as [buf|] eqn:Hb.
    - destruct (read_copy_spec cap buf x Hc) as (o & rest & Heq & Hcat). rewrite Heq in Hread.
      injection Hread as <- <-. exists rest, (inbound x). split_and!.
      + by destruct x.
      + apply Hst.
      + simpl. by rewrite <- Hcat, <- !app_assoc.
    - destruct arm; [by destruct (closed _)|done|].
      unfold chan_recv in Hread. destruct (queue (inbound x)) as [|pkt q] eqn:Hq.
      { by rewrite (st_inbound _ Hst) in Hread. }
      destruct (read_copy_spec cap pkt (set_inbound (Chan q (closed (inbound x))) x) Hc)
        as (o & rest & Heq & Hcat). rewrite Heq in Hread. injection Hread as <- <-.
      eexists rest, _. split; [done|]. split; [apply Hst|]. simpl. by rewrite <- Hcat, <- !app_assoc. }
  destruct Hshape as (rest & q & -> & Hq & Hcat). split; [constructor|]; simpl.
  - by destruct Hst.
  - apply (Snd_control x); simpl; try done; apply HS.
  - constructor; simpl; try done. rewrite <- R4, <- Hcat. by rewrite <- !app_assoc.
  - by apply extends_same.
  - done.
Qed.

(** *** Every step preserves the invariant *)

Lemma await_event_cases x c :
  await_event x = Some (Ok tt, c) -> c = set_parked false x /\ parked x = true.
Proof. unfold await_event. destruct (sendEventClosed x), (parked x); naive_solver. Qed.

Lemma Inv_max e p : Inv e p -> recvNO (ep p) <= max_frames /\ zlen (written e) <= max_frames.
Proof.
  intros H. pose proof (rcv_no _ _ _ (inv_rcv' _ _ H)). pose proof (rcv_max _ _ _ (inv_rcv' _ _ H)). lia.
Qed.

(** The reading loop's state is its own: the other loops and [Read] keep it. *)
Definition same_reader (c c' : conn) : Prop := recvNO c' = recvNO c /\ recvPool c' = recvPool c.

Lemma check_loop_reader c : same_reader c (check_loop c).
Proof. unfold check_loop. by case_bool_decide. Qed.

Lemma nck_loop_reader c c' : nck_loop c = Some c' -> same_reader c c'.
Proof.
  unfold nck_loop. destruct (parked c); [done|]. destruct (queue (nckc c)) as [|n q]; [done|].
  intros [= <-]. by destruct (resend_shape n (set_nckc (Chan q (closed (nckc c))) c)) as (p & s & r & ->).
Qed.

Lemma query_loop_reader c r c' : nck_query_loop c = Some (r, c') -> same_reader c c'.
Proof.
  unfold nck_query_loop. destruct (queue (nckQuery c)) as [|q qs]; [done|].
  destruct (sendNCK_shape q (set_nckQuery (Chan qs (closed (nckQuery c))) c)) as (r' & v & -> & _).
  by intros [= <- <-].
Qed.

Lemma Read_shape cap arm c out c' :
  Read cap arm c = Some (inl out, c') -> exists rest q, c' = set_inboundBuf rest (set_inbound q c).
Proof.
  unfold Read, read_copy. destruct (inboundBuf c).
  { intros [= <- <-]. eexists _, (inbound c). by destruct c. }
  destruct arm; [by destruct (closed (exit c))|done|].
  destruct (chan_recv (inbound c)) as [[[]]|]; intros [= <- <-]. by eexists _, _.
Qed.

Lemma Read_reader cap arm c out c' : Read cap arm c = Some (inl out, c') -> same_reader c c'.
Proof. by intros (rest & q & ->)%Read_shape. Qed.

Lemma local_inv e p e' : Inv e p -> local (ep p) e e' -> Inv e' p.
Proof.
  intros H Hl. pose proof (Inv_max _ _ H) as [Hm1 Hm2].
  destruct Hl as [seg (_ & _ & Hseg & Hm) Hroom|seg (_ & _ & Hseg & Hm) Hfull|seg c Hwait Hev
    |f x c Hf Htakes|x y c Hx Hput| |c Hc|r c Hc|cap arm out c Hcap Hread].
  - apply write_inv; [done|by left|done|by rewrite <- (st_frameSize _ (inv_static _ _ H))|done].
  - destruct H. constructor; simpl; try done. intros ? [= <-].
    by rewrite <- (st_frameSize _ inv_static0).
  - apply await_event_cases in Hev as [-> Hp]. destruct (inv_wait _ _ H _ Hwait) as [Hs Hm].
    case_match eqn:Hroom; [|by apply write_inv; [|by right| | |]].
    apply local_same_inv; [done| |done|done]. destruct H as [H1 _ H3 _ H5 _ _ _ _ _]. constructor.
    + by destruct H1.
    + by apply (Snd_control (ep e)); simpl; try done; apply H3.
    + by apply (Rcv_keep _ (ep e)).
    + by apply extends_same.
  - destruct (takes_ok _ _ _ _ _ H Hf Htakes) as (? & ? & _). by apply local_ok_inv.
  - destruct (put_ok _ _ _ _ H Hx Hput) as (? & ? & _). by apply local_ok_inv.
  - apply local_same_inv; [done| |apply check_loop_reader..]. destruct H. by eapply check_ok.
  - destruct (nck_loop_reader _ _ Hc). apply local_same_inv; [done| |done..].
    destruct H. by apply nck_loop_ok.
  - destruct (query_loop_reader _ _ _ Hc). apply local_same_inv; [done| |done..].
    destruct H. by eapply query_loop_ok.
  - destruct (Read_reader _ _ _ _ _ Hread). apply local_same_inv; [done| |done..].
    destruct H. by eapply read_ok.
Qed.

Lemma quiet_trans a b c : quiet a b -> quiet b c -> quiet a c.
Proof. intros (H1 & H2 & H3) (H4 & H5 & H6). split_and!; congruence. Qed.

(** With the NCK loop blocked, only [Write] changes what is sent. *)
Lemma local_quiet e p e' :
  Inv e p -> local (ep p) e e' -> parked (ep e) = true -> waiting e = None ->
  written e' = written e -> waiting e' = None -> quiet (ep e) (ep e').
Proof.
  intros H Hl Hp Hn Hwr Hn'.
  destruct Hl as [seg|seg|seg c Hwait _|f x c Hf Htakes|x y c Hx Hput| |c Hc|r c Hc|cap arm out c Hcap Hread];
    simpl in *.
  - apply (f_equal length) in Hwr. rewrite length_app in Hwr. simpl in Hwr. lia.
  - done.
  - congruence.
  - by destruct (takes_ok _ _ _ _ _ H Hf Htakes) as (_ & _ & ?).
  - by destruct (put_ok _ _ _ _ H Hx Hput) as (_ & _ & ?).
  - destruct H. by eapply check_ok.
  - destruct H. destruct (nck_loop_ok _ _ _ _ _ _ inv_static0 inv_snd0 inv_rcv0 Hc). congruence.
  - destruct H. by eapply query_loop_ok.
  - destruct H. by eapply (read_ok _ _ _ _ _ _ _ _ _ Hcap).
Qed.

(** The first data frame is an ordinary step of the end it creates. *)
Lemma create_inv e p f x c :
  Inv e p -> f ∈ wire (ep e) -> takes p (datagram f) x c -> Inv e (with_reader x c p).
Proof.
  intros H Hf Ht. apply Inv_sym. eapply local_inv; [by apply Inv_sym|]. by eapply LRecv.
Qed.

Lemma step_inv s s' : step s s' -> Inv s.1 s.2 -> Inv s'.1 s'.2.
Proof.
  intros [e e' p _ Hl|e p p' _ Hl|e p f x c _ Hf _ Ht] H; simpl in *.
  - by eapply local_inv.
  - apply Inv_sym. eapply local_inv; [by apply Inv_sym|done].
  - by eapply create_inv.
Qed.

Lemma steps_inv s s' : rtc step s s' -> Inv s.1 s.2 -> Inv s'.1 s'.2.
Proof. apply (rtc_invariant step (fun s => Inv s.1 s.2)). intros a b. apply step_inv. Qed.

End Invariant.

Lemma initial_inv cfg :
  good_cfg cfg -> let w := Z.quot (MTU cfg - 7) 4 in
  (0 < w < 16383 /\ 0 < MTU cfg - 7 /\ 4 * w <= MTU cfg - 7 <= 1493) /\
  Inv w (MTU cfg - 7) (initial cfg).1 (initial cfg).2.
Proof.
  intros Hc w. unfold good_cfg, read_buffer in Hc.
  assert (Hw : 0 < w < 16383 /\ 0 < MTU cfg - 7 /\ 4 * w <= MTU cfg - 7 <= 1493)
    by (unfold w; rewrite Z.quot_div_nonneg by lia; mlia).
  split; [done|].
  assert (Hst : Static w (MTU cfg - 7) (newConn cfg)).
  { constructor; simpl; try done. rewrite u32_small; [done|fold w; lia]. }
  assert (Hsnd : Snd w (MTU cfg - 7) (newConn cfg) [] (newConn cfg)).
  { constructor; simpl; unfold max_frames; rewrite ?zlen_nil, ?map_size_empty; try done; try lia.
    split; [done|]. intros k. lia. }
  assert (Hrcv : Rcv w [] (newConn cfg) []) by (by constructor; simpl).
  constructor; simpl; try done.
  - by destruct Hst.
  - by destruct Hsnd; constructor.
  - by destruct Hsnd; constructor.
Qed.

Lemma reachable_inv cfg s :
  good_cfg cfg -> reachable cfg s ->
  let w := Z.quot (MTU cfg - 7) 4 in
  (0 < w < 16383 /\ 0 < MTU cfg - 7 /\ 4 * w <= MTU cfg - 7 <= 1493) /\ Inv w (MTU cfg - 7) s.1 s.2.
Proof.
  intros Hc Hr w. destruct (initial_inv cfg Hc) as [[Hw Hfs] Hi]. split; [done|].
  eapply steps_inv; [exact Hw|exact Hfs|exact Hr|exact Hi].
Qed.

(** The end that called [OpenStream] has its connection. *)
Lemma local_opened q e e' : local q e e' -> opened e = true -> opened e' = true.
Proof. by intros [seg|seg|seg c| | | | | |] Ho; simpl; [..|case_match| | | | | |]. Qed.

Lemma steps_opened s s' : rtc step s s' -> opened s.1 = true -> opened s'.1 = true.
Proof.
  induction 1 as [|s1 s2 s3 Hs _ IH]; [done|]. intros Ho. apply IH.
  destruct Hs; simpl in *; [by eapply local_opened|done|done].
Qed.

(** ** Properties *)

(** C1. Safety of the stream: whatever the network loses, reorders or repeats, the
    bytes either end has read are a prefix of the bytes the other end has
    written: nothing is skipped, repeated, reordered or invented. *)
Theorem read_is_prefix cfg a b :
  good_cfg cfg -> reachable cfg (a, b) ->
  got b `prefix_of` concat (written a) /\ got a `prefix_of` concat (written b).
Proof.
  intros Hc Hr. destruct (reachable_inv cfg _ Hc Hr) as [_ H].
  assert (Hpre : forall w fs e p, Inv w fs e p -> got p `prefix_of` concat (written e)).
  { intros w fs e p [_ _ _ _ _ Hrcv _ _ _ _]. etransitivity.
    - eexists. symmetry. apply (rcv_stream _ _ _ _ Hrcv).
    - apply prefix_concat_take. }
  split; [by eapply Hpre|]. eapply Hpre, Inv_sym, H.
Qed.

(** C2. No loss inside the ends: at any time every segment written is still in the
    sender's pool, where it can be sent again, or has arrived, and the pool never
    holds more than a window of frames.  A segment thus leaves the pool only
    after it has arrived. *)
Theorem pooled_or_arrived cfg a b :
  good_cfg cfg -> reachable cfg (a, b) ->
  sentNO (ep a) = zlen (written a) /\
  (forall k, 1 <= k <= zlen (written a) ->
     (exists seg, nth_seg (written a) k = Some seg /\
        sendPool (ep a) !! k = Some (data_frame (server (ep a)) k seg)) \/
     has (ep b) k) /\
  Z.of_nat (size (sendPool (ep a))) <= window (ep a).
Proof.
  intros Hc Hr. destruct (reachable_inv cfg _ Hc Hr) as [_ H]. simpl in H.
  pose proof (inv_snd _ _ _ _ H) as [S1 S2 S3 S4 S5 S6 S7 S8 S9]. split_and!; [done| |].
  - intros k Hk. destruct (S7 k Hk) as [[pkt Hp]|]; [left|by right].
    rewrite Hp. destruct (S4 _ _ Hp) as (seg & Hs & ->). by eexists.
  - by rewrite (st_window _ _ _ (inv_static _ _ _ _ H)).
Qed.

(** One exchange of query and NCK over the network, written out. *)
Definition query_round (w q : Z) (x y : conn) : conn * conn :=
  let ms := gaps (recvPool y) (recvNO y + 1) q in
  let x1 := set_wire (wire x ++ [query_frame (server x) q]) x in
  let y1 := set_wire (wire y ++ [nck_frame (server y) q ms])
              (set_nckQuery (Chan [] (closed (nckQuery y))) y) in
  let x2 := if bool_decide (ms = [] /\ q > ackNO x) then set_ackNO q x1 else x1 in
  (resend (Nck q ms) (set_nckc (Chan [] false) (set_nckc (Chan [Nck q ms] false) x2)), y1).

Section Round.
Context (w fs : Z) (Hw : 0 < w < 16383) (Hfs : 0 < fs /\ 4 * w <= fs <= 1493).
Context (a b : endpoint) (H : Inv w fs a b).
Local Notation x := (ep a).
Local Notation y := (ep b).
Local Notation q := (Z.min (sentNO (ep a)) (ackNO (ep a) + w)).
Context (Hopa : opened a = true) (Hopb : opened b = true).
Context (Hpa : pending a = None) (Hpb : pending b = None).
Context (Hparked : parked x = false) (Hq1 : queue (nckc x) = []) (Hq2 : queue (nckQuery y) = []).
Context (Hout : recvNO y < sentNO x).

Lemma round_gap : recvPool y !! (recvNO y + 1) = None.
Proof. pose proof (inv_pend' _ _ _ _ H) as Hp. by rewrite Hpb in Hp. Qed.

Lemma round_pooled :
  exists seg, nth_seg (written a) (recvNO y + 1) = Some seg /\
    sendPool x !! (recvNO y + 1) = Some (data_frame (server x) (recvNO y + 1) seg).
Proof.
  destruct H as [_ _ HS _ _ HR _ _ _ _]. pose proof (rcv_no _ _ _ _ HR).
  pose proof (snd_no _ _ _ _ _ HS) as Hn.
  destruct (snd_noloss _ _ _ _ _ HS (recvNO y + 1)) as [[pkt Hp]|[Hh|[s Hs]]]; [lia| |lia|].
  - destruct (snd_pool _ _ _ _ _ HS _ _ Hp) as (seg & Hs & ->). by exists seg.
  - pose proof round_gap. congruence.
Qed.

Lemma round_query : query_ok w y q /\ 0 <= q < 4294967296.
Proof.
  destruct H as [_ _ S1 _ _ R2 _ _ _ _]. pose proof (snd_ack _ _ _ _ _ S1) as [Ha Hu].
  pose proof (snd_no _ _ _ _ _ S1) as Hn. pose proof (snd_max _ _ _ _ _ S1).
  pose proof (zlen_nonneg (written a)). pose proof (rcv_no _ _ _ _ R2). unfold max_frames in *.
  split; [split; [unfold max_frames; lia|]|lia]. intros k Hk. apply Hu. lia.
Qed.

(** A frame the reading loop [e] is free to take is taken and its send done. *)
Lemma takes_frame e d v c sp :
  pending e = None -> 7 <= zlen d -> arrive 0 [] (GSlice d sp) (ep e) = Some (v, c) -> takes e d v c.
Proof. intros. by eapply Takes. Qed.

Lemma round_steps :
  rtc step (a, b) (with_reader None (query_round w q x y).1 a, with_reader None (query_round w q x y).2 b).
Proof.
  destruct round_pooled as (seg & _ & Hpool). destruct round_query as [Hq Hq32].
  destruct (H) as [T1 T2 S1 S2 R1 R2 _ _ _ _].
  pose proof (rcv_no _ _ _ _ R2) as Hr. pose proof (rcv_max _ _ _ _ R2).
  destruct (check_ok w fs Hw Hfs x (written a) (written b) (got a) y (got b) T1 S1 R1 R2) as (_ & _ & Hchk).
  assert (Hsz : 0 < Z.of_nat (size (sendPool x))).
  { destruct (decide (size (sendPool x) = 0%nat)) as [Hz|]; [|lia].
    apply map_size_empty_inv in Hz. rewrite Hz in Hpool. done. }
  specialize (Hchk Hsz). unfold query_round.
  set (ms := gaps _ _ _). set (x1 := set_wire _ x) in *.
  set (y0 := set_nckQuery (Chan [] (closed (nckQuery y))) y).
  assert (Ty0 : Static w fs y0) by (by destruct T2).
  destruct (sendNCK_good w fs Hw Hfs y0 q Ty0) as [Hrun Hok]; [simpl; lia|exact Hq|].
  assert (Hlen : forall srv, 7 <= zlen (datagram (query_frame srv q))).
  { intros srv. unfold query_frame. by rewrite datagram_fits. }
  assert (Hlen' : forall srv, 7 <= zlen (datagram (nck_frame srv q ms))).
  { intros srv. destruct Hok as (_ & Hms & _). unfold nck_frame.
    change (zlen ms <= w) in Hms. rewrite datagram_fits; rewrite ?zlen_concat_be32; [|done|lia].
    rewrite zlen_buildFrame, zlen_concat_be32. pose proof (zlen_nonneg ms). lia. }
  (* the query is sent *)
  eapply rtc_l. { apply StepLeft; [done|]. apply LCheck. }
  rewrite Hchk.
  (* and arrives *)
  eapply rtc_l. { apply StepRight; [done|]. eapply (LRecv _ _ (query_frame (server x) q)).
                  - apply elem_of_app. right. apply list_elem_of_here.
                  - apply (takes_frame _ _ _ _ []); [done|done|]. by apply arrive_query. }
  eapply rtc_l. { apply StepRight; [done|]. eapply LPut; [done|].
                  apply put_query; [apply T2|]. simpl. by rewrite Hq2. }
  cbn [ep with_reader]. rewrite Hq2.
  (* it is answered *)
  eapply rtc_l. { apply StepRight; [done|]. eapply LQuery. unfold nck_query_loop. simpl.
                  f_equal. etransitivity; [|exact Hrun]. f_equal.
                  unfold y0. by rewrite (st_nckQuery _ _ _ T2). }
  (* the answer arrives *)
  eapply rtc_l. { apply StepLeft; [done|]. eapply (LRecv _ _ (nck_frame (server y) q ms)).
                  - apply elem_of_app. right. apply list_elem_of_here.
                  - apply (takes_frame _ _ _ _ []); [done|done|].
                    apply (arrive_nck w fs Hfs _ _ _ _ _ _ y0). exact Hok. }
  set (x2 := if bool_decide (ms = [] /\ q > ackNO x1) then set_ackNO q x1 else x1).
  assert (Hx2 : closed (nckc x2) = false /\ queue (nckc x2) = [] /\ parked x2 = false).
  { unfold x2. split_and!; case_bool_decide; try done; apply T1. }
  destruct Hx2 as (Hc2 & Hn2 & Hp2).
  eapply rtc_l. { apply StepLeft; [done|]. eapply LPut; [done|]. apply put_nck; [done|].
                  change (zlen (queue (nckc x2)) < nck_cap). by rewrite Hn2. }
  (* and is processed *)
  cbn [ep with_reader with_conn]. fold x2. rewrite Hn2.
  eapply rtc_l. { apply StepLeft; [done|]. apply LNck. unfold nck_loop. simpl. by rewrite Hp2. }
  simpl. unfold with_conn, with_reader; simpl. apply rtc_refl.
Qed.
End Round.

(** C3. Retransmission works when the NCK loop is free: when the other end has its
    connection and has delivered less than was written, and neither reading loop
    is held up, then after one query and its NCK have crossed the network the
    sender has put the very frame the receiver waits for on the wire again, or
    its record of what is acknowledged has grown. *)
Theorem query_round_retransmits cfg a b :
  good_cfg cfg -> reachable cfg (a, b) ->
  opened b = true -> pending a = None -> pending b = None ->
  parked (ep a) = false -> queue (nckc (ep a)) = [] -> queue (nckQuery (ep b)) = [] ->
  recvNO (ep b) < sentNO (ep a) ->
  exists a' b' new,
    rtc step (a, b) (a', b') /\ written a' = written a /\ recvNO (ep b') = recvNO (ep b) /\
    wire (ep a') = wire (ep a) ++ new /\
    ((exists seg, nth_seg (written a) (recvNO (ep b) + 1) = Some seg /\
        data_frame (server (ep a)) (recvNO (ep b) + 1) seg ∈ new) \/
     ackNO (ep a) < ackNO (ep a')).
Proof.
  intros Hc Hr Hopb Hpa Hpb Hpk Hq1 Hq2 Hout.
  destruct (reachable_inv cfg _ Hc Hr) as [[Hw Hfs] H]. simpl in H.
  assert (Hopa : opened a = true) by (by apply (steps_opened _ _ Hr)).
  pose proof (round_steps _ _ Hw Hfs a b H Hopa Hopb Hpa Hpb Hpk Hq1 Hq2 Hout) as Hsteps.
  destruct (round_pooled _ _ a b H Hpb Hout) as (seg & Hseg & Hpool).
  pose proof (round_gap _ _ a b H Hpb) as Hgap.
  set (w := Z.quot _ _) in *. set (q := Z.min _ _) in *. set (ms := gaps (recvPool (ep b)) (recvNO (ep b) + 1) q).
  set (x2 := set_nckc (Chan [] false) (set_nckc (Chan [Nck q ms] false)
    (if bool_decide (ms = [] /\ q > ackNO (ep a))
     then set_ackNO q (set_wire (wire (ep a) ++ [query_frame (server (ep a)) q]) (ep a))
     else set_wire (wire (ep a) ++ [query_frame (server (ep a)) q]) (ep a)))).
  assert (Hx2 : wire x2 = wire (ep a) ++ [query_frame (server (ep a)) q] /\
    sendPool x2 = sendPool (ep a) /\ server x2 = server (ep a)).
  { unfold x2. by case_bool_decide. }
  destruct Hx2 as (Hx2 & Hx3 & Hx4).
  destruct (resend_exact (Nck q ms) x2) as (Hwire & _ & _).
  change (missing (Nck q ms)) with ms in Hwire.
  rewrite Hx2, <- app_assoc in Hwire.
  eexists _, _, _. split; [exact Hsteps|]. split; [done|]. split; [done|]. split; [exact Hwire|].
  destruct (decide (recvNO (ep b) + 1 <= q)) as [Hle|Hgt].
  - left. exists seg. split; [done|]. apply elem_of_app. right. rewrite Hx4.
    apply list_elem_of_fmap. exists (recvNO (ep b) + 1, data_frame (server (ep a)) (recvNO (ep b) + 1) seg).
    split; [unfold data_frame; simpl; by rewrite mark_idemp|].
    apply in_pool_lookup. rewrite Hx3. split; [|done]. apply elem_of_gaps. split; [lia|done].
  - right. assert (Hms : ms = []) by (apply gaps_nil; lia).
    assert (ackNO (ep a) < q) by lia.
    assert (Hack : ackNO x2 = q).
    { unfold x2. rewrite bool_decide_true; [done|]. split; [done|]. lia. }
    change (ackNO (ep a) < ackNO (resend (Nck q ms) x2)).
    destruct (resend_shape (Nck q ms) x2) as (p & s & r & ->).
    change (ackNO (ep a) < ackNO x2). lia.
Qed.

(** A step during which end [a] neither starts nor holds a [Write]. *)
Definition silent (s s' : endpoint * endpoint) : Prop :=
  step s s' /\ written s'.1 = written s.1 /\ waiting s'.1 = None.

(** C5. The defect of the NCK loop: [resend] ends with a blocking send on
    [sendEvent] that only a [Write] facing a full window receives.  Once the loop
    is blocked there, and until [Write] is called again, nothing the network or
    the two ends do makes this end retransmit a data frame or release one,
    whatever was lost. *)
Theorem parked_never_retransmits cfg a b a' b' :
  good_cfg cfg -> reachable cfg (a, b) -> parked (ep a) = true -> waiting a = None ->
  rtc silent (a, b) (a', b') ->
  parked (ep a') = true /\ sendPool (ep a') = sendPool (ep a) /\
  filter is_data (wire (ep a')) = filter is_data (wire (ep a)).
Proof.
  intros Hc Hr Hpk Hwait Hrun. destruct (reachable_inv cfg _ Hc Hr) as [[Hw Hfs] Hinv].
  set (w := Z.quot _ _) in *. simpl in Hinv.
  assert (Hall : Inv w (MTU cfg - 7) a' b' /\ quiet (ep a) (ep a') /\ waiting a' = None).
  2: { destruct Hall as (_ & (H1 & H2 & H3) & _). rewrite H2. done. }
  refine (rtc_invariant silent (fun s => Inv w (MTU cfg - 7) s.1 s.2 /\ quiet (ep a) (ep s.1) /\
            waiting s.1 = None) (a, b) (a', b') _ Hrun _); [|by split_and!].
  clear - Hw Hfs Hpk. intros s s' (Hstep & Hwr & Hnw) (HI & HQ & Hn).
  split; [by eapply step_inv|]. split; [|done].
  destruct Hstep as [e e' p _ Hl|e p p' _ Hl|e p f x c _ Hf _ Ht]; simpl in *; [|done..].
  assert (Hp : parked (ep e) = true) by (destruct HQ as (_ & -> & _); done).
  enough (Hq : quiet (ep e) (ep e')) by (by eapply quiet_trans).
  by eapply local_quiet.
Qed.

(** The same defect stops the listener: once the channel of NCKs is full behind
    the blocked loop, the reading loop waits in the send of one more, and until
    [Write] is called again the end takes no frame at all. *)
Theorem stalled_takes_nothing cfg a b a' b' n :
  good_cfg cfg -> reachable cfg (a, b) -> parked (ep a) = true -> waiting a = None ->
  pending a = Some (InNck n) -> zlen (queue (nckc (ep a))) = nck_cap ->
  rtc silent (a, b) (a', b') ->
  pending a' = Some (InNck n) /\ recvNO (ep a') = recvNO (ep a) /\
  recvPool (ep a') = recvPool (ep a).
Proof.
  intros Hc Hr Hpk Hwait Hpend Hfull Hrun.
  destruct (reachable_inv cfg _ Hc Hr) as [_ Hinv].
  pose proof (st_nckc _ _ _ (inv_static _ _ _ _ Hinv)) as Hopen. simpl in Hopen. clear Hinv.
  refine (proj1 (rtc_invariant silent (fun s =>
    (pending s.1 = Some (InNck n) /\ same_reader (ep a) (ep s.1)) /\
    parked (ep s.1) = true /\ waiting s.1 = None /\ nckc (ep s.1) = nckc (ep a)) (a, b) (a', b') _ Hrun _));
    [|done].
  clear - Hfull Hopen. intros s s' (Hstep & Hwr & Hnw) ((HP & HS) & HK & HW & HN).
  destruct Hstep as [e e' p _ Hl|e p p' _ Hl|e p f x c _ Hf _ Ht]; simpl in *; [|done..].
  assert (Htr : forall c, same_reader (ep e) c -> same_reader (ep a) c).
  { intros c [E1 E2]. destruct HS as [E3 E4]. split; congruence. }
  destruct Hl as [seg|seg|seg c Hwait _|f x c Hf Htakes|x y c Hx Hput| |c Hc|r c Hc|cap arm out c Hcap Hread];
    simpl in *.
  - apply (f_equal length) in Hwr. rewrite length_app in Hwr. simpl in Hwr. lia.
  - done.
  - congruence.
  - destruct Htakes. congruence.
  - rewrite HP in Hx. injection Hx as <-. unfold put, chan_push, chan_send in Hput.
    rewrite HN, Hopen, Hfull in Hput. done.
  - split; [split; [done|apply Htr, check_loop_reader]|].
    unfold check_loop. by case_bool_decide.
  - unfold nck_loop in Hc. by rewrite HK in Hc.
  - split; [split; [done|by eapply Htr, query_loop_reader]|].
    unfold nck_query_loop in Hc. destruct (queue (nckQuery (ep e))) as [|q qs]; [done|].
    destruct (sendNCK_shape q (set_nckQuery (Chan qs (closed (nckQuery (ep e)))) (ep e))) as (r' & v & E & _).
    rewrite E in Hc. by injection Hc as <- <-.
  - split; [split; [done|by eapply Htr, Read_reader]|].
    by destruct (Read_shape _ _ _ _ _ Hread) as (rest & q & ->).
Qed.

(** The frames of the segments [wx], each sent once. *)
Definition sent_once (wx : list bytes) : list bytes :=
  imap (fun i seg => data_frame false (Z.of_nat i + 1) seg) wx.

(** The opener while nothing answers it. *)
Record quiet_opener (e : endpoint) : Prop := {
  qo_server : server (ep e) = false;
  qo_nck : queue (nckc (ep e)) = [];
  qo_query : queue (nckQuery (ep e)) = [];
  qo_event : sendEventClosed (ep e) = false;
  qo_ack : ackNO (ep e) = 0;
  qo_parked : parked (ep e) = false;
  qo_sent : filter is_data (wire (ep e)) = sent_once (written e)
}.

Lemma is_data_frame k seg : is_data (data_frame false k seg) = true.
Proof. unfold is_data, data_frame. by rewrite received_mark. Qed.

Lemma check_loop_shape c :
  check_loop c = c \/ exists q, check_loop c = set_wire (wire c ++ [query_frame (server c) q]) c.
Proof. unfold check_loop. case_bool_decide; [right; by eexists|by left]. Qed.

Lemma opener_step w fs p e e' :
  Inv w fs e p -> wire (ep p) = [] -> pending e = None -> quiet_opener e ->
  local (ep p) e e' -> pending e' = None /\ quiet_opener e'.
Proof.
  intros Hinv Hwire Hpend [Q1 Q2 Q3 Q4 Q5 Q6 Q7] Hl.
  destruct Hl as [seg (_ & _ & _ & Hm) _|seg|seg c Hwait Hev|f x c Hf|x y c Hx| |c Hc|r c Hc|cap arm out c Hcap Hread];
    simpl in *.
  - split; [done|]. constructor; simpl; try done.
    rewrite Q1, filter_app, Q7. unfold sent_once. rewrite imap_app. simpl.
    pose proof (snd_no _ _ _ _ _ (inv_snd _ _ _ _ Hinv)) as Hn. unfold max_frames in *.
    pose proof (zlen_nonneg (written e)). rewrite Hn, u32_small by lia.
    f_equal. rewrite Nat.add_0_r. fold (zlen (written e)).
    change (filter is_data [data_frame false (zlen (written e) + 1) seg] =
            [data_frame false (zlen (written e) + 1) seg]).
    by rewrite filter_cons_True, filter_nil by (by rewrite is_data_frame).
  - by split.
  - unfold await_event in Hev. by rewrite Q4, Q6 in Hev.
  - rewrite Hwire in Hf. by apply not_elem_of_nil in Hf.
  - congruence.
  - split; [done|]. destruct (check_loop_shape (ep e)) as [->|[q ->]]; [by constructor|].
    constructor; simpl; try done. rewrite filter_app, Q7.
    rewrite filter_cons_False, filter_nil, app_nil_r; [done|].
    unfold query_frame. rewrite is_data_control by done. by intros [].
  - unfold nck_loop in Hc. by rewrite Q6, Q2 in Hc.
  - unfold nck_query_loop in Hc. by rewrite Q3 in Hc.
  - split; [done|]. destruct (Read_shape _ _ _ _ _ Hread) as (rest & q & ->). by constructor.
Qed.

(** The opening of a stream is not retransmitted: as long as every data frame so
    far is lost, the queries of the opener are dropped, since the other end has
    no connection, nothing ever answers, and each frame is sent exactly once. *)
Theorem opening_never_retransmitted cfg a b :
  good_cfg cfg -> reachable cfg (a, b) -> opened b = false ->
  wire (ep b) = [] /\ ackNO (ep a) = 0 /\ parked (ep a) = false /\
  filter is_data (wire (ep a)) = sent_once (written a).
Proof.
  intros Hc Hr Hopb.
  set (I := fun s : endpoint * endpoint => reachable cfg s /\
    (opened s.2 = false -> wire (ep s.2) = [] /\ pending s.1 = None /\ quiet_opener s.1)).
  assert (HI : I (a, b)).
  2: { destruct HI as [_ HI]. destruct (HI Hopb) as (H1 & _ & []). done. }
  refine (rtc_invariant step I _ _ _ Hr _); [|by split; [apply rtc_refl|]].
  clear - Hc. intros s s' Hs [Hreach HI]. split; [by eapply rtc_r|].
  destruct (reachable_inv cfg _ Hc Hreach) as [_ Hinv].
  destruct Hs as [e e' p _ Hl|e p p' Hop Hl|e p f x c _ Hf _ Ht]; simpl in *; [| |done].
  - intros Hop. destruct (HI Hop) as (I1 & I2 & I3). split; [done|]. by eapply opener_step.
  - intros Hop'. by rewrite (local_opened _ _ _ Hl Hop) in Hop'.
Qed.

(** ** Witnesses *)

Module Examples.

Definition ex_cfg : Config := listen_config [].
Definition a0 : endpoint := (initial ex_cfg).1.
Definition b0 : endpoint := (initial ex_cfg).2.

(** What the end is after it has taken the frame and done the sends it causes. *)
Fixpoint run_puts (fuel : nat) (s : option incoming * conn) : option incoming * conn :=
  match fuel, s.1 with
  | S fuel, Some x => match put x s.2 with Some s => run_puts fuel s | None => s end
  | _, _ => s
  end.
Definition receive (sp f : bytes) (e : endpoint) : endpoint :=
  match arrive 0 [] (GSlice (datagram f) sp) (ep e) with
  | Some s => let '(x, c) := run_puts 2000 s in with_reader x c e
  | None => e
  end.

(** [a] writes one segment. *)
Definition a1 : endpoint := write_segment (bs "hi") (ep a0) a0.
(** It creates the connection of [b], which reads its first byte. *)
Definition b1 : endpoint := receive [] (data_frame false 1 (bs "hi")) b0.
Definition b2 : endpoint :=
  match Read 1 ArmInbound (ep b1) with
  | Some (inl out, c) => Endpoint c true (pending b1) (written b1) (got b1 ++ out) (waiting b1)
  | _ => b1
  end.
(** [a] writes another segment, whose frame is lost. *)
Definition a2 : endpoint := write_segment (bs "yo") (ep a1) a1.

Lemma ex_good : good_cfg ex_cfg.
Proof. unfold good_cfg, read_buffer. simpl. lia. Qed.

Lemma ex_write : reachable ex_cfg (a1, b0).
Proof.
  apply rtc_once, StepLeft; [done|]. apply (LWrite _ a0 (bs "hi")); [|reflexivity].
  split_and!; vm_compute; done.
Qed.

(** The frame of [a1] creates the connection of [b], and is put into its channel. *)
Definition b1' : endpoint := with_reader (Some (InData (bs "hi"))) (ep b0) b0.

Lemma ex_created : reachable ex_cfg (a1, b1).
Proof.
  unfold reachable. transitivity (a1, b0); [exact ex_write|].
  eapply (rtc_l _ _ (a1, b1')).
  - apply (StepCreate a1 b0 (data_frame false 1 (bs "hi"))); [done|apply list_elem_of_here|reflexivity|].
    apply (Takes _ _ 0 [] []); [done|vm_compute; done|vm_compute; reflexivity].
  - apply rtc_once, StepRight; [done|].
    change b1 with (with_reader None (ep b1) b1').
    apply (LPut _ _ (InData (bs "hi"))); [done|vm_compute; reflexivity].
Qed.

Lemma ex_read : reachable ex_cfg (a1, b2).
Proof.
  unfold reachable. transitivity (a1, b1); [exact ex_created|]. apply rtc_once, StepRight; [done|].
  change b2 with (Endpoint (ep b2) true None (written b1) (got b1 ++ [z2b 104]) (waiting b1)).
  apply (LRead _ b1 1 ArmInbound); [lia|vm_compute; reflexivity].
Qed.

Lemma ex_lost : reachable ex_cfg (a2, b1).
Proof.
  unfold reachable. transitivity (a1, b1); [exact ex_created|]. apply rtc_once, StepLeft; [done|].
  apply (LWrite _ a1 (bs "yo")); [|reflexivity]. split_and!; vm_compute; done.
Qed.

Lemma read_is_prefix_witness :
  got b2 `prefix_of` concat (written a1) /\ got a1 `prefix_of` concat (written b2) /\ got b2 = bs "h".
Proof.
  destruct (read_is_prefix ex_cfg a1 b2 ex_good ex_read) as [H1 H2].
  split; [exact H1|]. split; [exact H2|]. vm_compute. reflexivity.
Defined.

Lemma pooled_or_arrived_witness :
  sentNO (ep a2) = zlen (written a2) /\
  (forall k, 1 <= k <= zlen (written a2) ->
     (exists seg, nth_seg (written a2) k = Some seg /\
        sendPool (ep a2) !! k = Some (data_frame (server (ep a2)) k seg)) \/ has (ep b1) k) /\
  Z.of_nat (size (sendPool (ep a2))) <= window (ep a2).
Proof. exact (pooled_or_arrived ex_cfg a2 b1 ex_good ex_lost). Defined.

Lemma query_round_retransmits_witness :
  exists a' b' new,
    rtc step (a2, b1) (a', b') /\ written a' = written a2 /\ recvNO (ep b') = recvNO (ep b1) /\
    wire (ep a') = wire (ep a2) ++ new /\
    ((exists seg, nth_seg (written a2) (recvNO (ep b1) + 1) = Some seg /\
        data_frame (server (ep a2)) (recvNO (ep b1) + 1) seg ∈ new) \/
     ackNO (ep a2) < ackNO (ep a')).
Proof.
  apply (query_round_retransmits ex_cfg a2 b1 ex_good ex_lost);
    [reflexivity..|vm_compute; reflexivity].
Defined.

(** The same round leaves the NCK loop of [a] blocked. *)
Definition a3 : endpoint := with_reader None (query_round 355 2 (ep a2) (ep b1)).1 a2.
Definition b3 : endpoint := with_reader None (query_round 355 2 (ep a2) (ep b1)).2 b1.

Lemma ex_blocked : reachable ex_cfg (a3, b3).
Proof.
  unfold reachable. transitivity (a2, b1); [exact ex_lost|].
  destruct (reachable_inv ex_cfg _ ex_good ex_lost) as [[Hw Hfs] H].
  apply (round_steps 355 1421 Hw Hfs a2 b1 H); [reflexivity..|vm_compute; reflexivity].
Qed.

Lemma parked_never_retransmits_witness :
  let a4 := with_conn (check_loop (ep a3)) a3 in
  parked (ep a4) = true /\ sendPool (ep a4) = sendPool (ep a3) /\
  filter is_data (wire (ep a4)) = filter is_data (wire (ep a3)).
Proof.
  apply (parked_never_retransmits ex_cfg a3 b3 _ b3 ex_good ex_blocked); [reflexivity|reflexivity|].
  apply rtc_once. split; [apply StepLeft; [reflexivity|apply LCheck]|split; reflexivity].
Defined.

(** An MTU above the 1500 bytes of the reading loop's buffer, which [WithMTU]
    accepts: the frame of 1510 bytes is cut to 1500, and the slicing by the length
    in its header takes the missing ten bytes from the spare capacity of the copy
    (1536 bytes, zeroed). *)
Definition wide_cfg : Config := listen_config [WithMTU 1510].
Definition wide_seg : bytes := replicate 1503 (z2b 97).
Definition wide_spare : bytes := replicate 36 (z2b 0).
Definition wide_a : endpoint := write_segment wide_seg (ep (initial wide_cfg).1) (initial wide_cfg).1.
Definition wide_data : bytes := replicate 1493 (z2b 97) ++ replicate 10 (z2b 0).
Definition wide_b0 : endpoint := (initial wide_cfg).2.
Definition wide_b1 : endpoint := with_reader (Some (InData wide_data)) (ep wide_b0) wide_b0.
Definition wide_b2 : endpoint := receive wide_spare (data_frame false 1 wide_seg) wide_b0.
Definition wide_b3 : endpoint :=
  Endpoint (set_inbound (Chan [] false) (ep wide_b2)) true None [] wide_data None.

Example large_mtu_corrupts :
  reachable wide_cfg (wide_a, wide_b3) /\ concat (written wide_a) = wide_seg /\ got wide_b3 = wide_data.
Proof.
  split; [|split; [vm_compute; reflexivity|reflexivity]]. unfold reachable.
  eapply (rtc_l _ _ (wide_a, wide_b0)).
  { apply StepLeft; [done|]. apply (LWrite _ (initial wide_cfg).1 wide_seg); [|reflexivity].
    split_and!; vm_compute; done. }
  eapply (rtc_l _ _ (wide_a, wide_b1)).
  { apply (StepCreate wide_a wide_b0 (data_frame false 1 wide_seg)); [done|apply list_elem_of_here| |].
    - vm_compute. reflexivity.
    - apply (Takes _ _ 0 [] wide_spare); [done|vm_compute; done|vm_compute; reflexivity]. }
  eapply (rtc_l _ _ (wide_a, wide_b2)).
  { apply StepRight; [done|]. change wide_b2 with (with_reader None (ep wide_b2) wide_b1).
    apply (LPut _ _ (InData wide_data)); [done|vm_compute; reflexivity]. }
  apply rtc_once, StepRight; [done|].
  apply (LRead _ wide_b2 2000 ArmInbound wide_data); [lia|vm_compute; reflexivity].
Qed.

End Examples.
