(* ===== verification/Stream.v ===== *)
(** * Byte streams cut into frames

    Both ends of a control connection carry a byte stream in [CONTROL_CONN]
    messages: the read loop pushes the frames, [Read] hands them out in pieces of
    any size and keeps the rest of a frame for the next call.  [FrameReader] is
    what such an end promises; the theorems about whole runs are proved against
    it. *)

From S2P Require Import Prelude.

(** What [copy] gives a buffer of [n] bytes, and what is left for the next one. *)
Definition copy_out (n : Z) (b : bytes) : bytes * option bytes :=
  (take (Z.to_nat n) b, if bool_decide (n < zlen b) then Some (drop (Z.to_nat n) b) else None).

Lemma copy_out_split n b : 0 <= n -> b = (copy_out n b).1 ++ default [] (copy_out n b).2.
Proof.
  intros Hn. unfold copy_out. simpl. case_bool_decide as H; simpl; [by rewrite take_drop|].
  rewrite app_nil_r, take_ge; [done|]. unfold zlen in H. lia.
Qed.

Lemma copy_out_le n b : 0 <= n -> zlen (copy_out n b).1 <= n.
Proof. intros Hn. unfold copy_out, zlen. simpl. rewrite length_take. lia. Qed.

Lemma copy_out_nonempty n b : 0 < n -> b <> [] -> (copy_out n b).1 <> [].
Proof.
  intros Hn Hb. unfold copy_out. simpl. destruct b as [|x b]; [done|].
  destruct (Z.to_nat n) eqn:E; [lia|done].
Qed.

(** A copy empties the buffer or gives something. *)
Lemma copy_out_progress n b : 0 < n -> (copy_out n b).2 = None \/ (copy_out n b).1 <> [].
Proof.
  intros Hn. destruct b as [|x b]; [|right; by apply copy_out_nonempty].
  left. unfold copy_out. simpl. rewrite bool_decide_false; [done|]. rewrite zlen_nil. lia.
Qed.

Class FrameReader (C : Type) := {
  fr_pending : C -> bytes;
  fr_size : C -> nat;
  fr_push : bytes -> C -> C -> Prop;
  fr_read : Z -> C -> bytes -> C -> Prop
}.

Class FrameReaderLaws (C : Type) `{!FrameReader C} := {
  fr_push_pending p c c' : fr_push p c c' -> fr_pending c' = fr_pending c ++ p;
  fr_read_pending n c p c' :
    0 <= n -> fr_read n c p c' -> fr_pending c = p ++ fr_pending c' /\ zlen p <= n;
  fr_read_total n c :
    0 < n -> fr_pending c <> [] ->
    exists p c', fr_read n c p c' /\ (fr_size c' <= fr_size c)%nat /\ (p <> [] \/ (fr_size c' < fr_size c)%nat)
}.

Section Runs.
Context {C : Type} `{!FrameReader C, !FrameReaderLaws C}.

(** A run: frames that are pushed and reads, with the bytes that went in and
    those that came out. *)
Inductive run : C -> bytes -> bytes -> C -> Prop :=
| run_refl c : run c [] [] c
| run_push c i o c1 p c2 : run c i o c1 -> fr_push p c1 c2 -> run c (i ++ p) o c2
| run_read c i o c1 n p c2 : run c i o c1 -> 0 <= n -> fr_read n c1 p c2 -> run c i (o ++ p) c2.

(** Nothing is lost, repeated or reordered. *)
Lemma run_exact c i o c' : run c i o c' -> fr_pending c ++ i = o ++ fr_pending c'.
Proof.
  induction 1 as [c|c i o c1 p c2 _ IH Hp|c i o c1 n p c2 _ IH Hn Hr].
  - by rewrite app_nil_r.
  - by rewrite (fr_push_pending p c1 c2), app_assoc, IH, app_assoc.
  - destruct (fr_read_pending n c1 p c2 Hn Hr) as [Heq _]. rewrite IH, Heq. by rewrite app_assoc.
Qed.

Lemma run_trans_reads c o c1 o' c2 : run c [] o c1 -> run c1 [] o' c2 -> run c [] (o ++ o') c2.
Proof.
  intros H1 H2. remember [] as i eqn:Hi in H2. revert H1.
  induction H2 as [c1|c1 i o' c2 p c3 _ IH Hp|c1 i o' c2 n p c3 _ IH Hn Hr]; intros H1.
  - by rewrite app_nil_r.
  - apply app_nil in Hi as [-> ->]. specialize (IH eq_refl H1).
    change (@nil Byte.byte) with (@nil Byte.byte ++ []). by eapply run_push.
  - rewrite app_assoc. eapply run_read; [by apply IH|done|done].
Qed.

(** Reads of [n] bytes drain all that is pending. *)
Lemma run_drain n c : 0 < n -> exists c', run c [] (fr_pending c) c' /\ fr_pending c' = [].
Proof.
  intros Hn.
  remember (length (fr_pending c) + fr_size c)%nat as m eqn:Hm. revert c Hm.
  induction m as [m IH] using lt_wf_ind. intros c ->.
  destruct (decide (fr_pending c = [])) as [Hnil|Hne].
  { exists c. rewrite Hnil. split; [constructor|done]. }
  destruct (fr_read_total n c Hn Hne) as (p & c1 & Hr & Hle & Hdec).
  destruct (fr_read_pending n c p c1 ltac:(lia) Hr) as [Heq _].
  destruct (IH (length (fr_pending c1) + fr_size c1)%nat) with (c := c1) as (c2 & Hrun & Hend); [|done|].
  { rewrite Heq, length_app. destruct Hdec as [Hp|Hp]; [|lia]. destruct p; [done|]. simpl. lia. }
  exists c2. split; [|done]. rewrite Heq.
  apply (run_trans_reads c p c1); [|done].
  eapply (run_read c [] [] c n p c1); [constructor|lia|exact Hr].
Qed.
End Runs.
