(* ===== verification/Connmux.v ===== *)
(** * Connection multiplexing ([connmux/connmux.go])

    A [session] owns the underlying byte stream: [input] is what is still to be
    read from it and [output] what was written.  A [MuxConn] is a cell of the
    arena [conns], because the maps [accepts] and [dials], the accept channel and
    the callers all hold references to the same connection.

    The goroutine of the session waits in two places, [blocked]: until a new
    connection is accepted, since the accept channel has no buffer, and until the
    channel of a connection, of 128 payloads, has room.  [run_step] is what the
    goroutine does between two such points, [acts] the steps of the goroutine and
    of its users, [trace] their interleavings. *)

From S2P Require Import Prelude.

Definition CMD_DATA : Z := 0.
Definition CMD_FIN : Z := 1.
Definition HEADER_LEN : Z := 8.

(** ** Sequence generators *)

Record stdSeqGen := SeqGen { seq_val : Z; delta : Z; initSeq : Z; inited : bool }.

Definition GenSeq (g : stdSeqGen) : Z * stdSeqGen :=
  let v := if inited g then seq_val g else initSeq g in
  let v' := u32 (v + delta g) in
  (v', SeqGen v' (delta g) (initSeq g) true).

Definition NewSeqEven : stdSeqGen := SeqGen 0 2 0 false.
Definition NewSeqOdd : stdSeqGen := SeqGen 0 2 1 false.
Definition NewSeq : stdSeqGen := SeqGen 0 1 0 false.

(** The generator after [n] calls, and its [n]-th number, from 0. *)
Fixpoint gen_after (n : nat) (g : stdSeqGen) : stdSeqGen :=
  match n with O => g | S n => (GenSeq (gen_after n g)).2 end.
Definition nth_seq (n : nat) (g : stdSeqGen) : Z := (GenSeq (gen_after n g)).1.

(** ** Connections and sessions *)

Record MuxConn := MkMuxConn {
  closeOnce : bool;
  fin : chan unit;
  finWait : chan unit;
  inbound : list bytes;
  mseq : Z;
  buf : option bytes;
  deadlineClosed : bool
}.

Definition new_conn (seq : Z) : MuxConn :=
  MkMuxConn false make_chan make_chan [] seq None false.

Definition set_fin (x : chan unit) (c : MuxConn) : MuxConn :=
  MkMuxConn true x (finWait c) (inbound c) (mseq c) (buf c) (deadlineClosed c).
Definition set_finWait (x : chan unit) (c : MuxConn) : MuxConn :=
  MkMuxConn (closeOnce c) (fin c) x (inbound c) (mseq c) (buf c) (deadlineClosed c).
Definition set_inbound (x : list bytes) (c : MuxConn) : MuxConn :=
  MkMuxConn (closeOnce c) (fin c) (finWait c) x (mseq c) (buf c) (deadlineClosed c).
Definition set_buf (x : option bytes) (c : MuxConn) : MuxConn :=
  MkMuxConn (closeOnce c) (fin c) (finWait c) (inbound c) (mseq c) x (deadlineClosed c).
Definition set_deadlineClosed (c : MuxConn) : MuxConn :=
  MkMuxConn (closeOnce c) (fin c) (finWait c) (inbound c) (mseq c) (buf c) true.

(** What the session's goroutine is waiting to send: a new connection to [Accept],
    or a payload to the channel of a connection. *)
Inductive pend := ToAccept (i : nat) (data : bytes) | ToInbound (i : nat) (data : bytes).

Record MuxSession := MkMuxSession {
  exit : bool;
  mclosed : bool;
  blocked : option pend;
  seqGen : option stdSeqGen;
  accepts : gmap Z nat;
  dials : gmap Z nat;
  conns : list MuxConn;
  input : bytes;
  output : bytes
}.

Definition set_maps (a d : gmap Z nat) (s : MuxSession) : MuxSession :=
  MkMuxSession (exit s) (mclosed s) (blocked s) (seqGen s) a d (conns s) (input s) (output s).
Definition set_conns (x : list MuxConn) (s : MuxSession) : MuxSession :=
  MkMuxSession (exit s) (mclosed s) (blocked s) (seqGen s) (accepts s) (dials s) x (input s) (output s).
Definition set_blocked (x : option pend) (s : MuxSession) : MuxSession :=
  MkMuxSession (exit s) (mclosed s) x (seqGen s) (accepts s) (dials s) (conns s) (input s) (output s).
Definition set_seqGen (x : option stdSeqGen) (s : MuxSession) : MuxSession :=
  MkMuxSession (exit s) (mclosed s) (blocked s) x (accepts s) (dials s) (conns s) (input s) (output s).
Definition set_input (x : bytes) (s : MuxSession) : MuxSession :=
  MkMuxSession (exit s) (mclosed s) (blocked s) (seqGen s) (accepts s) (dials s) (conns s) x (output s).
Definition set_output (x : bytes) (s : MuxSession) : MuxSession :=
  MkMuxSession (exit s) (mclosed s) (blocked s) (seqGen s) (accepts s) (dials s) (conns s) (input s) x.

(** Errors of the session; [ErrUnder] comes from the underlying stream. *)
Inductive mux_error :=
| ErrHeader | ErrVersion (v : Z) | ErrData | ErrCmd (cmd : Z)
| ErrClosedPipe | ErrUnder | ErrNoSeqGen.

Abbreviation M := (GoM MuxSession mux_error).

(** The cell of a connection, and changing it. *)
Definition conn_at (i : nat) : M MuxConn := fun s =>
  match conns s !! i with Some c => (Ok c, s) | None => (Panic, s) end.
Definition on_conn (i : nat) (f : MuxConn -> MuxConn) : M unit :=
  modify (fun s => set_conns (alter f i (conns s)) s).

(** [Write] on the underlying stream: [Some n] when it fails after [n] bytes. *)
Definition under_write (fail : option Z) (b : bytes) (s : MuxSession) : (Z * bool) * MuxSession :=
  match fail with
  | None => ((zlen b, true), set_output (output s ++ b) s)
  | Some n => ((n, false), set_output (output s ++ take (Z.to_nat n) b) s)
  end.

(** The frame of a command: version 0, command, length, sequence number. *)
Definition frame (cmd : byte) (len seq : Z) (p : bytes) : bytes :=
  [z2b 0; cmd] ++ be16 len ++ be32 seq ++ p.

(** [MuxConn.Write]: the number of bytes reported and the error. *)
Definition Write (fail : option Z) (i : nat) (p : bytes) : M Z :=
  c ← conn_at i;
  let b := frame (z2b 0) (u16 (zlen p)) (mseq c) p in
  if closed (fin c) then lift (Err ErrClosedPipe)
  else fun s =>
    let '((n, ok), s) := under_write fail b s in
    if ok then (Ok (Z.max 0 (n - HEADER_LEN)), s) else (Err ErrUnder, s).

(** The select of [MuxConn.Read], once nothing is buffered: which of its ready
    arms is taken.  The result [None] means that arm is not ready. *)
Inductive read_arm := ArmDeadline (ok : bool) | ArmFin | ArmInbound.
Inductive read_result := Data (b : bytes) | EOF | ErrDeadline.

Definition Read (cap : Z) (arm : read_arm) (c : MuxConn) : option (read_result * MuxConn) :=
  match buf c with
  | Some b =>
      let n := Z.min cap (zlen b) in
      Some (Data (take (Z.to_nat n) b),
            set_buf (if bool_decide (n < zlen b) then Some (drop (Z.to_nat n) b) else None) c)
  | None =>
      match arm with
      | ArmDeadline ok => Some (if ok then ErrDeadline else EOF, c)
      | ArmFin => if closed (finWait c) then Some (EOF, c) else None
      | ArmInbound =>
          match inbound c with
          | [] => None
          | b :: q =>
              let n := Z.min cap (zlen b) in
              let c := set_inbound q c in
              Some (Data (take (Z.to_nat n) b),
                    if bool_decide (n < zlen b) then set_buf (Some (drop (Z.to_nat n) b)) c else c)
          end
      end
  end.

(** [MuxConn.Close]: once, disable writes and send a FIN, whatever becomes of it. *)
Definition conn_Close (fail : option Z) (i : nat) : M unit :=
  c ← conn_at i;
  if closeOnce c then mret tt
  else
    ch ← lift (chan_close (fin c));
    on_conn i (set_fin ch);;
    modify (fun s => (under_write fail (frame (z2b 1) (u16 0) (mseq c) []) s).2).

(** The goroutine [Close] starts: after the peer's FIN or 30 s ([timeout]). *)
Definition fin_finish (timeout : bool) (i : nat) : M unit :=
  c ← conn_at i;
  (if timeout then ch ← lift (chan_close (finWait c)); on_conn i (set_finWait ch) else mret tt);;
  modify (fun s => set_maps (delete (mseq c) (accepts s)) (delete (mseq c) (dials s)) s);;
  on_conn i set_deadlineClosed.

(** [io.ReadFull] on the underlying stream: a short input is used up and fails. *)
Definition ReadFull (n : Z) (e : mux_error) : M bytes := fun s =>
  if bool_decide (zlen (input s) < n) then (Err e, set_input [] s)
  else (Ok (take (Z.to_nat n) (input s)), set_input (drop (Z.to_nat n) (input s)) s).

(** The connection of a sequence number: dialled ones take precedence. *)
Definition find_conn (seq : Z) (s : MuxSession) : option nat :=
  match dials s !! seq with
  | Some i => Some i
  | None => accepts s !! seq
  end.

(** [nextFrame] up to its first channel send; [fail] is for the FIN written back. *)
Definition nextFrame (fail : option Z) : M unit :=
  header ← ReadFull HEADER_LEN ErrHeader;
  ver ← lift (sl_get (exact header) 0);
  if bool_decide (b2z ver <> 0) then lift (Err (ErrVersion (b2z ver)))
  else
    h ← lift (sl_sub (exact header) 2 4);
    length ← lift (sl_be16 h);
    h ← lift (sl_sub (exact header) 4 8);
    seq ← lift (sl_be32 h);
    cmd ← lift (sl_get (exact header) 1);
    data ← ReadFull length ErrData;
    conn ← gets (find_conn seq);
    if bool_decide (b2z cmd = CMD_DATA) then
      match conn with
      | Some i => modify (set_blocked (Some (ToInbound i data)))
      | None => modify (fun s =>
          let i := List.length (conns s) in
          set_blocked (Some (ToAccept i data))
            (set_maps (<[seq := i]> (accepts s)) (dials s)
              (set_conns (conns s ++ [new_conn seq]) s)))
      end
    else if bool_decide (b2z cmd = CMD_FIN) then
      match conn with
      | None => mret tt
      | Some i =>
          c ← conn_at i;
          ch ← lift (chan_close (finWait c));
          on_conn i (set_finWait ch);;
          conn_Close fail i
      end
    else lift (Err (ErrCmd (b2z cmd))).

(** The capacity of [inbound] (connmux.go:310). *)
Definition mux_inbound_cap : Z := 128.

(** Appending to the inbound channel of connection [i]. *)
Definition push (i : nat) (p : bytes) (s : MuxSession) : MuxSession :=
  set_conns (alter (fun c => set_inbound (inbound c ++ [p]) c) i (conns s)) s.

(** [MuxSession.Accept]: the arm its [select] takes, when it is ready.  Receiving
    the connection lets the session's goroutine go on to its payload. *)
Inductive accept_arm := AcceptExit | AcceptConn.

Definition Accept (arm : accept_arm) (s : MuxSession) : option ((nat + mux_error) * MuxSession) :=
  match arm with
  | AcceptExit => if exit s then Some (inr ErrClosedPipe, s) else None
  | AcceptConn =>
      match blocked s with
      | Some (ToAccept i data) => Some (inl i, set_blocked (Some (ToInbound i data)) s)
      | _ => None
      end
  end.

(** [MuxSession.Close]; closing the underlying stream is outside. *)
Definition session_Close (s : MuxSession) : MuxSession :=
  MkMuxSession true true (blocked s) (seqGen s) (accepts s) (dials s) (conns s) (input s) (output s).
Definition Closed (s : MuxSession) : bool := mclosed s.

(** [run] from one waiting point to the next: [None] while the goroutine waits, and
    with its result when it returns, closing the session. *)
Definition run_step (fail : option Z) (s : MuxSession)
    : option (option (res mux_error unit) * MuxSession) :=
  match blocked s with
  | Some (ToAccept _ _) => None
  | Some (ToInbound i data) =>
      match conns s !! i with
      | Some c =>
          if bool_decide (zlen (inbound c) < mux_inbound_cap)
          then Some (None, set_blocked None (push i data s)) else None
      | None => None
      end
  | None =>
      if exit s then Some (Some (Ok tt), session_Close s)
      else match nextFrame fail s with
           | (Ok tt, s) => Some (None, s)
           | (r, s) => Some (Some r, session_Close s)
           end
  end.

(** The steps of the session's goroutine and of its users. *)
Inductive event := ERun | EAccept (i : nat) | ERead (i : nat) (b : bytes) | EWrite (i : nat) (p : bytes).

Inductive acts (s : MuxSession) : event -> MuxSession -> Prop :=
| ActRun fail s' : run_step fail s = Some (None, s') -> acts s ERun s'
| ActAccept i s' : Accept AcceptConn s = Some (inl i, s') -> acts s (EAccept i) s'
| ActRead i cap arm c b c' :
    0 <= cap -> conns s !! i = Some c -> Read cap arm c = Some (Data b, c') ->
    acts s (ERead i b) (set_conns (<[i := c']> (conns s)) s)
| ActWrite i fail p r s' : Write fail i p s = (r, s') -> acts s (EWrite i p) s'.

Inductive trace (s : MuxSession) : list event -> MuxSession -> Prop :=
| TraceNil : trace s [] s
| TraceSnoc tr s1 e s2 : trace s tr s1 -> acts s1 e s2 -> trace s (tr ++ [e]) s2.

Definition OpenStream : M nat := fun s =>
  match seqGen s with
  | None => (Err ErrNoSeqGen, s)
  | Some g =>
      let '(seq, g) := GenSeq g in
      let i := List.length (conns s) in
      (Ok i, set_seqGen (Some g) (set_maps (accepts s) (<[seq := i]> (dials s))
               (set_conns (conns s ++ [new_conn seq]) s)))
  end.

Definition Mux (g : option stdSeqGen) (inp : bytes) : MuxSession :=
  MkMuxSession false false None g ∅ ∅ [] inp [].

(** [SetWriteDeadline] always fails, and [SetDeadline] with it. *)
Definition SetReadDeadline_fails : bool := false.
Definition SetWriteDeadline_fails : bool := true.
Definition SetDeadline_fails : bool := SetReadDeadline_fails || SetWriteDeadline_fails.

(** ** Lemmas: sequence numbers *)

Lemma gen_after_val n g :
  (inited g = false) -> delta (gen_after n g) = delta g /\ initSeq (gen_after n g) = initSeq g /\
  (if inited (gen_after n g) then seq_val (gen_after n g) else initSeq g) =
    (if decide (n = 0%nat) then initSeq g else u32 (initSeq g + Z.of_nat n * delta g)).
Proof.
  intros Hi. induction n as [|n IH]; simpl; [by rewrite Hi|].
  destruct IH as (-> & -> & Hv). split; [done|]. split; [done|].
  rewrite Hv. destruct (decide (n = 0%nat)) as [->|]; [f_equal; lia|].
  unfold u32. rewrite Zplus_mod_idemp_l. f_equal. lia.
Qed.

Lemma nth_seq_val n g :
  inited g = false -> nth_seq n g = u32 (initSeq g + (Z.of_nat n + 1) * delta g).
Proof.
  intros Hi. destruct (gen_after_val n g Hi) as (Hd & Hs & Hv).
  unfold nth_seq, GenSeq. simpl. rewrite Hd, Hs, Hv.
  destruct (decide (n = 0%nat)) as [->|]; [f_equal; lia|].
  unfold u32. rewrite Zplus_mod_idemp_l. f_equal. lia.
Qed.

(** ** Lemmas: reading a frame *)

Lemma ReadFull_app n e x rest s :
  input s = x ++ rest -> n = zlen x ->
  ReadFull n e s = (Ok x, set_input rest s).
Proof.
  intros Hin ->. unfold ReadFull. rewrite Hin, zlen_app. pose proof (zlen_nonneg rest).
  rewrite bool_decide_false by lia. unfold zlen.
  by rewrite Nat2Z.id, take_app_length, drop_app_length.
Qed.

(** The header fields of a frame. *)
Section Header.
Context {E : Type} (cmd : byte) (len seq : Z).
Let header := exact ([z2b 0; cmd] ++ be16 len ++ be32 seq).

Lemma header_ver : @sl_get E header 0 = Ok (z2b 0).
Proof. by apply (sl_get_app [] (z2b 0)). Qed.
Lemma header_cmd : @sl_get E header 1 = Ok cmd.
Proof. by apply (sl_get_app [z2b 0] cmd). Qed.
Lemma header_len : (h ← @sl_sub E header 2 4; sl_be16 h) = Ok (u16 len).
Proof.
  unfold header, exact. rewrite (sl_sub_app [z2b 0; cmd] (be16 len)) by done. simpl.
  rewrite <- (app_nil_r (be16 len)). apply sl_be16_app.
Qed.
Lemma header_seq : (h ← @sl_sub E header 4 8; sl_be32 h) = Ok (u32 seq).
Proof.
  unfold header, exact. rewrite app_assoc, <- (app_nil_r (be32 seq)).
  rewrite (sl_sub_app ([z2b 0; cmd] ++ be16 len) (be32 seq)) by done. simpl.
  rewrite <- (app_nil_r (be32 seq)). apply sl_be32_app.
Qed.
End Header.

(** [nextFrame] once the frame is read. *)
Definition dispatch (fail : option Z) (cmd : byte) (seq : Z) (data : bytes) : M unit := fun s =>
  (if bool_decide (b2z cmd = CMD_DATA) then
      match find_conn seq s with
      | Some i => modify (set_blocked (Some (ToInbound i data)))
      | None => modify (fun s =>
          let i := List.length (conns s) in
          set_blocked (Some (ToAccept i data))
            (set_maps (<[seq := i]> (accepts s)) (dials s)
              (set_conns (conns s ++ [new_conn seq]) s)))
      end
    else if bool_decide (b2z cmd = CMD_FIN) then
      match find_conn seq s with
      | None => mret tt
      | Some i =>
          c ← conn_at i;
          ch ← lift (chan_close (finWait c));
          on_conn i (set_finWait ch);;
          conn_Close fail i
      end
    else lift (Err (ErrCmd (b2z cmd)))) s.

Lemma nextFrame_frame fail cmd len seq x rest s :
  input s = frame cmd len seq [] ++ x ++ rest -> zlen x = u16 len ->
  nextFrame fail s = dispatch fail cmd (u32 seq) x (set_input rest s).
Proof.
  intros Hin Hx. unfold nextFrame, frame in *. rewrite app_nil_r in Hin.
  unfold mbind at 1, gom_bind at 1. rewrite (ReadFull_app _ _ _ _ _ Hin) by done.
  unfold mbind at 1, gom_bind at 1. unfold lift at 1. rewrite header_ver.
  rewrite (bool_decide_false (b2z (z2b 0) <> 0)) by (intros H; by apply H).
  rewrite lift_bind2, (header_len cmd len seq), lift_bind2, (header_seq cmd len seq).
  unfold mbind at 1, gom_bind at 1. unfold lift at 1. rewrite header_cmd.
  unfold mbind at 1, gom_bind at 1.
  rewrite (ReadFull_app _ _ x rest) by done.
  unfold mbind at 1, gom_bind at 1. unfold gets. done.
Qed.

(** ** Lemmas: demultiplexing *)

(** The connection the goroutine is waiting for, and the payload it holds. *)
Definition waits_for (s : MuxSession) : option (nat * bytes) :=
  match blocked s with
  | Some (ToAccept i d) | Some (ToInbound i d) => Some (i, d)
  | None => None
  end.

(** Every connection of the maps exists and has the number it is stored under,
    and the goroutine waits for such a connection. *)
Definition wf (s : MuxSession) : Prop :=
  (forall q i, find_conn q s = Some i -> exists c, conns s !! i = Some c /\ mseq c = q) /\
  (forall i d, waits_for s = Some (i, d) ->
     exists c, conns s !! i = Some c /\ find_conn (mseq c) s = Some i).

(** The payload of the connection that the goroutine holds. *)
Definition held (i : nat) (s : MuxSession) : list bytes :=
  match waits_for s with
  | Some (j, d) => if decide (j = i) then [d] else []
  | None => []
  end.

(** What was taken from the stream for the number [q] and not read yet, frame by
    frame. *)
Definition inbox (q : Z) (s : MuxSession) : list bytes :=
  match find_conn q s with
  | Some i => match conns s !! i with Some c => inbound c ++ held i s | None => [] end
  | None => []
  end.

Definition known (q : Z) (s : MuxSession) : bool := bool_decide (is_Some (find_conn q s)).

Lemma find_conn_accepts q q' i s :
  find_conn q s = None ->
  find_conn q' (set_maps (<[q := i]> (accepts s)) (dials s) s) =
  if decide (q' = q) then Some i else find_conn q' s.
Proof.
  unfold find_conn. simpl. intros Hn. destruct (dials s !! q) eqn:Hd; [done|].
  destruct (decide (q' = q)) as [->|]; [by rewrite Hd, lookup_insert_eq|].
  by rewrite lookup_insert_ne by done.
Qed.

(** The session with a connection for the new number [q], whose payload [p] waits
    for [Accept]. *)
Definition add_conn (q : Z) (p : bytes) (s : MuxSession) : MuxSession :=
  let i := List.length (conns s) in
  set_blocked (Some (ToAccept i p))
    (set_maps (<[q := i]> (accepts s)) (dials s) (set_conns (conns s ++ [new_conn q]) s)).

Lemma add_conn_find q p s q' :
  find_conn q s = None ->
  find_conn q' (add_conn q p s) = if decide (q' = q) then Some (List.length (conns s)) else find_conn q' s.
Proof. intros Hq. exact (find_conn_accepts q q' (List.length (conns s)) s Hq). Qed.

Lemma add_conn_wf q p s : wf s -> find_conn q s = None -> wf (add_conn q p s).
Proof.
  intros [Hwf _] Hq.
  assert (Hnew : conns (add_conn q p s) !! List.length (conns s) = Some (new_conn q))
    by by apply list_lookup_middle.
  split.
  - intros q' i. rewrite add_conn_find by done. case_decide; [intros [= <-]; subst; by eexists|].
    intros (c & Hc & Hm)%Hwf. exists c. split; [|done]. by apply lookup_app_l_Some.
  - intros i d [= <- <-]. exists (new_conn q). split; [done|]. simpl.
    by rewrite add_conn_find, decide_True.
Qed.

Lemma wait_wf q i p s : wf s -> find_conn q s = Some i -> wf (set_blocked (Some (ToInbound i p)) s).
Proof.
  intros [Hwf _] Hq. split; [exact Hwf|]. intros j d [= <- <-].
  destruct (Hwf _ _ Hq) as (c & Hc & <-). by exists c.
Qed.

(** A data frame is taken from the stream. *)
Lemma take_data fail q p s :
  dispatch fail (z2b 0) q p s =
  (Ok tt, match find_conn q s with
          | Some i => set_blocked (Some (ToInbound i p)) s
          | None => add_conn q p s
          end).
Proof. unfold dispatch. rewrite bool_decide_true by done. by destruct (find_conn q s). Qed.

Lemma take_data_inbox fail q p s :
  wf s -> blocked s = None -> exists s', dispatch fail (z2b 0) q p s = (Ok tt, s') /\ wf s' /\
    input s' = input s /\ inbox q s' = inbox q s ++ [p].
Proof.
  intros Hwf Hb. rewrite take_data. eexists. split; [done|].
  assert (Hh : forall i, held i s = []) by (intros i; unfold held, waits_for; by rewrite Hb).
  destruct (find_conn q s) as [i|] eqn:Hq.
  - split; [by eapply wait_wf|]. split; [done|]. unfold inbox.
    change (find_conn q (set_blocked _ s)) with (find_conn q s). rewrite Hq. simpl.
    destruct Hwf as [Hwf _]. destruct (Hwf _ _ Hq) as (c & -> & _).
    unfold held at 1. simpl. by rewrite decide_True, Hh, app_nil_r.
  - split; [by apply add_conn_wf|]. split; [done|]. unfold inbox at 1.
    rewrite add_conn_find, decide_True by done. simpl. rewrite list_lookup_middle by done.
    unfold held. simpl. rewrite decide_True by done. unfold inbox. by rewrite Hq.
Qed.

(** A stream of data frames as the peer's [Write] calls produce it. *)
Definition data_frames (fs : list (Z * bytes)) : bytes :=
  concat ((fun f => frame (z2b 0) (u16 (zlen f.2)) f.1 f.2) <$> fs).

Definition payloads (q : Z) (fs : list (Z * bytes)) : list bytes :=
  snd <$> filter (fun f => f.1 = q) fs.

(** The numbers that are new, in the order of their first frame. *)
Fixpoint fresh (old : Z -> bool) (fs : list (Z * bytes)) : list Z :=
  match fs with
  | [] => []
  | (q, _) :: fs =>
      (if old q then [] else [q]) ++ fresh (fun q' => bool_decide (q' = q) || old q') fs
  end.

Lemma fresh_ext old old' fs : (forall q, old q = old' q) -> fresh old fs = fresh old' fs.
Proof.
  revert old old'. induction fs as [|[q p] fs IH]; intros old old' He; [done|]. simpl.
  rewrite He. f_equal. apply IH. intros q'. by rewrite He.
Qed.

Lemma fresh_snoc old fs q p :
  fresh old (fs ++ [(q, p)]) =
  fresh old fs ++ (if old q || bool_decide (q ∈ fs.*1) then [] else [q]).
Proof.
  revert old. induction fs as [|[q' p'] fs IH]; intros old; cbn [fresh app fmap list_fmap fst].
  { rewrite app_nil_r, bool_decide_false, orb_false_r; [done|]. apply not_elem_of_nil. }
  assert (E : (bool_decide (q = q') || old q) || bool_decide (q ∈ fs.*1) =
              old q || bool_decide (q ∈ q' :: fs.*1)).
  { rewrite (bool_decide_ext (q ∈ q' :: fs.*1) (q = q' \/ q ∈ fs.*1)) by apply elem_of_cons.
    rewrite bool_decide_or. by destruct (bool_decide (q = q')), (old q), (bool_decide (q ∈ fs.*1)). }
  by rewrite IH, <- app_assoc, E.
Qed.

(** What a reader of the connection still has to get. *)
Definition stream (c : MuxConn) : bytes := default [] (buf c) ++ concat (inbound c).

(** [Read] hands out the bytes of the stream in order. *)
Lemma Read_data cap arm c b c' :
  0 <= cap -> Read cap arm c = Some (Data b, c') ->
  stream c = b ++ stream c' /\ zlen b <= cap /\ mseq c' = mseq c /\ finWait c' = finWait c /\
  zlen (inbound c') <= zlen (inbound c).
Proof.
  intros Hcap. unfold Read, stream.
  assert (Hlen : forall x : bytes, zlen (take (Z.to_nat (Z.min cap (zlen x))) x) <= cap).
  { intros x. unfold zlen. rewrite length_take. lia. }
  assert (Hcut : forall x : bytes, ~ Z.min cap (zlen x) < zlen x -> take (Z.to_nat (Z.min cap (zlen x))) x = x).
  { intros x Hx. apply take_ge. unfold zlen in *. lia. }
  destruct (buf c) as [x|] eqn:Hb; [|destruct arm as [[]| |]; [done|done|by destruct (closed _)|];
    destruct (inbound c) as [|x q] eqn:Hi; [done|]];
    intros [= <- <-]; case_bool_decide as Hlt; simpl;
    rewrite ?Hi, ?Hb; simpl; rewrite ?app_assoc, ?take_drop, ?(Hcut _ Hlt); split_and!; auto;
    rewrite ?zlen_cons; try lia.
  all: specialize (Hlen x); rewrite ?(Hcut _ Hlt) in Hlen; auto.
Qed.

(** ** The run of a session *)

(** The bytes read from connection [i], the connections accepted, in order. *)
Definition received (i : nat) (tr : list event) : bytes :=
  concat (omap (fun e => match e with ERead j b => if decide (j = i) then Some b else None | _ => None end) tr).
Definition accepted (tr : list event) : list nat :=
  omap (fun e => match e with EAccept i => Some i | _ => None end) tr.

(** The connection that waits for [Accept]. *)
Definition to_accept (s : MuxSession) : list nat :=
  match blocked s with Some (ToAccept i _) => [i] | _ => [] end.

Definition seqs_of (s : MuxSession) (cs : list nat) : list Z :=
  omap (fun i => mseq <$> conns s !! i) cs.

(** What is queued for connection [i], and with what was read from it: all that
    was taken from the stream for the number [q]. *)
Definition queued (i : nat) (s : MuxSession) : bytes :=
  match conns s !! i with Some c => stream c | None => [] end ++ concat (held i s).
Definition taken (q : Z) (tr : list event) (s : MuxSession) : bytes :=
  match find_conn q s with Some i => received i tr ++ queued i s | None => [] end.

Definition bounded (s : MuxSession) : Prop :=
  Forall (fun c => zlen (inbound c) <= mux_inbound_cap) (conns s).

Lemma received_snoc i tr e :
  received i (tr ++ [e]) =
  received i tr ++ match e with ERead j b => if decide (j = i) then b else [] | _ => [] end.
Proof.
  unfold received. rewrite omap_app, concat_app. f_equal. destruct e; simpl; try done.
  case_decide; simpl; [apply app_nil_r|done].
Qed.

Lemma accepted_snoc tr e :
  accepted (tr ++ [e]) = accepted tr ++ match e with EAccept i => [i] | _ => [] end.
Proof. unfold accepted. rewrite omap_app. f_equal. by destruct e. Qed.

(** The connections of [s] are still those of [s'], and so are their numbers. *)
Record keeps (s s' : MuxSession) : Prop := {
  kp_conns : forall i c, conns s !! i = Some c -> exists c', conns s' !! i = Some c' /\ mseq c' = mseq c;
  kp_find : forall q, find_conn q s' = find_conn q s;
  kp_length : length (conns s') = length (conns s)
}.

Lemma seqs_of_keep s s' cs :
  (forall i c, conns s !! i = Some c -> exists c', conns s' !! i = Some c' /\ mseq c' = mseq c) ->
  Forall (fun i => is_Some (conns s !! i)) cs -> seqs_of s' cs = seqs_of s cs.
Proof.
  intros Hk Hcs. unfold seqs_of. apply list_omap_ext.
  induction Hcs as [|i l [c Hc] _ IH]; constructor; [|done].
  destruct (Hk _ _ Hc) as (c' & Hc' & Hm). rewrite Hc, Hc'. simpl. by rewrite Hm.
Qed.

Lemma mux_wf_keep s s' :
  keeps s s' -> waits_for s' = waits_for s \/ waits_for s' = None -> wf s -> wf s'.
Proof.
  intros [K1 K2 _] Hw [H1 H2]. split.
  - intros q i. rewrite K2. intros (c & Hc & <-)%H1. destruct (K1 _ _ Hc) as (c' & Hc' & Hm). eauto.
  - intros i d Hd. destruct Hw as [Hw|Hw]; rewrite Hw in Hd; [|done].
    destruct (H2 _ _ Hd) as (c & Hc & Hf). destruct (K1 _ _ Hc) as (c' & Hc' & Hm).
    exists c'. split; [done|]. by rewrite Hm, K2.
Qed.

Lemma keeps_push i d b s : keeps s (set_blocked b (push i d s)).
Proof.
  split; [|done|by simpl; rewrite length_alter]. intros j c Hc. simpl.
  destruct (decide (i = j)) as [<-|]; [|rewrite list_lookup_alter_ne by done; by eexists].
  rewrite list_lookup_alter_eq, Hc. by eexists.
Qed.

Lemma keeps_insert i c c' s :
  conns s !! i = Some c -> mseq c' = mseq c -> keeps s (set_conns (<[i := c']> (conns s)) s).
Proof.
  intros Hc Hm. split; [|done|by simpl; rewrite length_insert]. intros j x Hx. simpl.
  destruct (decide (i = j)) as [<-|]; [|rewrite list_lookup_insert_ne by done; by eexists].
  rewrite list_lookup_insert_eq by (by eapply lookup_lt_Some). eexists. split; [done|]. congruence.
Qed.

(** Between two steps of a run that started in [s0]: the frames [dn] have been taken
    from the stream, the frames [todo] are still in it. *)
Record Mid (s0 : MuxSession) (dn todo : list (Z * bytes)) (tr : list event) (s : MuxSession) : Prop := {
  mid_wf : wf s;
  mid_exit : exit s = false;
  mid_input : input s = data_frames todo;
  mid_new : forall i, (length (conns s) <= i)%nat -> received i tr = [];
  mid_taken : forall q, taken q tr s = taken q [] s0 ++ concat (payloads q dn);
  mid_known : forall q, known q s = known q s0 || bool_decide (q ∈ dn.*1);
  mid_acc : seqs_of s (accepted tr ++ to_accept s) = fresh (fun q => known q s0) dn;
  mid_some : Forall (fun i => is_Some (conns s !! i)) (accepted tr ++ to_accept s);
  mid_bound : bounded s
}.

(** A step that takes nothing from the stream and keeps every account. *)
Lemma mid_keep s0 dn todo tr s e s' :
  Mid s0 dn todo tr s -> keeps s s' -> exit s' = exit s -> input s' = input s ->
  waits_for s' = waits_for s \/ waits_for s' = None ->
  (forall i, (length (conns s) <= i)%nat -> received i (tr ++ [e]) = received i tr) ->
  (forall q i, find_conn q s = Some i ->
     received i (tr ++ [e]) ++ queued i s' = received i tr ++ queued i s) ->
  accepted (tr ++ [e]) ++ to_accept s' = accepted tr ++ to_accept s -> bounded s' ->
  Mid s0 dn todo (tr ++ [e]) s'.
Proof.
  intros [M1 M2 M3 M4 M5 M6 M7 M8 M9] Hk He Hi Hw Hnew Htaken Hacc Hb. pose proof Hk as [K1 K2 K3].
  constructor; rewrite ?He, ?Hi, ?Hacc; try done.
  - by eapply mux_wf_keep.
  - intros i Hle. rewrite K3 in Hle. rewrite Hnew by done. by apply M4.
  - intros q. rewrite <- M5. unfold taken. rewrite K2. destruct (find_conn q s) eqn:Hq; [by eapply Htaken|done].
  - intros q. rewrite <- M6. unfold known. by rewrite K2.
  - rewrite <- M7. by apply seqs_of_keep.
  - eapply Forall_impl; [exact M8|]. intros i [c Hc]. destruct (K1 _ _ Hc) as (c' & Hc' & _). by eexists.
Qed.

Lemma mid_push s0 dn todo tr s i c d :
  Mid s0 dn todo tr s -> blocked s = Some (ToInbound i d) -> conns s !! i = Some c ->
  zlen (inbound c) < mux_inbound_cap ->
  Mid s0 dn todo (tr ++ [ERun]) (set_blocked None (push i d s)).
Proof.
  intros HM Hb Hc Hroom. eapply mid_keep; [exact HM|apply keeps_push|done|done|by right| | | |].
  - intros j _. by rewrite received_snoc, app_nil_r.
  - intros q j Hq. rewrite received_snoc, app_nil_r. f_equal. unfold queued, held, waits_for. simpl.
    rewrite Hb. destruct (decide (i = j)) as [<-|].
    + rewrite list_lookup_alter_eq, Hc. simpl. unfold stream. simpl.
      rewrite concat_app, !app_nil_r. simpl. by rewrite app_nil_r, <- !app_assoc.
    + by rewrite list_lookup_alter_ne.
  - rewrite accepted_snoc. unfold to_accept. simpl. by rewrite Hb, app_nil_r.
  - pose proof (mid_bound _ _ _ _ _ HM) as Hbd. unfold bounded in *. simpl.
    apply Forall_alter; [done|]. intros x Hx _. assert (x = c) as -> by congruence.
    simpl. rewrite zlen_app, zlen_cons, zlen_nil. unfold mux_inbound_cap in *. lia.
Qed.

Lemma mid_accept s0 dn todo tr s i d :
  Mid s0 dn todo tr s -> blocked s = Some (ToAccept i d) ->
  Mid s0 dn todo (tr ++ [EAccept i]) (set_blocked (Some (ToInbound i d)) s).
Proof.
  intros HM Hb. eapply mid_keep; [exact HM| |done|done| | | | |].
  - split; [|done|done]. intros j c Hc. by exists c.
  - left. unfold waits_for. simpl. by rewrite Hb.
  - intros j _. by rewrite received_snoc, app_nil_r.
  - intros q j Hq. rewrite received_snoc, app_nil_r. f_equal. unfold queued, held, waits_for. simpl. by rewrite Hb.
  - rewrite accepted_snoc. unfold to_accept. simpl. by rewrite Hb, app_nil_r.
  - apply HM.
Qed.

Lemma mid_read s0 dn todo tr s i cap arm c b c' :
  Mid s0 dn todo tr s -> 0 <= cap -> conns s !! i = Some c -> Read cap arm c = Some (Data b, c') ->
  Mid s0 dn todo (tr ++ [ERead i b]) (set_conns (<[i := c']> (conns s)) s).
Proof.
  intros HM Hcap Hc Hread. destruct (Read_data _ _ _ _ _ Hcap Hread) as (Hs & _ & Hm & _ & Hle).
  pose proof (lookup_lt_Some _ _ _ Hc) as Hlt.
  eapply mid_keep; [exact HM|by eapply keeps_insert|done|done|by left| | | |].
  - intros j Hj. rewrite received_snoc, decide_False by lia. apply app_nil_r.
  - intros q j Hq. rewrite received_snoc. unfold queued. simpl. change (held j (set_conns _ s)) with (held j s).
    destruct (decide (i = j)) as [<-|].
    + rewrite list_lookup_insert_eq, Hc by done. by rewrite Hs, <- !app_assoc.
    + by rewrite list_lookup_insert_ne, app_nil_r.
  - rewrite accepted_snoc. by rewrite app_nil_r.
  - pose proof (mid_bound _ _ _ _ _ HM) as Hbd. unfold bounded in *. simpl. apply Forall_insert; [done|].
    rewrite Forall_lookup in Hbd. specialize (Hbd _ _ Hc). cbv beta in Hbd. lia.
Qed.

Lemma Write_state fail i p s r s' : Write fail i p s = (r, s') -> exists o, s' = set_output o s.
Proof.
  unfold Write, mbind, gom_bind, conn_at, lift, under_write.
  destruct (conns s !! i) as [c|]; [|intros [= _ <-]; exists (output s); by destruct s].
  destruct (closed (fin c)); [intros [= _ <-]; exists (output s); by destruct s|].
  destruct fail; intros [= _ <-]; by eexists.
Qed.

Lemma mid_write s0 dn todo tr s i fail p r s' :
  Mid s0 dn todo tr s -> Write fail i p s = (r, s') -> Mid s0 dn todo (tr ++ [EWrite i p]) s'.
Proof.
  intros HM [o ->]%Write_state. eapply mid_keep; [exact HM| |done|done|by left| | | |apply HM].
  - split; [|done|done]. intros j c Hc. by exists c.
  - intros j _. by rewrite received_snoc, app_nil_r.
  - intros q j Hq. by rewrite received_snoc, app_nil_r.
  - by rewrite accepted_snoc, app_nil_r.
Qed.

Lemma payloads_snoc q fs q' p :
  payloads q (fs ++ [(q', p)]) = payloads q fs ++ (if decide (q' = q) then [p] else []).
Proof.
  unfold payloads. rewrite filter_app, fmap_app. f_equal.
  case_decide; [by rewrite filter_cons_True|by rewrite filter_cons_False].
Qed.

Lemma fmap_fst_snoc (fs : list (Z * bytes)) q q' p :
  bool_decide (q ∈ (fs ++ [(q', p)]).*1) = bool_decide (q ∈ fs.*1) || bool_decide (q = q').
Proof.
  rewrite <- bool_decide_or. apply bool_decide_ext. rewrite fmap_app, elem_of_app. simpl.
  by rewrite list_elem_of_singleton.
Qed.

(** The next frame is taken from the stream. *)
Lemma mid_take s0 dn q p todo tr s :
  Mid s0 dn ((q, p) :: todo) tr s -> blocked s = None ->
  let s1 := set_input (data_frames todo) s in
  Mid s0 (dn ++ [(q, p)]) todo (tr ++ [ERun])
    (match find_conn q s with Some i => set_blocked (Some (ToInbound i p)) s1 | None => add_conn q p s1 end).
Proof.
  intros [M1 M2 M3 M4 M5 M6 M7 M8 M9] Hb s1.
  assert (Hheld : forall i, held i s = []) by (intros i; unfold held, waits_for; by rewrite Hb).
  assert (Hacc0 : to_accept s = []) by (unfold to_accept; by rewrite Hb).
  rewrite Hacc0, app_nil_r in M7, M8.
  assert (Hknown : known q s = bool_decide (is_Some (find_conn q s))) by done.
  assert (Hwf1 : wf s1).
  { destruct M1 as [W1 W2]. by split. }
  destruct (find_conn q s) as [i|] eqn:Hq.
  - destruct (M1) as [W1 _]. destruct (W1 _ _ Hq) as (c & Hc & Hm).
    rewrite bool_decide_true in Hknown by (by eexists).
    constructor; try done.
    + by eapply wait_wf.
    + intros j Hj. rewrite received_snoc, app_nil_r. by apply M4.
    + intros q'. rewrite payloads_snoc, concat_app, app_assoc, <- M5. unfold taken.
      change (find_conn q' (set_blocked _ s1)) with (find_conn q' s).
      destruct (find_conn q' s) as [j|] eqn:Hj.
      * rewrite received_snoc, app_nil_r, <- app_assoc. f_equal. unfold queued. simpl.
        rewrite Hheld, app_nil_r. f_equal. unfold held. simpl.
        destruct (decide (i = j)) as [<-|Hne].
        -- destruct (W1 _ _ Hj) as (c' & Hc' & Hm'). rewrite decide_True by congruence. done.
        -- rewrite decide_False by congruence. done.
      * by rewrite decide_False by congruence.
    + intros q'. rewrite fmap_fst_snoc. change (known q' (set_blocked _ s1)) with (known q' s).
      rewrite orb_assoc, <- M6. case_bool_decide; [subst q'|by rewrite orb_false_r].
      by rewrite orb_true_r.
    + rewrite accepted_snoc, !app_nil_r, fresh_snoc, <- M7. rewrite M6 in Hknown. rewrite Hknown, app_nil_r. done.
    + rewrite accepted_snoc, !app_nil_r. done.
  - rewrite bool_decide_false in Hknown by (by intros [? ?]).
    assert (Hnew : conns (add_conn q p s1) !! length (conns s) = Some (new_conn q)) by by apply list_lookup_middle.
    assert (Hold : forall i c, conns s !! i = Some c -> conns (add_conn q p s1) !! i = Some c)
      by (intros i c; apply lookup_app_l_Some).
    constructor; try done.
    + by apply add_conn_wf.
    + intros j Hj. rewrite received_snoc, app_nil_r. apply M4. simpl in Hj. rewrite length_app in Hj. lia.
    + intros q'. rewrite payloads_snoc, concat_app, app_assoc, <- M5. unfold taken.
      rewrite add_conn_find by done. change (find_conn q' s1) with (find_conn q' s).
      destruct (decide (q' = q)) as [->|Hne].
      * rewrite Hq, decide_True by done. rewrite received_snoc, app_nil_r, M4 by done.
        unfold queued. change (length (conns s1)) with (length (conns s)). rewrite Hnew.
        unfold held. simpl. rewrite decide_True by done. done.
      * rewrite (decide_False (P := q = q')) by congruence. rewrite app_nil_r.
        destruct (find_conn q' s) as [j|] eqn:Hj; [|done]. rewrite received_snoc, app_nil_r. f_equal.
        destruct (M1) as [W1 _]. destruct (W1 _ _ Hj) as (c & Hc & _). unfold queued.
        rewrite (Hold _ _ Hc), Hc, Hheld. unfold held. simpl.
        rewrite decide_False; [done|]. apply lookup_lt_Some in Hc. lia.
    + intros q'. rewrite fmap_fst_snoc, orb_assoc, <- M6. unfold known. rewrite add_conn_find by done.
      change (find_conn q' s1) with (find_conn q' s). case_decide as Hd.
      * rewrite (bool_decide_true (q' = q)), bool_decide_true by (done || by eexists). by rewrite orb_true_r.
      * by rewrite (bool_decide_false (q' = q)), orb_false_r.
    + rewrite accepted_snoc, app_nil_r, fresh_snoc, <- M7. rewrite M6 in Hknown. rewrite Hknown.
      change (to_accept (add_conn q p s1)) with [length (conns s)]. unfold seqs_of. rewrite omap_app. f_equal.
      * apply seqs_of_keep; [|done]. intros i c Hc. exists c. by rewrite (Hold _ _ Hc).
      * cbn [omap list_omap]. by rewrite Hnew.
    + rewrite accepted_snoc, app_nil_r. apply Forall_app. split.
      * eapply Forall_impl; [exact M8|]. intros i [c Hc]. eexists. by apply Hold.
      * apply Forall_singleton. by eexists.
    + unfold bounded. simpl. apply Forall_app. split; [done|]. apply Forall_singleton.
      simpl. unfold mux_inbound_cap. change (zlen _) with 0. lia.
Qed.

Definition ok_frame (f : Z * bytes) : Prop := 0 <= f.1 < 4294967296 /\ zlen f.2 < 65536.

Lemma run_step_frame fail s q p todo :
  blocked s = None -> exit s = false -> ok_frame (q, p) -> input s = data_frames ((q, p) :: todo) ->
  run_step fail s = Some (None,
    let s1 := set_input (data_frames todo) s in
    match find_conn q s with Some i => set_blocked (Some (ToInbound i p)) s1 | None => add_conn q p s1 end).
Proof.
  intros Hb Hex [Hq Hp] Hin. simpl in Hq, Hp. unfold run_step. rewrite Hb, Hex.
  assert (Hin' : input s = frame (z2b 0) (u16 (zlen p)) q [] ++ p ++ data_frames todo).
  { rewrite Hin. unfold data_frames. rewrite fmap_cons, concat_cons. unfold frame. simpl.
    by rewrite <- ?app_assoc, ?app_nil_r. }
  pose proof (zlen_nonneg p).
  rewrite (nextFrame_frame _ _ _ _ _ _ _ Hin') by (rewrite !u16_small; [done|lia|rewrite u16_small by lia; lia]).
  rewrite take_data, u32_small by done. done.
Qed.

Lemma run_step_end fail s :
  blocked s = None -> exit s = false -> input s = [] ->
  run_step fail s = Some (Some (Err ErrHeader), session_Close (set_input [] s)).
Proof. intros Hb Hex Hin. unfold run_step. rewrite Hb, Hex. unfold nextFrame, mbind, gom_bind, ReadFull. by rewrite Hin. Qed.

(** The account moves by at most one frame. *)
Definition advance (x y : list (Z * bytes) * list (Z * bytes)) : Prop :=
  y = x \/ exists f, y.1 = x.1 ++ [f] /\ x.2 = f :: y.2.

Lemma advance_all x y :
  advance x y -> x.1 ++ x.2 = y.1 ++ y.2 /\ (Forall ok_frame x.2 -> Forall ok_frame y.2) /\
  (length y.2 <= length x.2)%nat.
Proof.
  intros [->|(f & E1 & E2)]; [done|]. rewrite E1, E2, <- app_assoc. split; [done|].
  split; [by intros [_ ?]%Forall_cons|simpl; lia].
Qed.

Lemma mid_step s0 x tr s e s' :
  Mid s0 x.1 x.2 tr s -> Forall ok_frame x.2 -> acts s e s' ->
  exists y, advance x y /\ Mid s0 y.1 y.2 (tr ++ [e]) s'.
Proof.
  destruct x as [dn todo]. simpl.
  intros HM Hok [fail s1 Hrun|i s1 Hacc|i cap arm c b c' Hcap Hc Hread|i fail p r s1 Hw].
  - destruct (blocked s) as [[i d|i d]|] eqn:Hb.
    + unfold run_step in Hrun. by rewrite Hb in Hrun.
    + unfold run_step in Hrun. rewrite Hb in Hrun. destruct (conns s !! i) as [c|] eqn:Hc; [|done].
      case_bool_decide; [|done]. injection Hrun as <-. exists (dn, todo).
      split; [by left|]. by eapply mid_push.
    + pose proof (mid_exit _ _ _ _ _ HM) as Hex. pose proof (mid_input _ _ _ _ _ HM) as Hin.
      destruct todo as [|[q p] todo]; [by rewrite run_step_end in Hrun|].
      apply Forall_cons in Hok as [Hf Hok].
      rewrite (run_step_frame _ _ q p todo) in Hrun by done. injection Hrun as <-.
      exists (dn ++ [(q, p)], todo). split; [right; by eexists|]. by apply mid_take.
  - unfold Accept in Hacc. destruct (blocked s) as [[j d|]|] eqn:Hb; simplify_eq/=.
    exists (dn, todo). split; [by left|]. by apply mid_accept.
  - exists (dn, todo). split; [by left|]. by eapply mid_read.
  - exists (dn, todo). split; [by left|]. by eapply mid_write.
Qed.

(** A whole run. *)
Lemma mid_run s0 x tr s tr' s' :
  Mid s0 x.1 x.2 tr s -> Forall ok_frame x.2 -> trace s tr' s' ->
  exists y, x.1 ++ x.2 = y.1 ++ y.2 /\ Forall ok_frame y.2 /\ (length y.2 <= length x.2)%nat /\
    Mid s0 y.1 y.2 (tr ++ tr') s'.
Proof.
  intros HM Hok. induction 1 as [|tr' s1 e s2 _ IH Hact].
  - exists x. by rewrite app_nil_r.
  - destruct IH as (y & E & Hok' & Hle & HM').
    destruct (mid_step _ _ _ _ _ _ HM' Hok' Hact) as (z & Hadv & HM2).
    destruct (advance_all _ _ Hadv) as (E2 & Hok2 & Hle2). exists z. rewrite app_assoc.
    split; [congruence|]. split; [auto|]. split; [lia|done].
Qed.

Lemma mid_start s fs :
  wf s -> bounded s -> exit s = false -> blocked s = None -> input s = data_frames fs ->
  Mid s [] fs [] s.
Proof.
  intros Hwf Hbd Hex Hb Hin. constructor; try done.
  - intros q. by rewrite app_nil_r.
  - intros q. rewrite bool_decide_false by apply not_elem_of_nil. by rewrite orb_false_r.
  - unfold to_accept. by rewrite Hb.
  - unfold to_accept. by rewrite Hb.
Qed.

(** *** The session gets through when its users accept and read *)

Lemma trace_app s tr1 s1 tr2 s2 : trace s tr1 s1 -> trace s1 tr2 s2 -> trace s (tr1 ++ tr2) s2.
Proof.
  intros H1. induction 1; [by rewrite app_nil_r|]. rewrite app_assoc. by eapply TraceSnoc.
Qed.

Lemma trace_one s e s' : acts s e s' -> trace s [e] s'.
Proof. intros H. eapply (TraceSnoc _ []); [apply TraceNil|done]. Qed.

(** What is left of a payload is read off. *)
Lemma empty_buf s i c :
  conns s !! i = Some c -> exists tr s1 c1, trace s tr s1 /\ blocked s1 = blocked s /\
    conns s1 !! i = Some c1 /\ buf c1 = None /\ inbound c1 = inbound c.
Proof.
  intros Hc. destruct (buf c) as [b|] eqn:Hb.
  - exists [ERead i b], (set_conns (<[i := set_buf None c]> (conns s)) s), (set_buf None c).
    split_and!; try done.
    + apply trace_one. eapply (ActRead _ i (zlen b) ArmFin); [apply zlen_nonneg|done|].
      unfold Read. rewrite Hb, Z.min_id, bool_decide_false by lia. unfold zlen.
      by rewrite Nat2Z.id, firstn_all.
    + simpl. rewrite list_lookup_insert_eq; [done|]. by eapply lookup_lt_Some.
  - by exists [], s, c; split; [apply TraceNil|].
Qed.

(** A payload the goroutine holds gets into the channel, after a read if need be. *)
Lemma unblock_inbound s i c d :
  blocked s = Some (ToInbound i d) -> conns s !! i = Some c -> zlen (inbound c) <= mux_inbound_cap ->
  exists tr s1, trace s tr s1 /\ blocked s1 = None.
Proof.
  intros Hb Hc Hle. destruct (decide (zlen (inbound c) < mux_inbound_cap)) as [Hroom|Hfull].
  { eexists [_], _. split; [apply trace_one, (ActRun _ None)|].
    - unfold run_step. by rewrite Hb, Hc, bool_decide_true.
    - done. }
  destruct (empty_buf s i c Hc) as (tr & s1 & c1 & Htr & Hb1 & Hc1 & Hbuf & Hin).
  destruct (inbound c) as [|b q] eqn:Hi.
  { destruct Hfull. unfold mux_inbound_cap. change (zlen _) with 0. lia. }
  set (c2 := set_inbound q c1). set (s2 := set_conns (<[i := c2]> (conns s1)) s1).
  assert (Hread : acts s1 (ERead i b) s2).
  { eapply (ActRead _ i (zlen b) ArmInbound); [apply zlen_nonneg|exact Hc1|].
    unfold Read. rewrite Hbuf, Hin, Z.min_id, bool_decide_false by lia. unfold zlen.
    by rewrite Nat2Z.id, firstn_all. }
  assert (Hc2 : conns s2 !! i = Some c2).
  { simpl. rewrite list_lookup_insert_eq; [done|]. by eapply lookup_lt_Some. }
  eexists (tr ++ [ERead i b] ++ [ERun]), _. split.
  - eapply trace_app; [exact Htr|]. eapply trace_app; [by apply trace_one|].
    apply trace_one, (ActRun _ None). unfold run_step. change (blocked s2) with (blocked s1).
    rewrite Hb1, Hb, Hc2, bool_decide_true; [done|]. simpl. rewrite zlen_cons in Hle. lia.
  - done.
Qed.

Lemma unblock s : wf s -> bounded s -> exists tr s1, trace s tr s1 /\ blocked s1 = None.
Proof.
  intros [_ Hw] Hbd. unfold bounded in Hbd. rewrite Forall_lookup in Hbd. unfold waits_for in Hw.
  destruct (blocked s) as [[i d|i d]|] eqn:Hb.
  - destruct (Hw _ _ eq_refl) as (c & Hc & _). set (s1 := set_blocked (Some (ToInbound i d)) s).
    destruct (unblock_inbound s1 i c d) as (tr & s2 & Htr & Hb2); [done|done|by eapply Hbd|].
    exists ([EAccept i] ++ tr), s2. split; [|done]. eapply trace_app; [|exact Htr].
    apply trace_one, ActAccept. unfold Accept. by rewrite Hb.
  - destruct (Hw _ _ eq_refl) as (c & Hc & _).
    eapply unblock_inbound; [exact Hb|exact Hc|by eapply Hbd].
  - exists [], s. split; [apply TraceNil|done].
Qed.

Lemma mid_complete s0 x tr s :
  Mid s0 x.1 x.2 tr s -> Forall ok_frame x.2 ->
  exists tr2 s2, trace s tr2 s2 /\ blocked s2 = None /\ input s2 = [].
Proof.
  remember (length x.2) as n eqn:Hn. revert x tr s Hn.
  induction n as [n IH] using lt_wf_ind. intros x tr s -> HM Hok.
  destruct (unblock s) as (tr1 & s1 & Htr1 & Hb1); [apply HM|apply HM|].
  destruct (mid_run _ _ _ _ _ _ HM Hok Htr1) as ([dn todo] & _ & Hok1 & Hle & HM1). simpl in *.
  destruct todo as [|[q p] todo]; [by exists tr1, s1; rewrite (mid_input _ _ _ _ _ HM1)|].
  apply Forall_cons in Hok1 as [Hf Hok1].
  pose proof (run_step_frame None s1 q p todo Hb1 (mid_exit _ _ _ _ _ HM1) Hf (mid_input _ _ _ _ _ HM1)) as Hrun.
  pose proof (mid_take _ _ _ _ _ _ _ HM1 Hb1) as HM2. cbv zeta in Hrun, HM2.
  destruct (IH (length todo) ltac:(simpl in Hle; lia) (dn ++ [(q, p)], todo) _ _ eq_refl HM2 Hok1)
    as (tr2 & s2 & Htr2 & H2).
  exists ((tr1 ++ [ERun]) ++ tr2), s2. split; [|done]. eapply trace_app; [|exact Htr2].
  eapply TraceSnoc; [exact Htr1|]. by eapply ActRun.
Qed.

(** *** The session waits for its users *)

Definition full (i : nat) (s : MuxSession) : Prop :=
  exists c, conns s !! i = Some c /\ mux_inbound_cap <= zlen (inbound c).

(** The goroutine is held up by connection [i], and nothing of the run [tr] is what
    it waits for. *)
Definition held_up (s : MuxSession) (tr : list event) : Prop :=
  exists i d,
    (blocked s = Some (ToAccept i d) /\ accepted tr = []) \/
    (blocked s = Some (ToInbound i d) /\ full i s /\ forall b, ERead i b ∉ tr).

Lemma held_up_waits s tr s' : trace s tr s' -> held_up s tr -> input s' = input s.
Proof.
  intros Htr (i & d & [[Hb Ha]|(Hb & (c & Hc & Hfull) & Hr)]).
  - enough (H : blocked s' = blocked s /\ input s' = input s) by apply H.
    induction Htr as [|tr s1 e s2 _ IH Hact]; [done|].
    rewrite accepted_snoc in Ha. apply app_eq_nil in Ha as [Ha1 Ha2].
    destruct (IH Ha1) as [E1 E2]. destruct Hact as [fail s2 Hrun|j s2 Hacc|j cap arm c b c' _ _ _|j fail p r s2 Hw].
    + unfold run_step in Hrun. by rewrite E1, Hb in Hrun.
    + done.
    + done.
    + by destruct (Write_state _ _ _ _ _ _ Hw) as [o ->].
  - enough (H : blocked s' = blocked s /\ input s' = input s /\ conns s' !! i = Some c) by apply H.
    induction Htr as [|tr s1 e s2 _ IH Hact]; [done|].
    destruct IH as (E1 & E2 & E3); [intros b Hin; apply (Hr b), elem_of_app; by left|].
    destruct Hact as [fail s2 Hrun|j s2 Hacc|j cap arm c1 b c' _ _ _|j fail p r s2 Hw].
    + unfold run_step in Hrun. rewrite E1, Hb, E3, bool_decide_false in Hrun by lia. done.
    + unfold Accept in Hacc. by rewrite E1, Hb in Hacc.
    + split_and!; [done|done|]. simpl. rewrite list_lookup_insert_ne; [done|].
      intros ->. apply (Hr b), elem_of_app. right. apply list_elem_of_here.
    + by destruct (Write_state _ _ _ _ _ _ Hw) as [o ->].
Qed.

(** ** Properties *)

(** The generators of the two sides of a session never collide: the even one
    only produces even numbers, the odd one odd numbers, and neither repeats a
    number within 2^31 calls. *)
Theorem seq_disjoint n m :
  nth_seq n NewSeqEven mod 2 = 0 /\ nth_seq m NewSeqOdd mod 2 = 1 /\
  nth_seq n NewSeqEven <> nth_seq m NewSeqOdd /\
  (Z.of_nat n < 2147483648 -> Z.of_nat m < 2147483648 -> n <> m ->
   nth_seq n NewSeqEven <> nth_seq m NewSeqEven /\ nth_seq n NewSeqOdd <> nth_seq m NewSeqOdd).
Proof. rewrite !nth_seq_val by done. simpl. unfold u32. split_and!; intros; mlia. Qed.

(** C12. Demultiplexing: in every run of a session, whose users accept, read and
    write, from a well-formed session whose stream holds data frames of payloads
    up to 65535 bytes, some first frames [dn] have been taken from the stream.
    What was taken for a number, which is what was read from its connection, what
    waits in its channel and what the goroutine holds, is exactly the payloads
    sent under it, in order; the connections accepted, with one that waits for
    [Accept], are those of the new numbers, in the order of their first frames;
    and no channel exceeds its capacity.  The connections share one goroutine:
    while a new connection is not accepted, or a connection with a full channel is
    not read, nothing more is taken from the stream for any of them.  It never
    waits for good: the run can go on, by accepting and reading, until the whole
    stream is delivered. *)
Theorem frames_demuxed fs s tr s' :
  wf s -> bounded s -> exit s = false -> blocked s = None -> input s = data_frames fs ->
  Forall ok_frame fs -> trace s tr s' ->
  exists dn todo, fs = dn ++ todo /\ input s' = data_frames todo /\ bounded s' /\
    (forall q, taken q tr s' = taken q [] s ++ concat (payloads q dn)) /\
    seqs_of s' (accepted tr ++ to_accept s') = fresh (fun q => known q s) dn /\
    (forall tr2 s2, trace s' tr2 s2 -> held_up s' tr2 -> input s2 = input s') /\
    exists tr2 s2, trace s' tr2 s2 /\ blocked s2 = None /\ input s2 = [].
Proof.
  intros Hwf Hbd Hex Hb Hin Hok Htr.
  destruct (mid_run _ ([], fs) _ _ _ _ (mid_start s fs Hwf Hbd Hex Hb Hin) Hok Htr)
    as ([dn todo] & Hfs & Hok' & _ & HM). simpl in *.
  exists dn, todo. split_and!; try apply HM; [done|..].
  - intros tr2 s2. apply held_up_waits.
  - by apply (mid_complete _ (dn, todo) _ _ HM).
Qed.

Lemma conn_at_bind {B} i c (k : MuxConn -> M B) s :
  conns s !! i = Some c -> (conn_at i ≫= k) s = k c s.
Proof. intros Hc. unfold mbind, gom_bind, conn_at. by rewrite Hc. Qed.

(** C40. [Write] reports the whole length and puts one frame on the stream; the
    other side takes from it exactly the first [len mod 65536] bytes, because
    the length field has 16 bits.  The payload arrives whole exactly when it is
    shorter than 65536; otherwise the rest of it is left in the stream, where
    it is read as the next header. *)
Theorem write_intact_iff s i c p :
  conns s !! i = Some c -> closed (fin c) = false -> 0 <= mseq c < 4294967296 ->
  let sent := frame (z2b 0) (u16 (zlen p)) (mseq c) p in
  let n := Z.to_nat (u16 (zlen p)) in
  Write None i p s = (Ok (zlen p), set_output (output s ++ sent) s) /\
  (forall t rest, wf t -> blocked t = None -> input t = sent ++ rest ->
     exists t', nextFrame None t = (Ok tt, t') /\
       inbox (mseq c) t' = inbox (mseq c) t ++ [take n p] /\ input t' = drop n p ++ rest) /\
  ((take n p = p /\ drop n p = []) <-> zlen p < 65536).
Proof.
  intros Hc Hopen Hq sent n. pose proof (zlen_nonneg p) as Hp. pose proof (u16_range (zlen p)) as Hu.
  split_and!.
  - unfold Write. rewrite (conn_at_bind _ _ _ _ Hc). rewrite Hopen. unfold under_write. fold sent.
    assert (Hl : zlen sent - HEADER_LEN = zlen p) by (unfold sent, frame, HEADER_LEN; zlen_lia).
    rewrite Hl, Z.max_r by done. done.
  - intros t rest Hwf Hb Hin.
    assert (Hle : u16 (zlen p) <= zlen p) by (unfold u16; mlia).
    assert (Htake : zlen (take n p) = u16 (zlen p)).
    { unfold zlen in *. rewrite length_take. unfold n. lia. }
    assert (Hin' : input t = frame (z2b 0) (u16 (zlen p)) (mseq c) [] ++ take n p ++ drop n p ++ rest).
    { rewrite Hin. unfold sent, frame. rewrite (app_assoc (take n p)), take_drop, app_nil_r.
      by rewrite <- !app_assoc. }
    destruct (take_data_inbox None (mseq c) (take n p) (set_input (drop n p ++ rest) t))
      as (t' & Hrun & _ & Hin1 & Hbox); [by destruct Hwf|done|].
    exists t'. rewrite (nextFrame_frame _ _ _ _ _ _ _ Hin'); [|by rewrite u16_small by done].
    rewrite u32_small by done. by split.
  - split.
    + intros [Ht _]. apply (f_equal length) in Ht. rewrite length_take in Ht. unfold n, zlen in *. lia.
    + intros Hlt. unfold n. rewrite u16_small by lia. unfold zlen. rewrite Nat2Z.id.
      by rewrite firstn_all, drop_all.
Qed.

(** Closing from the other side: the first FIN ends reading and writing on the
    connection and is answered by one FIN; later writes fail and leave the
    stream alone.  A second FIN under the same number, before the entry leaves
    the maps, closes a closed channel: the session's goroutine panics. *)
Theorem fin_once_or_panic s q i c rest :
  wf s -> find_conn q s = Some i -> conns s !! i = Some c ->
  closed (finWait c) = false -> closed (fin c) = false -> closeOnce c = false ->
  0 <= q < 4294967296 -> input s = frame (z2b 1) 0 q [] ++ rest ->
  exists s' c', nextFrame None s = (Ok tt, s') /\ conns s' !! i = Some c' /\ input s' = rest /\
    closed (finWait c') = true /\ closed (fin c') = true /\ closeOnce c' = true /\
    inbound c' = inbound c /\ output s' = output s ++ frame (z2b 1) 0 q [] /\
    (forall p, Write None i p s' = (Err ErrClosedPipe, s')) /\
    (forall rest', rest = frame (z2b 1) 0 q [] ++ rest' -> (nextFrame None s').1 = Panic).
Proof.
  intros [Hwf _] Hq Hc Hfw Hfin Honce Hr Hin.
  destruct (Hwf _ _ Hq) as (c0 & Hc0 & Hm). assert (c0 = c) as -> by congruence.
  set (s1 := set_input rest s).
  set (c1 := set_finWait (Chan (queue (finWait c)) true) c).
  set (c2 := set_fin (Chan (queue (fin c1)) true) c1).
  set (s2 := set_conns (alter (set_finWait (Chan (queue (finWait c)) true)) i (conns s1)) s1).
  assert (Hc1 : conns s2 !! i = Some c1) by (unfold s2; simpl; by rewrite list_lookup_alter_eq, Hc).
  set (s3 := set_conns (alter (set_fin (Chan (queue (fin c1)) true)) i (conns s2)) s2).
  assert (Hc2 : conns s3 !! i = Some c2) by (by change (conns s3) with (alter (set_fin (Chan (queue (fin c1)) true)) i (conns s2)); rewrite list_lookup_alter_eq, Hc1).
  exists (set_output (output s ++ frame (z2b 1) 0 q []) s3), c2.
  split.
  { rewrite (nextFrame_frame None (z2b 1) 0 q [] rest) by done. rewrite u32_small by done.
    unfold dispatch. rewrite bool_decide_false, bool_decide_true by done.
    change (find_conn q (set_input rest s)) with (find_conn q s). rewrite Hq.
    rewrite (conn_at_bind i c) by done. unfold chan_close. rewrite Hfw.
    unfold mbind at 1, gom_bind at 1. unfold lift at 1. unfold mbind at 1, gom_bind at 1. unfold on_conn at 1, modify at 1.
    unfold conn_Close. rewrite (conn_at_bind i c1) by done.
    change (closeOnce c1) with (closeOnce c). rewrite Honce.
    unfold chan_close. change (closed (fin c1)) with (closed (fin c)). rewrite Hfin.
    change (mseq c1) with (mseq c). rewrite Hm. done. }
  split_and!; try done.
  - intros p. unfold Write. by rewrite (conn_at_bind i c2).
  - intros rest' Hrest. rewrite (nextFrame_frame None (z2b 1) 0 q [] rest') by done.
    rewrite u32_small by done. unfold dispatch. rewrite bool_decide_false, bool_decide_true by done.
    change (find_conn q _) with (find_conn q s). rewrite Hq.
    by rewrite (conn_at_bind i c2).
Qed.

(** [Read] hands out the bytes of the stream in order, at most as many as asked
    for, and nothing else changes; but once the peer's FIN is in, a [Read] may
    answer EOF although data is still queued, because the [select] of the source
    prefers no arm. *)
Theorem Read_exact cap c :
  0 <= cap ->
  (forall arm b c', Read cap arm c = Some (Data b, c') ->
     stream c = b ++ stream c' /\ zlen b <= cap /\ mseq c' = mseq c /\ finWait c' = finWait c) /\
  (forall arm r c', Read cap arm c = Some (r, c') -> (forall b, r <> Data b) -> c' = c) /\
  (closed (finWait c) = true -> buf c = None -> Read cap ArmFin c = Some (EOF, c)).
Proof.
  intros Hcap. split_and!.
  - intros arm b c' Hr. destruct (Read_data _ _ _ _ _ Hcap Hr) as (? & ? & ? & ? & _). done.
  - intros arm r c'. unfold Read.
    destruct (buf c) as [x|]; [intros [= <- <-] H; by destruct (H (take (Z.to_nat (Z.min cap (zlen x))) x))|].
    destruct arm; [by intros [= _ <-]|by destruct (closed _); intros [= _ <-]|].
    destruct (inbound c) as [|x q]; [done|]. intros [= <- _] H. by destruct (H (take (Z.to_nat (Z.min cap (zlen x))) x)).
  - unfold Read. intros -> ->. done.
Qed.

(** ** Witnesses *)

Module Examples.

Definition ex_frames : list (Z * bytes) := [(2, bs "a"); (4, bs "b"); (2, bs "c")].
Definition ex_session : MuxSession := Mux (Some NewSeqOdd) (data_frames ex_frames).

Lemma ex_wf : wf ex_session.
Proof. split; [|done]. intros q i Hq. vm_compute in Hq. discriminate Hq. Qed.

Lemma seq_disjoint_witness :
  nth_seq 3 NewSeqEven <> nth_seq 5 NewSeqEven /\ nth_seq 3 NewSeqOdd <> nth_seq 5 NewSeqOdd.
Proof. destruct (seq_disjoint 3 5) as (_ & _ & _ & H). apply H; lia. Defined.

(** The first connection is accepted and read, the second waits for [Accept]. *)
Definition ex_events : list event := [ERun; EAccept 0; ERun; ERead 0 (bs "a"); ERun].
Definition run1 (s : MuxSession) : MuxSession :=
  match run_step None s with Some (_, s) => s | None => s end.
Definition accept1 (s : MuxSession) : MuxSession :=
  match Accept AcceptConn s with Some (_, s) => s | None => s end.
Definition ex_s3 : MuxSession := run1 (accept1 (run1 ex_session)).
Definition ex_s4 : MuxSession := set_conns [new_conn 2] ex_s3.
Definition ex_s5 : MuxSession := run1 ex_s4.

Lemma ex_trace : trace ex_session ex_events ex_s5.
Proof.
  change ex_events with ([ERun] ++ [EAccept 0] ++ [ERun] ++ [ERead 0 (bs "a")] ++ [ERun]).
  eapply trace_app; [apply trace_one; eapply (ActRun _ None); vm_compute; reflexivity|].
  eapply trace_app; [apply trace_one; eapply ActAccept; vm_compute; reflexivity|].
  eapply trace_app; [apply trace_one; eapply (ActRun _ None); vm_compute; reflexivity|].
  eapply trace_app;
    [apply trace_one; eapply (ActRead _ 0 5 ArmInbound); [lia|vm_compute; reflexivity..]|].
  apply trace_one. eapply (ActRun _ None). vm_compute. reflexivity.
Qed.

Lemma frames_demuxed_witness :
  exists dn todo, ex_frames = dn ++ todo /\ input ex_s5 = data_frames todo /\ bounded ex_s5 /\
    (forall q, taken q ex_events ex_s5 = taken q [] ex_session ++ concat (payloads q dn)) /\
    seqs_of ex_s5 (accepted ex_events ++ to_accept ex_s5) = fresh (fun q => known q ex_session) dn /\
    (forall tr2 s2, trace ex_s5 tr2 s2 -> held_up ex_s5 tr2 -> input s2 = input ex_s5) /\
    exists tr2 s2, trace ex_s5 tr2 s2 /\ blocked s2 = None /\ input s2 = [].
Proof.
  apply (frames_demuxed ex_frames ex_session ex_events ex_s5 ex_wf);
    [constructor|reflexivity|reflexivity|reflexivity| |exact ex_trace].
  repeat constructor; simpl; lia.
Defined.

(** One frame is left: the session waits until its second connection is accepted. *)
Lemma ex_waits :
  input ex_s5 = data_frames [(2, bs "c")] /\ to_accept ex_s5 = [1%nat] /\ held_up ex_s5 [].
Proof.
  split; [vm_compute; reflexivity|]. split; [vm_compute; reflexivity|].
  exists 1%nat, (bs "b"). left. split; vm_compute; reflexivity.
Qed.

(** A session that has dialled connection 3. *)
Definition ex_dialled : MuxSession :=
  (OpenStream (Mux (Some NewSeqOdd) (frame (z2b 1) 0 3 [] ++ frame (z2b 1) 0 3 []))).2.

Lemma write_intact_iff_witness :
  Write None 0 (bs "hey") ex_dialled =
    (Ok 3, set_output (output ex_dialled ++ frame (z2b 0) 3 3 (bs "hey")) ex_dialled).
Proof.
  destruct (write_intact_iff ex_dialled 0 (new_conn 3) (bs "hey")) as [H _];
    [reflexivity|reflexivity|simpl; lia|exact H].
Defined.

Lemma fin_once_or_panic_witness :
  exists s' c', nextFrame None ex_dialled = (Ok tt, s') /\ conns s' !! 0%nat = Some c' /\
    closed (finWait c') = true /\ (nextFrame None s').1 = Panic.
Proof.
  destruct (fin_once_or_panic ex_dialled 3 0 (new_conn 3) (frame (z2b 1) 0 3 []))
    as (s' & c' & H1 & H2 & _ & H3 & _ & _ & _ & _ & _ & H4);
    [|reflexivity|reflexivity|reflexivity|reflexivity|reflexivity|lia|reflexivity|].
  - split; [|done]. intros q i Hq. unfold find_conn in Hq. simpl in Hq.
    rewrite lookup_empty in Hq.
    destruct (decide (q = 3)) as [->|Hne].
    + vm_compute in Hq. injection Hq as <-. eexists. split; reflexivity.
    + rewrite lookup_insert_ne in Hq by (intros H; apply Hne; by rewrite <- H). done.
  - exists s', c'. split; [exact H1|]. split; [exact H2|]. split; [exact H3|].
    apply (H4 []). by rewrite app_nil_r.
Defined.

Lemma Read_exact_witness :
  let c := set_inbound [bs "data"] (set_finWait (Chan [] true) (new_conn 3)) in
  Read 10 ArmFin c = Some (EOF, c) /\ stream c = bs "data".
Proof.
  split; [|reflexivity]. apply (Read_exact 10); [lia|reflexivity|reflexivity].
Defined.

End Examples.
