(* ===== verification/Netip.v ===== *)
(** * What the program uses of Go's [net.IP], [net.UDPAddr] and [net/netip]

    A [net.IP] is its byte slice: 4 or 16 bytes, anything else being invalid.
    The text forms follow the standard library: dotted decimal, RFC 5952 for
    IPv6, CIDR prefixes. *)

From S2P Require Import Prelude Text.

(** ** [net.IP] *)

Abbreviation IP := (list Byte.byte) (only parsing).

Definition v4InV6Prefix : bytes := repeat (z2b 0) 10 ++ [z2b 255; z2b 255].

(** [ip.To4()]: [None] is nil. *)
Definition To4 (ip : IP) : option bytes :=
  if bool_decide (length ip = 4%nat) then Some ip
  else if bool_decide (length ip = 16%nat /\ take 12 ip = v4InV6Prefix) then Some (drop 12 ip)
  else None.

Definition To16 (ip : IP) : option bytes :=
  if bool_decide (length ip = 4%nat) then Some (v4InV6Prefix ++ ip)
  else if bool_decide (length ip = 16%nat) then Some ip
  else None.

(** [ip.Equal(x)] *)
Definition ip_Equal (ip x : IP) : bool :=
  if bool_decide (length ip = length x) then bool_decide (ip = x)
  else if bool_decide (length ip = 4%nat /\ length x = 16%nat) then
    bool_decide (take 12 x = v4InV6Prefix /\ ip = drop 12 x)
  else if bool_decide (length ip = 16%nat /\ length x = 4%nat) then
    bool_decide (take 12 ip = v4InV6Prefix /\ drop 12 ip = x)
  else false.

(** Byte [i] of an address, as a number; the callers have checked the length. *)
Definition octet (ip : bytes) (i : nat) : Z := b2z (nth i ip (z2b 0)).

Definition IPv6zero : bytes := repeat (z2b 0) 16.
Definition IPv4zero : bytes := v4InV6Prefix ++ repeat (z2b 0) 4.
Definition IPv6loopback : bytes := repeat (z2b 0) 15 ++ [z2b 1].

Definition IsUnspecified (ip : IP) : bool := ip_Equal ip IPv4zero || ip_Equal ip IPv6zero.

Definition IsLoopback (ip : IP) : bool :=
  match To4 ip with
  | Some ip4 => bool_decide (octet ip4 0 = 127)
  | None => ip_Equal ip IPv6loopback
  end.

Definition IsLinkLocalUnicast (ip : IP) : bool :=
  match To4 ip with
  | Some ip4 => bool_decide (octet ip4 0 = 169 /\ octet ip4 1 = 254)
  | None => bool_decide (length ip = 16%nat /\ octet ip 0 = 254 /\ Z.land (octet ip 1) 192 = 128)
  end.

Definition IsMulticast (ip : IP) : bool :=
  match To4 ip with
  | Some ip4 => bool_decide (Z.land (octet ip4 0) 240 = 224)
  | None => bool_decide (length ip = 16%nat /\ octet ip 0 = 255)
  end.

Definition IsPrivate (ip : IP) : bool :=
  match To4 ip with
  | Some ip4 =>
      bool_decide (octet ip4 0 = 10) ||
      bool_decide (octet ip4 0 = 172 /\ Z.land (octet ip4 1) 240 = 16) ||
      bool_decide (octet ip4 0 = 192 /\ octet ip4 1 = 168)
  | None => bool_decide (length ip = 16%nat /\ Z.land (octet ip 0) 254 = 252)
  end.

Definition IPv4bcast : bytes := v4InV6Prefix ++ repeat (z2b 255) 4.

Definition IsGlobalUnicast (ip : IP) : bool :=
  bool_decide (length ip = 4%nat \/ length ip = 16%nat) &&
  negb (ip_Equal ip IPv4bcast) && negb (IsUnspecified ip) && negb (IsLoopback ip) &&
  negb (IsMulticast ip) && negb (IsLinkLocalUnicast ip).

(** The value [String] prints. *)
Definition ip_key (ip : IP) : bytes :=
  match To4 ip with Some ip4 => ip4 | None => ip end.

(** ** [net.IPNet] *)

Record IPNet := MkIPNet { net_IP : bytes; net_Mask : bytes }.

Definition band (a b : byte) : byte := z2b (Z.land (b2z a) (b2z b)).

(** [networkNumberAndMask] and [Contains]. *)
Definition network_number (n : IPNet) : option (bytes * bytes) :=
  let ip := match To4 (net_IP n) with
            | Some ip4 => Some ip4
            | None => if bool_decide (length (net_IP n) = 16%nat) then Some (net_IP n) else None
            end in
  match ip with
  | None => None
  | Some ip =>
      let m := net_Mask n in
      if bool_decide (length m = length ip) then Some (ip, m)
      else if bool_decide (length m = 16%nat /\ length ip = 4%nat) then Some (ip, drop 12 m)
      else None
  end.

Definition Contains (n : IPNet) (ip : IP) : bool :=
  let ip := match To4 ip with Some ip4 => ip4 | None => ip end in
  match network_number n with
  | None => bool_decide (ip = [])
  | Some (nn, m) =>
      bool_decide (length ip = length nn) &&
      bool_decide (zip_with band nn m = zip_with band ip m)
  end.

(** ** [net.UDPAddr] *)

Record UDPAddr := MkUDPAddr { addr_IP : bytes; addr_Port : Z }.

#[export] Instance UDPAddr_eq_dec : EqDecision UDPAddr.
Proof. solve_decision. Defined.

(** The value [addr.String()] prints. *)
Definition addr_key (a : UDPAddr) : bytes * Z := (ip_key (addr_IP a), addr_Port a).

Definition addr_same (a b : UDPAddr) : bool :=
  ip_Equal (addr_IP a) (addr_IP b) && bool_decide (addr_Port a = addr_Port b).

(** ** [netip.Addr] and [netip.AddrPort] *)

(** Zones are not used. *)
Inductive Addr := AddrZero | Addr4 (b : bytes) | Addr6 (b : bytes).

Definition addr_ok (a : Addr) : Prop :=
  match a with AddrZero => True | Addr4 b => length b = 4%nat | Addr6 b => length b = 16%nat end.

Definition Is4 (a : Addr) : bool := match a with Addr4 _ => true | _ => false end.
Definition Is6 (a : Addr) : bool := match a with Addr6 _ => true | _ => false end.
Definition IsValid (a : Addr) : bool := match a with AddrZero => false | _ => true end.
Definition BitLen (a : Addr) : Z := match a with AddrZero => 0 | Addr4 _ => 32 | Addr6 _ => 128 end.
Definition As16 (a : Addr) : bytes :=
  match a with AddrZero => repeat (z2b 0) 16 | Addr4 b => v4InV6Prefix ++ b | Addr6 b => b end.
Definition AddrFromSlice (b : bytes) : option Addr :=
  if bool_decide (length b = 4%nat) then Some (Addr4 b)
  else if bool_decide (length b = 16%nat) then Some (Addr6 b)
  else None.
Definition Unmap (a : Addr) : Addr :=
  match a with
  | Addr6 b => if bool_decide (take 12 b = v4InV6Prefix) then Addr4 (drop 12 b) else a
  | _ => a
  end.

Record AddrPort := MkAddrPort { ap_addr : Addr; ap_port : Z }.
Definition AddrPortZero : AddrPort := MkAddrPort AddrZero 0.
Definition ap_IsValid (a : AddrPort) : bool := IsValid (ap_addr a).

(** ** Text forms *)

(** [ip.String()] of an IPv4 address. *)
Definition ip4_String (b : bytes) : bytes :=
  Itoa (octet b 0) ++ bs "." ++ Itoa (octet b 1) ++ bs "." ++ Itoa (octet b 2) ++ bs "." ++ Itoa (octet b 3).

(** Group [i] of an IPv6 address. *)
Definition v6u16 (b : bytes) (i : nat) : Z := octet b (2 * i) * 256 + octet b (2 * i + 1).

(** The end of the run of zero groups starting at group [i]. *)
Fixpoint zero_run (fuel i : nat) (b : bytes) : nat :=
  match fuel with
  | O => i
  | S fuel => if bool_decide (i < 8)%nat && bool_decide (v6u16 b i = 0) then zero_run fuel (S i) b else i
  end.

(** The first of the longest runs of at least two zero groups. *)
Definition longest_run (b : bytes) : option (nat * nat) :=
  fold_left (fun best i =>
    let j := zero_run 8 i b in
    let len := (j - i)%nat in
    let old := match best with Some (s, e) => (e - s)%nat | None => O end in
    if bool_decide (2 <= len)%nat && bool_decide (old < len)%nat then Some (i, j) else best)
    (seq 0 8) None.

(** The loop that prints the groups from [i] on. *)
Fixpoint groups_String (fuel i : nat) (run : option (nat * nat)) (b : bytes) : bytes :=
  match fuel with
  | O => []
  | S fuel =>
      if bool_decide (8 <= i)%nat then []
      else
        let at_run := match run with Some (s, _) => bool_decide (s = i) | None => false end in
        if at_run then
          let e := match run with Some (_, e) => e | None => i end in
          bs "::" ++
          (if bool_decide (8 <= e)%nat then [] else hex_go 4 (v6u16 b e) ++ groups_String fuel (S e) run b)
        else (if bool_decide (0 < i)%nat then bs ":" else []) ++
          hex_go 4 (v6u16 b i) ++ groups_String fuel (S i) run b
  end.

Definition ip6_String (b : bytes) : bytes := groups_String 8 0 (longest_run b) b.

Definition ip_String (ip : IP) : bytes :=
  if bool_decide (ip = []) then bs "<nil>"
  else match To4 ip with
       | Some ip4 => ip4_String ip4
       | None =>
           if bool_decide (length ip = 16%nat) then ip6_String ip
           else bs "?" ++ concat ((fun c => [hex_digit (b2z c / 16); hex_digit (b2z c mod 16)]) <$> ip)
       end.

(** [net.JoinHostPort] and [UDPAddr.String] *)
Definition JoinHostPort (host port : bytes) : bytes :=
  if bool_decide (z2b 58 ∈ host) then bs "[" ++ host ++ bs "]:" ++ port else host ++ bs ":" ++ port.
Definition addr_String (a : UDPAddr) : bytes :=
  JoinHostPort (if bool_decide (addr_IP a = []) then [] else ip_String (addr_IP a)) (Itoa (addr_Port a)).

(** One decimal field of an IPv4 address: no leading zero, at most 255. *)
Definition ip4_field (s : bytes) : option byte :=
  v ← dec_val s;
  if bool_decide (s = []) then None
  else if bool_decide ((1 < length s)%nat /\ take 1 s = [digit 0]) then None
  else if bool_decide (v <= 255) then Some (z2b v) else None.

Definition parse_ip4 (s : bytes) : option bytes :=
  match Split (z2b 46) s with
  | [a; b; c; d] => a ← ip4_field a; b ← ip4_field b; c ← ip4_field c; d ← ip4_field d; Some [a; b; c; d]
  | _ => None
  end.

(** The hexadecimal digits at the start of [s]: their value, their number and the rest. *)
Fixpoint hex_prefix (s : bytes) : Z * nat * bytes :=
  match s with
  | c :: rest =>
      match hex_val c with
      | Some d =>
          let '(v, n, r) := hex_prefix rest in (d * 16 ^ Z.of_nat n + v, S n, r)
      | None => (0, O, s)
      end
  | [] => (0, O, [])
  end.

(** [netip.parseIPv6]: [acc] are the bytes read, [ell] the place of the "::". *)
Fixpoint parse_ip6_go (fuel : nat) (s acc : bytes) (ell : option nat) : option (bytes * option nat) :=
  match fuel with
  | O => None
  | S fuel =>
      if bool_decide (16 <= length acc)%nat then if bool_decide (s = []) then Some (acc, ell) else None
      else
        let '(v, n, r) := hex_prefix s in
        if bool_decide (n = O \/ 4 < n)%nat then None
        else match r with
             | c :: rest =>
                 if bool_decide (b2z c = 46) then
                   if bool_decide (ell = None /\ length acc <> 12%nat) then None
                   else if bool_decide (12 < length acc)%nat then None
                   else b ← parse_ip4 s; Some (acc ++ b, ell)
                 else
                   let acc := acc ++ be16 v in
                   if bool_decide (b2z c <> 58) then None
                   else match rest with
                        | [] => None
                        | c2 :: rest2 =>
                            if bool_decide (b2z c2 = 58) then
                              match ell with
                              | Some _ => None
                              | None =>
                                  let ell := Some (length acc) in
                                  if bool_decide (rest2 = []) then Some (acc, ell)
                                  else parse_ip6_go fuel rest2 acc ell
                              end
                            else parse_ip6_go fuel rest acc ell
                        end
             | [] => Some (acc ++ be16 v, ell)
             end
  end.

Definition parse_ip6 (s : bytes) : option bytes :=
  let start := if HasPrefix s (bs "::") then (drop 2 s, Some O) else (s, None) in
  if HasPrefix s (bs "::") && bool_decide (drop 2 s = []) then Some IPv6zero
  else
    p ← parse_ip6_go 10 start.1 [] start.2;
    let '(acc, ell) := p in
    let missing := (16 - length acc)%nat in
    match ell with
    | None => if bool_decide (missing = O) then Some acc else None
    | Some e => if bool_decide (missing = O) then None
                else Some (take e acc ++ repeat (z2b 0) missing ++ drop e acc)
    end.

(** [netip.ParseAddr] without zones: the first '.' or ':' decides. *)
Definition ParseAddr (s : bytes) : option Addr :=
  match List.find (fun c => bool_decide (b2z c = 46 \/ b2z c = 58 \/ b2z c = 37)) s with
  | Some c => if bool_decide (b2z c = 46) then Addr4 <$> parse_ip4 s
              else if bool_decide (b2z c = 58) then Addr6 <$> parse_ip6 s else None
  | None => None
  end.

(** [net.ParseIP]: the 16-byte form, or nil. *)
Definition ParseIP (s : bytes) : IP :=
  match ParseAddr s with Some a => As16 a | None => [] end.

(** [net.CIDRMask(n, bits)] *)
Definition CIDRMask (n bits : Z) : bytes :=
  (fun i : nat => let k := Z.min 8 (Z.max 0 (n - 8 * Z.of_nat i)) in z2b (256 - 2 ^ (8 - k)))
  <$> seq 0 (Z.to_nat (bits / 8)).

Definition ip_Mask (ip mask : bytes) : bytes :=
  let ip := if bool_decide (length mask = 4%nat /\ length ip = 16%nat /\ take 12 ip = v4InV6Prefix)
            then drop 12 ip else ip in
  if bool_decide (length ip = length mask) then zip_with band ip mask else [].

(** [net.ParseCIDR]: the address and the network. *)
Definition ParseCIDR (s : bytes) : option (IP * IPNet) :=
  i ← index_byte (z2b 47) s;
  a ← ParseAddr (take i s);
  let mask := drop (S i) s in
  if bool_decide (mask = []) then None
  else
    n ← dec_val mask;
    if bool_decide (n > BitLen a) then None
    else
      let m := CIDRMask n (BitLen a) in
      Some (As16 a, MkIPNet (ip_Mask (As16 a) m) m).

(** [simpleMaskLength]: the number of leading ones, when nothing follows them. *)
Definition mask_bits (m : bytes) : list bool :=
  concat ((fun b => (fun i => Z.testbit (b2z b) i) <$> [7; 6; 5; 4; 3; 2; 1; 0]) <$> m).
Fixpoint leading_ones (l : list bool) : nat := match l with true :: l => S (leading_ones l) | _ => O end.
Definition mask_len (m : bytes) : option Z :=
  let l := mask_bits m in
  let n := leading_ones l in
  if forallb negb (drop n l) then Some (Z.of_nat n) else None.

Definition net_String (n : IPNet) : bytes :=
  match network_number n with
  | None => bs "<nil>"
  | Some (nn, m) =>
      ip_String nn ++ bs "/" ++
      match mask_len m with
      | Some l => Itoa l
      | None => concat ((fun c => [hex_digit (b2z c / 16); hex_digit (b2z c mod 16)]) <$> m)
      end
  end.

(** ** Prefixes *)

(** [netip.ParsePrefix]: the address of a prefix. *)
Definition last_slash (s : bytes) : option nat := i ← index_byte (z2b 47) (rev s); Some (length s - 1 - i)%nat.
Definition ParsePrefix (s : bytes) : option Addr :=
  i ← last_slash s;
  a ← ParseAddr (take i s);
  let bits := drop (S i) s in
  let first_ok := match head bits with Some c => bool_decide (49 <= b2z c <= 57) | None => false end in
  if bool_decide (1 < length bits)%nat && negb first_ok then None
  else
    n ← ParseInt 64 bits;
    if bool_decide (0 <= n <= BitLen a) then Some a else None.

(** [netip.Addr.String] *)
Definition netip_String (a : Addr) : bytes :=
  match a with
  | AddrZero => bs "invalid IP"
  | Addr4 b => ip4_String b
  | Addr6 b => if bool_decide (take 12 b = v4InV6Prefix) then bs "::ffff:" ++ ip4_String (drop 12 b) else ip6_String b
  end.

(** ** Lemmas *)

(** [Equal] compares exactly what [String] prints. *)
Definition ip_ok (ip : IP) : Prop := length ip = 4%nat \/ length ip = 16%nat.

Lemma To4_4 ip : length ip = 4%nat -> To4 ip = Some ip.
Proof. intros H. unfold To4. by rewrite bool_decide_true. Qed.

Lemma To4_16 ip :
  length ip = 16%nat ->
  To4 ip = if bool_decide (take 12 ip = v4InV6Prefix) then Some (drop 12 ip) else None.
Proof.
  intros H. unfold To4. rewrite H, bool_decide_false by done.
  repeat case_bool_decide; naive_solver.
Qed.

Lemma To4_length ip b : To4 ip = Some b -> length b = 4%nat.
Proof.
  unfold To4. case_bool_decide; [by intros [= <-]|].
  case_bool_decide as Hm; [|done]. destruct Hm as [Hm _]. intros [= <-]. rewrite length_drop. lia.
Qed.

Lemma mapped_split x : take 12 x = v4InV6Prefix -> x = v4InV6Prefix ++ drop 12 x.
Proof. intros <-. by rewrite take_drop. Qed.

Lemma ip_Equal_key a b : ip_ok a -> ip_ok b -> ip_Equal a b = bool_decide (ip_key a = ip_key b).
Proof.
  unfold ip_ok, ip_Equal, ip_key. intros Ha Hb.
  assert (Hd : forall x : bytes, length x = 16%nat -> length (drop 12 x) = 4%nat).
  { intros x Hx. rewrite length_drop. lia. }
  destruct Ha as [Ha|Ha], Hb as [Hb|Hb]; rewrite ?(To4_4 a), ?(To4_4 b), ?(To4_16 a), ?(To4_16 b), Ha, Hb by done.
  - by rewrite bool_decide_true.
  - rewrite bool_decide_false, bool_decide_true by done.
    apply bool_decide_ext. case_bool_decide as H1; [naive_solver|].
    split; [naive_solver|]. intros ->. congruence.
  - rewrite (bool_decide_false (16%nat = 4%nat)), bool_decide_false, bool_decide_true by (done || lia).
    apply bool_decide_ext. case_bool_decide as H1; [naive_solver|].
    split; [naive_solver|]. intros <-. congruence.
  - rewrite bool_decide_true by done. apply bool_decide_ext.
    repeat case_bool_decide; split; try congruence; intros E1.
    + rewrite (mapped_split a), (mapped_split b) by done. by rewrite E1.
    + specialize (Hd a Ha). rewrite E1 in Hd. lia.
    + specialize (Hd b Hb). rewrite <- E1 in Hd. lia.
Qed.

(** *** The lengths of parsed addresses *)

Lemma parse_ip4_length s b : parse_ip4 s = Some b -> length b = 4%nat.
Proof.
  unfold parse_ip4. intros H.
  destruct (Split (z2b 46) s) as [|? [|? [|? [|? [|]]]]]; try done.
  apply bind_Some in H as (? & _ & H). apply bind_Some in H as (? & _ & H).
  apply bind_Some in H as (? & _ & H). apply bind_Some in H as (? & _ & H).
  by injection H as <-.
Qed.

Lemma parse_ip6_go_length fuel : forall k s acc ell r,
  length acc = (2 * k)%nat -> (k <= 8)%nat -> parse_ip6_go fuel s acc ell = Some r -> (length r.1 <= 16)%nat.
Proof.
  induction fuel as [|fuel IH]; intros k s acc ell r Hacc Hk H; [done|]. simpl in H.
  repeat (case_match || case_bool_decide || simplify_option_eq); simpl;
    rewrite ?length_app, ?length_be16; simpl;
    try match goal with H : parse_ip4 _ = Some _ |- _ => apply parse_ip4_length in H end;
    try match goal with H : parse_ip6_go _ _ _ _ = Some _ |- _ =>
      apply (IH (S k)) in H; [exact H|rewrite length_app, length_be16; lia|lia] end;
    try lia.
Qed.

Lemma parse_ip6_length s b : parse_ip6 s = Some b -> length b = 16%nat.
Proof.
  unfold parse_ip6. intros H. case_match; [by injection H as <-|].
  apply bind_Some in H as ([acc ell] & Hgo & H).
  apply (parse_ip6_go_length _ 0%nat) in Hgo; [|done|lia]. simpl in Hgo.
  repeat case_match; repeat case_bool_decide; simplify_eq; try lia;
    rewrite !length_app, length_take, length_drop, repeat_length; lia.
Qed.

(** *** Prefixes: [netip.ParsePrefix] and [net.ParseCIDR] *)

(** The length of a prefix that [ParsePrefix] accepts. *)
Definition prefix_len (s : bytes) : option Z := i ← last_slash s; ParseInt 64 (drop (S i) s).

Lemma Split_elem sep c s : c ∈ s -> c = sep \/ exists p, p ∈ Split sep s /\ c ∈ p.
Proof.
  induction s as [|x s IH]; [by intros ?%elem_of_nil|]. simpl. intros [->|Hin]%elem_of_cons.
  - case_bool_decide; [by left|]. right. destruct (Split sep s) as [|p ps]; [by exists [x]; split; left|].
    exists (x :: p). split; left.
  - destruct (IH Hin) as [?|(p & Hp & Hc)]; [by left|]. right. case_bool_decide; [exists p; split; [by right|done]|].
    destruct (Split sep s) as [|q ps]; [by apply elem_of_nil in Hp|]. apply elem_of_cons in Hp as [->|Hp].
    + exists (x :: q). split; [left|by right].
    + exists p. split; [by right|done].
Qed.

Lemma dec_val_digits s v : dec_val s = Some v -> Forall (fun c => is_Some (digit_val c)) s.
Proof.
  unfold dec_val. generalize (Some 0). induction s as [|c s IH]; intros acc H; [constructor|]. cbn [fold_left] in H.
  constructor; [|by eapply IH]. unfold dec_step in H. destruct acc as [a|]; cbn in H.
  - destruct (digit_val c); [done|]. exfalso. revert H. clear. induction s; [done|]. done.
  - exfalso. revert H. clear. induction s; [done|]. done.
Qed.

Lemma digit_not_slash c : is_Some (digit_val c) -> b2z c <> 47.
Proof. unfold digit_val. case_bool_decide; [lia|by intros [??]]. Qed.

Lemma ip4_field_digits s b : ip4_field s = Some b -> Forall (fun c => b2z c <> 47) s.
Proof.
  unfold ip4_field. intros H. apply bind_Some in H as (v & Hv & _). apply dec_val_digits in Hv.
  eapply Forall_impl; [exact Hv|]. apply digit_not_slash.
Qed.

Lemma parse_ip4_no_slash s b : parse_ip4 s = Some b -> Forall (fun c => b2z c <> 47) s.
Proof.
  unfold parse_ip4. intros H. apply Forall_forall. intros c Hc.
  destruct (Split_elem (z2b 46) c s Hc) as [->|(p & Hp & Hcp)]; [done|].
  destruct (Split (z2b 46) s) as [|p1 [|p2 [|p3 [|p4 [|]]]]]; try done.
  apply bind_Some in H as (? & H1 & H). apply bind_Some in H as (? & H2 & H).
  apply bind_Some in H as (? & H3 & H). apply bind_Some in H as (? & H4 & _).
  assert (Hf : Forall (fun q => Forall (fun c => b2z c <> 47) q) [p1; p2; p3; p4])
    by (repeat constructor; by eapply ip4_field_digits).
  rewrite Forall_forall in Hf. specialize (Hf p Hp). rewrite Forall_forall in Hf. by apply Hf.
Qed.

Lemma hex_prefix_split s : exists p, s = p ++ (hex_prefix s).2 /\ Forall (fun c => b2z c <> 47) p.
Proof.
  induction s as [|c s IH]; [by exists []|]. simpl. destruct (hex_val c) as [d|] eqn:E; [|by exists []].
  destruct IH as (p & Hp & Hf). destruct (hex_prefix s) as [[v n] r]. simpl in *. exists (c :: p). split; [by rewrite Hp|].
  constructor; [|done]. intros H. unfold hex_val in E. rewrite H in E. done.
Qed.

Lemma parse_ip6_go_no_slash fuel : forall s acc ell r, parse_ip6_go fuel s acc ell = Some r -> Forall (fun c => b2z c <> 47) s.
Proof.
  induction fuel as [|fuel IH]; intros s acc ell r H; [done|]. cbn [parse_ip6_go] in H.
  case_bool_decide; [case_bool_decide; [by subst|done]|].
  destruct (hex_prefix_split s) as (p & Hs & Hp). destruct (hex_prefix s) as [[v n] t]. cbn [snd] in Hs.
  case_bool_decide; [done|]. destruct t as [|c rest]; [by rewrite Hs, app_nil_r|]. case_bool_decide as Hdot.
  - destruct (bool_decide _); [done|]. case_bool_decide; [done|]. apply bind_Some in H as (b & Hb & _).
    by apply parse_ip4_no_slash in Hb.
  - cbv zeta in H. case_bool_decide as Hcolon; [done|]. rewrite Hs. apply Forall_app. split; [done|].
    destruct rest as [|c2 rest2]; [done|]. case_bool_decide as Hc2.
    + destruct ell; [done|]. case_bool_decide as Hr2; [subst; repeat constructor; lia|].
      constructor; [lia|]. constructor; [lia|]. by eapply IH.
    + constructor; [lia|]. by eapply IH.
Qed.

Lemma ParseAddr_no_slash s a : ParseAddr s = Some a -> Forall (fun c => b2z c <> 47) s.
Proof.
  unfold ParseAddr. destruct (List.find _ s); [|done]. case_bool_decide; [|case_bool_decide; [|done]].
  - intros (x & Hb & _)%fmap_Some. by eapply parse_ip4_no_slash.
  - intros (x & Hb & _)%fmap_Some. unfold parse_ip6 in Hb.
    destruct (HasPrefix s (bs "::")) eqn:Hpre; cbn [andb fst snd] in Hb.
    + unfold HasPrefix in Hpre. apply bool_decide_eq_true in Hpre. rewrite <- (take_drop 2 s). apply Forall_app. split.
      { change 2%nat with (length (bs "::")). rewrite Hpre. repeat constructor; done. }
      case_bool_decide as Hd; [rewrite Hd; constructor|]. apply bind_Some in Hb as (r & Hgo & _).
      by eapply parse_ip6_go_no_slash.
    + apply bind_Some in Hb as (r & Hgo & _). by eapply parse_ip6_go_no_slash.
Qed.

Lemma last_slash_split s i : last_slash s = Some i -> s = take i s ++ z2b 47 :: drop (S i) s /\ (i < length s)%nat.
Proof.
  unfold last_slash. intros (j & Hj & [= <-])%bind_Some. apply index_byte_lookup in Hj.
  pose proof (lookup_lt_Some _ _ _ Hj) as Hl. rewrite List.length_rev in Hl. rewrite rev_alt in Hj. change (rev_append s []) with (reverse s) in Hj.
  apply reverse_lookup_Some in Hj as [Hj _].
  replace (length s - S j)%nat with (length s - 1 - j)%nat in Hj by lia. split; [|lia].
  by rewrite take_drop_middle.
Qed.

(** [ParseCIDR] reads a prefix that [ParsePrefix] accepts. *)
Lemma ParsePrefix_ParseCIDR s a :
  ParsePrefix s = Some a ->
  exists n, prefix_len s = Some n /\ 0 <= n <= BitLen a /\
    ParseCIDR s = Some (As16 a, MkIPNet (ip_Mask (As16 a) (CIDRMask n (BitLen a))) (CIDRMask n (BitLen a))).
Proof.
  unfold ParsePrefix, prefix_len. intros (i & Hi & H)%bind_Some. apply bind_Some in H as (a' & Ha & H).
  case_match eqn:Hok; [done|]. apply bind_Some in H as (n & Hn & H). case_bool_decide as Hr; [|done]. injection H as <-.
  exists n. rewrite Hi. split; [done|]. split; [done|]. destruct (last_slash_split _ _ Hi) as [Hs Hl].
  assert (Hno : z2b 47 ∉ take i s).
  { intros Hin. pose proof (ParseAddr_no_slash _ _ Ha) as Hf. rewrite Forall_forall in Hf. by apply (Hf _ Hin). }
  unfold ParseCIDR. replace (index_byte (z2b 47) s) with (Some i).
  2:{ rewrite Hs, index_byte_app by done. by rewrite length_take_le by lia. }
  cbn. rewrite Ha. cbn. set (bits := drop (S i) s) in *.
  assert (Hb : bits <> []) by (intros Hb; rewrite Hb in Hn; done).
  rewrite bool_decide_false by done.
  assert (Hd : dec_val bits = Some n).
  { destruct bits as [|c rest]; [done|]. unfold ParseInt in Hn.
    destruct (decide (b2z c = 45 \/ b2z c = 43)) as [Hc|Hc].
    - rewrite (bool_decide_true (_ \/ _)) in Hn by done. case_bool_decide as Hrest; [done|].
      cbn [head] in Hok. rewrite (bool_decide_true (1 < _)%nat) in Hok by (destruct rest; simpl; [done|lia]).
      rewrite bool_decide_false in Hok by lia. done.
    - rewrite (bool_decide_false (_ \/ _)) in Hn by done. rewrite (bool_decide_false (b2z c = 45)) in Hn by lia.
      rewrite (bool_decide_false (_ = [])) in Hn by done. apply bind_Some in Hn as (v & Hv & Hn).
      case_bool_decide; [by injection Hn as <-|done]. }
  rewrite Hd. cbn. by rewrite bool_decide_false by lia.
Qed.

(** ** Tests of the text forms *)

Example ip_String_v4 : ip_String (v4InV6Prefix ++ [z2b 10; z2b 0; z2b 255; z2b 7]) = bs "10.0.255.7".
Proof. vm_compute. reflexivity. Qed.
Example ip_String_v6 : ip_String (ParseIP (bs "2001:0db8:0:0:1::1")) = bs "2001:db8::1:0:0:1".
Proof. vm_compute. reflexivity. Qed.
Example ip_String_short : ip_String (ParseIP (bs "fe80::")) = bs "fe80::" /\ ip_String (ParseIP (bs "::1")) = bs "::1".
Proof. vm_compute. done. Qed.
Example ParseIP_mixed : ParseIP (bs "::ffff:1.2.3.4") = ParseIP (bs "1.2.3.4").
Proof. vm_compute. reflexivity. Qed.
Example ParseIP_bad : ParseIP (bs "1.2.3.04") = [] /\ ParseIP (bs "1::2::3") = [] /\ ParseIP (bs "1:2:3") = [].
Proof. vm_compute. done. Qed.
Example ParseCIDR_v4 :
  (fun p => net_String p.2) <$> ParseCIDR (bs "192.168.17.4/20") = Some (bs "192.168.16.0/20").
Proof. vm_compute. reflexivity. Qed.
Example ParseCIDR_v6 :
  (fun p => net_String p.2) <$> ParseCIDR (bs "fd00:1234::1/16") = Some (bs "fd00::/16").
Proof. vm_compute. reflexivity. Qed.
Example addr_String_v6 : addr_String (MkUDPAddr (ParseIP (bs "::1")) 29877) = bs "[::1]:29877".
Proof. vm_compute. reflexivity. Qed.
