(* ===== verification/Stun.v ===== *)
(** * STUN packets ([stun/stun.go])

    Requests and responses, with the CRC-32 of [hash/crc32] computed bit by bit.
    Packets are parsed as slices, so that an access outside of one would show as
    [Panic]. *)

From S2P Require Import Prelude Netip.

Definition attrNumSoftware : Z := 32802.
Definition attrNumFingerprint : Z := 32808.
Definition attrMappedAddress : Z := 1.
Definition attrXorMappedAddress : Z := 32.
Definition attrXorMappedAddressAlt : Z := 32800.
Definition software : bytes := bs "tailnode".
Definition bindingRequest : bytes := [z2b 0; z2b 1].
Definition magicCookie : bytes := [z2b 33; z2b 18; z2b 164; z2b 66].
Definition lenFingerprint : Z := 8.
Definition headerLen : Z := 20.

Inductive stun_error :=
| ErrNotSTUN | ErrNotSuccessResponse | ErrMalformedAttrs | ErrNotBindingRequest
| ErrWrongSoftware | ErrNoFingerprint | ErrWrongFingerprint.

(** A transaction ID has twelve bytes. *)
Definition TxID : Type := bytes.
Definition zeroTxID : TxID := repeat (z2b 0) 12.

(** ** [crc32.ChecksumIEEE] *)

Definition crc_bit (c : Z) : Z :=
  if Z.odd c then Z.lxor (Z.shiftr c 1) 3988292384 else Z.shiftr c 1.
Definition crc_byte (c : Z) (b : byte) : Z :=
  Nat.iter 8 crc_bit (Z.lxor c (b2z b)).
Definition ChecksumIEEE (b : bytes) : Z :=
  Z.lxor (fold_left crc_byte b 4294967295) 4294967295.

Definition fingerPrint (b : bytes) : Z := Z.lxor (ChecksumIEEE b) 1398035790.

(** ** Requests *)

Definition appendU16 (b : bytes) (v : Z) : bytes := b ++ be16 v.
Definition appendU32 (b : bytes) (v : Z) : bytes := b ++ be32 v.

Definition Request (tID : TxID) : bytes :=
  let lenAttrSoftware := 4 + zlen software in
  let b := bindingRequest in
  let b := appendU16 b (u16 (lenAttrSoftware + lenFingerprint)) in
  let b := b ++ magicCookie in
  let b := b ++ tID in
  let b := appendU16 b attrNumSoftware in
  let b := appendU16 b (u16 (zlen software)) in
  let b := b ++ software in
  let fp := fingerPrint b in
  let b := appendU16 b attrNumFingerprint in
  let b := appendU16 b 4 in
  appendU32 b fp.

(** [Is] *)
Definition Is (b : bytes) : bool :=
  bool_decide (zlen b >= headerLen) &&
  bool_decide (Z.land (b2z (nth 0 b (z2b 0))) 192 = 0) &&
  bool_decide (take 4 (drop 4 b) = magicCookie).

(** [foreachAttr] with the state [S] its callback changes.  An attribute takes at
    least four bytes, so the length of the slice bounds the iterations; running
    out of them would be a [Panic], which [foreachAttr_total] excludes. *)
Fixpoint foreachAttr {S} (fuel : nat) (b : gslice)
    (fn : Z -> gslice -> S -> res stun_error S) (st : S) : res stun_error S :=
  match fuel with
  | O => Panic
  | Datatypes.S fuel =>
      if bool_decide (sl_len b > 0) then
        if bool_decide (sl_len b < 4) then Err ErrMalformedAttrs
        else
          h ← sl_sub b 0 2;
          attrType ← sl_be16 h;
          h ← sl_sub b 2 4;
          attrLen ← sl_be16 h;
          let attrLenWithPad := Z.ldiff (attrLen + 3) 3 in
          b ← sl_from b 4;
          if bool_decide (attrLenWithPad > sl_len b) then Err ErrMalformedAttrs
          else
            a ← sl_sub b 0 attrLen;
            st ← fn attrType a st;
            b ← sl_from b attrLenWithPad;
            foreachAttr fuel b fn st
      else Ok st
  end.

Definition each_attr {S} (b : gslice) fn (st : S) : res stun_error S :=
  foreachAttr (Datatypes.S (length (vis b))) b fn st.

(** The callback of [ParseBindingRequest]; its state is [softwareOK], [lastAttr]
    and [gotFP]. *)
Definition request_attr (attrType : Z) (a : gslice) (st : bool * Z * Z) :
    res stun_error (bool * Z * Z) :=
  let '(softwareOK, _, gotFP) := st in
  let softwareOK := softwareOK || bool_decide (attrType = attrNumSoftware /\ vis a = software) in
  gotFP ← (if bool_decide (attrType = attrNumFingerprint /\ sl_len a = 4) then sl_be32 a else Ok gotFP);
  Ok (softwareOK, attrType, gotFP).

Definition ParseBindingRequest (b : gslice) : res stun_error TxID :=
  if negb (Is (vis b)) then Err ErrNotSTUN
  else
    h ← sl_sub b 0 2;
    if bool_decide (vis h <> bindingRequest) then Err ErrNotBindingRequest
    else
      t ← sl_sub b 8 20;
      let txID := vis t in
      body ← sl_from b headerLen;
      st ← each_attr body request_attr (false, 0, 0);
      let '(softwareOK, lastAttr, gotFP) := st in
      if negb softwareOK then Err ErrWrongSoftware
      else if bool_decide (lastAttr <> attrNumFingerprint) then Err ErrNoFingerprint
      else
        pre ← sl_sub b 0 (sl_len b - lenFingerprint);
        if bool_decide (gotFP <> fingerPrint (vis pre)) then Err ErrWrongFingerprint
        else Ok txID.

(** ** Responses *)

(** The loops over the address bytes: xor with the cookie, then with the
    transaction ID. *)
Definition xor_addr (tID : TxID) (b : bytes) : bytes := zip_with bxor b (magicCookie ++ tID).

(** [Response]; an address has no zone here: the zone of an IPv6 address is not
    written, and changes nothing of what is. *)
Definition Response (txID : TxID) (addrPort : AddrPort) : bytes :=
  let addr := ap_addr addrPort in
  let fam := if Is4 addr then Some 1 else if Is6 addr then Some 2 else None in
  match fam with
  | None => []
  | Some fam =>
      let attrsLen := 8 + BitLen addr / 8 in
      let b := [z2b 1; z2b 1] in
      let b := appendU16 b (u16 attrsLen) in
      let b := b ++ magicCookie in
      let b := b ++ txID in
      let b := appendU16 b attrXorMappedAddress in
      let b := appendU16 b (u16 (4 + BitLen addr / 8)) in
      let b := b ++ [z2b 0; z2b fam] in
      let b := appendU16 b (Z.lxor (ap_port addrPort) 8466) in
      b ++ xor_addr txID (drop (Z.to_nat (16 - BitLen addr / 8)) (As16 addr))
  end.

Definition familyAddrLen (fam : byte) : Z :=
  if bool_decide (b2z fam = 1) then 4 else if bool_decide (b2z fam = 2) then 16 else 0.

Definition xorMappedAddress (tID : TxID) (b : gslice) : res stun_error (bytes * Z) :=
  if bool_decide (sl_len b < 4) then Err ErrMalformedAttrs
  else
    h ← sl_sub b 2 4;
    xorPort ← sl_be16 h;
    addrField ← sl_from b 4;
    let port := Z.lxor xorPort 8466 in
    fam ← sl_get b 1;
    let addrLen := familyAddrLen fam in
    if bool_decide (addrLen = 0) then Err ErrMalformedAttrs
    else if bool_decide (sl_len addrField < addrLen) then Err ErrMalformedAttrs
    else
      xorAddr ← sl_sub addrField 0 addrLen;
      Ok (xor_addr tID (vis xorAddr), port).

Definition mappedAddress (b : gslice) : res stun_error (bytes * Z) :=
  if bool_decide (sl_len b < 4) then Err ErrMalformedAttrs
  else
    hi ← sl_get b 2;
    lo ← sl_get b 3;
    let port := Z.lor (Z.shiftl (b2z hi) 8) (b2z lo) in
    addrField ← sl_from b 4;
    fam ← sl_get b 1;
    let addrLen := familyAddrLen fam in
    if bool_decide (addrLen = 0) then Err ErrMalformedAttrs
    else if bool_decide (sl_len addrField < addrLen) then Err ErrMalformedAttrs
    else
      a ← sl_sub addrField 0 addrLen;
      Ok (vis a, port).

(** The callback of [ParseResponse]; its state is [addr] and [fallbackAddr]. *)
Definition response_attr (tID : TxID) (attrType : Z) (a : gslice) (st : AddrPort * AddrPort) :
    res stun_error (AddrPort * AddrPort) :=
  let '(addr, fallbackAddr) := st in
  if bool_decide (attrType = attrXorMappedAddress \/ attrType = attrXorMappedAddressAlt) then
    p ← xorMappedAddress tID a;
    Ok (match AddrFromSlice p.1 with Some ip => MkAddrPort (Unmap ip) p.2 | None => addr end, fallbackAddr)
  else if bool_decide (attrType = attrMappedAddress) then
    match mappedAddress a with
    | Ok p =>
        Ok (addr, match AddrFromSlice p.1 with
                  | Some ip => MkAddrPort (Unmap ip) p.2
                  | None => fallbackAddr end)
    | Err _ => Err ErrMalformedAttrs
    | Panic => Panic
    end
  else Ok (addr, fallbackAddr).

Definition ParseResponse (b : gslice) : res stun_error (TxID * AddrPort) :=
  if negb (Is (vis b)) then Err ErrNotSTUN
  else
    t ← sl_sub b 8 20;
    let tID := vis t in
    b0 ← sl_get b 0;
    b1 ← sl_get b 1;
    if bool_decide (b2z b0 <> 1 \/ b2z b1 <> 1) then Err ErrNotSuccessResponse
    else
      h ← sl_sub b 2 4;
      attrsLen ← sl_be16 h;
      b ← sl_from b headerLen;
      b ← (if bool_decide (attrsLen > sl_len b) then Err ErrMalformedAttrs
           else if bool_decide (sl_len b > attrsLen) then sl_sub b 0 attrsLen else Ok b);
      st ← each_attr b (response_attr tID) (AddrPortZero, AddrPortZero);
      let '(addr, fallbackAddr) := st in
      if ap_IsValid addr then Ok (tID, addr)
      else if ap_IsValid fallbackAddr then Ok (tID, fallbackAddr)
      else Err ErrMalformedAttrs.

(** ** Lemmas: slices that are long enough *)

Lemma crc_check : ChecksumIEEE (bs "123456789") = 3421780262.
Proof. vm_compute. reflexivity. Qed.

Lemma sl_sub_in {E} b lo hi :
  0 <= lo <= hi -> hi <= sl_len b ->
  exists s, @sl_sub E b lo hi = Ok s /\ sl_len s = hi - lo /\
    vis s = take (Z.to_nat (hi - lo)) (drop (Z.to_nat lo) (vis b)).
Proof.
  intros Hlo Hhi. unfold sl_sub, sl_cap, sl_len, zlen in *. rewrite bool_decide_true by lia.
  assert (Hv : take (Z.to_nat (hi - lo)) (drop (Z.to_nat lo) (vis b ++ spare b)) =
    take (Z.to_nat (hi - lo)) (drop (Z.to_nat lo) (vis b))).
  { rewrite drop_app_le by lia. rewrite take_app_le; [done|]. rewrite length_drop. lia. }
  eexists. split; [done|]. simpl. split; [|done].
  rewrite Hv, length_take, length_drop. lia.
Qed.

Lemma sl_from_in {E} b lo :
  0 <= lo <= sl_len b ->
  exists s, @sl_from E b lo = Ok s /\ sl_len s = sl_len b - lo /\ vis s = drop (Z.to_nat lo) (vis b).
Proof.
  intros H. unfold sl_from. rewrite bool_decide_true by done.
  destruct (@sl_sub_in E b lo (sl_len b)) as (s & -> & Hl & Hv); [lia|lia|].
  exists s. split; [done|]. split; [done|]. rewrite Hv. apply take_ge.
  rewrite length_drop. unfold sl_len, zlen in *. lia.
Qed.

Lemma sl_get_in {E} b i : 0 <= i < sl_len b -> exists x, @sl_get E b i = Ok x.
Proof.
  intros H. unfold sl_get. rewrite bool_decide_true by done.
  destruct (lookup_lt_is_Some_2 (vis b) (Z.to_nat i)) as [x ->].
  - unfold sl_len, zlen in H. lia.
  - by eexists.
Qed.

Lemma sl_be16_in {E} b : 2 <= sl_len b -> exists x, @sl_be16 E b = Ok x /\ 0 <= x < 65536.
Proof.
  intros H. unfold sl_be16. destruct (@sl_get_in E b 0) as [x ->]; [lia|].
  destruct (@sl_get_in E b 1) as [y ->]; [lia|]. simpl. eexists. split; [done|]. apply de16_range.
Qed.

Lemma sl_be32_in {E} b : 4 <= sl_len b -> exists x, @sl_be32 E b = Ok x.
Proof.
  intros H. unfold sl_be32. destruct (@sl_get_in E b 0) as [w ->]; [lia|].
  destruct (@sl_get_in E b 1) as [x ->]; [lia|]. destruct (@sl_get_in E b 2) as [y ->]; [lia|].
  destruct (@sl_get_in E b 3) as [z ->]; [lia|]. by eexists.
Qed.

Lemma pad4 n : 0 <= n -> n <= Z.ldiff (n + 3) 3 < n + 4 /\ Z.ldiff (n + 3) 3 mod 4 = 0.
Proof.
  intros Hn. assert (Z.ldiff (n + 3) 3 = (n + 3) / 4 * 4) as ->.
  { change (Z.ldiff (n + 3) (Z.ones 2) = (n + 3) / 4 * 4).
    rewrite Z.ldiff_ones_r, Z.shiftr_div_pow2, Z.shiftl_mul_pow2 by lia. done. }
  mlia.
Qed.

(** The loop over the attributes ends and stays inside of the slice, whatever the
    bytes are, if its callback does. *)
Lemma foreachAttr_total {S} fuel b (fn : Z -> gslice -> S -> res stun_error S) st :
  (forall t a st, fn t a st <> Panic) -> sl_len b < Z.of_nat fuel ->
  foreachAttr fuel b fn st <> Panic.
Proof.
  intros Hfn. revert b st. induction fuel as [|fuel IH]; intros b st Hf.
  - unfold sl_len in Hf. pose proof (zlen_nonneg (vis b)). lia.
  - simpl. case_bool_decide; [|done]. case_bool_decide; [done|].
    destruct (@sl_sub_in stun_error b 0 2) as (h1 & -> & L1 & _); [lia|lia|]. simpl.
    destruct (@sl_be16_in stun_error h1) as (ty & -> & _); [lia|]. simpl.
    destruct (@sl_sub_in stun_error b 2 4) as (h2 & -> & L2 & _); [lia|lia|]. simpl.
    destruct (@sl_be16_in stun_error h2) as (n & -> & Hn); [lia|]. simpl.
    destruct (@sl_from_in stun_error b 4) as (b4 & -> & L4 & _); [lia|]. simpl.
    pose proof (pad4 n ltac:(lia)) as [Hpad _]. case_bool_decide; [done|].
    destruct (@sl_sub_in stun_error b4 0 n) as (a & -> & _); [lia|lia|]. simpl.
    destruct (fn ty a st) as [st'| |] eqn:Hr; [|done|by destruct (Hfn ty a st)]. simpl.
    destruct (@sl_from_in stun_error b4 (Z.ldiff (n + 3) 3)) as (b' & -> & L' & _); [lia|]. simpl.
    apply IH. lia.
Qed.

(** ** Lemmas: reading back what was appended *)

Lemma foreachAttr_cons {S} fuel ty a rest sp (fn : Z -> gslice -> S -> res stun_error S) st :
  0 <= ty < 65536 -> zlen a < 65536 -> zlen a mod 4 = 0 ->
  foreachAttr (Datatypes.S fuel) (GSlice (be16 ty ++ be16 (zlen a) ++ a ++ rest) sp) fn st =
  st' ← fn ty (GSlice a (rest ++ sp)) st; foreachAttr fuel (GSlice rest sp) fn st'.
Proof.
  intros Hty Ha Hm. cbn [foreachAttr]. set (b := be16 ty ++ _).
  assert (Hl : sl_len (GSlice b sp) = 4 + zlen a + zlen rest) by (unfold sl_len, b; simpl vis; zlen_lia).
  pose proof (zlen_nonneg a). pose proof (zlen_nonneg rest). rewrite Hl.
  rewrite bool_decide_true, bool_decide_false by lia.
  assert (Hty' : (h ← @sl_sub stun_error (GSlice b sp) 0 2; sl_be16 h) = Ok ty).
  { unfold b. rewrite (sl_sub_0 (be16 ty)), bind_Ok by done.
    rewrite <- (app_nil_r (be16 ty)). by rewrite sl_be16_app, u16_small. }
  assert (Hlen : (h ← @sl_sub stun_error (GSlice b sp) 2 4; sl_be16 h) = Ok (zlen a)).
  { unfold b. rewrite (sl_sub_app (be16 ty) (be16 (zlen a))), bind_Ok by done.
    rewrite <- (app_nil_r (be16 (zlen a))). by rewrite sl_be16_app, u16_small by lia. }
  assert (Hfrom : @sl_from stun_error (GSlice b sp) 4 = Ok (GSlice (a ++ rest) sp)).
  { unfold b. rewrite (app_assoc (be16 ty)). by apply (sl_from_app (be16 ty ++ be16 (zlen a))). }
  destruct (@sl_sub stun_error (GSlice b sp) 0 2) as [h0| |]; [|done|done].
  destruct (@sl_sub stun_error (GSlice b sp) 2 4) as [h| |]; [|done|done].
  rewrite !bind_Ok in *. rewrite Hty', bind_Ok, bind_Ok, Hlen, bind_Ok, Hfrom, bind_Ok.
  assert (Hpad : Z.ldiff (zlen a + 3) 3 = zlen a).
  { destruct (pad4 (zlen a)) as [H1 H2]; [done|]. mlia. }
  rewrite Hpad, bool_decide_false by (unfold sl_len; cbn [vis]; rewrite (zlen_app a rest); lia).
  rewrite (sl_sub_0 a), bind_Ok by done.
  destruct (fn _ _ _); [|done|done]. rewrite !bind_Ok. by rewrite (sl_from_app a rest).
Qed.

Lemma foreachAttr_nil {S} fuel sp (fn : Z -> gslice -> S -> res stun_error S) st :
  foreachAttr (Datatypes.S fuel) (GSlice [] sp) fn st = Ok st.
Proof. done. Qed.

Lemma crc_bit_range c : 0 <= c < 2 ^ 32 -> 0 <= crc_bit c < 2 ^ 32.
Proof.
  intros Hc. unfold crc_bit. assert (0 <= Z.shiftr c 1 < 2 ^ 32).
  { rewrite Z.shiftr_div_pow2 by lia. change (2 ^ 1) with 2. mlia. }
  destruct (Z.odd c); [|done]. by apply lxor_bound.
Qed.

Lemma crc_byte_range c b : 0 <= c < 2 ^ 32 -> 0 <= crc_byte c b < 2 ^ 32.
Proof.
  intros Hc. unfold crc_byte. apply Nat.iter_invariant; [intros; by apply crc_bit_range|].
  apply lxor_bound; [lia|done|]. pose proof (b2z_range b). lia.
Qed.

Lemma ChecksumIEEE_range b : 0 <= ChecksumIEEE b < 2 ^ 32.
Proof.
  unfold ChecksumIEEE. apply lxor_bound; [lia| |lia].
  assert (H : forall c, 0 <= c < 2 ^ 32 -> 0 <= fold_left crc_byte b c < 2 ^ 32); [|apply H; lia].
  induction b as [|x b IH]; intros c Hc; [done|]. simpl. apply IH. by apply crc_byte_range.
Qed.

Lemma fingerPrint_range b : 0 <= fingerPrint b < 4294967296.
Proof. apply (lxor_bound 32); [lia|apply ChecksumIEEE_range|lia]. Qed.

Lemma xor_addr_cancel tID b :
  (length b <= 4 + length tID)%nat -> xor_addr tID (xor_addr tID b) = b.
Proof.
  unfold xor_addr. intros Hl. assert (Hk : (length b <= length (magicCookie ++ tID))%nat) by (rewrite length_app; simpl; lia).
  revert Hk. generalize (magicCookie ++ tID). clear Hl. intros k. revert k.
  induction b as [|x b IH]; intros [|y k] Hk; simpl in *; try done; [lia|].
  rewrite bxor_cancel. f_equal. apply IH. lia.
Qed.

Lemma Is_intro b0 b1 l rest :
  Z.land (b2z b0) 192 = 0 -> 12 <= zlen rest ->
  Is ([b0; b1] ++ be16 l ++ magicCookie ++ rest) = true.
Proof.
  intros Hb Hr. unfold Is. rewrite !bool_decide_true; [done|done|done|].
  unfold headerLen. change (zlen (magicCookie ++ rest)) with (4 + zlen rest).
  rewrite !zlen_app. unfold zlen in *. simpl. lia.
Qed.

(** One XOR-MAPPED-ADDRESS attribute. *)
Lemma response_attr_xor tx fam ipb a port sp st :
  length tx = 12%nat -> AddrFromSlice ipb = Some a -> zlen ipb = familyAddrLen fam -> 4 <= zlen ipb <= 16 ->
  0 <= port < 65536 ->
  response_attr tx 32 (GSlice ([z2b 0; fam] ++ be16 (Z.lxor port 8466) ++ xor_addr tx ipb) sp) st =
  Ok (MkAddrPort (Unmap a) port, st.2).
Proof.
  intros Htx Hfrom Hfam Hb Hport. destruct st as [addr fallback]. unfold response_attr.
  rewrite bool_decide_true by (by left).
  set (x := xor_addr tx ipb).
  assert (Hx : zlen x = zlen ipb).
  { unfold x, xor_addr, zlen in *. rewrite length_zip_with, length_app, Htx. simpl. lia. }
  set (s := GSlice _ sp).
  assert (Hport' : (h ← @sl_sub stun_error s 2 4; sl_be16 h) = Ok (Z.lxor port 8466)).
  { unfold s. rewrite (sl_sub_app [z2b 0; fam] (be16 (Z.lxor port 8466))), bind_Ok by done.
    rewrite <- (app_nil_r (be16 (Z.lxor port 8466))). rewrite sl_be16_app, u16_small; [done|].
    by apply (lxor_bound 16). }
  assert (Hfield : @sl_from stun_error s 4 = Ok (GSlice x sp)).
  { unfold s. rewrite app_assoc. by apply (sl_from_app ([z2b 0; fam] ++ be16 (Z.lxor port 8466))). }
  assert (Hfam' : @sl_get stun_error s 1 = Ok fam) by (by apply (sl_get_app [z2b 0])).
  assert (Hl : sl_len s = 4 + zlen ipb).
  { unfold s, sl_len. cbn [vis]. rewrite !zlen_app, Hx, zlen_be16, !zlen_cons, zlen_nil. lia. }
  unfold xorMappedAddress. rewrite Hl, bool_decide_false by lia.
  destruct (@sl_sub stun_error s 2 4) as [h| |]; [|done|done].
  rewrite bind_Ok in Hport'. rewrite bind_Ok, Hport', bind_Ok, Hfield, bind_Ok, Hfam', bind_Ok.
  assert (Hxl : sl_len (GSlice x sp) = zlen ipb) by exact Hx.
  rewrite Hxl, <- Hfam, !bool_decide_false by lia.
  rewrite <- (app_nil_r x), (sl_sub_0 x), bind_Ok, bind_Ok by (by rewrite Hx). cbn [fst snd vis].
  unfold x. rewrite xor_addr_cancel by (unfold zlen in *; lia). rewrite Hfrom.
  by rewrite Z.lxor_assoc, Z.lxor_nilpotent, Z.lxor_0_r.
Qed.

(** The parts of a message: its type, the length of its attributes, the
    transaction and the attributes. *)
Definition message (t0 t1 : byte) (n : Z) (tx tail : bytes) : bytes := [t0; t1] ++ be16 n ++ magicCookie ++ tx ++ tail.

Lemma message_fields t0 t1 n tx tail sp :
  length tx = 12%nat -> 0 <= n < 65536 ->
  let m := GSlice (message t0 t1 n tx tail) sp in
  @sl_sub stun_error m 0 2 = Ok (GSlice [t0; t1] ((be16 n ++ magicCookie ++ tx ++ tail) ++ sp)) /\
  @sl_get stun_error m 0 = Ok t0 /\ @sl_get stun_error m 1 = Ok t1 /\
  (h ← @sl_sub stun_error m 2 4; sl_be16 h) = Ok n /\
  @sl_sub stun_error m 8 20 = Ok (GSlice tx (tail ++ sp)) /\ @sl_from stun_error m headerLen = Ok (GSlice tail sp).
Proof.
  intros Htx Hn. cbv zeta. unfold message.
  assert (Hsplit : [t0; t1] ++ be16 n ++ magicCookie ++ tx ++ tail = ([t0; t1] ++ be16 n ++ magicCookie) ++ tx ++ tail)
    by by rewrite <- !app_assoc.
  assert (Htl : 20 = zlen ([t0; t1] ++ be16 n ++ magicCookie) + zlen tx) by (unfold zlen; rewrite Htx; done).
  split; [by rewrite (sl_sub_0 [t0; t1])|]. split; [by apply (sl_get_app [])|]. split; [by apply (sl_get_app [t0])|].
  split; [|split; [rewrite Hsplit; by apply sl_sub_app|]].
  - rewrite (sl_sub_app [t0; t1] (be16 n)), bind_Ok by done.
    rewrite <- (app_nil_r (be16 n)). by rewrite sl_be16_app, u16_small by lia.
  - rewrite Hsplit, app_assoc. apply sl_from_app. rewrite zlen_app. exact Htl.
Qed.

(** The address bytes of a response. *)
Definition address_bytes (a : Addr) : bytes := drop (Z.to_nat (16 - BitLen a / 8)) (As16 a).
Definition family (a : Addr) : byte := z2b (if Is4 a then 1 else 2).
Definition xor_attr (tx : bytes) (a : Addr) (port : Z) : bytes :=
  [z2b 0; family a] ++ be16 (Z.lxor port 8466) ++ xor_addr tx (address_bytes a).

Lemma address_bytes_ok a :
  addr_ok a -> a <> AddrZero ->
  AddrFromSlice (address_bytes a) = Some a /\ zlen (address_bytes a) = BitLen a / 8 /\
  zlen (address_bytes a) mod 4 = 0 /\ 4 <= zlen (address_bytes a) <= 16 /\
  zlen (address_bytes a) = familyAddrLen (family a).
Proof.
  intros Ha Hz. unfold address_bytes, AddrFromSlice, zlen. destruct a as [|b|b]; [done|..];
    match goal with |- context [drop ?n ?l] => change (drop n l) with b end;
    simpl in Ha; rewrite Ha; repeat split; done.
Qed.

Lemma xor_attr_length tx a port :
  length tx = 12%nat -> addr_ok a -> a <> AddrZero -> zlen (xor_attr tx a port) = 4 + zlen (address_bytes a).
Proof.
  intros Htx Ha Hz. destruct (address_bytes_ok a Ha Hz) as (_ & _ & _ & Hb & _).
  assert (Hx : zlen (xor_addr tx (address_bytes a)) = zlen (address_bytes a)).
  { unfold xor_addr, zlen in *. rewrite length_zip_with, length_app, Htx. simpl. lia. }
  unfold xor_attr. rewrite !zlen_app, Hx, zlen_be16, !zlen_cons, zlen_nil. lia.
Qed.

Lemma Response_message tx a port :
  length tx = 12%nat -> addr_ok a -> a <> AddrZero ->
  Response tx (MkAddrPort a port) =
    message (z2b 1) (z2b 1) (4 + zlen (xor_attr tx a port)) tx
      (be16 32 ++ be16 (zlen (xor_attr tx a port)) ++ xor_attr tx a port ++ []).
Proof.
  intros Htx Ha Hz. destruct (address_bytes_ok a Ha Hz) as (_ & Hlen & _ & Hb & _).
  pose proof (xor_attr_length tx a port Htx Ha Hz) as Hattr.
  unfold Response, appendU16, message. simpl ap_addr. simpl ap_port. rewrite <- Hlen. fold (address_bytes a).
  rewrite !u16_small by lia. rewrite Hattr. unfold xor_attr, family, attrXorMappedAddress.
  replace (4 + (4 + zlen (address_bytes a))) with (8 + zlen (address_bytes a)) by lia.
  destruct a; [done|..]; simpl Is4; simpl Is6; cbv iota; by rewrite app_nil_r, <- !app_assoc, Hlen.
Qed.

(** ** Properties *)

(** C26. A server's response is understood by the client: for every transaction ID
    and every IPv4 or IPv6 address and port, [ParseResponse] of what [Response]
    builds gives them back, an IPv4-mapped IPv6 address as the IPv4 address it
    stands for. *)
Theorem response_roundtrip tx a port sp :
  length tx = 12%nat -> addr_ok a -> a <> AddrZero -> 0 <= port < 65536 ->
  ParseResponse (GSlice (Response tx (MkAddrPort a port)) sp) = Ok (tx, MkAddrPort (Unmap a) port).
Proof.
  intros Htx Ha Hz Hport. destruct (address_bytes_ok a Ha Hz) as (Hfrom & Hlen & Hmod & Hb & Hfam).
  pose proof (xor_attr_length tx a port Htx Ha Hz) as Hattr. rewrite Response_message by done.
  remember (be16 32 ++ be16 (zlen (xor_attr tx a port)) ++ xor_attr tx a port ++ []) as tail eqn:Etail.
  assert (Htail : zlen tail = 4 + zlen (xor_attr tx a port)) by (rewrite Etail, app_nil_r; zlen_lia).
  destruct (message_fields (z2b 1) (z2b 1) (4 + zlen (xor_attr tx a port)) tx tail sp Htx) as (_ & H0 & H1 & Hn & Htxs & Hrest);
    [lia|].
  unfold ParseResponse. cbn [vis]. unfold message at 1. rewrite Is_intro by (done || (unfold zlen; rewrite length_app, Htx; lia)).
  cbn [negb]. rewrite Htxs, bind_Ok, H0, bind_Ok, H1, bind_Ok. rewrite bool_decide_false by (intros [H|H]; by apply H).
  destruct (@sl_sub stun_error _ 2 4) as [h| |]; [|done|done].
  rewrite bind_Ok in Hn. rewrite bind_Ok, Hn, bind_Ok, Hrest, bind_Ok. unfold sl_len. cbn [vis].
  rewrite Htail, !bool_decide_false, bind_Ok by lia. unfold each_attr. cbn [vis].
  destruct (length tail) as [|[|k]] eqn:Hk; [unfold zlen in Htail; rewrite Hk in Htail; unfold zlen in *; lia..|].
  rewrite Etail, foreachAttr_cons by (rewrite ?Hattr; lia || mlia).
  unfold xor_attr at 1. rewrite (response_attr_xor tx (family a) (address_bytes a) a port) by done.
  rewrite bind_Ok. cbn [snd]. rewrite foreachAttr_nil, bind_Ok. unfold ap_IsValid. cbn [ap_addr].
  destruct (Unmap a) eqn:Hu; [|done|done].
  destruct a; [done|done|]. simpl in Hu. by case_bool_decide.
Qed.

(** The attributes of a request: the software and the fingerprint. *)
Definition request_tail (fp : Z) : bytes :=
  be16 attrNumSoftware ++ be16 8 ++ software ++ be16 attrNumFingerprint ++ be16 4 ++ be32 fp.
Definition request_body (tx : bytes) : bytes :=
  bindingRequest ++ be16 20 ++ magicCookie ++ tx ++ be16 attrNumSoftware ++ be16 8 ++ software.

Lemma request_attrs fp sp :
  0 <= fp < 4294967296 -> each_attr (GSlice (request_tail fp) sp) request_attr (false, 0, 0) = Ok (true, attrNumFingerprint, fp).
Proof.
  intros Hfp. unfold each_attr, request_tail. cbn [vis].
  change (be16 8 ++ software ++ be16 attrNumFingerprint ++ be16 4 ++ be32 fp) with
    (be16 (zlen software) ++ software ++ (be16 attrNumFingerprint ++ be16 4 ++ be32 fp)).
  rewrite (foreachAttr_cons _ attrNumSoftware software) by (done || (split; done)).
  assert (Hra : forall sp, request_attr attrNumSoftware (GSlice software sp) (false, 0, 0) =
    Ok (true, attrNumSoftware, 0)) by done.
  rewrite Hra, bind_Ok.
  transitivity (foreachAttr 20 (GSlice (be16 attrNumFingerprint ++ be16 (zlen (be32 fp)) ++ be32 fp ++ []) sp)
    request_attr (true, attrNumSoftware, 0)); [reflexivity|].
  rewrite foreachAttr_cons by (done || (split; done)).
  assert (Hrb : forall sp, request_attr attrNumFingerprint (GSlice (be32 fp) sp) (true, attrNumSoftware, 0) =
    Ok (true, attrNumFingerprint, fp)).
  { intros sp'. unfold request_attr. rewrite bool_decide_false by (intros []; done).
    rewrite bool_decide_true by done. rewrite <- (app_nil_r (be32 fp)).
    rewrite sl_be32_app, !bind_Ok, u32_small by done. done. }
  by rewrite Hrb.
Qed.

Lemma Request_message tx :
  Request tx = message (z2b 0) (z2b 1) 20 tx (request_tail (fingerPrint (request_body tx))) /\
  Request tx = request_body tx ++ be16 attrNumFingerprint ++ be16 4 ++ be32 (fingerPrint (request_body tx)).
Proof.
  unfold Request, appendU16, appendU32, message, request_tail, request_body.
  change (u16 (4 + zlen software + lenFingerprint)) with 20. change (u16 (zlen software)) with 8.
  by rewrite <- !app_assoc.
Qed.

(** A request is accepted by the server side: [ParseBindingRequest] of what
    [Request] builds returns the transaction ID, the software attribute and the
    fingerprint over everything before it being recognised. *)
Theorem request_roundtrip tx sp :
  length tx = 12%nat -> ParseBindingRequest (GSlice (Request tx) sp) = Ok tx.
Proof.
  intros Htx. destruct (Request_message tx) as [HR HB]. set (fp := fingerPrint (request_body tx)) in *.
  assert (Hpre : zlen (request_body tx) = 32) by (unfold request_body, zlen; rewrite !length_app, Htx; done).
  assert (H036 : @sl_sub stun_error (GSlice (Request tx) sp) 0 (sl_len (GSlice (Request tx) sp) - lenFingerprint) =
    Ok (GSlice (request_body tx) ((be16 attrNumFingerprint ++ be16 4 ++ be32 fp) ++ sp))).
  { unfold sl_len. cbn [vis]. rewrite HB, zlen_app, Hpre. apply sl_sub_0. by rewrite Hpre. }
  destruct (message_fields (z2b 0) (z2b 1) 20 tx (request_tail fp) sp Htx) as (H02 & _ & _ & _ & H820 & H20); [lia|].
  unfold ParseBindingRequest.
  assert (His : Is (vis (GSlice (Request tx) sp)) = true).
  { cbn [vis]. rewrite HR. apply Is_intro; [done|]. unfold zlen. rewrite length_app, Htx. lia. }
  rewrite His. cbn [negb]. rewrite H036, HR, H02, bind_Ok. cbn [vis]. rewrite bool_decide_false by (intros H; by apply H).
  rewrite H820, bind_Ok, H20, bind_Ok, request_attrs, bind_Ok by apply fingerPrint_range. cbn [negb vis].
  rewrite bool_decide_false by (intros H; by apply H). rewrite bind_Ok. cbn [vis].
  rewrite bool_decide_false; [done|]. intros H. by apply H.
Qed.

Lemma xorMappedAddress_total tx a : xorMappedAddress tx a <> Panic.
Proof.
  unfold xorMappedAddress. case_bool_decide; [done|].
  destruct (@sl_sub_in stun_error a 2 4) as (h & -> & L & _); [lia|lia|]. rewrite bind_Ok.
  destruct (@sl_be16_in stun_error h) as (p & -> & _); [lia|]. rewrite bind_Ok.
  destruct (@sl_from_in stun_error a 4) as (f & -> & Lf & _); [lia|]. rewrite bind_Ok.
  destruct (@sl_get_in stun_error a 1) as (fam & ->); [lia|]. rewrite bind_Ok.
  case_bool_decide; [done|]. case_bool_decide; [done|].
  assert (0 <= familyAddrLen fam) by (unfold familyAddrLen; repeat case_bool_decide; lia).
  destruct (@sl_sub_in stun_error f 0 (familyAddrLen fam)) as (x & -> & _); [lia|lia|]. done.
Qed.

Lemma mappedAddress_total a : mappedAddress a <> Panic.
Proof.
  unfold mappedAddress. case_bool_decide; [done|].
  destruct (@sl_get_in stun_error a 2) as (h & ->); [lia|]. rewrite bind_Ok.
  destruct (@sl_get_in stun_error a 3) as (p & ->); [lia|]. rewrite bind_Ok.
  destruct (@sl_from_in stun_error a 4) as (f & -> & Lf & _); [lia|]. rewrite bind_Ok.
  destruct (@sl_get_in stun_error a 1) as (fam & ->); [lia|]. rewrite bind_Ok.
  case_bool_decide; [done|]. case_bool_decide; [done|].
  assert (0 <= familyAddrLen fam) by (unfold familyAddrLen; repeat case_bool_decide; lia).
  destruct (@sl_sub_in stun_error f 0 (familyAddrLen fam)) as (x & -> & _); [lia|lia|]. done.
Qed.

Lemma response_attr_total tx t a st : response_attr tx t a st <> Panic.
Proof.
  destruct st. unfold response_attr. case_bool_decide.
  - pose proof (xorMappedAddress_total tx a). destruct (xorMappedAddress tx a); simpl; congruence.
  - case_bool_decide; [|done]. pose proof (mappedAddress_total a). destruct (mappedAddress a); simpl; congruence.
Qed.

Lemma request_attr_total t a st : request_attr t a st <> Panic.
Proof.
  destruct st as [[ok la] fp]. unfold request_attr.
  destruct (decide (t = attrNumFingerprint /\ sl_len a = 4)) as [Hc|Hc].
  - rewrite (bool_decide_true (t = attrNumFingerprint /\ _)) by done.
    destruct (@sl_be32_in stun_error a) as (x & ->); [lia|]. rewrite !bind_Ok. done.
  - rewrite (bool_decide_false (t = attrNumFingerprint /\ _)) by done. rewrite bind_Ok. done.
Qed.

(** Untrusted input is safe: for every packet and every slice it sits in, both
    parsers return, an answer or an error; no index leaves the packet and the
    loop over the attributes ends. *)
Theorem parsers_total b : ParseResponse b <> Panic /\ ParseBindingRequest b <> Panic.
Proof.
  assert (Hlen : Is (vis b) = true -> 20 <= sl_len b).
  { unfold Is. intros [[H%bool_decide_eq_true _]%andb_prop _]%andb_prop. unfold sl_len, headerLen in *. lia. }
  split.
  - unfold ParseResponse. destruct (Is (vis b)); [|done]. specialize (Hlen eq_refl). cbn [negb].
    destruct (@sl_sub_in stun_error b 8 20) as (t & -> & _); [lia|lia|]. rewrite bind_Ok.
    destruct (@sl_get_in stun_error b 0) as (b0 & ->); [lia|]. rewrite bind_Ok.
    destruct (@sl_get_in stun_error b 1) as (b1 & ->); [lia|]. rewrite bind_Ok. case_bool_decide; [done|].
    destruct (@sl_sub_in stun_error b 2 4) as (h & -> & L & _); [lia|lia|]. rewrite bind_Ok.
    destruct (@sl_be16_in stun_error h) as (n & -> & Hn); [lia|]. rewrite bind_Ok.
    destruct (@sl_from_in stun_error b headerLen) as (body & -> & _); [unfold headerLen; lia|]. rewrite bind_Ok.
    assert (Hbody : forall x : res stun_error gslice, x <> Panic ->
      (x ≫= fun b => each_attr b (response_attr (vis t)) (AddrPortZero, AddrPortZero) ≫= fun st =>
        let '(addr, fallbackAddr) := st in
        if ap_IsValid addr then Ok (vis t, addr)
        else if ap_IsValid fallbackAddr then Ok (vis t, fallbackAddr)
        else Err ErrMalformedAttrs) <> Panic).
    { intros [x| |] Hx; [|done|done]. rewrite bind_Ok. unfold each_attr.
      pose proof (foreachAttr_total (Datatypes.S (length (vis x))) x (response_attr (vis t))
        (AddrPortZero, AddrPortZero) (response_attr_total (vis t)) ltac:(unfold sl_len, zlen; lia)) as Hnp.
      destruct (foreachAttr _ _ _ _) as [[]| |]; [|done|done]. rewrite bind_Ok. by repeat case_match. }
    apply Hbody. case_bool_decide; [done|]. case_bool_decide; [|done].
    destruct (@sl_sub_in stun_error body 0 n) as (x & -> & _); [lia|lia|]. done.
  - unfold ParseBindingRequest. destruct (Is (vis b)); [|done]. specialize (Hlen eq_refl). cbn [negb].
    destruct (@sl_sub_in stun_error b 0 2) as (h & -> & _); [lia|lia|]. rewrite bind_Ok. case_bool_decide; [done|].
    destruct (@sl_sub_in stun_error b 8 20) as (t & -> & _); [lia|lia|]. rewrite bind_Ok.
    destruct (@sl_from_in stun_error b headerLen) as (body & -> & _); [unfold headerLen; lia|]. rewrite bind_Ok.
    unfold each_attr. pose proof (foreachAttr_total (Datatypes.S (length (vis body))) body request_attr
      (false, 0, 0) request_attr_total ltac:(unfold sl_len, zlen; lia)) as Hnp.
    destruct (foreachAttr _ _ _ _) as [[[ok la] gf]| |]; [|done|done]. rewrite bind_Ok.
    destruct ok; [|done]. cbn [negb]. case_bool_decide; [done|].
    destruct (@sl_sub_in stun_error b 0 (sl_len b - lenFingerprint)) as (x & -> & _);
      [unfold lenFingerprint; lia|unfold lenFingerprint; lia|]. rewrite bind_Ok. by case_bool_decide.
Qed.

(** ** Witnesses *)

Module Examples.
Definition ex_tx : TxID := bs "abcdefghijkl".
Definition ex_ip : Addr := Addr4 [z2b 192; z2b 0; z2b 2; z2b 7].

Lemma response_roundtrip_witness :
  ParseResponse (GSlice (Response ex_tx (MkAddrPort ex_ip 3478)) []) = Ok (ex_tx, MkAddrPort (Unmap ex_ip) 3478).
Proof. apply response_roundtrip; [reflexivity|reflexivity|discriminate|lia]. Defined.

Lemma request_roundtrip_witness : ParseBindingRequest (GSlice (Request ex_tx) []) = Ok ex_tx.
Proof. apply request_roundtrip. reflexivity. Defined.
End Examples.
