(* ===== verification/Disco.v ===== *)
(** * Peer discovery: identifiers, pings, NAT types, local addresses
    ([disco/disco.go], [disco/peer.go], [disco/local_addr.go], [disco/server.go])
    and the relay protocol ([disco/udp/relay.go])

    Relay packets are parsed in the read buffer of the socket, so they are
    slices with spare capacity; a read outside of one is a [Panic]. *)

From S2P Require Import Prelude Text Netip.

(** ** Peer identifiers *)

Abbreviation PeerID := (list Byte.byte) (only parsing).

(** [Len] truncates to a byte. *)
Definition Len (id : PeerID) : byte := z2b (zlen id).
Definition Bytes (id : PeerID) : bytes := id.

(** [Labels.Get]: the value of the first label with this key. *)
Fixpoint Labels_Get (ls : list bytes) (key : bytes) : bytes * bool :=
  match ls with
  | [] => ([], false)
  | l :: ls =>
      match Split (z2b 61) l with
      | [k; v] => if bool_decide (k = key) then (v, true) else Labels_Get ls key
      | k :: _ => if bool_decide (k = key) then ([], true) else Labels_Get ls key
      | [] => Labels_Get ls key
      end
  end.

(** ** Control codes *)

Definition CONTROL_RELAY : Z := 0.
Definition CONTROL_NEW_PEER : Z := 1.
Definition CONTROL_NEW_PEER_UDP_ADDR : Z := 2.
Definition CONTROL_LEAD_DISCO : Z := 3.
Definition CONTROL_UPDATE_NETWORK_SECRET : Z := 20.
Definition CONTROL_UPDATE_NAT_INFO : Z := 21.
Definition CONTROL_UPDATE_META : Z := 22.
Definition CONTROL_PEER_LEAVE : Z := 25.
Definition CONTROL_CONN : Z := 30.
Definition CONTROL_SERVER_CONNECTED : Z := 50.

Definition code_String (code : Z) : bytes :=
  if bool_decide (code = CONTROL_RELAY) then bs "RELAY"
  else if bool_decide (code = CONTROL_NEW_PEER) then bs "NEW_PEER"
  else if bool_decide (code = CONTROL_NEW_PEER_UDP_ADDR) then bs "NEW_PEER_UDP_ADDR"
  else if bool_decide (code = CONTROL_LEAD_DISCO) then bs "LEAD_DISCO"
  else if bool_decide (code = CONTROL_UPDATE_NETWORK_SECRET) then bs "UPDATE_NETWORK_SECRET"
  else if bool_decide (code = CONTROL_UPDATE_NAT_INFO) then bs "UPDATE_NAT_INFO"
  else if bool_decide (code = CONTROL_UPDATE_META) then bs "UPDATE_PEER"
  else if bool_decide (code = CONTROL_PEER_LEAVE) then bs "PEER_LEAVE"
  else if bool_decide (code = CONTROL_CONN) then bs "CONTROL_CONN"
  else if bool_decide (code = CONTROL_SERVER_CONNECTED) then bs "SERVER_CONNECTED"
  else bs "UNDEFINED".

(** ** NAT types *)

Abbreviation NATType := (list Byte.byte) (only parsing).
Definition Unknown : NATType := bs "".
Definition Hard : NATType := bs "hard".
Definition Easy : NATType := bs "easy".
Definition UPnP : NATType := bs "upnp".
Definition IP4 : NATType := bs "ip4".
Definition IP6 : NATType := bs "ip6".
Definition IP46 : NATType := bs "ip4+ip6".
Definition EasyIP6 : NATType := bs "easy+ip6".
Definition Internal : NATType := bs "internal".

Definition AccurateThan (t t1 : NATType) : bool :=
  if bool_decide (t = Unknown) then false
  else if bool_decide (t = t1) then false
  else if bool_decide (t = Easy /\ t1 <> Unknown) then false
  else if bool_decide (t = Hard /\ t1 ∉ [Unknown; Easy]) then false
  else true.
Definition nat_Easy (t : NATType) : bool := bool_decide (t = Easy \/ t = EasyIP6).
Definition nat_IP4 (t : NATType) : bool := bool_decide (t = IP4 \/ t = IP46).
Definition nat_String (t : NATType) : bytes := if bool_decide (t = []) then bs "unknown" else t.

Definition UDPAddrContains (addrs : list UDPAddr) (tgt : UDPAddr) : bool :=
  existsb (fun addr => addr_same addr tgt) addrs.

Record NATInfo := MkNATInfo { nat_Type : NATType; nat_Addrs : list UDPAddr }.

Definition MergeAddrs (addrs : list UDPAddr) (i : NATInfo) : NATInfo :=
  MkNATInfo (nat_Type i)
    (nat_Addrs i ++ filter (fun a => UDPAddrContains (nat_Addrs i) a = false) addrs).

(** ** Pings *)

(** [Magic] is nil or a function whose result is given. *)
Definition magic (Magic : option bytes) : bytes :=
  match Magic with
  | Some m => if bool_decide (m = []) then bs "_ping" else m
  | None => bs "_ping"
  end.

Definition NewPing (Magic : option bytes) (peerID : PeerID) : bytes := magic Magic ++ Bytes peerID.

Definition ParsePing (Magic : option bytes) (b : bytes) : PeerID :=
  let m := magic Magic in
  if bool_decide (zlen b <= zlen m \/ zlen b > 255 + zlen m) then []
  else if bool_decide (m = take (length m) b) then drop (length m) b
  else [].

(** ** The relay protocol *)

Definition MAGIC_TO_RELAY : bytes := bs "_pg" ++ [z2b 1].
Definition MAGIC_FROM_RELAY : bytes := bs "_pg" ++ [z2b 3].

Definition toRelay (p : bytes) (dst : PeerID) : bytes :=
  let pkt := MAGIC_TO_RELAY in
  let pkt := pkt ++ [Len dst] in
  let pkt := pkt ++ Bytes dst in
  pkt ++ p.

Definition toDst (p : bytes) (src : PeerID) : bytes :=
  let pkt := MAGIC_FROM_RELAY in
  let pkt := pkt ++ [Len src] in
  let pkt := pkt ++ Bytes src in
  pkt ++ p.

(** [5+p[4]] is a sum of bytes. *)
Definition tryToDst (p : gslice) (src : PeerID) : res Empty_set (option (bytes * PeerID)) :=
  h ← sl_sub p 0 4;
  if bool_decide (MAGIC_TO_RELAY <> vis h) then Ok None
  else
    n ← sl_get p 4;
    body ← sl_from p (u8 (5 + b2z n));
    dst ← sl_sub p 5 (u8 (5 + b2z n));
    Ok (Some (toDst (vis body) src, vis dst)).

Definition tryRecv (p : gslice) : res Empty_set (option (bytes * PeerID)) :=
  h ← sl_sub p 0 4;
  if bool_decide (MAGIC_FROM_RELAY <> vis h) then Ok None
  else
    n ← sl_get p 4;
    body ← sl_from p (u8 (5 + b2z n));
    src ← sl_sub p 5 (u8 (5 + b2z n));
    Ok (Some (vis body, vis src)).

(** ** Local addresses *)

Record ignore_state := Ignore {
  ignoredLocalCIDRs : list IPNet;
  ignoredLocalInterfaceNamePrefixs : list bytes;
  localIPs : list bytes
}.

Definition cidrs_Contains (cs : list IPNet) (ip : IP) : bool := existsb (fun c => Contains c ip) cs.
Definition prefixs_HasPrefix (inp : list bytes) (interfaceName : bytes) : bool :=
  existsb (fun p => HasPrefix interfaceName p) inp.

Definition AddIgnoredLocalCIDRs (cidrs : list bytes) (s : ignore_state) : ignore_state :=
  fold_left (fun s cidr =>
    match ParseCIDR cidr with
    | None => s
    | Some (_, n) =>
        if IsUnspecified (net_IP n) then s
        else Ignore (ignoredLocalCIDRs s ++ [n]) (ignoredLocalInterfaceNamePrefixs s) (localIPs s)
    end) cidrs s.

Definition SetIgnoredLocalCIDRs (cidrs : list bytes) (s : ignore_state) : ignore_state :=
  AddIgnoredLocalCIDRs cidrs (Ignore [] (ignoredLocalInterfaceNamePrefixs s) (localIPs s)).

Definition RemoveIgnoredLocalCIDRs (cidrs : list bytes) (s : ignore_state) : ignore_state :=
  Ignore (filter (fun n => net_String n ∉ cidrs) (ignoredLocalCIDRs s))
    (ignoredLocalInterfaceNamePrefixs s) (localIPs s).

Definition IsIgnoredLocalIP (ip : IP) (s : ignore_state) : bool :=
  cidrs_Contains (ignoredLocalCIDRs s) ip.
Definition GetIgnoredLocalCIDRs (s : ignore_state) : list IPNet := ignoredLocalCIDRs s.
Definition SetIgnoredLocalInterfaceNamePrefixs (prefixs : list bytes) (s : ignore_state) : ignore_state :=
  Ignore (ignoredLocalCIDRs s) prefixs (localIPs s).
Definition SetLocalIPs (ips : list bytes) (s : ignore_state) : ignore_state :=
  Ignore (ignoredLocalCIDRs s) (ignoredLocalInterfaceNamePrefixs s) ips.
Definition GetIgnoredLocalInterfaceNamePrefixs (s : ignore_state) : list bytes :=
  ignoredLocalInterfaceNamePrefixs s.

(** A network interface as the operating system reports it; [if_addrs] is [None]
    when its addresses cannot be read and lists only [*net.IPNet] addresses. *)
Record iface := Iface { if_running : bool; if_name : bytes; if_addrs : option (list IPNet) }.

Definition usable_ip (s : ignore_state) (ip : IP) : bool :=
  negb (IsLoopback ip) && negb (IsLinkLocalUnicast ip) && negb (cidrs_Contains (ignoredLocalCIDRs s) ip).

Definition iface_ips (s : ignore_state) (i : iface) : list bytes :=
  if negb (if_running i) then []
  else if prefixs_HasPrefix (ignoredLocalInterfaceNamePrefixs s) (if_name i) then []
  else match if_addrs i with
       | None => []
       | Some addrs => filter (fun ip => usable_ip s ip = true) (net_IP <$> addrs)
       end.

(** [ListLocalIPs]; [ifaces] is [None] when they cannot be listed. *)
Definition ListLocalIPs (ifaces : option (list iface)) (s : ignore_state) : option (list bytes) :=
  if bool_decide (zlen (localIPs s) > 0) then Some (localIPs s)
  else ifaces ← ifaces; Some (concat (iface_ips s <$> ifaces)).

Definition carrierGradeNAT : option IPNet := snd <$> ParseCIDR (bs "100.64.0.0/10").

Definition IsCGN (ip : IP) : bool :=
  match To4 ip with
  | None => false
  | Some ip4 => match carrierGradeNAT with Some n => Contains n ip4 | None => false end
  end.

(** ** Servers and secrets *)

(** [NewServer]: the scheme decides; [scheme] is [None] when the URL is invalid. *)
Inductive server_error := ErrNoStore | ErrBadURL | ErrProtocol.
Definition NewServer (has_store : bool) (scheme : option bytes) : option server_error :=
  if negb has_store then Some ErrNoStore
  else match scheme with
       | None => Some ErrBadURL
       | Some sc => if bool_decide (sc ∈ [bs "https"; bs "wss"; bs "http"; bs "ws"]) then None
                    else Some ErrProtocol
       end.

Record NetworkSecret := MkNetworkSecret { Secret : bytes; Network : bytes; Expire : Z }.
Definition Expired (now : Z) (s : NetworkSecret) : bool := bool_decide (Expire s - now <= 0).
Definition UpdateNetworkSecret (secret s : NetworkSecret) : NetworkSecret :=
  MkNetworkSecret (Secret secret) (Network secret) (Expire secret).

(** ** Lemmas *)

Lemma relay_header magic id p sp :
  length magic = 4%nat -> zlen id <= 250 ->
  let pkt := GSlice (magic ++ [Len id] ++ id ++ p) sp in
  @sl_sub Empty_set pkt 0 4 = Ok (GSlice magic (([Len id] ++ id ++ p) ++ sp)) /\
  @sl_get Empty_set pkt 4 = Ok (Len id) /\ u8 (5 + b2z (Len id)) = 5 + zlen id /\
  @sl_from Empty_set pkt (5 + zlen id) = Ok (GSlice p sp) /\
  @sl_sub Empty_set pkt 5 (5 + zlen id) = Ok (GSlice id (p ++ sp)).
Proof.
  intros Hm Hid pkt. pose proof (zlen_nonneg id).
  assert (Hz : zlen magic = 4) by (unfold zlen; by rewrite Hm).
  split_and!.
  - apply sl_sub_0. by rewrite Hz.
  - apply (sl_get_app magic). by rewrite Hz.
  - unfold Len. rewrite b2z_z2b_small, u8_small by lia. done.
  - unfold pkt. rewrite (app_assoc [Len id]), (app_assoc magic). apply sl_from_app. zlen_lia.
  - unfold pkt. rewrite (app_assoc magic). apply sl_sub_app; zlen_lia.
Qed.

Lemma tryToDst_toRelay p dst src sp :
  zlen dst <= 250 -> tryToDst (GSlice (toRelay p dst) sp) src = Ok (Some (toDst p src, dst)).
Proof.
  intros Hid. unfold toRelay, Bytes. rewrite <- !app_assoc.
  destruct (relay_header MAGIC_TO_RELAY dst p sp eq_refl Hid) as (H1 & H2 & H3 & H4 & H5).
  unfold tryToDst. rewrite H1, bind_Ok. cbn [vis]. rewrite bool_decide_false by (intros H; by apply H).
  by rewrite H2, bind_Ok, H3, H4, bind_Ok, H5, bind_Ok.
Qed.

Lemma tryRecv_toDst p src sp :
  zlen src <= 250 -> tryRecv (GSlice (toDst p src) sp) = Ok (Some (p, src)).
Proof.
  intros Hid. unfold toDst, Bytes. rewrite <- !app_assoc.
  destruct (relay_header MAGIC_FROM_RELAY src p sp eq_refl Hid) as (H1 & H2 & H3 & H4 & H5).
  unfold tryRecv. rewrite H1, bind_Ok. cbn [vis]. rewrite bool_decide_false by (intros H; by apply H).
  by rewrite H2, bind_Ok, H3, H4, bind_Ok, H5, bind_Ok.
Qed.

(** ** Properties *)

(** Relaying is transparent: what a peer sends through a relay is forwarded by
    the relay to the named destination, where it is received as the original
    payload from the original sender, whatever the payload, for identifiers of
    up to 250 bytes. *)
Theorem relay_roundtrip p src dst sp sp' :
  zlen src <= 250 -> zlen dst <= 250 ->
  exists fwd, tryToDst (GSlice (toRelay p dst) sp) src = Ok (Some (fwd, dst)) /\
    tryRecv (GSlice fwd sp') = Ok (Some (p, src)).
Proof.
  intros Hs Hd. exists (toDst p src). split; [by apply tryToDst_toRelay|by apply tryRecv_toDst].
Qed.

(** What a relay packet can do to its receiver: a packet of four bytes or more
    that starts with the relay magic panics the read loop exactly when its
    length byte is missing, is 251 or more (the sum of bytes wraps), or points
    beyond the packet. *)
Theorem tryToDst_panic_iff magic body sp src :
  magic = MAGIC_TO_RELAY ->
  tryToDst (GSlice (magic ++ body) sp) src = Panic <->
  match body with
  | [] => True
  | n :: rest => 251 <= b2z n \/ zlen rest < b2z n
  end.
Proof.
  intros ->. unfold tryToDst. rewrite (sl_sub_0 MAGIC_TO_RELAY) by done. rewrite bind_Ok. cbn [vis].
  rewrite bool_decide_false by (intros H; by apply H).
  destruct body as [|n rest].
  { rewrite sl_get_oob; [done|]. unfold sl_len. cbn [vis]. rewrite app_nil_r. done. }
  rewrite (sl_get_app MAGIC_TO_RELAY) by done. rewrite bind_Ok. pose proof (b2z_range n) as Hn.
  set (s := GSlice (MAGIC_TO_RELAY ++ n :: rest) sp).
  assert (Hl : sl_len s = 5 + zlen rest).
  { unfold s, sl_len. cbn [vis]. rewrite zlen_app, zlen_cons. change (zlen MAGIC_TO_RELAY) with 4. lia. }
  pose proof (zlen_nonneg rest). pose proof (zlen_nonneg sp).
  destruct (decide (251 <= b2z n)) as [Hbig|Hsmall].
  - assert (Hu : u8 (5 + b2z n) = b2z n - 251) by (unfold u8; mlia). rewrite Hu.
    split; [by left|intros _]. destruct (sl_from s _) as [f|[]|]; [|done].
    by rewrite bind_Ok, sl_sub_oob by lia.
  - assert (Hu : u8 (5 + b2z n) = 5 + b2z n) by (apply u8_small; lia). rewrite Hu.
    destruct (decide (zlen rest < b2z n)) as [Hlt|Hge].
    + split; [by right|intros _]. by rewrite sl_from_oob by lia.
    + split; [|lia]. intros Hp. exfalso.
      assert (Hsplit : exists id p, rest = id ++ p /\ zlen id = b2z n).
      { exists (take (Z.to_nat (b2z n)) rest), (drop (Z.to_nat (b2z n)) rest).
        rewrite take_drop. split; [done|]. unfold zlen in *. rewrite length_take. lia. }
      destruct Hsplit as (id & p & -> & Hid).
      assert (Hn' : n = Len id) by (apply b2z_inj; unfold Len; rewrite b2z_z2b_small; lia).
      destruct (relay_header MAGIC_TO_RELAY id p sp eq_refl ltac:(lia)) as (_ & _ & _ & H4 & H5).
      change ([Len id] ++ id ++ p) with (Len id :: id ++ p) in H4, H5. unfold s in Hp. rewrite <- Hid in Hp. rewrite Hn' in Hp.
      rewrite H4, bind_Ok, H5, bind_Ok in Hp. done.
Qed.

(** Pings: [ParsePing] recognises exactly the pings [NewPing] makes for
    identifiers of 1 to 255 bytes and answers the empty identifier to everything
    else. *)
Theorem ParsePing_exact Magic b id :
  id <> [] ->
  ParsePing Magic b = id <-> b = NewPing Magic id /\ zlen id <= 255.
Proof.
  intros Hne. unfold ParsePing, NewPing, Bytes. set (m := magic Magic).
  assert (Hpos : 0 < zlen id) by (unfold zlen; destruct id; [done|simpl; lia]).
  split.
  - case_bool_decide as Hlen; [done|]. case_bool_decide as Hm; [|done]. intros <-.
    split; [rewrite <- (take_drop (length m) b) at 1; by rewrite <- Hm|]. unfold zlen in *. rewrite length_drop. lia.
  - intros [-> Hl]. rewrite zlen_app. rewrite bool_decide_false by lia.
    rewrite take_app_length, bool_decide_true, drop_app_length by done. done.
Qed.

(** ** Witnesses *)

Module Examples.
Lemma relay_roundtrip_witness :
  exists fwd, tryToDst (GSlice (toRelay (bs "hello") (bs "bob")) []) (bs "alice") = Ok (Some (fwd, bs "bob")) /\
    tryRecv (GSlice fwd []) = Ok (Some (bs "hello", bs "alice")).
Proof. apply relay_roundtrip; vm_compute; discriminate. Defined.

Lemma tryToDst_panic_iff_witness :
  tryToDst (GSlice (MAGIC_TO_RELAY ++ [z2b 251]) []) (bs "a") = Panic <->
  251 <= b2z (z2b 251) \/ zlen (@nil byte) < b2z (z2b 251).
Proof. exact (tryToDst_panic_iff MAGIC_TO_RELAY [z2b 251] [] (bs "a") eq_refl). Defined.

Lemma ParsePing_exact_witness :
  ParsePing None (bs "_pingbob") = bs "bob" <-> bs "_pingbob" = NewPing None (bs "bob") /\ zlen (bs "bob") <= 255.
Proof. apply ParsePing_exact. discriminate. Defined.
End Examples.
