(* ===== verification/DiscoUdp.v ===== *)
(** * The UDP side of peer discovery ([disco/udp])

    [Module Keeper] is a [peerkeeper]: the addresses a peer was heard from and
    when.  The second part is the [UDPConn] that owns the keepers, dispatches
    received packets and classifies the NAT.  Times are nanoseconds; the calls
    to [time.Now] of one operation read the same [now].  A map that is ranged
    over is visited in the order of [map_to_list], standing for any order.
    Sockets are numbers; [sent] records what is written to them. *)

From S2P Require Import Prelude Text Netip CacheTTL Stun Disco.

Definition millisecond : Z := 1000000.

(** ** Peer keepers *)

Record PeerState := MkPeerState { ps_PeerID : bytes; ps_Addr : UDPAddr; LastActiveTime : Z }.

Record peerkeeper := Keeper {
  k_udpConn : nat;
  k_peerID : bytes;
  states : gmap bytes PeerState;
  createTime : Z;
  exited : bool;
  keepaliveInterval : Z;
  cacheReady : CacheValue bool
}.

Definition set_states (x : gmap bytes PeerState) (k : peerkeeper) : peerkeeper :=
  Keeper (k_udpConn k) (k_peerID k) x (createTime k) (exited k) (keepaliveInterval k) (cacheReady k).
Definition set_k_udpConn (x : nat) (k : peerkeeper) : peerkeeper :=
  Keeper x (k_peerID k) (states k) (createTime k) (exited k) (keepaliveInterval k) (cacheReady k).
Definition set_cacheReady (x : CacheValue bool) (k : peerkeeper) : peerkeeper :=
  Keeper (k_udpConn k) (k_peerID k) (states k) (createTime k) (exited k) (keepaliveInterval k) x.

(** The values of the map in the order they are visited. *)
Definition state_list (k : peerkeeper) : list PeerState := snd <$> map_to_list (states k).

(** [heartbeat]: refreshes the state of the address or adds one, in which case a
    ping goes out ([true]).  [locked] is whether [TryLock] succeeds. *)
Definition heartbeat (locked : bool) (now : Z) (addr : UDPAddr) (k : peerkeeper) : bool * peerkeeper :=
  if negb locked then (false, k)
  else match List.find (fun p => addr_same (ps_Addr p.2) addr) (map_to_list (states k)) with
       | Some (key, st) =>
           (false, set_states (<[key := MkPeerState (ps_PeerID st) (ps_Addr st) now]> (states k)) k)
       | None =>
           (true, set_states (<[addr_String addr := MkPeerState (k_peerID k) addr now]> (states k)) k)
       end.

Definition stale (now : Z) (k : peerkeeper) (st : PeerState) : bool :=
  bool_decide (now - LastActiveTime st > 2 * keepaliveInterval k + second).

Definition healthcheck (now : Z) (k : peerkeeper) : peerkeeper :=
  if bool_decide (now - createTime k > 3 * keepaliveInterval k)
  then set_states (filter (fun p => stale now k p.2 = false) (states k)) k
  else k.

Definition doRealCheck (now : Z) (k : peerkeeper) : bool :=
  existsb (fun st => bool_decide (now - LastActiveTime st <= keepaliveInterval k + 2 * second)) (state_list k).

(** [ready]: exact for 20 s, then cached for a keepalive interval. *)
Definition ready (now : Z) (k : peerkeeper) : res Empty_set bool * peerkeeper :=
  if bool_decide (now - createTime k < 20 * second) then (Ok (doRealCheck now k), k)
  else
    let '(r, v) := value_LoadTTL now now (keepaliveInterval k) (doRealCheck now k) (cacheReady k) in
    (r, set_cacheReady v k).

(** The state a sort by descending activity puts first. *)
Definition most_recent (l : list PeerState) : option PeerState :=
  fold_left (fun best st =>
    match best with
    | None => Some st
    | Some b => if bool_decide (LastActiveTime st > LastActiveTime b) then Some st else best
    end) l None.

Definition candidate (now : Z) (k : peerkeeper) (st : PeerState) : bool :=
  bool_decide (now - LastActiveTime st < 2 * (keepaliveInterval k + second)).

Definition selectPeerUDP (now : Z) (k : peerkeeper) : option PeerState :=
  most_recent (filter (fun st => candidate now k st = true) (state_list k)).

Inductive udp_error := ErrUDPConnInactive | ErrClosed | ErrListen | ErrIDRequired | ErrUDPConnNotReady | ErrSocket.

(** [writeUDP]: what the socket is given to write where, and the outcome; [socket]
    is what the socket answers.  The guard tests the payload, not the state that was
    selected, and the answer for an inactive state is not looked at. *)
Definition writeUDP_to (socket : UDPAddr -> bytes -> res udp_error Z) (now : Z) (p : option bytes) (k : peerkeeper) :
    res udp_error Z * option (UDPAddr * bytes) :=
  let peerState := selectPeerUDP now k in
  match p with
  | None => (Err ErrClosed, None)
  | Some p =>
      match peerState with
      | None => (Panic, None)
      | Some st =>
          (if bool_decide (now - LastActiveTime st > keepaliveInterval k + second)
           then Err ErrUDPConnInactive else socket (ps_Addr st) p, Some (ps_Addr st, p))
      end
  end.

(** With a socket that takes everything, as in what follows: the network may lose it
    then. *)
Definition writeUDP (now : Z) (p : option bytes) (k : peerkeeper) : res udp_error Z * option (UDPAddr * bytes) :=
  writeUDP_to (fun _ p => Ok (zlen p)) now p k.

(** One tick of [run]: a ping to every address. *)
Definition keepalive (k : peerkeeper) : list UDPAddr := ps_Addr <$> state_list k.

(** [close]: closes the exit channel, which must be open. *)
Definition k_close (k : peerkeeper) : res Empty_set peerkeeper :=
  if exited k then Panic
  else Ok (Keeper (k_udpConn k) (k_peerID k) (states k) (createTime k) true (keepaliveInterval k) (cacheReady k)).

(** ** The connection *)

Record UDPConfig := MkUDPConfig {
  Port : Z; DisableIPv4 : bool; DisableIPv6 : bool; ID : bytes;
  PeerKeepaliveInterval : Z; DiscoMagic : option bytes
}.

Record UDPConn := MkUDPConn {
  udpConns : option (list nat);
  cfg : UDPConfig;
  datagrams : list (bytes * bytes);
  natEvents : list NATInfo;
  endpoints : list (bytes * UDPAddr * bytes);
  relay_errors : list bytes;
  natInfo : option NATInfo;
  peersIndex : gmap bytes peerkeeper;
  sent : list (nat * UDPAddr * bytes);
  stunResponses : list bytes
}.

Definition set_peersIndex (x : gmap bytes peerkeeper) (c : UDPConn) : UDPConn :=
  MkUDPConn (udpConns c) (cfg c) (datagrams c) (natEvents c) (endpoints c) (relay_errors c) (natInfo c)
    x (sent c) (stunResponses c).
Definition add_sent (x : list (nat * UDPAddr * bytes)) (c : UDPConn) : UDPConn :=
  MkUDPConn (udpConns c) (cfg c) (datagrams c) (natEvents c) (endpoints c) (relay_errors c) (natInfo c)
    (peersIndex c) (sent c ++ x) (stunResponses c).
Definition add_datagram (x : bytes * bytes) (c : UDPConn) : UDPConn :=
  MkUDPConn (udpConns c) (cfg c) (datagrams c ++ [x]) (natEvents c) (endpoints c) (relay_errors c)
    (natInfo c) (peersIndex c) (sent c) (stunResponses c).
Definition add_relay_error (x : bytes) (c : UDPConn) : UDPConn :=
  MkUDPConn (udpConns c) (cfg c) (datagrams c) (natEvents c) (endpoints c) (relay_errors c ++ [x])
    (natInfo c) (peersIndex c) (sent c) (stunResponses c).
Definition add_stun (x : bytes) (c : UDPConn) : UDPConn :=
  MkUDPConn (udpConns c) (cfg c) (datagrams c) (natEvents c) (endpoints c) (relay_errors c)
    (natInfo c) (peersIndex c) (sent c) (stunResponses c ++ [x]).
Definition set_udpConns (x : option (list nat)) (c : UDPConn) : UDPConn :=
  MkUDPConn x (cfg c) (datagrams c) (natEvents c) (endpoints c) (relay_errors c) (natInfo c)
    (peersIndex c) (sent c) (stunResponses c).
Definition set_natInfo (x : option NATInfo) (c : UDPConn) : UDPConn :=
  MkUDPConn (udpConns c) (cfg c) (datagrams c) (natEvents c) (endpoints c) (relay_errors c) x
    (peersIndex c) (sent c) (stunResponses c).
(** The buffered [natEvents] takes three; a send that would block is dropped. *)
Definition push_natEvent (x : NATInfo) (c : UDPConn) : UDPConn :=
  MkUDPConn (udpConns c) (cfg c) (datagrams c)
    (if bool_decide (length (natEvents c) < 3)%nat then natEvents c ++ [x] else natEvents c)
    (endpoints c) (relay_errors c) (natInfo c) (peersIndex c) (sent c) (stunResponses c).
Definition push_endpoints (x : list (bytes * UDPAddr * bytes)) (c : UDPConn) : UDPConn :=
  MkUDPConn (udpConns c) (cfg c) (datagrams c) (natEvents c) (endpoints c ++ x) (relay_errors c)
    (natInfo c) (peersIndex c) (sent c) (stunResponses c).

Definition ping_packet (c : UDPConn) : bytes := NewPing (DiscoMagic (cfg c)) (ID (cfg c)).

(** [tryGetPeerkeeper]: [locked] is whether [TryRLock] succeeds; the keeper ends up
    in the index under its identifier. *)
Definition tryGetPeerkeeper (locked : bool) (now : Z) (udpConn : nat) (peerID : bytes) (c : UDPConn) :
    option peerkeeper * UDPConn :=
  if negb locked then (None, c)
  else match peersIndex c !! peerID with
       | Some k =>
           let k := set_k_udpConn udpConn k in
           (Some k, set_peersIndex (<[peerID := k]> (peersIndex c)) c)
       | None =>
           let k := Keeper udpConn peerID ∅ now false (PeerKeepaliveInterval (cfg c)) empty_value in
           (Some k, set_peersIndex (<[peerID := k]> (peersIndex c)) c)
       end.

(** A heartbeat of [peerID] from [addr] on a socket, as [udpRead] does it. *)
Definition beat (locked locked' : bool) (now : Z) (udpConn : nat) (peerID : bytes) (addr : UDPAddr)
    (c : UDPConn) : UDPConn :=
  match tryGetPeerkeeper locked now udpConn peerID c with
  | (None, c) => c
  | (Some k, c) =>
      let '(ping, k) := heartbeat locked' now addr k in
      let c := set_peersIndex (<[peerID := k]> (peersIndex c)) c in
      if ping then add_sent [(k_udpConn k, addr, ping_packet c)] c else c
  end.

(** [findPeer] *)
Definition findPeer (now : Z) (peerID : bytes) (c : UDPConn) : res Empty_set (option peerkeeper) * UDPConn :=
  match peersIndex c !! peerID with
  | None => (Ok None, c)
  | Some k =>
      let '(r, k) := ready now k in
      let c := set_peersIndex (<[peerID := k]> (peersIndex c)) c in
      (ok ← r; Ok (if ok : bool then Some k else None), c)
  end.

Definition WriteTo (now : Z) (p : option bytes) (peerID : bytes) (c : UDPConn) : res udp_error Z * UDPConn :=
  match findPeer now peerID c with
  | (Ok (Some k), c) =>
      let '(r, out) := writeUDP now p k in
      (r, match out with Some (addr, b) => add_sent [(k_udpConn k, addr, b)] c | None => c end)
  | (Ok None, c) => (Err ErrClosed, c)
  | (_, c) => (Panic, c)
  end.

Definition RelayTo (now : Z) (relay : bytes) (p : bytes) (peerID : bytes) (c : UDPConn) :
    res udp_error Z * UDPConn := WriteTo now (Some (toRelay p peerID)) relay c.

(** The search of [findPeerID] ([doFind]): the first state of each peer with that
    address, if it is fresh, then the most recent.  What it gives is kept for a
    millisecond: that is [findPeerID_kept] of [P2p.v], where the cache is. *)
Definition peer_candidate (now : Z) (c : UDPConn) (addr : UDPAddr) (k : peerkeeper) : option PeerState :=
  match List.find (fun st => addr_same (ps_Addr st) addr) (state_list k) with
  | Some st => if bool_decide (now - LastActiveTime st > 2 * PeerKeepaliveInterval (cfg c)) then None
               else Some st
  | None => None
  end.

Definition findPeerID (now : Z) (addr : UDPAddr) (c : UDPConn) : bytes :=
  match most_recent (omap (fun p => peer_candidate now c addr p.2) (map_to_list (peersIndex c))) with
  | Some st => ps_PeerID st
  | None => []
  end.

(** One packet in [udpRead].  [ignored] is the ignore list of local addresses and
    [locks] the outcomes of the two [Try] locks; [findPeerID] is computed anew,
    the millisecond its result is cached for being left out.  The copy [tryRecv]
    makes of an empty payload is nil, which counts as no relay packet. *)
Definition udpRead (ignored : IP -> bool) (locks : bool * bool) (now : Z) (udpConn : nat)
    (peerAddr : UDPAddr) (buf : gslice) (c : UDPConn) : res Empty_set unit * UDPConn :=
  let pid := ParsePing (DiscoMagic (cfg c)) (vis buf) in
  if bool_decide (b2z (Len pid) > 0) then
    if ignored (addr_IP peerAddr) then (Ok tt, c)
    else (Ok tt, beat locks.1 locks.2 now udpConn pid peerAddr c)
  else if Is (vis buf) then (Ok tt, add_stun (vis buf) c)
  else
    let peerID := findPeerID now peerAddr c in
    if bool_decide (b2z (Len peerID) = 0) then (Ok tt, c)
    else
      let c := beat locks.1 locks.2 now udpConn peerID peerAddr c in
      match tryToDst buf peerID with
      | Ok (Some (pkt, dst)) =>
          match WriteTo now (Some pkt) dst c with
          | (Ok _, c) => (Ok tt, c)
          | (Err _, c) => (Ok tt, add_relay_error dst c)
          | (Panic, c) => (Panic, c)
          end
      | Ok None =>
          match tryRecv buf with
          | Ok (Some ((_ :: _) as pkt, src)) => (Ok tt, add_datagram (src, pkt) c)
          | Ok _ => (Ok tt, add_datagram (peerID, vis buf) c)
          | _ => (Panic, c)
          end
      | _ => (Panic, c)
      end.

(** One round of [runPeersHealthcheckLoop]. *)
Definition healthcheck_round (now : Z) (c : UDPConn) : UDPConn :=
  set_peersIndex (omap (fun k =>
    let k := healthcheck now k in
    if bool_decide (states k = ∅) then None else Some k) (peersIndex c)) c.

(** [Peers]: all states of all peers, in descending order of the text of identifier
    and address. *)
Definition peer_text (st : PeerState) : bytes := ps_PeerID st ++ addr_String (ps_Addr st).
Definition text_after (a b : PeerState) : Prop := str_Compare (peer_text a) (peer_text b) >= 0.
#[export] Instance text_after_dec a b : Decision (text_after a b).
Proof. unfold text_after. apply _. Defined.
Definition Peers (c : UDPConn) : list PeerState :=
  merge_sort text_after (concat ((fun p => state_list p.2) <$> map_to_list (peersIndex c))).

(** *** Sockets *)

(** [RestartListener]: [listen port] is a new socket on [port], [None] when that fails. *)
Definition RestartListener (listen : Z -> option nat) (c : UDPConn) : res udp_error unit * UDPConn :=
  let c := set_udpConns (match udpConns c with Some _ => Some [] | None => None end) c in
  match listen (Port (cfg c)) with
  | None => (Err ErrListen, c)
  | Some s =>
      let hard := match natInfo c with Some i => bool_decide (nat_Type i = Hard) | None => false end in
      let more := if hard then omap (fun i : nat => listen (Port (cfg c) + 1 + Z.of_nat i)) (seq 0 255) else [] in
      (Ok tt, set_udpConns (Some (s :: more)) c)
  end.

Definition mainUDP (c : UDPConn) : res udp_error nat :=
  match udpConns c with
  | None => Err ErrUDPConnNotReady
  | Some [] => Panic
  | Some (s :: _) => Ok s
  end.

(** *** NAT detection *)

(** The classification of the addresses the STUN servers answered with. *)
Definition classify (udpAddrs : list UDPAddr) : NATInfo :=
  match udpAddrs with
  | [] | [_] => MkNATInfo Unknown udpAddrs
  | first :: _ =>
      if existsb (fun a => bool_decide (addr_String a <> addr_String first)) udpAddrs
      then MkNATInfo Hard udpAddrs else MkNATInfo Easy udpAddrs
  end.

(** [pubIP4] and [pubIP6] of the local addresses. *)
Definition public (ip : IP) : bool := IsGlobalUnicast ip && negb (IsPrivate ip) && negb (IsCGN ip).
Definition is_v4 (ip : IP) : bool := match To4 ip with Some _ => true | None => false end.
Definition pubIP6 (la : list UDPAddr) : list UDPAddr :=
  filter (fun a => negb (is_v4 (addr_IP a)) && public (addr_IP a) = true) la.
Definition pubIP4 (la : list UDPAddr) : list UDPAddr :=
  filter (fun a => is_v4 (addr_IP a) && public (addr_IP a) = true) la.

(** [localAddrs]: the enabled local addresses, once each; [ips] is [None] when they
    cannot be listed. *)
Definition localAddrs (ips : option (list bytes)) (c : UDPConn) : list UDPAddr :=
  fold_left (fun acc ip =>
    let off := if is_v4 ip then DisableIPv4 (cfg c) else DisableIPv6 (cfg c) in
    let addr := MkUDPAddr ip (Port (cfg c)) in
    if (off : bool) then acc
    else if bool_decide (addr_String addr ∈ (addr_String <$> acc)) then acc
    else acc ++ [addr]) (default [] ips) [].

(** [DetectNAT]: the information the STUN round trips give, improved by what the
    local addresses show, is stored and announced; when it turns hard or stops
    being hard the sockets are opened again.  [answers] are the addresses of the
    servers that answered, in the order of their arrival. *)
Definition adjust (la : list UDPAddr) (info : NATInfo) : NATInfo :=
  if bool_decide (zlen (pubIP4 la) > 0 /\ zlen (pubIP6 la) > 0) then
    MergeAddrs (pubIP6 la) (MergeAddrs (pubIP4 la) (MkNATInfo IP46 (nat_Addrs info)))
  else if bool_decide (nat_Type info = Easy /\ zlen (pubIP6 la) > 0) then
    MergeAddrs (pubIP6 la) (MkNATInfo EasyIP6 (nat_Addrs info))
  else if bool_decide (zlen (pubIP4 la) > 0) then
    MergeAddrs (pubIP4 la) (MkNATInfo IP4 (nat_Addrs info))
  else info.

Definition DetectNAT (listen : Z -> option nat) (ips : option (list bytes)) (answers : list UDPAddr)
    (c : UDPConn) : res udp_error NATInfo * UDPConn :=
  match mainUDP c with
  | Panic => (Panic, c)
  | m =>
      let info := match m with Ok _ => classify answers | _ => MkNATInfo Unknown [] end in
      let last_hard := match natInfo c with Some i => bool_decide (nat_Type i = Hard) | None => false end in
      let info := adjust (localAddrs ips c) info in
      let c := push_natEvent info (set_natInfo (Some info) c) in
      let now_hard := bool_decide (nat_Type info = Hard) in
      let c := if xorb now_hard last_hard then (RestartListener listen c).2 else c in
      (Ok info, c)
  end.

(** The LAN addresses announced to a peer. *)
Definition lan_type (ip : IP) : NATType :=
  if public ip then (if is_v4 ip then IP4 else IP6) else Internal.
Definition lanAddrsGenerate (ips : option (list bytes)) (peerID : bytes) (c : UDPConn) : UDPConn :=
  push_endpoints ((fun a => (peerID, a, lan_type (addr_IP a))) <$> localAddrs ips c) c.

(** The WAN addresses announced once the NAT is known: all of a hard one, else the first. *)
Definition wan_endpoints (peerID : bytes) (info : NATInfo) : list (bytes * UDPAddr * bytes) :=
  match nat_Addrs info with
  | [] => []
  | a :: rest =>
      if bool_decide (nat_Type info = Hard) then (fun a => (peerID, a, nat_Type info)) <$> (a :: rest)
      else [(peerID, a, nat_Type info)]
  end.

(** The ports the port scan of [RunDiscoMessageSendLoop] tries, in order. *)
Definition scan_ports (port offset count : Z) : list Z :=
  filter (fun p => ~ p <= 1024)
    ((fun i => Z.rem i 65536) <$> seqZ (port + offset) (count - offset + 1)).

(** The turns of a loop of [n] until the first at which it stops. *)
Fixpoint turns (n i : nat) (stop : nat -> bool) : nat :=
  match n with
  | O => 0
  | S n => if stop i then 0 else S (turns n (S i) stop)
  end.

(** What the loops of [RunDiscoMessageSendLoop] see: whether their [i]-th turn finds
    the connection closed or the peer reached, the ports [hardChallenges] draws,
    and whether the peer is ready after the easy challenges. *)
Record challenge_env := MkChallengeEnv {
  easy_stop : nat -> nat -> bool; hard_stop : nat -> bool; hard_ports : list Z;
  peer_ready : bool; scan_stop : nat -> bool
}.

Definition ping_to (c : UDPConn) (addr : UDPAddr) (sock : nat) : nat * UDPAddr * bytes := (sock, addr, ping_packet c).

(** The port that [hardChallenges] draws at each of its 2000 turns lies below
    65535-1024. *)
Definition hardChallenges (env : challenge_env) (addr : UDPAddr) (sock : nat) (c : UDPConn) : UDPConn :=
  add_sent ((fun p => ping_to c (MkUDPAddr (addr_IP addr) (p mod (65535 - 1024))) sock)
              <$> take (turns 2000 0 (hard_stop env)) (hard_ports env)) c.

Definition easyChallenges (env : challenge_env) (retry : Z) (addr : UDPAddr) (sock : nat) (c : UDPConn) : UDPConn :=
  add_sent (repeat (ping_to c addr sock) (1 + turns (Z.to_nat retry) 0 (easy_stop env sock))) c.

Definition port_scan (env : challenge_env) (offset count : Z) (addr : UDPAddr) (sock : nat) (c : UDPConn) : UDPConn :=
  let ports := scan_ports (addr_Port addr) offset count in
  add_sent ((fun p => ping_to c (MkUDPAddr (addr_IP addr) p) sock)
              <$> take (turns (length ports) 0 (scan_stop env)) ports) c.

(** [RunDiscoMessageSendLoop] with the retries of the easy challenges and the range
    of the scan; the sockets' goroutines are run one after the other. *)
Definition RunDiscoMessageSendLoop (env : challenge_env) (retry offset count : Z) (addr : UDPAddr) (ty : NATType)
    (c : UDPConn) : res Empty_set unit * UDPConn :=
  let ip := addr_IP addr in
  if bool_decide (ty = Hard) then
    if match natInfo c with Some i => bool_decide (nat_Type i = Hard) | None => false end then (Ok tt, c)
    else match mainUDP c with
         | Ok sock => (Ok tt, hardChallenges env addr sock c)
         | Err _ => (Ok tt, c)
         | Panic => (Panic, c)
         end
  else
    let socks := default [] (udpConns c) in
    let socks := if IsPrivate ip then take 1 socks else socks in
    let c := fold_left (fun c sock => easyChallenges env retry addr sock c) socks c in
    if peer_ready env || negb (is_v4 ip) || IsPrivate ip then (Ok tt, c)
    else match mainUDP c with
         | Ok sock => (Ok tt, port_scan env offset count addr sock c)
         | Err _ => (Ok tt, c)
         | Panic => (Panic, c)
         end.

(** The WAN part of [GenerateLocalAddrsSends], a second after the LAN part: the
    NAT is detected and its addresses are announced unless the peer is reached. *)
Definition wanAddrsGenerate (now : Z) (listen : Z -> option nat) (ips : option (list bytes)) (answers : list UDPAddr)
    (peerID : bytes) (c : UDPConn) : res udp_error unit * UDPConn :=
  match findPeer now peerID c with
  | (Ok (Some _), c) => (Ok tt, c)
  | (Ok None, c) =>
      match DetectNAT listen ips answers c with
      | (Ok info, c) => (Ok tt, push_endpoints (wan_endpoints peerID info) c)
      | (Err e, c) => (Err e, c)
      | (Panic, c) => (Panic, c)
      end
  | (_, c) => (Panic, c)
  end.

(** The UPnP part: the mapped address is announced to the peer and as a NAT of its
    own. *)
Definition upnpAddrGenerate (mapped : option UDPAddr) (peerID : bytes) (c : UDPConn) : UDPConn :=
  match mapped with
  | Some addr => push_natEvent (MkNATInfo UPnP [addr]) (push_endpoints [(peerID, addr, UPnP)] c)
  | None => c
  end.

(** [SetModifyDiscoConfig] with the values after [modify]; the back-off rate is a
    fraction in hundredths. *)
Record DiscoConfig := MkDiscoConfig {
  PortScanOffset : Z; PortScanCount : Z; PortScanDuration : Z;
  ChallengesRetry : Z; ChallengesInitialInterval : Z; ChallengesBackoffRate100 : Z
}.
Definition defaultDiscoConfig : DiscoConfig :=
  MkDiscoConfig (-1000) 3000 (5 * second) 5 (200 * millisecond) 165.
Definition SetModifyDiscoConfig (c : DiscoConfig) : DiscoConfig := {|
  PortScanOffset := Z.max (Z.min (PortScanOffset c) 65535) (-65535);
  PortScanCount := Z.min (Z.max 32 (PortScanCount c)) (65535 - 1024);
  PortScanDuration := Z.max second (PortScanDuration c);
  ChallengesRetry := Z.max 1 (ChallengesRetry c);
  ChallengesInitialInterval := Z.max (10 * millisecond) (ChallengesInitialInterval c);
  ChallengesBackoffRate100 := Z.max 100 (ChallengesBackoffRate100 c)
|}.

(** [ListenUDP] *)
Definition ListenUDP (listen : Z -> option nat) (cfg : UDPConfig) : res udp_error UDPConn :=
  if bool_decide (b2z (Len (ID cfg)) = 0) then Err ErrIDRequired
  else
    let ka := if bool_decide (PeerKeepaliveInterval cfg < second) then 10 * second
              else PeerKeepaliveInterval cfg in
    let cfg := MkUDPConfig (Port cfg) (DisableIPv4 cfg) (DisableIPv6 cfg) (ID cfg) ka (DiscoMagic cfg) in
    let c := MkUDPConn None cfg [] [] [] [] None ∅ [] [] in
    match RestartListener listen c with
    | (Ok _, c) => Ok c
    | (Err e, _) => Err e
    | (Panic, _) => Panic
    end.

(** *** STUN round trips *)

(** A transaction: its goroutine waits on an unbuffered channel, has received an
    answer, or has given up and closed the channel.  Entries stay in the map. *)
Inductive transaction := Waiting | Answered (a : UDPAddr) | GivenUp.
Record stunRoundTripper := MkStun { stunResponseMap : gmap bytes transaction }.

(** [roundTrip] up to its [select], and what it returns: [None] at its deadline. *)
Definition begin_roundTrip (txID : bytes) (rt : stunRoundTripper) : bytes * stunRoundTripper :=
  (Request txID, MkStun (<[txID := Waiting]> (stunResponseMap rt))).
Definition end_roundTrip (txID : bytes) (rt : stunRoundTripper) : option UDPAddr * stunRoundTripper :=
  (match stunResponseMap rt !! txID with Some (Answered a) => Some a | _ => None end,
   MkStun (<[txID := GivenUp]> (stunResponseMap rt))).

(** The address of an answer as [net.ResolveUDPAddr] reads its text. *)
Definition resolved (a : AddrPort) : UDPAddr :=
  MkUDPAddr (match ap_addr a with Addr4 ip => v4InV6Prefix ++ ip | Addr6 ip => ip | AddrZero => [] end)
    (ap_port a).

Definition recvResponse (b : gslice) (rt : stunRoundTripper) : res Empty_set stunRoundTripper :=
  match ParseResponse b with
  | Ok (txid, saddr) =>
      match stunResponseMap rt !! txid with
      | Some Waiting => Ok (MkStun (<[txid := Answered (resolved saddr)]> (stunResponseMap rt)))
      | _ => Ok rt
      end
  | Err _ => Ok rt
  | Panic => Panic
  end.

(** ** Lemmas: keepers *)

(** The states of a keeper are stored under the text of their address. *)
Definition kwf (k : peerkeeper) : Prop :=
  forall key st, states k !! key = Some st ->
    key = addr_String (ps_Addr st) /\ ps_PeerID st = k_peerID k /\ ip_ok (addr_IP (ps_Addr st)).

Lemma ip_key_String a b : ip_ok a -> ip_ok b -> ip_key a = ip_key b -> ip_String a = ip_String b.
Proof.
  unfold ip_ok, ip_key, ip_String. intros Ha Hb Heq.
  rewrite (bool_decide_false (a = [])), (bool_decide_false (b = [])) by (intros ->; simpl in *; lia).
  destruct (To4 a) as [x|] eqn:Ea, (To4 b) as [y|] eqn:Eb; subst.
  - done.
  - apply To4_length in Ea. rewrite To4_4 in Eb by done. done.
  - apply To4_length in Eb. rewrite To4_4 in Ea by done. done.
  - done.
Qed.

Lemma addr_same_String a b :
  ip_ok (addr_IP a) -> ip_ok (addr_IP b) -> addr_same a b = true -> addr_String a = addr_String b.
Proof.
  unfold addr_same, addr_String. intros Ha Hb [Hip Hport%bool_decide_eq_true]%andb_prop.
  rewrite ip_Equal_key in Hip by done. apply bool_decide_eq_true in Hip.
  rewrite Hport, (ip_key_String _ _ Ha Hb Hip).
  unfold ip_ok in *.
  rewrite (bool_decide_false (addr_IP a = [])), (bool_decide_false (addr_IP b = []));
    [done|..]; intros Hn; rewrite Hn in *; simpl in *; lia.
Qed.

Lemma addr_same_refl a : addr_same a a = true.
Proof. unfold addr_same, ip_Equal. by rewrite !bool_decide_true. Qed.

Lemma find_state k addr :
  kwf k -> ip_ok (addr_IP addr) ->
  match List.find (fun p => addr_same (ps_Addr p.2) addr) (map_to_list (states k)) with
  | Some (key, st) => key = addr_String addr /\ states k !! key = Some st /\ addr_same (ps_Addr st) addr = true
  | None => forall st, states k !! addr_String addr = Some st -> addr_same (ps_Addr st) addr = false
  end.
Proof.
  intros Hk Ha. destruct (List.find _ _) as [[key st]|] eqn:Hf.
  - apply find_some in Hf as [Hin Hs]. simpl in Hs.
    apply list_elem_of_In, elem_of_map_to_list in Hin.
    destruct (Hk _ _ Hin) as (-> & _ & Hok). split; [by apply addr_same_String|done].
  - intros st Hst. apply elem_of_map_to_list, list_elem_of_In in Hst.
    exact (find_none _ _ Hf _ Hst).
Qed.

Lemma most_recent_go l best :
  match fold_left (fun best st =>
    match best with
    | None => Some st
    | Some b => if bool_decide (LastActiveTime st > LastActiveTime b) then Some st else best
    end) l best with
  | None => best = None /\ l = []
  | Some st => (st ∈ l \/ best = Some st) /\
      (forall x, x ∈ l \/ best = Some x -> LastActiveTime x <= LastActiveTime st)
  end.
Proof.
  revert best. induction l as [|s l IH]; intros best; simpl.
  - destruct best as [b|]; [|done]. split; [by right|]. intros x [Hx|[= ->]]; [|lia].
    by apply not_elem_of_nil in Hx.
  - set (best' := match best with None => Some s | Some b => _ end).
    specialize (IH best'). fold best'. destruct (fold_left _ l best') as [st|].
    + destruct IH as [Hin Hmax]. split.
      * destruct Hin as [?|Hb]; [left; by right|]. unfold best' in Hb.
        destruct best as [b|]; [case_bool_decide|]; simplify_eq; (by right) || (left; left).
      * intros x [Hx|Hx].
        -- apply elem_of_cons in Hx as [->|Hx]; [|apply Hmax; by left].
           destruct best as [b|]; unfold best' in Hmax; [|apply Hmax; by right].
           case_bool_decide; [apply Hmax; by right|]. specialize (Hmax b (or_intror eq_refl)). lia.
        -- subst best. unfold best' in Hmax. case_bool_decide; [|apply Hmax; by right].
           specialize (Hmax s (or_intror eq_refl)). lia.
    + destruct IH as [Hb _]. unfold best' in Hb. destruct best; [case_bool_decide|]; done.
Qed.

Lemma most_recent_spec l :
  match most_recent l with
  | None => l = []
  | Some st => st ∈ l /\ forall x, x ∈ l -> LastActiveTime x <= LastActiveTime st
  end.
Proof.
  unfold most_recent. pose proof (most_recent_go l None) as H.
  destruct (fold_left _ l None); [|by destruct H].
  destruct H as [[?|?] Hm]; [|done]. split; [done|]. intros x Hx. apply Hm. by left.
Qed.

Lemma elem_of_state_list k st : st ∈ state_list k <-> exists key, states k !! key = Some st.
Proof.
  unfold state_list. rewrite list_elem_of_fmap. split.
  - intros ([key x] & -> & H). exists key. by apply elem_of_map_to_list.
  - intros [key H]. exists (key, st). split; [done|]. by apply elem_of_map_to_list.
Qed.

(** ** Properties *)

(** A heartbeat from an address leaves exactly one state for it, active now, and
    every state under another text as it was; a ping is sent exactly when the
    address is new to the keeper. *)
Theorem heartbeat_exact now addr k :
  kwf k -> ip_ok (addr_IP addr) ->
  let '(ping, k') := heartbeat true now addr k in
  kwf k' /\
  (exists st, states k' !! addr_String addr = Some st /\ addr_same (ps_Addr st) addr = true /\
     LastActiveTime st = now) /\
  (forall key, key <> addr_String addr -> states k' !! key = states k !! key) /\
  (ping = false <-> exists st, states k !! addr_String addr = Some st /\ addr_same (ps_Addr st) addr = true).
Proof.
  intros Hk Ha. unfold heartbeat. pose proof (find_state k addr Hk Ha) as Hf. simpl negb. cbv iota.
  destruct (List.find _ _) as [[key st]|].
  - destruct Hf as (-> & Hst & Hs). split_and!; simpl.
    + intros key x. simpl. destruct (decide (key = addr_String addr)) as [->|].
      * rewrite lookup_insert_eq. intros [= <-]. simpl. by apply Hk.
      * rewrite lookup_insert_ne by done. apply Hk.
    + eexists. by rewrite lookup_insert_eq.
    + intros key Hne. by rewrite lookup_insert_ne.
    + split; [|done]. intros _. by exists st.
  - split_and!; simpl.
    + intros key x. simpl. destruct (decide (key = addr_String addr)) as [->|].
      * rewrite lookup_insert_eq. by intros [= <-].
      * rewrite lookup_insert_ne by done. apply Hk.
    + eexists. rewrite lookup_insert_eq. split; [done|]. split; [apply addr_same_refl|done].
    + intros key Hne. by rewrite lookup_insert_ne.
    + split; [done|]. intros (st & Hst & Hs). by rewrite (Hf st Hst) in Hs.
Qed.

(** Writing to a peer: the payload goes to the address that was active most
    recently, with an error when even that one has been silent for more than a
    keepalive interval and a second.  When no address has been active within two
    intervals and two seconds there is nothing to write to, and the guard, which
    tests the payload, lets a nil pointer through: the call panics.  The outcome of
    an address that is active is that of the socket. *)
Theorem writeUDP_exact socket now p k :
  (selectPeerUDP now k = None <->
     forall key st, states k !! key = Some st -> 2 * (keepaliveInterval k + second) <= now - LastActiveTime st) /\
  match selectPeerUDP now k with
  | Some st =>
      (exists key, states k !! key = Some st) /\
      (forall key x, states k !! key = Some x -> LastActiveTime x <= LastActiveTime st) /\
      writeUDP_to socket now (Some p) k =
        (if bool_decide (now - LastActiveTime st > keepaliveInterval k + second)
         then Err ErrUDPConnInactive else socket (ps_Addr st) p, Some (ps_Addr st, p))
  | None => writeUDP_to socket now (Some p) k = (Panic, None)
  end.
Proof.
  unfold writeUDP_to. destruct (selectPeerUDP now k) as [st|] eqn:Hs; unfold selectPeerUDP in Hs.
  - pose proof (most_recent_spec (filter (fun st => candidate now k st = true) (state_list k))) as H.
    rewrite Hs in H. destruct H as [[Hc Hin]%list_elem_of_filter Hmax].
    apply elem_of_state_list in Hin as [key Hkey]. apply bool_decide_eq_true in Hc.
    split_and!; [|by exists key| |done].
    + split; [done|]. intros Hall. specialize (Hall _ _ Hkey). lia.
    + intros key' x Hx.
      destruct (decide (candidate now k x = true)) as [Hcx|Hcx].
      * apply Hmax. apply list_elem_of_filter. split; [done|]. apply elem_of_state_list. by exists key'.
      * unfold candidate in Hcx. rewrite bool_decide_eq_true in Hcx. lia.
  - split; [|done]. split; [|done]. intros _ key x Hx.
    pose proof (most_recent_spec (filter (fun st => candidate now k st = true) (state_list k))) as H.
    rewrite Hs in H.
    destruct (decide (candidate now k x = true)) as [Hcx|Hcx].
    + exfalso. assert (x ∈ filter (fun st => candidate now k st = true) (state_list k)) as Hin.
      { apply list_elem_of_filter. split; [done|]. apply elem_of_state_list. by exists key. }
      rewrite H in Hin. by apply not_elem_of_nil in Hin.
    + unfold candidate in Hcx. rewrite bool_decide_eq_true in Hcx. lia.
Qed.

(** The classification of the NAT: fewer than two answers are inconclusive, two
    different mapped addresses mean a hard NAT, otherwise it is easy. *)
Lemma classify_exact addrs :
  nat_Addrs (classify addrs) = addrs /\
  (nat_Type (classify addrs) = Unknown <-> (length addrs <= 1)%nat) /\
  (nat_Type (classify addrs) = Hard <->
     exists a b, a ∈ addrs /\ b ∈ addrs /\ addr_String a <> addr_String b).
Proof.
  unfold classify. destruct addrs as [|x [|y l]].
  - split; [done|]. split; [split; [simpl; lia|done]|]. split; [done|].
    intros (a & b & Ha & _). by apply not_elem_of_nil in Ha.
  - split; [done|]. split; [split; [simpl; lia|done]|]. split; [done|].
    intros (a & b & Ha & Hb & Hne). apply list_elem_of_singleton in Ha, Hb. by subst.
  - destruct (existsb _ _) eqn:He; simpl.
    + split; [done|]. split; [split; [done|simpl; lia]|]. split; [intros _|done].
      apply existsb_exists in He as (a & Ha & Hne%bool_decide_eq_true).
      exists a, x. split; [by apply list_elem_of_In|]. split; [left|done].
    + split; [done|]. split; [split; [done|simpl; lia]|]. split; [done|].
      intros (a & b & Ha & Hb & Hne). exfalso.
      assert (Hall : forall z, z ∈ x :: y :: l -> addr_String z = addr_String x).
      { intros z Hz. apply list_elem_of_In in Hz.
        destruct (decide (addr_String z = addr_String x)) as [|Hd]; [done|exfalso].
        assert (existsb (fun a => bool_decide (addr_String a <> addr_String x)) (x :: y :: l) = true); [|congruence].
        apply existsb_exists. exists z. split; [done|]. by apply bool_decide_eq_true. }
      apply Hne. by rewrite (Hall a Ha), (Hall b Hb).
Qed.

(** The port scan stays within the unprivileged ports. *)
Lemma scan_ports_range port offset count p :
  p ∈ scan_ports port offset count -> 1024 < p <= 65535.
Proof.
  unfold scan_ports. rewrite list_elem_of_filter, list_elem_of_fmap.
  intros (Hp & i & -> & _). pose proof (Z.rem_bound_abs i 65536). lia.
Qed.

(** ** Witnesses *)

Module Examples.
Definition ex_addr : UDPAddr := MkUDPAddr [z2b 192; z2b 0; z2b 2; z2b 1] 4000.
Definition ex_keeper : peerkeeper := Keeper 0 (bs "bob") ∅ 0 false (10 * second) empty_value.

Lemma heartbeat_exact_witness :
  let '(ping, k') := heartbeat true 5 ex_addr ex_keeper in
  kwf k' /\
  (exists st, states k' !! addr_String ex_addr = Some st /\ addr_same (ps_Addr st) ex_addr = true /\
     LastActiveTime st = 5) /\
  (forall key, key <> addr_String ex_addr -> states k' !! key = states ex_keeper !! key) /\
  (ping = false <->
     exists st, states ex_keeper !! addr_String ex_addr = Some st /\ addr_same (ps_Addr st) ex_addr = true).
Proof.
  refine (heartbeat_exact 5 ex_addr ex_keeper _ (or_introl eq_refl)).
  intros key st Hst. vm_compute in Hst. discriminate Hst.
Defined.
End Examples.
