(* ===== verification/NetUdp.v ===== *)
(** * Deadlines and datagram connections ([net/net.go], [net/udp.go])

    [Module Deadline] is the read deadline that the packet connections share: a
    channel without buffer on which expiries are announced.  [Module UdpListener]
    turns a packet socket into connections, one per remote address.  The
    goroutines of both are interleaved as the steps of a relation; each critical
    section is one step and [Close] of a connection is three. *)

From S2P Require Import Prelude GoTime Stream.

(** ** Deadlines *)

Module Deadline.

(** [senders] counts the expired timers whose function still waits for a receiver;
    [holder] is a [SetDeadline] with a time in the past, which waits for one too and
    holds the mutex.  [expired] and [seen] count the expiries and the receivers
    that were told of one. *)
Record Deadline := MkDeadline {
  d_closed : bool; timer : bool; senders : nat; holder : bool; expired : nat; seen : nat
}.
Definition init : Deadline := MkDeadline false false 0 false 0 0.

(** [None] when the call waits for the mutex. *)
Definition SetDeadline (now t : time) (d : Deadline) : option (res Empty_set Deadline) :=
  if holder d then None
  else if bool_decide (t = zero_time) then
    Some (Ok (MkDeadline (d_closed d) false (senders d) false (expired d) (seen d)))
  else if bool_decide (Until t now > 0) then
    Some (Ok (MkDeadline (d_closed d) true (senders d) false (expired d) (seen d)))
  else if d_closed d then Some Panic
  else Some (Ok (MkDeadline false false (senders d) true (S (expired d)) (seen d))).

(** The function of the timer, in a goroutine of its own. *)
Definition fire (d : Deadline) : option (res Empty_set Deadline) :=
  if timer d then
    Some (if d_closed d then Panic
          else Ok (MkDeadline false false (S (senders d)) (holder d) (S (expired d)) (seen d)))
  else None.

(** A receive on [Deadline()]: [false] when the channel is closed; of several
    senders the runtime serves any, here the timers first. *)
Definition receive (d : Deadline) : option (bool * Deadline) :=
  match senders d with
  | S n => Some (true, MkDeadline (d_closed d) (timer d) n (holder d) (expired d) (S (seen d)))
  | O =>
      if holder d then Some (true, MkDeadline (d_closed d) (timer d) 0 false (expired d) (S (seen d)))
      else if d_closed d then Some (false, d) else None
  end.

(** Closing the channel makes the goroutines that wait to send on it panic. *)
Definition Close (d : Deadline) : res Empty_set Deadline :=
  if d_closed d then Panic
  else if bool_decide (0 < senders d)%nat || holder d then Panic
  else Ok (MkDeadline true (timer d) 0 false (expired d) (seen d)).

Inductive step : Deadline -> Deadline -> Prop :=
| StepSet now t d d' : SetDeadline now t d = Some (Ok d') -> step d d'
| StepFire d d' : fire d = Some (Ok d') -> step d d'
| StepReceive ok d d' : receive d = Some (ok, d') -> step d d'
| StepClose d d' : Close d = Ok d' -> step d d'.

Definition waiting (d : Deadline) : nat := senders d + if holder d then 1 else 0.

Lemma step_counts d d' :
  step d d' -> expired d = (seen d + waiting d)%nat -> expired d' = (seen d' + waiting d')%nat.
Proof.
  unfold waiting. destruct 1 as [now t d d' H|d d' H|ok d d' H|d d' H]; intros Hc.
  - unfold SetDeadline in H. destruct (holder d) eqn:Eh; [done|].
    repeat case_bool_decide; [| |destruct (d_closed d)]; simplify_eq; simpl in *; lia.
  - unfold fire in H. destruct (timer d), (d_closed d); simplify_eq; simpl in *; lia.
  - unfold receive in H. destruct (senders d) eqn:Es, (holder d) eqn:Eh, (d_closed d); simplify_eq; simpl;
      rewrite ?Es, ?Eh; lia.
  - unfold Close in H. destruct (d_closed d); [done|]. case_bool_decide; [done|].
    destruct (holder d); simpl in *; simplify_eq; simpl; lia.
Qed.
End Deadline.

(** ** Connections of a packet socket *)

Module UdpListener.

(** A connection; [handed] are the datagrams that [Read] has taken, and [removed] is
    whether [Close] has taken it out of the listener. *)
Record udpConn := MkUdpConn {
  remoteAddr : bytes; inbound : chan bytes; closeChan : chan unit; lastActiveTime : time;
  removed : bool; handed : list bytes
}.

(** The listener: its connections in the order of their creation, the map from
    addresses to them, the connections to be accepted and what has arrived on the
    socket. *)
Record UDPListener := MkUDPListener {
  conns : list udpConn; connMap : gmap bytes nat; udpChan : list nat; arrived : list (bytes * bytes)
}.
Definition init_listener : UDPListener := MkUDPListener [] ∅ [] [].

Definition set_conns (x : list udpConn) (l : UDPListener) : UDPListener :=
  MkUDPListener x (connMap l) (udpChan l) (arrived l).

Definition set_inbound (x : chan bytes) (c : udpConn) : udpConn :=
  MkUdpConn (remoteAddr c) x (closeChan c) (lastActiveTime c) (removed c) (handed c).
Definition set_closeChan (x : chan unit) (c : udpConn) : udpConn :=
  MkUdpConn (remoteAddr c) (inbound c) x (lastActiveTime c) (removed c) (handed c).
Definition set_removed (c : udpConn) : udpConn :=
  MkUdpConn (remoteAddr c) (inbound c) (closeChan c) (lastActiveTime c) true (handed c).
Definition touch (now : time) (c : udpConn) : udpConn :=
  MkUdpConn (remoteAddr c) (inbound c) (closeChan c) now (removed c) (handed c).

(** [udpConn.init] *)
Definition new_conn (now : time) (addr : bytes) : udpConn :=
  MkUdpConn addr make_chan make_chan now false [].

Definition inbound_cap : nat := 512.
Definition udpChan_cap : nat := 8.

(** A datagram in [readUDP]: [None] when the send on one of the two channels waits
    for room. *)
Definition readUDP (now : time) (addr b : bytes) (l : UDPListener) : option (res Empty_set UDPListener) :=
  let log := arrived l ++ [(addr, b)] in
  match connMap l !! addr with
  | Some i =>
      c ← conns l !! i;
      if negb (closed (inbound c)) && bool_decide (inbound_cap <= length (queue (inbound c)))%nat then None
      else Some (q ← chan_send b (inbound c);
                 Ok (MkUDPListener (<[i := set_inbound q c]> (conns l)) (connMap l) (udpChan l) log))
  | None =>
      if bool_decide (udpChan_cap <= length (udpChan l))%nat then None
      else
        let i := length (conns l) in
        Some (q ← chan_send b make_chan;
              Ok (MkUDPListener (conns l ++ [set_inbound q (new_conn now addr)]) (<[addr := i]> (connMap l))
                    (udpChan l ++ [i]) log))
  end.

(** [AcceptContext]; [None] while there is nothing to accept. *)
Definition Accept (l : UDPListener) : option (nat * UDPListener) :=
  match udpChan l with
  | i :: q => Some (i, MkUDPListener (conns l) (connMap l) q (arrived l))
  | [] => None
  end.

Inductive read_result := Data (b : bytes) | ErrClosed.

(** The outcomes a [Read] of [n] bytes can have; none when it waits.  Of channels
    that are both ready the [select] takes any, and a closed [inbound] that is
    drained gives empty reads. *)
Definition Read (now : time) (n : Z) (c : udpConn) : list (read_result * udpConn) :=
  match chan_recv (inbound c) with
  | Some (Some b, q) =>
      [(Data (copy_out n b).1, MkUdpConn (remoteAddr c) q (closeChan c) now (removed c) (handed c ++ [b]))]
  | Some (None, _) => [(Data [], touch now c)]
  | None => []
  end ++ (if closed (closeChan c) then [(ErrClosed, c)] else []).

(** [Write]: the connection and what goes to the socket. *)
Definition Write (now : time) (p : bytes) (c : udpConn) : udpConn * (bytes * bytes) :=
  (touch now c, (p, remoteAddr c)).

(** The tick of the goroutine that [init] starts: whether it closes the connection. *)
Definition idle (now : time) (c : udpConn) : bool := bool_decide (Sub now (lastActiveTime c) > 10 * Second).

(** The three parts of [Close]; a second call does nothing, and [None] is a part
    whose turn it is not. *)
Definition close_closeChan (c : udpConn) : option udpConn :=
  if closed (closeChan c) then None else Some (set_closeChan (Chan (queue (closeChan c)) true) c).
Definition close_inbound (c : udpConn) : option udpConn :=
  if closed (closeChan c) && negb (closed (inbound c)) then Some (set_inbound (Chan (queue (inbound c)) true) c)
  else None.
Definition removeConn (i : nat) (l : UDPListener) : option UDPListener :=
  c ← conns l !! i;
  if closed (inbound c) && negb (removed c)
  then Some (MkUDPListener (<[i := set_removed c]> (conns l)) (delete (remoteAddr c) (connMap l)) (udpChan l) (arrived l))
  else None.

(** What the socket, the accepting goroutine, the users of the connections, their
    timers and the closing listener can do, in any order. *)
Inductive step : UDPListener -> UDPListener -> Prop :=
| StepPacket now addr b l l' : readUDP now addr b l = Some (Ok l') -> step l l'
| StepAccept i l l' : Accept l = Some (i, l') -> step l l'
| StepRead now n i c r c' l :
    conns l !! i = Some c -> (r, c') ∈ Read now n c -> step l (set_conns (<[i := c']> (conns l)) l)
| StepWrite now p i c l :
    conns l !! i = Some c -> step l (set_conns (<[i := (Write now p c).1]> (conns l)) l)
| StepCloseChan i c c' l :
    conns l !! i = Some c -> close_closeChan c = Some c' -> step l (set_conns (<[i := c']> (conns l)) l)
| StepCloseInbound i c c' l :
    conns l !! i = Some c -> close_inbound c = Some c' -> step l (set_conns (<[i := c']> (conns l)) l)
| StepRemove i l l' : removeConn i l = Some l' -> step l l'.

(** ** Lemmas *)

(** What a connection got, read or not. *)
Definition received (c : udpConn) : list bytes := handed c ++ queue (inbound c).
Definition of_addr (addr : bytes) (cs : list udpConn) : list udpConn := filter (fun c => remoteAddr c = addr) cs.
Definition from_addr (addr : bytes) (ps : list (bytes * bytes)) : list bytes := (filter (fun p => p.1 = addr) ps).*2.

(** The map leads to the youngest connection of an address; a connection that is
    not removed is in it. *)
Record wf (l : UDPListener) : Prop := {
  wf_map addr i : connMap l !! addr = Some i -> exists c, conns l !! i = Some c /\ remoteAddr c = addr /\ removed c = false;
  wf_last addr i j c : connMap l !! addr = Some i -> conns l !! j = Some c -> remoteAddr c = addr -> (j <= i)%nat;
  wf_in i c : conns l !! i = Some c -> removed c = false -> connMap l !! remoteAddr c = Some i;
  wf_data addr : from_addr addr (arrived l) = concat (received <$> of_addr addr (conns l))
}.

Lemma of_addr_split addr i c cs :
  cs !! i = Some c -> remoteAddr c = addr ->
  (forall j c', cs !! j = Some c' -> remoteAddr c' = addr -> (j <= i)%nat) ->
  forall c', remoteAddr c' = addr ->
  of_addr addr cs = of_addr addr (take i cs) ++ [c] /\ of_addr addr (<[i := c']> cs) = of_addr addr (take i cs) ++ [c'].
Proof.
  intros Hi Hc Hlast c' Hc'. pose proof (lookup_lt_Some _ _ _ Hi) as Hlt.
  assert (Hnil : of_addr addr (drop (S i) cs) = []).
  { apply filter_none, Forall_forall. intros x (j & Hj)%list_elem_of_lookup Hx. rewrite lookup_drop in Hj.
    specialize (Hlast _ _ Hj Hx). lia. }
  split.
  - rewrite <- (take_drop_middle cs i c Hi) at 1. unfold of_addr in *.
    rewrite filter_app, filter_cons_True, Hnil by done. done.
  - rewrite insert_take_drop by done. unfold of_addr in *. rewrite filter_app, filter_cons_True, Hnil by done. done.
Qed.

Lemma of_addr_other addr i c c' cs :
  cs !! i = Some c -> remoteAddr c <> addr -> remoteAddr c' <> addr ->
  of_addr addr (<[i := c']> cs) = of_addr addr cs.
Proof.
  intros Hi Hc Hc'. rewrite <- (take_drop_middle cs i c Hi) at 2.
  rewrite insert_take_drop by (by eapply lookup_lt_Some). unfold of_addr.
  by rewrite !filter_app, !filter_cons_False.
Qed.

(** A change of a connection that keeps its address and what it got. *)
Lemma of_addr_keep addr i c c' cs :
  cs !! i = Some c -> remoteAddr c' = remoteAddr c -> received c' = received c ->
  concat (received <$> of_addr addr (<[i := c']> cs)) = concat (received <$> of_addr addr cs).
Proof.
  intros Hi Ha Hr. rewrite <- (take_drop_middle cs i c Hi) at 2.
  rewrite insert_take_drop by (by eapply lookup_lt_Some). unfold of_addr.
  rewrite !filter_app, !filter_cons. rewrite Ha. case_decide; [|done].
  by rewrite !fmap_app, !fmap_cons, Hr.
Qed.

Lemma wf_keep i c c' l :
  wf l -> conns l !! i = Some c -> remoteAddr c' = remoteAddr c -> removed c' = removed c ->
  received c' = received c -> wf (set_conns (<[i := c']> (conns l)) l).
Proof.
  intros [Hm Hl Hi Hd] Hc Ha Hrm Hr.
  assert (Hlook : forall j d, <[i := c']> (conns l) !! j = Some d ->
            exists d0, conns l !! j = Some d0 /\ remoteAddr d = remoteAddr d0 /\ removed d = removed d0).
  { intros j d. destruct (decide (j = i)) as [->|Hne].
    - rewrite list_lookup_insert_eq by (by eapply lookup_lt_Some). intros [= <-]. by exists c.
    - rewrite list_lookup_insert_ne by done. intros Hj. by exists d. }
  split; cbn [conns connMap udpChan arrived set_conns].
  - intros addr j Hj. destruct (Hm addr j Hj) as (d & Hd1 & Hd2 & Hd3).
    destruct (decide (j = i)) as [->|Hne].
    + exists c'. rewrite list_lookup_insert_eq by (by eapply lookup_lt_Some). assert (d = c) as -> by congruence.
      by rewrite Ha, Hrm.
    + exists d. by rewrite list_lookup_insert_ne.
  - intros addr j k d Hj (d0 & Hk & Hda & _)%Hlook Hdd. eapply Hl; [done|done|congruence].
  - intros j d (d0 & Hj & -> & Hr0)%Hlook Hdr. apply Hi; congruence.
  - intros addr. rewrite Hd. symmetry. by eapply of_addr_keep.
Qed.

Lemma from_addr_app addr ps qs : from_addr addr (ps ++ qs) = from_addr addr ps ++ from_addr addr qs.
Proof. unfold from_addr. by rewrite filter_app, fmap_app. Qed.

Lemma from_addr_one addr a b : from_addr addr [(a, b)] = if decide (a = addr) then [b] else [].
Proof. unfold from_addr. rewrite filter_cons. simpl. by case_decide. Qed.

Lemma wf_packet now addr b l l' : wf l -> readUDP now addr b l = Some (Ok l') -> wf l'.
Proof.
  intros [Hm Hl Hi Hd] H. unfold readUDP in H. destruct (connMap l !! addr) as [i|] eqn:Em.
  - destruct (Hm addr i Em) as (c & Hc & Ha & Hrm). rewrite Hc in H. simpl in H.
    destruct (_ && _); [done|]. unfold chan_send in H. destruct (closed (inbound c)) eqn:Eo; [done|].
    injection H as <-. set (c' := set_inbound _ c).
    assert (Hlook : forall j d, <[i := c']> (conns l) !! j = Some d ->
              exists d0, conns l !! j = Some d0 /\ remoteAddr d = remoteAddr d0 /\ removed d = removed d0).
    { intros j d. destruct (decide (j = i)) as [->|Hne].
      - rewrite list_lookup_insert_eq by (by eapply lookup_lt_Some). intros [= <-]. by exists c.
      - rewrite list_lookup_insert_ne by done. intros Hj. by exists d. }
    split; cbn [conns connMap arrived].
    + intros a j Hj. destruct (Hm a j Hj) as (d & Hd1 & Hd2 & Hd3). destruct (decide (j = i)) as [->|Hne].
      * exists c'. rewrite list_lookup_insert_eq by (by eapply lookup_lt_Some). split; [done|].
        assert (d = c) as -> by congruence. done.
      * exists d. by rewrite list_lookup_insert_ne.
    + intros a j k d Hj (d0 & Hk & Hda & _)%Hlook Hdd. eapply Hl; [done|done|congruence].
    + intros j d (d0 & Hj & -> & Hr0)%Hlook Hdr. apply Hi; congruence.
    + intros a. rewrite from_addr_app, from_addr_one, Hd. case_decide as Hcase.
      * subst a. destruct (of_addr_split addr i c (conns l) Hc Ha (fun j d => Hl addr i j d Em) c' Ha) as [-> ->].
        rewrite !fmap_app, !concat_app. cbn [list_fmap fmap concat]. rewrite !app_nil_r, <- app_assoc. f_equal.
        unfold received, c'. cbn [handed inbound set_inbound queue]. by rewrite app_assoc.
      * rewrite app_nil_r. symmetry. f_equal. f_equal. apply (of_addr_other a i c); [done|congruence|].
        cbn [remoteAddr set_inbound c']. congruence.
  - destruct (bool_decide _); [done|]. simpl in H. injection H as <-.
    set (i := length (conns l)). set (c' := set_inbound _ _).
    assert (Hlook : forall j d, (conns l ++ [c']) !! j = Some d -> conns l !! j = Some d \/ j = i /\ d = c').
    { intros j d Hj. apply lookup_snoc_Some in Hj as [[_ Hj]|[-> ->]]; [by left|by right]. }
    assert (Hlt : forall a j, connMap l !! a = Some j -> (j < i)%nat).
    { intros a j Hj. destruct (Hm a j Hj) as (d & Hd1 & _). by eapply lookup_lt_Some. }
    split; cbn [conns connMap arrived].
    + intros a j. destruct (decide (a = addr)) as [->|Hne].
      * rewrite lookup_insert_eq. intros [= <-]. exists c'. by rewrite list_lookup_middle.
      * rewrite lookup_insert_ne by done. intros Hj. destruct (Hm a j Hj) as (d & Hd1 & Hd2).
        exists d. split; [by apply lookup_app_l_Some|done].
    + intros a j k d Hj Hk%Hlook Hda. destruct (decide (a = addr)) as [->|Hne].
      * rewrite lookup_insert_eq in Hj. injection Hj as <-. destruct Hk as [Hk|[-> ->]]; [|done].
        apply lookup_lt_Some in Hk. unfold i. lia.
      * rewrite lookup_insert_ne in Hj by done. destruct Hk as [Hk|[-> ->]]; [by eapply Hl|].
        by destruct Hne.
    + intros j d Hj%Hlook Hr. destruct Hj as [Hj|[-> ->]].
      * pose proof (Hi j d Hj Hr) as Hin. rewrite lookup_insert_ne; [done|]. intros Heq. congruence.
      * by rewrite lookup_insert_eq.
    + intros a. rewrite from_addr_app, from_addr_one, Hd. unfold of_addr. rewrite filter_app, filter_cons, filter_nil.
      rewrite fmap_app, concat_app. change (remoteAddr c') with addr. by case_decide.
Qed.

Lemma Read_keeps now n c r c' :
  (r, c') ∈ Read now n c -> remoteAddr c' = remoteAddr c /\ removed c' = removed c /\ received c' = received c.
Proof.
  unfold Read, chan_recv. intros [Hin|Hin]%elem_of_app.
  - destruct (queue (inbound c)) as [|b q] eqn:Eq.
    + destruct (closed (inbound c)); [|set_solver]. apply list_elem_of_singleton in Hin. by injection Hin as -> ->.
    + apply list_elem_of_singleton in Hin. injection Hin as -> ->. unfold received. simpl. rewrite Eq.
      by rewrite <- app_assoc.
  - destruct (closed (closeChan c)); [|set_solver]. apply list_elem_of_singleton in Hin. by injection Hin as -> ->.
Qed.

Lemma wf_remove i l l' : wf l -> removeConn i l = Some l' -> wf l'.
Proof.
  intros [Hm Hl Hi Hd] H. unfold removeConn in H. destruct (conns l !! i) as [c|] eqn:Hc; [|done]. simpl in H.
  destruct (closed (inbound c)); [|done]. destruct (removed c) eqn:Hrm; [done|]. injection H as <-.
  pose proof (Hi i c Hc Hrm) as Hin.
  assert (Hlook : forall j d, <[i := set_removed c]> (conns l) !! j = Some d ->
            j = i /\ d = set_removed c \/ j <> i /\ conns l !! j = Some d).
  { intros j d. destruct (decide (j = i)) as [->|Hne].
    - rewrite list_lookup_insert_eq by (by eapply lookup_lt_Some). intros [= <-]. by left.
    - rewrite list_lookup_insert_ne by done. by right. }
  assert (Hneq : forall a j, connMap l !! a = Some j -> a <> remoteAddr c -> j <> i).
  { intros a j Hj Hne ->. destruct (Hm a i Hj) as (d & Hd1 & Hd2 & _). congruence. }
  split; cbn [conns connMap arrived].
  - intros a j [Hne Hj]%lookup_delete_Some. destruct (Hm a j Hj) as (d & Hd1 & Hd2).
    exists d. rewrite list_lookup_insert_ne by (apply not_eq_sym; by apply (Hneq a)). done.
  - intros a j k d [Hne Hj]%lookup_delete_Some Hk%Hlook Hda. destruct Hk as [[-> ->]|[_ Hk]]; [|by eapply Hl].
    by eapply (Hl a j i c).
  - intros j d Hj%Hlook Hr. destruct Hj as [[-> ->]|[Hne Hj]]; [done|].
    pose proof (Hi j d Hj Hr) as Hin'. rewrite lookup_delete_ne; [done|].
    intros Heq. rewrite <- Heq in Hin'. congruence.
  - intros a. rewrite Hd. symmetry. by apply (of_addr_keep a i c).
Qed.

Lemma step_wf l l' : step l l' -> wf l -> wf l'.
Proof.
  destruct 1 as [now addr b l l' H|i l l' H|now n i c r c' l Hc H|now p i c l Hc|i c c' l Hc H|i c c' l Hc H|i l l' H];
    intros W.
  - by eapply wf_packet.
  - unfold Accept in H. destruct (udpChan l); [done|]. injection H as _ <-. by destruct W; split.
  - apply Read_keeps in H as (H1 & H2 & H3). by eapply wf_keep.
  - by eapply wf_keep.
  - unfold close_closeChan in H. destruct (closed (closeChan c)); [done|]. injection H as <-. by eapply wf_keep.
  - unfold close_inbound in H. destruct (_ && _); [|done]. injection H as <-. by eapply wf_keep.
  - by eapply wf_remove.
Qed.

Lemma wf_init : wf init_listener.
Proof. split; intros *; done. Qed.
End UdpListener.

(** ** Properties *)

(** The deadline: every expiry times out exactly one read, the next one that
    comes, however late and whatever deadline was set meanwhile; and closing
    brings the process down, at once or later, exactly when an expiry waits for a
    reader or a timer is still armed. *)
Theorem deadline_expiries d :
  rtc Deadline.step Deadline.init d ->
  Deadline.expired d = (Deadline.seen d + Deadline.waiting d)%nat /\
  (Deadline.d_closed d = false ->
   (Deadline.Close d = Panic \/ exists d', Deadline.Close d = Ok d' /\ Deadline.fire d' = Some Panic) <->
   (0 < Deadline.waiting d)%nat \/ Deadline.timer d = true).
Proof.
  intros Hr. split.
  - apply (rtc_invariant Deadline.step (fun d => Deadline.expired d = (Deadline.seen d + Deadline.waiting d)%nat)
             Deadline.init d); [exact Deadline.step_counts|done|done].
  - intros Hc. unfold Deadline.Close, Deadline.waiting, Deadline.fire. rewrite Hc.
    destruct (Deadline.holder d), (Deadline.timer d), (Deadline.senders d) as [|n]; simpl;
      naive_solver lia.
Qed.

Lemma reachable_wf l : rtc UdpListener.step UdpListener.init_listener l -> UdpListener.wf l.
Proof.
  intros Hr. eapply (rtc_invariant UdpListener.step); [exact UdpListener.step_wf|exact Hr|apply UdpListener.wf_init].
Qed.

(** C25. The listener loses, duplicates, reorders and misdelivers nothing: whatever
    was done in whatever order, the datagrams that arrived from an address are,
    in order, those that the connections of the address got, one connection after
    the other; and at any time an address has one connection that is not removed
    at most. *)
Theorem demux_exact l addr :
  rtc UdpListener.step UdpListener.init_listener l ->
  UdpListener.from_addr addr (UdpListener.arrived l) =
    concat (UdpListener.received <$> UdpListener.of_addr addr (UdpListener.conns l)) /\
  forall i j c c', UdpListener.conns l !! i = Some c -> UdpListener.conns l !! j = Some c' ->
    UdpListener.remoteAddr c = addr -> UdpListener.remoteAddr c' = addr ->
    UdpListener.removed c = false -> UdpListener.removed c' = false -> i = j.
Proof.
  intros W%reachable_wf. split; [by apply UdpListener.wf_data|]. intros i j c c' Hi Hj Ha Ha' Hr Hr'.
  pose proof (UdpListener.wf_in l W i c Hi Hr) as H1. pose proof (UdpListener.wf_in l W j c' Hj Hr') as H2. congruence.
Qed.

(** A datagram panics the listener exactly when the connection of its address is
    being closed: its channel is closed and it is not yet removed. *)
Theorem packet_panic_iff l now addr b :
  rtc UdpListener.step UdpListener.init_listener l ->
  UdpListener.readUDP now addr b l = Some Panic <->
  exists i c, UdpListener.conns l !! i = Some c /\ UdpListener.remoteAddr c = addr /\
    UdpListener.removed c = false /\ closed (UdpListener.inbound c) = true.
Proof.
  intros W%reachable_wf. unfold UdpListener.readUDP. split.
  - destruct (UdpListener.connMap l !! addr) as [i|] eqn:Em.
    + destruct (UdpListener.wf_map l W addr i Em) as (c & Hc & Ha & Hrm). rewrite Hc. simpl.
      destruct (_ && _); [done|]. unfold chan_send. destruct (closed (UdpListener.inbound c)) eqn:Eo; [|done].
      intros _. by exists i, c.
    + by destruct (bool_decide _).
  - intros (i & c & Hc & <- & Hrm & Ho). rewrite (UdpListener.wf_in l W i c Hc Hrm), Hc. simpl.
    rewrite Ho. simpl. unfold chan_send. by rewrite Ho.
Qed.

(** ** Examples *)

Module Examples.
Import UdpListener.
Definition t0 : time := UnixTime 1700000000.

(** A datagram, its connection closed up to its removal. *)
Definition ex1 : UDPListener :=
  MkUDPListener [MkUdpConn (bs "a") (Chan [bs "x"] false) make_chan t0 false []] {[bs "a" := 0%nat]} [0%nat]
    [(bs "a", bs "x")].
Definition ex2 : UDPListener :=
  MkUDPListener [MkUdpConn (bs "a") (Chan [bs "x"] true) (Chan [] true) t0 false []] {[bs "a" := 0%nat]} [0%nat]
    [(bs "a", bs "x")].

Lemma ex1_reachable : rtc step init_listener ex1.
Proof. apply rtc_once. by apply (StepPacket t0 (bs "a") (bs "x")). Qed.

Lemma ex2_reachable : rtc step init_listener ex2.
Proof.
  etransitivity; [apply ex1_reachable|]. 
  set (c1 := MkUdpConn (bs "a") (Chan [bs "x"] false) (Chan [] true) t0 false []).
  apply (rtc_l _ _ (set_conns [c1] ex1)); [|apply rtc_once].
  - by apply (StepCloseChan 0 (MkUdpConn (bs "a") (Chan [bs "x"] false) make_chan t0 false []) c1 ex1).
  - by apply (StepCloseInbound 0 c1 (MkUdpConn (bs "a") (Chan [bs "x"] true) (Chan [] true) t0 false [])
                (set_conns [c1] ex1)).
Qed.

Lemma demux_exact_witness :
  from_addr (bs "a") (arrived ex1) = concat (received <$> of_addr (bs "a") (conns ex1)) /\
  forall i j c c', conns ex1 !! i = Some c -> conns ex1 !! j = Some c' ->
    remoteAddr c = bs "a" -> remoteAddr c' = bs "a" -> removed c = false -> removed c' = false -> i = j.
Proof. exact (demux_exact ex1 (bs "a") ex1_reachable). Defined.

Lemma packet_panic_iff_witness :
  readUDP t0 (bs "a") (bs "y") ex2 = Some Panic <->
  exists i c, conns ex2 !! i = Some c /\ remoteAddr c = bs "a" /\ removed c = false /\ closed (inbound c) = true.
Proof. exact (packet_panic_iff ex2 t0 (bs "a") (bs "y") ex2_reachable). Defined.

Definition armed : Deadline.Deadline := Deadline.MkDeadline false true 0 false 0 0.
Lemma armed_reachable : rtc Deadline.step Deadline.init armed.
Proof. apply rtc_once. by apply (Deadline.StepSet t0 (Add t0 Second)). Qed.

(** Closing with an armed timer: the process panics when it fires. *)
Lemma deadline_expiries_witness :
  Deadline.expired armed = (Deadline.seen armed + Deadline.waiting armed)%nat /\
  (Deadline.d_closed armed = false ->
   (Deadline.Close armed = Panic \/ exists d', Deadline.Close armed = Ok d' /\ Deadline.fire d' = Some Panic) <->
   (0 < Deadline.waiting armed)%nat \/ Deadline.timer armed = true).
Proof. exact (deadline_expiries armed armed_reachable). Defined.
End Examples.
