(* ===== verification/Vpn.v ===== *)
(** * The virtual network: packets, the virtual NIC and the packet loops ([vpn])

    [Module Packet] is the packet buffer with its header room; [Module Nic] the table
    of peers and routes; [Section Vpn] the five goroutines of [VPN.Run] as
    operations on shared channels and on the pool of packets.  A packet is shared by
    reference: packets are numbers into a heap, and the pool holds the numbers that
    may be handed out again.

    The device, the packet connection, the parsers of IP headers
    ([golang.org/x/net]), the ICMP serialiser ([gopacket]) and the addresses of the
    link are outside of the sources. *)

From S2P Require Import Prelude Text Url Netip Lru.

(** ** Packets ([vpn/nic/packet.go]) *)

Module Packet.

Record Packet := MkPacket { buf : bytes; offset : Z }.

Definition IPPacketOffset : Z := 16.

Definition NewPacket (offset cap : Z) : res Empty_set Packet :=
  if bool_decide (offset > cap) then Panic
  else Ok (MkPacket (repeat (z2b 0) (Z.to_nat offset)) offset).

Definition AsBytes (p : Packet) : bytes := drop (Z.to_nat (offset p)) (buf p).

(** The slice is never nil: an empty packet panics. *)
Definition Ver (p : Packet) : res Empty_set Z :=
  match AsBytes p with b :: _ => Ok (Z.shiftr (b2z b) 4) | [] => Panic end.

Definition Bytes (off : Z) (p : Packet) : res Empty_set bytes :=
  if bool_decide (offset p < off) then Panic else Ok (drop (Z.to_nat off) (buf p)).

Definition Write (b : bytes) (p : Packet) : Packet := MkPacket (buf p ++ b) (offset p).

Definition SetHeader (header : bytes) (p : Packet) : res Empty_set Packet :=
  if bool_decide (zlen header > offset p) then Panic
  else Ok (MkPacket (header ++ drop (length header) (buf p)) (offset p)).

Definition Reset (p : Packet) : Packet := MkPacket (take (Z.to_nat (offset p)) (buf p)) (offset p).

(** The header room is there. *)
Definition wf (p : Packet) : Prop := 0 <= offset p <= zlen (buf p).

Lemma AsBytes_Write b p : wf p -> AsBytes (Write b p) = AsBytes p ++ b.
Proof. unfold wf, AsBytes, Write, zlen. simpl. intros H. rewrite drop_app_le by lia. done. Qed.

Lemma AsBytes_Reset p : AsBytes (Reset p) = [].
Proof. unfold AsBytes, Reset. simpl. rewrite skipn_firstn_comm, Nat.sub_diag. done. Qed.

Lemma wf_Write b p : wf p -> wf (Write b p).
Proof. unfold wf, Write. simpl. rewrite zlen_app. pose proof (zlen_nonneg b). lia. Qed.

Lemma wf_Reset p : wf p -> wf (Reset p).
Proof. unfold wf, Reset, zlen. simpl. rewrite length_take. lia. Qed.

Lemma wf_NewPacket off cap p : 0 <= off -> NewPacket off cap = Ok p -> wf p /\ AsBytes p = [].
Proof.
  unfold NewPacket. case_bool_decide; [done|]. intros Hoff [= <-]. unfold wf, AsBytes, zlen. simpl.
  rewrite repeat_length, drop_ge by (rewrite repeat_length; lia). split; [lia|done].
Qed.
End Packet.

(** ** The virtual NIC ([vpn/nic/nic.go]) *)

Module Nic.
Import LruCache.

Record Peer := MkPeer { Addr : bytes; IPv4 : bytes; IPv6 : bytes; Meta : Values }.

(** [peers] maps addresses to references into [store]. *)
Record VirtualNIC := MkNIC { routing : Cache bytes bytes; peers : Cache bytes nat; store : list Peer }.

Definition init : res Empty_set VirtualNIC :=
  routing ← LruCache.New 512; peers ← LruCache.New 1024; Ok (MkNIC routing peers []).

Definition set_peers (x : Cache bytes nat) (n : VirtualNIC) : VirtualNIC := MkNIC (routing n) x (store n).
Definition set_routing (x : Cache bytes bytes) (n : VirtualNIC) : VirtualNIC := MkNIC x (peers n) (store n).

Definition addr_of (n : VirtualNIC) (r : option nat) : option bytes := i ← r; Addr <$> store n !! i.

(** Whether a route, by its text, covers an address. *)
Definition route_Contains (dstIP : IP) (cidr : bytes) : bool :=
  match ParseCIDR cidr with Some (_, net) => Contains net dstIP | None => false end.

(** [GetPeer]; [order] is the order in which [Find] walks the routes. *)
Definition GetPeer (order : list bytes) (ip : bytes) (n : VirtualNIC) : option bytes * VirtualNIC :=
  match Get ip (peers n) with
  | (Some i, ps) => (addr_of n (Some i), set_peers ps n)
  | (None, ps) =>
      let '(found, rt) := Find order (fun k _ => route_Contains (ParseIP ip) k) (routing n) in
      let v := match found with Some (_, v) => v | None => [] end in
      let '(r, ps) := Get v ps in
      (if bool_decide (v = []) then None else addr_of n r, set_routing rt (set_peers ps n))
  end.

Definition put_if (key : bytes) (i : nat) (c : Cache bytes nat) : Cache bytes nat :=
  if bool_decide (key <> []) then Put key i c else c.

Definition AddPeer (peer : Peer) (n : VirtualNIC) : VirtualNIC :=
  let i := length (store n) in
  MkNIC (routing n) (put_if (IPv6 peer) i (put_if (IPv4 peer) i (peers n))) (store n ++ [peer]).

(** The search by address, in the order in which the map is walked. *)
Definition find_addr (order : list bytes) (addr : bytes) (n : VirtualNIC) : option nat * Cache bytes nat :=
  let '(found, ps) := Find order (fun _ i => bool_decide (Addr <$> store n !! i = Some addr)) (peers n) in
  (snd <$> found, ps).

Definition RemovePeer (order : list bytes) (addr : bytes) (n : VirtualNIC) : VirtualNIC :=
  let '(found, ps) := find_addr order addr n in
  match found ≫= (fun i => store n !! i) with
  | Some v => set_peers (Del (IPv6 v) (Del (IPv4 v) ps)) n
  | None => set_peers ps n
  end.

Definition LabelPeer (order : list bytes) (addr kv : bytes) (n : VirtualNIC) : VirtualNIC :=
  let '(found, ps) := find_addr order addr n in
  match found with
  | None => set_peers ps n
  | Some i =>
      let store' := alter (fun v => MkPeer (Addr v) (IPv4 v) (IPv6 v) (vals_Add (Meta v) (bs "label") kv)) i (store n) in
      match store n !! i with
      | Some v => MkNIC (routing n) (put_if (IPv6 v) i (put_if (IPv4 v) i ps)) store'
      | None => set_peers ps n
      end
  end.

Definition AddRoute (dst : IPNet) (via : IP) (n : VirtualNIC) : bool * VirtualNIC :=
  if IsUnspecified via then (false, n)
  else (true, set_routing (Put (net_String dst) (ip_String via) (routing n)) n).

Definition DelRoute (dst : IPNet) (via : IP) (n : VirtualNIC) : bool * VirtualNIC :=
  if IsUnspecified via then (false, n)
  else (true, set_routing (Put (net_String dst) [] (routing n)) n).

(** [Peers]: one peer for each address, in descending order of their IPs. *)
Definition peer_ips (p : Peer) : bytes := IPv4 p ++ IPv6 p.
Definition ips_after (a b : Peer) : Prop := str_Compare (peer_ips a) (peer_ips b) >= 0.
#[export] Instance ips_after_dec a b : Decision (ips_after a b).
Proof. unfold ips_after. apply _. Defined.
Definition by_addr (ps : list Peer) : gmap bytes Peer := foldl (fun m p => <[Addr p := p]> m) ∅ ps.
Definition Peers (n : VirtualNIC) : list Peer :=
  merge_sort ips_after (snd <$> map_to_list
    (by_addr (omap (fun kv => store n !! kv.2) (map_to_list (Dump (peers n)))))).

(** *** Lemmas *)

Lemma find_any (f : bytes -> bytes -> bool) (k v : bytes) (c : Cache bytes bytes) l :
  repr c l -> (k, v) ∈ l -> f k v = true ->
  exists order', order' ≡ₚ l.*1 /\ (Find order' f c).1 = Some (k, v).
Proof.
  intros R Hin Hf. assert (Hk : k ∈ l.*1) by (apply list_elem_of_fmap; by exists (k, v)).
  apply elem_of_Permutation in Hk as [rest Hrest]. exists (k :: rest). split; [by rewrite Hrest|].
  assert (Hd : Dump c !! k = Some v).
  { rewrite (repr_Dump _ _ _ R). apply LruSpec.lookup_NoDup; [apply R|done]. }
  unfold Dump in Hd. rewrite lookup_omap in Hd. unfold Find. simpl.
  destruct (cache c !! k) as [e|]; [|done]. simpl in Hd. destruct (entries c !! e) as [en|]; [|done].
  simpl in Hd. injection Hd as Hd. rewrite Hd, Hf. done.
Qed.
End Nic.

(** ** The packet loops ([vpn/vpn.go]) *)

Section Vpn.
Import Packet.

(** The state that the goroutines share; [nic_out] and [conn_out] are what was
    written to the device and to the packet connection. *)
Record VPN := MkVPN {
  nic : Nic.VirtualNIC; heap : gmap nat Packet; pool : list nat; inbound : chan nat; outbound : chan nat;
  nic_out : list bytes; conn_out : list (bytes * bytes)
}.

Definition set_nic (x : Nic.VirtualNIC) (v : VPN) : VPN :=
  MkVPN x (heap v) (pool v) (inbound v) (outbound v) (nic_out v) (conn_out v).
Definition set_heap (x : gmap nat Packet) (v : VPN) : VPN :=
  MkVPN (nic v) x (pool v) (inbound v) (outbound v) (nic_out v) (conn_out v).
Definition set_pool (x : list nat) (v : VPN) : VPN :=
  MkVPN (nic v) (heap v) x (inbound v) (outbound v) (nic_out v) (conn_out v).
Definition set_inbound (x : chan nat) (v : VPN) : VPN :=
  MkVPN (nic v) (heap v) (pool v) x (outbound v) (nic_out v) (conn_out v).
Definition set_outbound (x : chan nat) (v : VPN) : VPN :=
  MkVPN (nic v) (heap v) (pool v) (inbound v) x (nic_out v) (conn_out v).
Definition add_nic_out (x : bytes) (v : VPN) : VPN :=
  MkVPN (nic v) (heap v) (pool v) (inbound v) (outbound v) (nic_out v ++ [x]) (conn_out v).
Definition add_conn_out (x : bytes * bytes) (v : VPN) : VPN :=
  MkVPN (nic v) (heap v) (pool v) (inbound v) (outbound v) (nic_out v) (conn_out v ++ [x]).

Abbreviation VM := (GoM VPN Empty_set).

(** The pool: [pick] is the element that [sync.Pool] hands out, a new packet when
    there is none. *)
Definition GetPacket (pick : nat) (data : bytes) : VM nat := fun v =>
  match pool v !! pick ≫= (fun id => p ← heap v !! id; Some (id, p)) with
  | Some (id, p) => (Ok id, set_pool (delete pick (pool v)) (set_heap (<[id := Write data p]> (heap v)) v))
  | None =>
      let id := fresh (dom (heap v)) in
      match NewPacket IPPacketOffset (1428 + IPPacketOffset) with
      | Ok p => (Ok id, set_heap (<[id := Write data p]> (heap v)) v)
      | _ => (Panic, v)
      end
  end.

Definition RecyclePacket (id : nat) : VM unit :=
  modify (fun v => set_pool (id :: pool v) (set_heap (alter Reset id (heap v)) v)).

Definition packet (id : nat) : VM Packet := fun v =>
  match heap v !! id with Some p => (Ok p, v) | None => (Panic, v) end.

Definition to_inbound (id : nat) : VM unit := fun v =>
  match @chan_send Empty_set _ id (inbound v) with Ok q => (Ok tt, set_inbound q v) | _ => (Panic, v) end.
Definition to_outbound (id : nat) : VM unit := fun v =>
  match @chan_send Empty_set _ id (outbound v) with Ok q => (Ok tt, set_outbound q v) | _ => (Panic, v) end.

Context (InboundHandlers OutboundHandlers : list (Packet -> option Packet)).
Context (ParseHeader4 ParseHeader6 : bytes -> option (IP * IP)) (local4 local6 : bytes).
Context (ICMPHostUnreachable : IP -> IP -> bytes -> bytes).

(** The handlers work on the packet in place; [false] when one drops it. *)
Fixpoint handle (hs : list (Packet -> option Packet)) (id : nat) : VM bool :=
  match hs with
  | [] => mret true
  | h :: hs =>
      p ← packet id;
      match h p with
      | None => mret false
      | Some p => _ ← modify (fun v => set_heap (<[id := p]> (heap v)) v); handle hs id
      end
  end.

(** A turn of each loop, from the packet it has received. *)
Definition nicRead (pick : nat) (data : bytes) : VM unit := id ← GetPacket pick data; to_outbound id.

Definition packetConnRead (pick : nat) (data : bytes) : VM unit := id ← GetPacket pick data; to_inbound id.

Definition nicWrite (id : nat) : VM unit :=
  kept ← handle InboundHandlers id;
  if (kept : bool) then
    p ← packet id;
    _ ← modify (add_nic_out (AsBytes p));
    RecyclePacket id
  else RecyclePacket id.

Definition sendPacketToPeer (order : list bytes) (pick : nat) (id : nat) (srcIP dstIP : IP) : VM unit :=
  p ← packet id;
  if IsMulticast dstIP then RecyclePacket id
  else
    peer ← (fun v => let '(r, n) := Nic.GetPeer order (ip_String dstIP) (nic v) in (Ok r, set_nic n v));
    match peer with
    | Some peer => _ ← modify (add_conn_out (AsBytes p, peer)); RecyclePacket id
    | None =>
        reject ← GetPacket pick (ICMPHostUnreachable dstIP srcIP (AsBytes p));
        _ ← to_inbound reject;
        RecyclePacket id
    end.

Definition route_packet (order : list bytes) (pick id : nat) (parse : bytes -> option (IP * IP)) (local : bytes) : VM unit :=
  p ← packet id;
  match parse (AsBytes p) with
  | None => panic
  | Some (src, dst) =>
      if bool_decide (ip_String dst = local) then to_inbound id
      else sendPacketToPeer order pick id src dst
  end.

Definition packetConnWrite (order : list bytes) (pick id : nat) : VM unit :=
  kept ← handle OutboundHandlers id;
  if (kept : bool) then
    p ← packet id;
    ver ← lift (Ver p);
    if bool_decide (ver = 4) then route_packet order pick id ParseHeader4 local4
    else if bool_decide (ver = 6) then route_packet order pick id ParseHeader6 local6
    else RecyclePacket id
  else RecyclePacket id.

(** What the goroutines do, in any order. *)
Inductive step : VPN -> VPN -> Prop :=
| StepNicRead pick data v v' : nicRead pick data v = (Ok tt, v') -> step v v'
| StepConnRead pick data v v' : packetConnRead pick data v = (Ok tt, v') -> step v v'
| StepNicWrite id q c v v' : inbound v = Chan (id :: q) c -> nicWrite id (set_inbound (Chan q c) v) = (Ok tt, v') -> step v v'
| StepConnWrite order pick id q c v v' :
    outbound v = Chan (id :: q) c -> packetConnWrite order pick id (set_outbound (Chan q c) v) = (Ok tt, v') -> step v v'
| StepNic n v : step v (set_nic n v).

(** ** Lemmas *)

(** Every packet has one owner: the pool or one place in one queue; besides the
    packets [held] by a turn of a loop. *)
Definition places (v : VPN) : list nat := pool v ++ queue (inbound v) ++ queue (outbound v).
Record owned (held : list nat) (v : VPN) : Prop := {
  own_once : NoDup (held ++ places v);
  own_heap id : id ∈ held ++ places v -> exists p, heap v !! id = Some p /\ wf p;
  own_reset id p : id ∈ pool v -> heap v !! id = Some p -> AsBytes p = []
}.

(** A computation that takes the packets [h] of a turn to [h' a]. *)
Definition moves {A} (h : list nat) (h' : A -> list nat) (m : VM A) : Prop :=
  forall v a v', owned h v -> m v = (Ok a, v') -> owned (h' a) v'.

Lemma moves_ret {A} h (a : A) : moves h (fun _ => h) (mret a).
Proof. intros v a' v' Ho [= <- <-]. done. Qed.

Lemma moves_bind {A B} h h' h'' (m : VM A) (k : A -> VM B) :
  moves h h' m -> (forall a, moves (h' a) h'' (k a)) -> moves h h'' (m ≫= k).
Proof.
  intros Hm Hk v b v' Ho H. rewrite gom_bind_run in H. destruct (m v) as [[a|e|] v1] eqn:E; [|done..].
  eapply Hk; [|exact H]. by eapply Hm.
Qed.

Lemma owned_perm h h' v : h ≡ₚ h' -> owned h v -> owned h' v.
Proof.
  intros Hp [H1 H2 H3]. split; [by rewrite <- Hp| |done]. intros id. rewrite <- Hp. apply H2.
Qed.

Lemma moves_modify h (f : VPN -> VPN) :
  (forall v, heap (f v) = heap v /\ places (f v) = places v /\ pool (f v) = pool v) -> moves h (fun _ => h) (modify f).
Proof.
  intros Hf v a v' [H1 H2 H3] [= <- <-]. destruct (Hf v) as (Ha & Hb & Hc). split; rewrite ?Ha, ?Hb, ?Hc; done.
Qed.

Lemma moves_packet h id : moves h (fun _ => h) (packet id).
Proof. intros v p v' Ho H. unfold packet in H. destruct (heap v !! id); [|done]. by injection H as _ <-. Qed.

Lemma owned_content h id p v :
  owned (id :: h) v -> wf p -> owned (id :: h) (set_heap (<[id := p]> (heap v)) v).
Proof.
  intros [H1 H2 H3] Hp. split; [done|..].
  - intros i Hi. simpl. destruct (decide (i = id)) as [->|Hne]; [exists p; by rewrite lookup_insert_eq|].
    rewrite lookup_insert_ne by done. by apply H2.
  - intros i q Hi. simpl. rewrite lookup_insert_ne; [by apply H3|]. intros <-.
    apply NoDup_cons in H1 as [Hni _]. apply Hni. unfold places. set_solver.
Qed.

Lemma moves_GetPacket h pick data : moves h (fun id => id :: h) (GetPacket pick data).
Proof.
  intros v id v' [H1 H2 H3] H. unfold GetPacket in H.
  destruct (pool v !! pick) as [i|] eqn:Ei; simpl in H.
  - assert (Hin : i ∈ pool v) by (by eapply list_elem_of_lookup_2).
    destruct (heap v !! i) as [p|] eqn:Ep; simpl in H.
    2:{ destruct (H2 i) as (p & Hp & _); [unfold places; set_solver|]. congruence. }
    injection H as <- <-. set (v1 := set_pool (delete pick (pool v)) v).
    assert (Hperm : pool v ≡ₚ i :: delete pick (pool v)) by (by apply delete_Permutation).
    assert (Ho : owned (i :: h) v1).
    { assert (Hpl : h ++ places v ≡ₚ (i :: h) ++ places v1).
      { unfold places. cbn [app v1 set_pool pool inbound outbound]. rewrite Permutation_middle.
        apply Permutation_app_head. exact (Permutation_app_tail _ Hperm). }
      split; [by rewrite <- Hpl|intros j; rewrite <- Hpl; apply H2|].
      intros j q Hj. apply H3. rewrite Hperm. by right. }
    change (owned (i :: h) (set_heap (<[i := Write data p]> (heap v1)) v1)).
    apply owned_content; [done|]. apply wf_Write. destruct (H2 i) as (p' & Hp' & Hw); [unfold places; set_solver|].
    congruence.
  - injection H as <- <-. set (i := fresh (dom (heap v))).
    assert (Hfresh : heap v !! i = None) by (apply not_elem_of_dom, is_fresh).
    assert (Hni : i ∉ h ++ places v).
    { intros Hi. destruct (H2 i Hi) as (p & Hp & _). congruence. }
    split.
    + simpl. apply NoDup_cons. done.
    + intros j Hj. simpl in Hj. simpl. destruct (decide (j = i)) as [->|Hne].
      * eexists. rewrite lookup_insert_eq. split; [reflexivity|].
        apply wf_Write. by vm_compute.
      * rewrite lookup_insert_ne by done. apply H2. apply elem_of_cons in Hj as [?|?]; done.
    + intros j q Hj. simpl. destruct (decide (j = i)) as [->|Hne]; [|rewrite lookup_insert_ne by done; by apply H3].
      exfalso. apply Hni. unfold places. set_solver.
Qed.

Lemma moves_Recycle h id : moves (id :: h) (fun _ => h) (RecyclePacket id).
Proof.
  intros v a v' [H1 H2 H3] [= <- <-].
  assert (Hp : h ++ places (set_pool (id :: pool v) (set_heap (alter Reset id (heap v)) v)) ≡ₚ (id :: h) ++ places v).
  { unfold places. simpl. by rewrite <- Permutation_middle. }
  split.
  - by rewrite Hp.
  - intros j. rewrite Hp. intros Hj. destruct (H2 j Hj) as (p & Hpj & Hw). simpl.
    destruct (decide (j = id)) as [->|Hne].
    + exists (Reset p). rewrite lookup_alter_eq, Hpj. split; [done|by apply wf_Reset].
    + exists p. by rewrite lookup_alter_ne.
  - intros j q Hj. simpl. destruct (decide (j = id)) as [->|Hne].
    + rewrite lookup_alter_eq. destruct (heap v !! id) as [p|]; [|done]. intros [= <-]. apply AsBytes_Reset.
    + rewrite lookup_alter_ne by done. apply H3. apply elem_of_cons in Hj as [?|?]; done.
Qed.

Lemma moves_inbound h id : moves (id :: h) (fun _ => h) (to_inbound id).
Proof.
  intros v a v' [H1 H2 H3] H. unfold to_inbound, chan_send in H. destruct (closed (inbound v)); [done|].
  injection H as _ <-.
  assert (Hp : h ++ places (set_inbound (Chan (queue (inbound v) ++ [id]) false) v) ≡ₚ (id :: h) ++ places v).
  { unfold places. simpl. solve_Permutation. }
  split; [by rewrite Hp|intros j; rewrite Hp; apply H2|exact H3].
Qed.

Lemma moves_outbound h id : moves (id :: h) (fun _ => h) (to_outbound id).
Proof.
  intros v a v' [H1 H2 H3] H. unfold to_outbound, chan_send in H. destruct (closed (outbound v)); [done|].
  injection H as _ <-.
  assert (Hp : h ++ places (set_outbound (Chan (queue (outbound v) ++ [id]) false) v) ≡ₚ (id :: h) ++ places v).
  { unfold places. simpl. solve_Permutation. }
  split; [by rewrite Hp|intros j; rewrite Hp; apply H2|exact H3].
Qed.

(** Handlers may change a packet but keep its header room. *)
Definition handlers_ok (hs : list (Packet -> option Packet)) : Prop :=
  forall h p p', h ∈ hs -> h p = Some p' -> wf p -> wf p'.

Lemma moves_handle hs h id : handlers_ok hs -> moves (id :: h) (fun _ => id :: h) (handle hs id).
Proof.
  induction hs as [|f hs IH]; intros Hok; [apply moves_ret|]. cbn [handle].
  intros v a v' Ho H. rewrite gom_bind_run in H. unfold packet in H. destruct (heap v !! id) as [p|] eqn:Ep; [|done].
  destruct (f p) as [p'|] eqn:Ef; [|by injection H as <- <-]. rewrite modify_bind in H.
  eapply IH; [|..|exact H]; [intros g q q' Hg; apply Hok; by right|]. apply owned_content; [done|].
  eapply Hok; [by left|exact Ef|]. destruct (own_heap _ v Ho id) as (p0 & Hp0 & Hw); [by left|]. congruence.
Qed.

#[local] Hint Resolve moves_packet moves_Recycle moves_inbound moves_handle : moves.

Lemma moves_then {A B} h h'' (m : VM A) (k : A -> VM B) :
  moves h (fun _ => h) m -> (forall a, moves h h'' (k a)) -> moves h h'' (m ≫= k).
Proof. apply moves_bind. Qed.

Lemma moves_nicRead pick data : moves [] (fun _ => []) (nicRead pick data).
Proof. eapply moves_bind; [apply moves_GetPacket|]. intros id. apply moves_outbound. Qed.

Lemma moves_packetConnRead pick data : moves [] (fun _ => []) (packetConnRead pick data).
Proof. eapply moves_bind; [apply moves_GetPacket|]. intros id. apply moves_inbound. Qed.

Lemma moves_nicWrite id : handlers_ok InboundHandlers -> moves [id] (fun _ => []) (nicWrite id).
Proof.
  intros Hok. eapply moves_then; [eauto with moves|]. intros [|]; [|eauto with moves].
  eapply moves_then; [eauto with moves|]. intros p. eapply moves_then; [by apply moves_modify|]. eauto with moves.
Qed.

Lemma moves_send order pick id src dst : moves [id] (fun _ => []) (sendPacketToPeer order pick id src dst).
Proof.
  eapply moves_then; [eauto with moves|]. intros p. destruct (IsMulticast dst); [eauto with moves|].
  eapply moves_then.
  - intros v a v' Ho H. destruct (Nic.GetPeer _ _ _) as [r n]. injection H as _ <-. by destruct Ho; split.
  - intros [peer|].
    + eapply moves_then; [by apply moves_modify|]. eauto with moves.
    + eapply moves_bind; [apply moves_GetPacket|]. intros reject. eapply moves_bind; [apply moves_inbound|].
      intros u. apply moves_Recycle.
Qed.

Lemma moves_route order pick id parse local : moves [id] (fun _ => []) (route_packet order pick id parse local).
Proof.
  eapply moves_then; [eauto with moves|]. intros p. destruct (parse _) as [[src dst]|].
  - destruct (bool_decide _); [eauto with moves|]. apply moves_send.
  - intros v a v' Ho H. done.
Qed.

Lemma moves_packetConnWrite order pick id :
  handlers_ok OutboundHandlers -> moves [id] (fun _ => []) (packetConnWrite order pick id).
Proof.
  intros Hok. eapply moves_then; [eauto with moves|]. intros [|]; [|eauto with moves].
  eapply moves_then; [eauto with moves|]. intros p.
  eapply (moves_then [id]); [intros v a v' Ho H; by injection H as _ <-|]. intros ver.
  destruct (bool_decide (ver = 4)); [apply moves_route|]. destruct (bool_decide (ver = 6)); [apply moves_route|].
  eauto with moves.
Qed.

Lemma owned_take_inbound id q c v : inbound v = Chan (id :: q) c -> owned [] v -> owned [id] (set_inbound (Chan q c) v).
Proof.
  intros Hq [H1 H2 H3].
  assert (Hp : [id] ++ places (set_inbound (Chan q c) v) ≡ₚ [] ++ places v).
  { unfold places. rewrite Hq. simpl. solve_Permutation. }
  split; [by rewrite Hp|intros j; rewrite Hp; apply H2|exact H3].
Qed.

Lemma owned_take_outbound id q c v : outbound v = Chan (id :: q) c -> owned [] v -> owned [id] (set_outbound (Chan q c) v).
Proof.
  intros Hq [H1 H2 H3].
  assert (Hp : [id] ++ places (set_outbound (Chan q c) v) ≡ₚ [] ++ places v).
  { unfold places. rewrite Hq. simpl. solve_Permutation. }
  split; [by rewrite Hp|intros j; rewrite Hp; apply H2|exact H3].
Qed.

Lemma step_owned v v' :
  handlers_ok InboundHandlers -> handlers_ok OutboundHandlers -> step v v' -> owned [] v -> owned [] v'.
Proof.
  intros Hi Ho. destruct 1 as [pick data v v' H|pick data v v' H|id q c v v' Hq H|order pick id q c v v' Hq H|n v]; intros Hv.
  - exact (moves_nicRead pick data v tt v' Hv H).
  - exact (moves_packetConnRead pick data v tt v' Hv H).
  - eapply moves_nicWrite; [done|..|exact H]. by apply owned_take_inbound.
  - eapply moves_packetConnWrite; [done|..|exact H]. by apply owned_take_outbound.
  - by destruct Hv; split.
Qed.

(** What becomes of a packet of the device. *)
Inductive fate := ToPeer (peer : bytes) | ToSelf | Dropped | Rejected (icmp : bytes) | Crash.

Definition fate_of (order : list bytes) (n : Nic.VirtualNIC) (data : bytes) : fate :=
  let routed parse local :=
    match parse data with
    | None => Crash
    | Some (src, dst) =>
        if bool_decide (ip_String dst = local) then ToSelf
        else if IsMulticast dst then Dropped
        else match (Nic.GetPeer order (ip_String dst) n).1 with
             | Some peer => ToPeer peer
             | None => Rejected (ICMPHostUnreachable dst src data)
             end
    end in
  match data with
  | [] => Crash
  | b :: _ =>
      if bool_decide (Z.shiftr (b2z b) 4 = 4) then routed ParseHeader4 local4
      else if bool_decide (Z.shiftr (b2z b) 4 = 6) then routed ParseHeader6 local6
      else Dropped
  end.

(** A packet taken from the pool holds what is written to it. *)
Lemma GetPacket_ok h pick data v :
  owned h v -> exists id v', GetPacket pick data v = (Ok id, v') /\
    AsBytes <$> heap v' !! id = Some data /\ inbound v' = inbound v /\ outbound v' = outbound v /\
    nic_out v' = nic_out v /\ conn_out v' = conn_out v /\ nic v' = nic v /\
    (forall j, j ∈ h ++ queue (inbound v) ++ queue (outbound v) -> heap v' !! j = heap v !! j).
Proof.
  intros Ho. unfold GetPacket. destruct (pool v !! pick) as [i|] eqn:Ei; simpl.
  - assert (Hin : i ∈ pool v) by (by eapply list_elem_of_lookup_2).
    destruct (own_heap h v Ho i) as (p & Hp & Hw); [unfold places; set_solver|]. rewrite Hp. simpl.
    do 2 eexists. split; [reflexivity|]. cbn. rewrite lookup_insert_eq. cbn.
    rewrite AsBytes_Write, (own_reset h v Ho i p Hin Hp) by done. split_and!; [done..|].
    intros j Hj. rewrite lookup_insert_ne; [done|]. intros <-.
    pose proof (own_once h v Ho) as Hnd. unfold places in Hnd. rewrite Permutation_app_swap_app in Hnd.
    apply NoDup_app in Hnd as (_ & Hdis & _). by apply (Hdis i Hin).
  - do 2 eexists. split; [reflexivity|]. cbn [heap set_heap inbound outbound nic_out conn_out nic].
    rewrite lookup_insert_eq. split_and!; [done..|].
    intros j Hj. rewrite lookup_insert_ne; [done|]. intros <-.
    destruct (own_heap h v Ho (fresh (dom (heap v)))) as (p & Hp & _); [unfold places; set_solver|].
    assert (Hf : heap v !! fresh (dom (heap v)) = None) by (apply not_elem_of_dom, is_fresh). congruence.
Qed.

Lemma packet_bind {A} id p (k : Packet -> VM A) v : heap v !! id = Some p -> (packet id ≫= k) v = k p v.
Proof. intros Hp. rewrite gom_bind_run. unfold packet. by rewrite Hp. Qed.

Lemma route_fate order pick id parse local p v :
  owned [id] v -> heap v !! id = Some p -> closed (inbound v) = false ->
  let r := route_packet order pick id parse local v in
  match parse (AsBytes p) with
  | None => r.1 = Panic
  | Some (src, dst) =>
      r.1 = Ok tt /\ nic_out r.2 = nic_out v /\
      if bool_decide (ip_String dst = local) then
        conn_out r.2 = conn_out v /\ queue (inbound r.2) = queue (inbound v) ++ [id] /\ heap r.2 !! id = Some p
      else if IsMulticast dst then conn_out r.2 = conn_out v /\ inbound r.2 = inbound v
      else match (Nic.GetPeer order (ip_String dst) (nic v)).1 with
           | Some peer => conn_out r.2 = conn_out v ++ [(AsBytes p, peer)] /\ inbound r.2 = inbound v
           | None => conn_out r.2 = conn_out v /\ exists i, queue (inbound r.2) = queue (inbound v) ++ [i] /\
               AsBytes <$> heap r.2 !! i = Some (ICMPHostUnreachable dst src (AsBytes p))
           end
  end.
Proof.
  intros Ho Hp Hop r. unfold r, route_packet. rewrite (packet_bind id p) by done.
  destruct (parse (AsBytes p)) as [[src dst]|]; [|done].
  destruct (bool_decide (ip_String dst = local)).
  { unfold to_inbound, chan_send. rewrite Hop. done. }
  unfold sendPacketToPeer. rewrite (packet_bind id p) by done. destruct (IsMulticast dst); [done|].
  rewrite gom_bind_run. destruct (Nic.GetPeer order (ip_String dst) (nic v)) as [[peer|] n]; [done|]. cbn [fst snd].
  assert (Ho1 : owned [id] (set_nic n v)) by (by destruct Ho; split).
  destruct (GetPacket_ok [id] pick (ICMPHostUnreachable dst src (AsBytes p)) _ Ho1)
    as (i & v1 & Hrun & Hi & Hin & _ & Hno & Hco & _ & _).
  pose proof (moves_GetPacket [id] pick _ _ i v1 Ho1 Hrun) as Ho2.
  assert (Hne : i <> id).
  { intros ->. pose proof (own_once _ _ Ho2) as Hnd. apply NoDup_cons in Hnd as [Hni _]. apply Hni. by left. }
  rewrite gom_bind_run, Hrun, gom_bind_run. unfold to_inbound, chan_send. rewrite Hin. cbn [inbound set_nic]. rewrite Hop.
  unfold RecyclePacket, modify. cbn [fst snd nic_out conn_out inbound heap set_pool set_heap set_inbound].
  split; [done|]. split; [done|]. split; [done|]. exists i. by rewrite lookup_alter_ne.
Qed.
End Vpn.

(** A turn of the loop without handlers looks at the version first. *)
Lemma packetConnWrite_version p4 p6 l4 l6 icmp order pick id p b rest v :
  heap v !! id = Some p -> Packet.AsBytes p = b :: rest ->
  packetConnWrite [] p4 p6 l4 l6 icmp order pick id v =
    (if bool_decide (Z.shiftr (b2z b) 4 = 4) then route_packet icmp order pick id p4 l4
     else if bool_decide (Z.shiftr (b2z b) 4 = 6) then route_packet icmp order pick id p6 l6 else RecyclePacket id) v.
Proof.
  intros Hp Hb. unfold packetConnWrite. cbn [handle]. rewrite gom_bind_run. cbn [mret gom_ret].
  rewrite (packet_bind id p) by done. rewrite lift_bind. unfold Packet.Ver. by rewrite Hb.
Qed.

(** ** Properties *)

(** Routing: an address that a peer announced goes to that peer.  Any other address
    goes, if a route covers it, to the gateway of a covering route, or nowhere when
    that route was deleted or its gateway is unknown; and which of the covering
    routes it is, is left to the order in which a map is walked: every one of them
    can be chosen, the most specific one has no priority and a deleted route can
    hide one that is there. *)
Theorem GetPeer_any_route order ip n lp lr :
  LruCache.repr (Nic.peers n) lp -> LruCache.repr (Nic.routing n) lr -> order ≡ₚ lr.*1 ->
  let covers c := Nic.route_Contains (ParseIP ip) c in
  let gateway v := if bool_decide (v = []) then None else Nic.addr_of n (LruCache.Dump (Nic.peers n) !! v) in
  match LruCache.Dump (Nic.peers n) !! ip with
  | Some i => (Nic.GetPeer order ip n).1 = Nic.addr_of n (Some i)
  | None =>
      ((Nic.GetPeer order ip n).1 = None /\ (forall c v, (c, v) ∈ lr -> covers c = false) \/
       exists c v, (c, v) ∈ lr /\ covers c = true /\ (Nic.GetPeer order ip n).1 = gateway v) /\
      forall c v, (c, v) ∈ lr -> covers c = true ->
        exists order', order' ≡ₚ lr.*1 /\ (Nic.GetPeer order' ip n).1 = gateway v
  end.
Proof.
  intros Rp Rr Ho covers gateway. unfold Nic.GetPeer.
  pose proof (cget_view ip (Nic.peers n) (ex_intro _ lp Rp)) as Hg.
  pose proof (fun k => cget_keeps ip (Nic.peers n) k (ex_intro _ lp Rp)) as Hk.
  pose proof (cget_ok ip (Nic.peers n) (ex_intro _ lp Rp)) as Hok.
  cbn [cget cview cok lru_laws] in *.
  destruct (LruCache.Get ip (Nic.peers n)) as [[i|] ps] eqn:Eg; cbn [fst snd] in *; rewrite <- Hg; [done|].
  assert (Hgate : forall rt v,
    (let '(r, ps0) := LruCache.Get v ps in
     (if bool_decide (v = []) then None else Nic.addr_of n r, Nic.set_routing rt (Nic.set_peers ps0 n))).1 =
    (if bool_decide (v = []) then None else Nic.addr_of n (LruCache.Dump (Nic.peers n) !! v))).
  { intros rt v. pose proof (cget_view v ps Hok) as Hv. cbn [cget cview lru_laws] in Hv. rewrite Hk in Hv.
    destruct (LruCache.Get v ps) as [r ps0]. cbn [fst snd] in *. by rewrite Hv. }
  split.
  - pose proof (LruCache.Find_correct (Nic.routing n) lr order (fun k _ => Nic.route_Contains (ParseIP ip) k) Rr Ho) as Hf.
    destruct (LruCache.Find order _ (Nic.routing n)) as [[[c v]|] rt].
    + right. exists c, v. destruct Hf as (Hd & Hc & _). rewrite (LruCache.repr_Dump _ _ _ Rr) in Hd.
      split; [by apply LruSpec.lookup_Some|]. split; [done|]. exact (Hgate rt v).
    + left. split; [exact (Hgate rt [])|]. intros c v Hin. apply (proj2 Hf c v).
      rewrite (LruCache.repr_Dump _ _ _ Rr). apply LruSpec.lookup_NoDup; [apply Rr|done].
  - intros c v Hin Hc.
    destruct (Nic.find_any (fun k _ => Nic.route_Contains (ParseIP ip) k) c v _ lr Rr Hin Hc) as (order' & Hp & Hfind).
    exists order'. split; [done|]. destruct (LruCache.Find order' _ (Nic.routing n)) as [found rt]. cbn [fst] in Hfind.
    subst found. exact (Hgate rt v).
Qed.

Definition new_vpn (n : Nic.VirtualNIC) : VPN := MkVPN n ∅ [] make_chan make_chan [] [].

(** C16. Packets are never shared: however the loops and the changes of the table are
    interleaved, every packet is in one place, in the pool or once in one of the two
    queues, and the packets in the pool are empty, so that a recycled packet is
    neither recycled again nor sent with leftovers. *)
Theorem packets_owned_once hi ho p4 p6 l4 l6 icmp n v :
  handlers_ok hi -> handlers_ok ho -> rtc (step hi ho p4 p6 l4 l6 icmp) (new_vpn n) v ->
  NoDup (pool v ++ queue (inbound v) ++ queue (outbound v)) /\
  (forall id, id ∈ pool v ++ queue (inbound v) ++ queue (outbound v) -> exists p, heap v !! id = Some p /\ Packet.wf p) /\
  (forall id p, id ∈ pool v -> heap v !! id = Some p -> Packet.AsBytes p = []).
Proof.
  intros Hi Ho Hr.
  assert (Hown : owned [] v).
  { apply (rtc_invariant (step hi ho p4 p6 l4 l6 icmp) (owned []) (new_vpn n)); [|done|].
    - intros a b Hs Ha. exact (step_owned hi ho p4 p6 l4 l6 icmp a b Hi Ho Hs Ha).
    - split; [apply NoDup_nil_2|intros id Hid; by apply not_elem_of_nil in Hid|intros id p Hid; by apply not_elem_of_nil in Hid]. }
  destruct Hown as [H1 H2 H3]. done.
Qed.

(** C14. A packet of the device, without handlers: it is written to the peer that has its
    destination, unchanged; looped back when it is for this node; answered with
    "host unreachable" when nobody has the destination; dropped when it is
    multicast or of another version; and it brings the process down when it is
    empty or its header does not parse. *)
Theorem outbound_fate p4 p6 l4 l6 icmp order pick id p v :
  owned [id] v -> heap v !! id = Some p -> closed (inbound v) = false ->
  let data := Packet.AsBytes p in
  let r := packetConnWrite [] p4 p6 l4 l6 icmp order pick id v in
  match fate_of p4 p6 l4 l6 icmp order (nic v) data with
  | ToPeer peer => r.1 = Ok tt /\ conn_out r.2 = conn_out v ++ [(data, peer)] /\ inbound r.2 = inbound v
  | ToSelf => r.1 = Ok tt /\ conn_out r.2 = conn_out v /\ queue (inbound r.2) = queue (inbound v) ++ [id] /\
      heap r.2 !! id = Some p
  | Rejected b => r.1 = Ok tt /\ conn_out r.2 = conn_out v /\ exists i,
      queue (inbound r.2) = queue (inbound v) ++ [i] /\ Packet.AsBytes <$> heap r.2 !! i = Some b
  | Dropped => r.1 = Ok tt /\ conn_out r.2 = conn_out v /\ inbound r.2 = inbound v
  | Crash => r.1 = Panic
  end.
Proof.
  intros Ho Hp Hop data r. unfold r, fate_of. destruct data as [|b rest] eqn:Ed.
  { unfold packetConnWrite. cbn [handle]. rewrite gom_bind_run. cbn [mret gom_ret].
    rewrite (packet_bind id p) by done. rewrite lift_bind. unfold Packet.Ver. fold data. by rewrite Ed. }
  rewrite (packetConnWrite_version _ _ _ _ _ _ _ _ p b rest) by done. cbv zeta.
  pose proof (fun parse local => route_fate p4 p6 l6 icmp order pick id parse local p v Ho Hp Hop) as Hroute.
  fold data in Hroute. rewrite Ed in Hroute.
  destruct (bool_decide (Z.shiftr (b2z b) 4 = 4)); [specialize (Hroute p4 l4)|
    destruct (bool_decide (Z.shiftr (b2z b) 4 = 6)); [specialize (Hroute p6 l6)|done]];
    cbv zeta in Hroute; (destruct (_ (b :: rest)) as [[src dst]|]; [|exact Hroute]);
    destruct Hroute as (H1 & _ & H2); destruct (bool_decide (ip_String dst = _)); [tauto| |tauto|];
    (destruct (IsMulticast dst); [tauto|]); by destruct (Nic.GetPeer order (ip_String dst) (nic v)).1.
Qed.

(** ** Witnesses *)

Module Examples.
Import LruCache.

Definition nic0 : Nic.VirtualNIC := match Nic.init with Ok n => n | _ => Nic.MkNIC
  {| capacity := 1; cache := ∅; elems := []; entries := ∅; fresh := 0 |}
  {| capacity := 1; cache := ∅; elems := []; entries := ∅; fresh := 0 |} [] end.
Definition ip (a b c d : Z) : IP := [z2b a; z2b b; z2b c; z2b d].
Definition net_10_1 : IPNet := MkIPNet (ip 10 1 0 0) (ip 255 255 0 0).
Definition net_10 : IPNet := MkIPNet (ip 10 0 0 0) (ip 255 0 0 0).

(** The peer [b] has 10.0.0.2 and is the gateway of 10/8; a route for 10.1/16 was
    deleted. *)
Definition nic1 : Nic.VirtualNIC :=
  (Nic.DelRoute net_10_1 (ip 10 0 0 2)
    (Nic.AddRoute net_10 (ip 10 0 0 2) (Nic.AddPeer (Nic.MkPeer (bs "b") (bs "10.0.0.2") [] ∅) nic0)).2).2.

Lemma nic1_peers : exists lp, repr (Nic.peers nic1) lp.
Proof. eexists. apply (repr_Put (bs "10.0.0.2") 0%nat), (repr_New 1024). reflexivity. Qed.

Definition routes1 : list (bytes * bytes) := [(bs "10.1.0.0/16", []); (bs "10.0.0.0/8", bs "10.0.0.2")].
Lemma nic1_routes : repr (Nic.routing nic1) routes1.
Proof.
  exact (repr_Put (bs "10.1.0.0/16") [] _ _ (repr_Put (bs "10.0.0.0/8") (bs "10.0.0.2") _ [] (repr_New 512 _ eq_refl))).
Qed.

(** The deleted route hides the one that is there, or not. *)
Lemma deleted_route_hides :
  (Nic.GetPeer [bs "10.1.0.0/16"; bs "10.0.0.0/8"] (bs "10.1.2.3") nic1).1 = None /\
  (Nic.GetPeer [bs "10.0.0.0/8"; bs "10.1.0.0/16"] (bs "10.1.2.3") nic1).1 = Some (bs "b").
Proof. split; vm_compute; reflexivity. Qed.

Lemma GetPeer_any_route_witness :
  let covers c := Nic.route_Contains (ParseIP (bs "10.1.2.3")) c in
  let gateway v := if bool_decide (v = []) then None else Nic.addr_of nic1 (Dump (Nic.peers nic1) !! v) in
  match Dump (Nic.peers nic1) !! bs "10.1.2.3" with
  | Some i => (Nic.GetPeer routes1.*1 (bs "10.1.2.3") nic1).1 = Nic.addr_of nic1 (Some i)
  | None =>
      ((Nic.GetPeer routes1.*1 (bs "10.1.2.3") nic1).1 = None /\ (forall c v, (c, v) ∈ routes1 -> covers c = false) \/
       exists c v, (c, v) ∈ routes1 /\ covers c = true /\ (Nic.GetPeer routes1.*1 (bs "10.1.2.3") nic1).1 = gateway v) /\
      forall c v, (c, v) ∈ routes1 -> covers c = true ->
        exists order', order' ≡ₚ routes1.*1 /\ (Nic.GetPeer order' (bs "10.1.2.3") nic1).1 = gateway v
  end.
Proof.
  destruct nic1_peers as [lp Hlp].
  exact (GetPeer_any_route routes1.*1 (bs "10.1.2.3") nic1 lp routes1 Hlp nic1_routes (Permutation_refl _)).
Defined.

(** Headers in which the fifth byte ends the source and the sixth the destination. *)
Definition toy_header (data : bytes) : option (IP * IP) :=
  match data with
  | [_; a; b] => Some (ip 10 0 0 (b2z a), ip 10 0 0 (b2z b))
  | _ => None
  end.
Definition toy_icmp (_ _ : IP) (data : bytes) : bytes := z2b 1 :: data.
Definition ex_packet : Packet.Packet := Packet.MkPacket (repeat (z2b 0) 16 ++ [z2b 69; z2b 1; z2b 2]) 16.
Definition ex_vpn : VPN := MkVPN nic1 {[7%nat := ex_packet]} [] make_chan make_chan [] [].

Lemma ex_owned : owned [7%nat] ex_vpn.
Proof.
  split.
  - apply NoDup_singleton.
  - intros id Hid. apply list_elem_of_singleton in Hid as ->. exists ex_packet. by vm_compute.
  - intros id p Hid. by apply not_elem_of_nil in Hid.
Qed.

Lemma outbound_fate_witness :
  let r := packetConnWrite [] toy_header toy_header [] [] toy_icmp [] 0 7 ex_vpn in
  r.1 = Ok tt /\ conn_out r.2 = [([z2b 69; z2b 1; z2b 2], bs "b")] /\ inbound r.2 = inbound ex_vpn.
Proof.
  exact (outbound_fate toy_header toy_header [] [] toy_icmp [] 0 7 ex_packet ex_vpn ex_owned eq_refl eq_refl).
Defined.

Lemma packets_owned_once_witness :
  exists v, rtc (step [] [] toy_header toy_header [] [] toy_icmp) (new_vpn nic1) v /\ queue (inbound v) <> [] /\
  NoDup (pool v ++ queue (inbound v) ++ queue (outbound v)) /\
  (forall id, id ∈ pool v ++ queue (inbound v) ++ queue (outbound v) -> exists p, heap v !! id = Some p /\ Packet.wf p) /\
  (forall id p, id ∈ pool v -> heap v !! id = Some p -> Packet.AsBytes p = []).
Proof.
  set (v := (packetConnRead 0 (bs "x") (new_vpn nic1)).2).
  assert (Hr : rtc (step [] [] toy_header toy_header [] [] toy_icmp) (new_vpn nic1) v).
  { apply rtc_once. by apply (StepConnRead _ _ _ _ _ _ _ 0 (bs "x")). }
  exists v. split; [exact Hr|]. split; [discriminate|].
  refine (packets_owned_once [] [] toy_header toy_header [] [] toy_icmp nic1 v _ _ Hr);
    intros h p p' Hh; by apply not_elem_of_nil in Hh.
Defined.
End Examples.
