(* ===== verification/Duplex.v ===== *)
(** * Duplex: two programs on the ends of a connection

    Code that talks over a [net.Conn] is a tree [io]: it reads exactly [n] bytes
    (as [io.ReadFull] does, however the bytes arrive), writes, returns, or panics.
    A [conf] holds the two ends and the bytes under way in each direction; [step]
    lets either end act when it can.  The steps of the ends commute, so a session
    has one outcome whatever the schedule ([session_unique]): a protocol is
    verified by exhibiting one complete run, put together from what each end does
    alone ([talk]). *)

From S2P Require Import Prelude.

Inductive io (A : Type) : Type :=
| Ret (a : A)
| ReadN (n : nat) (k : bytes -> bool -> io A)
| Write (b : bytes) (k : bool -> io A)
| Crash.
Arguments Ret {A} a.
Arguments ReadN {A} n k.
Arguments Write {A} b k.
Arguments Crash {A}.

#[export] Instance io_ret : MRet io := @Ret.
#[export] Instance io_bind : MBind io := fun A B f =>
  fix go (p : io A) : io B :=
    match p with
    | Ret a => f a
    | ReadN n k => ReadN n (fun d ok => go (k d ok))
    | Write b k => Write b (fun ok => go (k ok))
    | Crash => Crash
    end.

(** Errors of the connection itself. *)
Inductive conn_error := EOF | UnexpectedEOF | WriteFailed.

(** [if err != nil { return f }; k] *)
Definition or_fail {E B} (e : option E) (f : E -> io B) (k : io B) : io B :=
  match e with Some e => f e | None => k end.
Notation "'onerr' e 'as' x 'give' f 'in' k" := (or_fail e (fun x => f) k)
  (at level 200, e at level 100, x name, f at level 100, k at level 200).

(** [io.ReadFull(c, buf[lo:hi])]: the buffer afterwards and the error. *)
Definition fill (buf : bytes) (lo : nat) (d : bytes) : bytes :=
  take lo buf ++ d ++ drop (lo + length d) buf.
Definition short_error (d : bytes) (ok : bool) : option conn_error :=
  if ok then None else Some (if bool_decide (d = []) then EOF else UnexpectedEOF).
Definition ReadFull (buf : bytes) (lo hi : nat) : io (bytes * option conn_error) :=
  if bool_decide (lo <= hi)%nat && bool_decide (hi <= length buf)%nat then
    ReadN (hi - lo) (fun d ok => Ret (fill buf lo d, short_error d ok))
  else Crash.

(** [c.Write(b)] *)
Definition WriteAll (b : bytes) : io (option conn_error) :=
  Write b (fun ok => Ret (if ok then None else Some WriteFailed)).

(** [buf[i]] and [buf[:n]] *)
Definition at_index (buf : bytes) (i : nat) : io byte :=
  match buf !! i with Some b => Ret b | None => Crash end.
Definition upto (buf : bytes) (n : nat) : io bytes :=
  if bool_decide (n <= length buf)%nat then Ret (take n buf) else Crash.

(** ** One end against recorded input

    [inp] is all that the other end ever sends and [w] the number of writes that
    succeed: what the program returns ([None] when it panics), the input left and
    the bytes written. *)
Fixpoint run {A} (p : io A) (inp : bytes) (w : nat) : option A * bytes * bytes :=
  match p with
  | Ret a => (Some a, inp, [])
  | Crash => (None, inp, [])
  | ReadN n k =>
      if bool_decide (n <= length inp)%nat then run (k (take n inp) true) (drop n inp) w
      else run (k inp false) [] w
  | Write b k =>
      match w with
      | O => run (k false) inp O
      | S w => let r := run (k true) inp w in (r.1.1, r.1.2, b ++ r.2)
      end
  end.

(** ** Both ends *)

Record conf (A B : Type) := Conf { lhs : io A; rhs : io B; to_rhs : bytes; to_lhs : bytes }.
Arguments Conf {A B} _ _ _ _.
Arguments lhs {A B} _.
Arguments rhs {A B} _.
Arguments to_rhs {A B} _.
Arguments to_lhs {A B} _.

Definition done {A} (p : io A) : bool :=
  match p with Ret _ | Crash => true | _ => false end.

(** What one end can do, with the bytes that have arrived: the new program, the
    bytes left and those it writes.  A read comes up short only when the other
    end is done and closes. *)
Definition act {A} (p : io A) (inq : bytes) (peer_done : bool) : option (io A * bytes * bytes) :=
  match p with
  | Ret _ | Crash => None
  | Write b k => Some (k true, inq, b)
  | ReadN n k =>
      if bool_decide (n <= length inq)%nat then Some (k (take n inq) true, drop n inq, [])
      else if peer_done then Some (k inq false, [], []) else None
  end.

Inductive step {A B} : conf A B -> conf A B -> Prop :=
| step_lhs p q a s p' s' w : act p s (done q) = Some (p', s', w) -> step (Conf p q a s) (Conf p' q (a ++ w) s')
| step_rhs p q a s q' a' w : act q a (done p) = Some (q', a', w) -> step (Conf p q a s) (Conf p q' a' (s ++ w)).

Definition final {A B} (c : conf A B) : Prop := done (lhs c) = true /\ done (rhs c) = true.

(** ** Schedules do not matter *)

Lemma act_done {A} (p : io A) s d : done p = true -> act p s d = None.
Proof. by destruct p. Qed.

Lemma act_more {A} (p : io A) s d d' x p' s' w :
  act p s d = Some (p', s', w) -> (d = true -> x = [] /\ d' = true) -> act p (s ++ x) d' = Some (p', s' ++ x, w).
Proof.
  destruct p as [a|n k|b k|]; simpl; [done| |by intros [= <- <- <-]|done].
  intros Hact Hd. destruct (decide (n <= length s)%nat) as [Hn|Hn].
  - rewrite (bool_decide_true _ Hn) in Hact. injection Hact as <- <- <-.
    rewrite bool_decide_true by (rewrite length_app; lia).
    by rewrite take_app_le, drop_app_le.
  - rewrite (bool_decide_false _ Hn) in Hact. destruct d; [|done].
    destruct (Hd eq_refl) as [-> ->]. injection Hact as <- <- <-.
    rewrite app_nil_r, (bool_decide_false _ Hn). done.
Qed.

Lemma act_done_more {A} (p : io A) s d d' p' s' w :
  act p s d = Some (p', s', w) -> (d = true -> d' = true) -> act p s d' = Some (p', s', w).
Proof.
  intros Hact Hd. pose proof (act_more p s d d' [] p' s' w Hact) as H.
  rewrite !app_nil_r in H. auto.
Qed.

Lemma step_diamond {A B} (c c1 c2 : conf A B) :
  step c c1 -> step c c2 -> c1 = c2 \/ exists d, step c1 d /\ step c2 d.
Proof.
  assert (Hmix : forall p q a s p' s' w q' a' w',
    act p s (done q) = Some (p', s', w) -> act q a (done p) = Some (q', a', w') ->
    exists d : conf A B, step (Conf p' q (a ++ w) s') d /\ step (Conf p q' a' (s ++ w')) d).
  { intros p q a s p' s' w q' a' w' Hp Hq. exists (Conf p' q' (a' ++ w) (s' ++ w')). split.
    - apply step_rhs. apply (act_more q a (done p)); [done|].
      intros Hd. by rewrite act_done in Hp.
    - apply step_lhs. apply (act_more p s (done q)); [done|].
      intros Hd. by rewrite act_done in Hq. }
  intros H1 H2. destruct H1; inversion H2; subst.
  - left. congruence.
  - right. eauto.
  - right. destruct (Hmix p q a s p' s' w0 q' a' w) as (d & ? & ?); eauto.
  - left. congruence.
Qed.

Lemma final_stuck {A B} (c c' : conf A B) : final c -> ~ step c c'.
Proof. intros [Hl Hr] Hs. destruct Hs; simpl in *; [by rewrite act_done in H|by rewrite act_done in H]. Qed.

(** A session that can end, always ends, and in one way: every run is a part of
    a run of the same length. *)
Lemma session_steps {A B} n (c e : conf A B) :
  nsteps step n c e -> final e ->
  forall m c', nsteps step m c c' -> (m <= n)%nat /\ nsteps step (n - m) c' e.
Proof.
  intros Hn He. revert c Hn. induction n as [n IH] using lt_wf_ind. intros c Hn m c' Hm. destruct n as [|n].
  - inversion Hn; subst. destruct m; [by inversion Hm; subst|].
    inversion Hm as [|? ? c1 ? Hc1 _]; subst. by destruct (final_stuck e c1 He).
  - destruct m as [|m].
    { inversion Hm; subst. split; [lia|]. by rewrite Nat.sub_0_r. }
    inversion Hn as [|? ? c1 ? Hc1 Hn1]; subst. inversion Hm as [|? ? c2 ? Hc2 Hm2]; subst.
    assert (Hc2n : nsteps step n c2 e).
    { destruct (step_diamond c c1 c2 Hc1 Hc2) as [->|(d & Hd1 & Hd2)]; [done|].
      destruct (IH n ltac:(lia) c1 Hn1 1%nat d) as [Hle Hd]; [by apply nsteps_once|].
      destruct n as [|n]; [lia|]. simpl in Hd. rewrite Nat.sub_0_r in Hd. by econstructor. }
    destruct (IH n ltac:(lia) c2 Hc2n m c' Hm2) as [Hle Hc']. split; [lia|]. done.
Qed.

Lemma session_unique {A B} (c e : conf A B) :
  rtc step c e -> final e -> forall c', rtc step c c' -> rtc step c' e.
Proof.
  intros [n Hn]%rtc_nsteps He c' [m Hm]%rtc_nsteps.
  destruct (session_steps n c e Hn He m c' Hm) as [_ H]. apply rtc_nsteps. eauto.
Qed.

(** [settles c e]: every schedule from [c] can go on to the end [e], within a
    bounded number of steps. *)
Definition settles {A B} (c e : conf A B) : Prop :=
  final e /\ exists n, forall m c', nsteps step m c c' -> (m <= n)%nat /\ rtc step c' e.

Lemma settles_run {A B} (c e : conf A B) : rtc step c e -> final e -> settles c e.
Proof.
  intros [n Hn]%rtc_nsteps He. split; [done|]. exists n. intros m c' Hm.
  destruct (session_steps n c e Hn He m c' Hm) as [Hle H]. split; [done|]. apply rtc_nsteps. eauto.
Qed.

(** ** What one end does alone

    [talk p i o p']: [p] reads the bytes [i], writes [o] and becomes [p']. *)
Inductive talk {A} : io A -> bytes -> bytes -> io A -> Prop :=
| talk_refl p : talk p [] [] p
| talk_read n k d i o p' : length d = n -> talk (k d true) i o p' -> talk (ReadN n k) (d ++ i) o p'
| talk_write b k i o p' : talk (k true) i o p' -> talk (Write b k) i (b ++ o) p'.

Lemma talk_trans {A} (p : io A) i o p' i' o' p'' :
  talk p i o p' -> talk p' i' o' p'' -> talk p (i ++ i') (o ++ o') p''.
Proof.
  induction 1; intros; [done| |]; rewrite <- ?app_assoc; constructor; auto.
Qed.

Lemma talk_bind {A B} (p : io A) i o p' (f : A -> io B) : talk p i o p' -> talk (p ≫= f) i o (p' ≫= f).
Proof. induction 1; simpl; [apply talk_refl| |]; by constructor. Qed.

Lemma talk_ret {A B} (p : io A) i o a (f : A -> io B) i' o' p' :
  talk p i o (Ret a) -> talk (f a) i' o' p' -> talk (p ≫= f) (i ++ i') (o ++ o') p'.
Proof. intros H1 H2. apply (talk_trans _ _ _ (f a)); [by apply (talk_bind p i o (Ret a) f)|done]. Qed.

Lemma talk_lhs {A B} (p p' : io A) (q : io B) i o a s :
  talk p i o p' -> rtc step (Conf p q a (i ++ s)) (Conf p' q (a ++ o) s).
Proof.
  intros H. revert a s. induction H as [p|n k d i o p' Hd _ IH|b k i o p' _ IH]; intros a s.
  - by rewrite app_nil_r.
  - eapply rtc_l; [|apply IH]. rewrite <- (app_nil_r a) at 2. apply step_lhs. simpl.
    rewrite bool_decide_true by (rewrite !length_app; lia).
    rewrite <- app_assoc, <- Hd, take_app_length, drop_app_length. done.
  - eapply rtc_l; [by apply step_lhs|]. rewrite app_assoc. apply IH.
Qed.

Lemma talk_rhs {A B} (p : io A) (q q' : io B) i o a s :
  talk q i o q' -> rtc step (Conf p q (i ++ a) s) (Conf p q' a (s ++ o)).
Proof.
  intros H. revert a s. induction H as [q|n k d i o q' Hd _ IH|b k i o q' _ IH]; intros a s.
  - by rewrite app_nil_r.
  - eapply rtc_l; [|apply IH]. rewrite <- (app_nil_r s) at 2. apply step_rhs. simpl.
    rewrite bool_decide_true by (rewrite !length_app; lia).
    rewrite <- app_assoc, <- Hd, take_app_length, drop_app_length. done.
  - eapply rtc_l; [by apply step_rhs|]. rewrite app_assoc. apply IH.
Qed.

(** The same in the shape a session is stepped through: the queue of the other
    direction is empty. *)
Lemma lhs_turn {A B} (p p' : io A) (q : io B) i o e :
  talk p i o p' -> rtc step (Conf p' q o []) e -> rtc step (Conf p q [] i) e.
Proof.
  intros H He. etrans; [|exact He].
  pose proof (talk_lhs p p' q i o [] [] H) as Hr. by rewrite app_nil_r in Hr.
Qed.

Lemma rhs_turn {A B} (p : io A) (q q' : io B) i o e :
  talk q i o q' -> rtc step (Conf p q' [] o) e -> rtc step (Conf p q i []) e.
Proof.
  intros H He. etrans; [|exact He].
  pose proof (talk_rhs p q q' i o [] [] H) as Hr. by rewrite app_nil_r in Hr.
Qed.

Lemma lhs_turn_over {A B} (p p' : io A) (q : io B) i o a e :
  talk p i o p' -> rtc step (Conf p' q (a ++ o) []) e -> rtc step (Conf p q a i) e.
Proof.
  intros H He. etrans; [|exact He].
  pose proof (talk_lhs p p' q i o a [] H) as Hr. by rewrite app_nil_r in Hr.
Qed.

(** The other end has closed and nothing is under way. *)
Lemma lhs_eof {A B} n k (q : io B) a (e : conf A B) :
  (0 < n)%nat -> done q = true -> rtc step (Conf (k [] false) q a []) e -> rtc step (Conf (ReadN n k) q a []) e.
Proof.
  intros Hn Hq He. eapply rtc_l; [|exact He]. rewrite <- (app_nil_r a) at 2. apply step_lhs. simpl.
  rewrite bool_decide_false by (simpl; lia). by rewrite Hq.
Qed.

Lemma rhs_eof {A B} n k (p : io A) s (e : conf A B) :
  (0 < n)%nat -> done p = true -> rtc step (Conf p (k [] false) [] s) e -> rtc step (Conf p (ReadN n k) [] s) e.
Proof.
  intros Hn Hp He. eapply rtc_l; [|exact He]. rewrite <- (app_nil_r s) at 2. apply step_rhs. simpl.
  rewrite bool_decide_false by (simpl; lia). by rewrite Hp.
Qed.

(** Steps of [talk] for the operations of the library. *)
Lemma talk_ReadFull buf lo hi d :
  (lo <= hi)%nat -> (hi <= length buf)%nat -> length d = (hi - lo)%nat ->
  talk (ReadFull buf lo hi) d [] (Ret (fill buf lo d, None)).
Proof.
  intros Hlo Hhi Hd. unfold ReadFull. rewrite !bool_decide_true by done. cbn [andb].
  rewrite <- (app_nil_r d) at 1. apply talk_read; [done|]. apply talk_refl.
Qed.

Lemma talk_WriteAll b : talk (WriteAll b) [] b (Ret None).
Proof. unfold WriteAll. rewrite <- (app_nil_r b) at 2. apply talk_write, talk_refl. Qed.

Lemma length_fill buf lo d : (lo + length d <= length buf)%nat -> length (fill buf lo d) = length buf.
Proof. intros H. unfold fill. rewrite !length_app, length_take, length_drop. lia. Qed.

Lemma take_fill buf lo d : (lo + length d <= length buf)%nat -> take (lo + length d) (fill buf lo d) = take lo buf ++ d.
Proof.
  intros H. unfold fill. rewrite app_assoc. apply take_app_length'. rewrite length_app, length_take. lia.
Qed.


Lemma run_ReadFull {B} buf lo hi (f : bytes * option conn_error -> io B) s w :
  (lo <= hi)%nat -> (hi <= length buf)%nat ->
  run (ReadFull buf lo hi ≫= f) s w =
  if bool_decide (hi - lo <= length s)%nat then
    run (f (fill buf lo (take (hi - lo) s), None)) (drop (hi - lo) s) w
  else run (f (fill buf lo s, short_error s false)) [] w.
Proof.
  intros Hlo Hhi. unfold ReadFull. rewrite !bool_decide_true by done. done.
Qed.

Lemma talk_ReadFull_bind {B} x lo hi d (k : bytes * option conn_error -> io B) i o p' :
  length d = (hi - lo)%nat -> (lo <= hi)%nat -> (hi <= length x)%nat ->
  talk (k (fill x lo d, None)) i o p' -> talk (ReadFull x lo hi ≫= k) (d ++ i) o p'.
Proof.
  intros Hd Hlo Hhi Hk.
  apply (talk_ret _ d [] (fill x lo d, None) k i o p'); [by apply talk_ReadFull|done].
Qed.

Lemma talk_WriteAll_bind {B} b (k : option conn_error -> io B) i o p' :
  talk (k None) i o p' -> talk (WriteAll b ≫= k) i (b ++ o) p'.
Proof. intros Hk. apply (talk_ret _ [] b None k i o p'); [apply talk_WriteAll|done]. Qed.

Lemma upto_bind {B} x n (k : bytes -> io B) : (n <= length x)%nat -> upto x n ≫= k = k (take n x).
Proof. intros H. unfold upto. by rewrite bool_decide_true. Qed.

Lemma take_fill0 buf d : (length d <= length buf)%nat -> take (length d) (fill buf 0 d) = d.
Proof. apply (take_fill buf 0 d). Qed.

Lemma at_index_bind {B} buf i b (k : byte -> io B) : buf !! i = Some b -> at_index buf i ≫= k = k b.
Proof. unfold at_index. by intros ->. Qed.

Ltac at_idx := erewrite at_index_bind by reflexivity; cbv beta zeta.

Lemma talk_last_write {B} b (k : option conn_error -> io B) p' :
  talk (k None) [] [] p' -> talk (WriteAll b ≫= k) [] b p'.
Proof. intros H. pose proof (talk_WriteAll_bind b k [] [] p' H) as Hw. by rewrite app_nil_r in Hw. Qed.

Lemma talk_last_read {B} x lo hi d (k : bytes * option conn_error -> io B) o p' :
  length d = (hi - lo)%nat -> (lo <= hi)%nat -> (hi <= length x)%nat ->
  talk (k (fill x lo d, None)) [] o p' -> talk (ReadFull x lo hi ≫= k) d o p'.
Proof. intros Hd Hlo Hhi H. pose proof (talk_ReadFull_bind x lo hi d k [] o p' Hd Hlo Hhi H) as Hw.
  by rewrite app_nil_r in Hw. Qed.

Lemma ReadFull_ok x lo hi :
  (lo <= hi)%nat -> (hi <= length x)%nat ->
  ReadFull x lo hi = ReadN (hi - lo) (fun d ok => Ret (fill x lo d, short_error d ok)).
Proof. intros Hlo Hhi. unfold ReadFull. by rewrite !bool_decide_true. Qed.

(** *** What a run of a composed program went through *)

Lemma run_bind_inv {A B} (p : io A) (k : A -> io B) s w b rest out :
  run (p ≫= k) s w = (Some b, rest, out) ->
  exists a s' w' o1 o2, run p s w = (Some a, s', o1) /\ run (k a) s' w' = (Some b, rest, o2).
Proof.
  revert s w out. induction p as [a|n f IH|d f IH|]; intros s w out H; simpl in H.
  - by exists a, s, w, [], out.
  - simpl. case_bool_decide; by apply IH in H.
  - destruct w as [|w].
    + apply IH in H as (a & s' & w' & o1 & o2 & H1 & H2). exists a, s', w', o1, o2. by simpl.
    + change (io_bind _ _ k (f true)) with (f true ≫= k) in H.
      destruct (run (f true ≫= k) s w) as [[r t] o] eqn:E. injection H as -> -> <-.
      apply IH in E as (a & s' & w' & o1 & o2 & H1 & H2). exists a, s', w', (d ++ o1), o2. simpl. by rewrite H1.
  - done.
Qed.

(** The bytes a program leaves are the end of those it was given. *)
Lemma run_suffix {A} (p : io A) s w : exists pre, s = pre ++ (run p s w).1.2.
Proof.
  revert s w. induction p as [a|n f IH|d f IH|]; intros s w; simpl.
  - by exists [].
  - case_bool_decide.
    + destruct (IH (take n s) true (drop n s) w) as [pre Hp]. exists (take n s ++ pre). by rewrite <- app_assoc, <- Hp, take_drop.
    + destruct (IH s false [] w) as [pre Hp]. symmetry in Hp. apply app_nil in Hp as [-> Hp]. exists s. by rewrite Hp, app_nil_r.
  - destruct w as [|w]; [apply IH|]. simpl. apply IH.
  - by exists [].
Qed.

(** After an error of a call nothing else is done. *)
Lemma or_fail_inv {E B} (e : option E) (f : E -> io B) k s w r :
  run (or_fail e f k) s w = r -> (forall x, e = Some x -> run (f x) s w <> r) -> e = None /\ run k s w = r.
Proof. destruct e as [x|]; cbn [or_fail]; [|done]. intros H Hn. by destruct (Hn x eq_refl). Qed.

(** ** Programs that never panic *)

(** [safe Q p]: whatever is read and however the writes go, [p] does not panic,
    and what it returns satisfies [Q]. *)
Inductive safe {A} (Q : A -> Prop) : io A -> Prop :=
| safe_ret a : Q a -> safe Q (Ret a)
| safe_read n k :
    (forall d ok, (length d <= n)%nat -> (ok = true -> length d = n) -> safe Q (k d ok)) -> safe Q (ReadN n k)
| safe_write b k : (forall ok, safe Q (k ok)) -> safe Q (Write b k).

Lemma safe_run {A} (Q : A -> Prop) (p : io A) :
  safe Q p -> forall s w, exists a, (run p s w).1.1 = Some a /\ Q a.
Proof.
  induction 1 as [a|n k _ IH|b k _ IH]; intros s w; simpl; [eauto| |].
  - case_bool_decide; apply IH; rewrite ?length_take; (lia || done).
  - destruct w; simpl; apply IH.
Qed.

Lemma safe_seq {A B} (Q : A -> Prop) (R : B -> Prop) (p : io A) (f : A -> io B) :
  safe Q p -> (forall a, Q a -> safe R (f a)) -> safe R (p ≫= f).
Proof. induction 1; intros Hf; simpl; [by apply Hf| |]; constructor; auto. Qed.

Lemma safe_ReadFull_data {B} (R : B -> Prop) buf lo hi (k : bytes * option conn_error -> io B) :
  (lo <= hi)%nat -> (hi <= length buf)%nat ->
  (forall d e, (length d <= hi - lo)%nat -> (e = None -> length d = hi - lo)%nat -> safe R (k (fill buf lo d, e))) ->
  safe R (ReadFull buf lo hi ≫= k).
Proof.
  intros Hlo Hhi Hk. rewrite ReadFull_ok by done. apply safe_read. intros d ok Hd Hok.
  apply Hk; [done|]. destruct ok; [auto|done].
Qed.

Lemma safe_ReadFull {B} (R : B -> Prop) buf lo hi (k : bytes * option conn_error -> io B) :
  (lo <= hi)%nat -> (hi <= length buf)%nat ->
  (forall b e, length b = length buf -> safe R (k (b, e))) -> safe R (ReadFull buf lo hi ≫= k).
Proof.
  intros Hlo Hhi Hk. apply safe_ReadFull_data; [done..|]. intros d e Hd _. apply Hk. apply length_fill. lia.
Qed.

Lemma safe_at {B} (R : B -> Prop) buf i (k : byte -> io B) :
  (i < length buf)%nat -> (forall c, safe R (k c)) -> safe R (at_index buf i ≫= k).
Proof.
  intros Hi Hk. destruct (lookup_lt_is_Some_2 buf i Hi) as [c Hc]. rewrite (at_index_bind _ _ _ _ Hc). apply Hk.
Qed.

Lemma safe_upto {B} (R : B -> Prop) buf n (k : bytes -> io B) :
  (n <= length buf)%nat -> (forall b, length b = n -> safe R (k b)) -> safe R (upto buf n ≫= k).
Proof. intros Hn Hk. rewrite upto_bind by done. apply Hk. rewrite length_take. lia. Qed.

Lemma safe_WriteAll {B} (R : B -> Prop) b (k : option conn_error -> io B) :
  (forall e, safe R (k e)) -> safe R (WriteAll b ≫= k).
Proof. intros Hk. apply safe_write. intros ok. apply Hk. Qed.

Lemma safe_or_fail {E B} (R : B -> Prop) (e : option E) (f : E -> io B) k :
  (forall x, safe R (f x)) -> safe R k -> safe R (or_fail e f k).
Proof. intros Hf Hk. destruct e; [apply Hf|apply Hk]. Qed.

(** One step of such a proof: what is left are the bounds that are not linear
    arithmetic and the postconditions. *)
Ltac safe_step :=
  cbn [fst snd];
  match goal with
  | |- safe _ (ReadFull _ _ _ ≫= _) => apply safe_ReadFull; [try lia|try lia|intros ? ? ?]
  | |- safe _ (at_index _ _ ≫= _) => apply safe_at; [try lia|intros ?]
  | |- safe _ (upto _ _ ≫= _) => apply safe_upto; [try lia|intros ? ?]
  | |- safe _ (WriteAll _ ≫= _) => apply safe_WriteAll; intros ?
  | |- safe _ (or_fail _ _ _) => apply safe_or_fail; [intros ?|]
  | |- safe _ (Ret _) => apply safe_ret; try done
  | |- safe _ (let _ := _ in _) => cbv zeta
  | |- safe _ (if ?b then _ else _) => destruct b eqn:?
  | |- safe _ (match ?x with _ => _ end) => destruct x eqn:?
  end.

Lemma talk_last {A B} (p : io A) i o a (f : A -> io B) p' :
  talk p i o (Ret a) -> talk (f a) [] [] p' -> talk (p ≫= f) i o p'.
Proof.
  intros H1 H2. pose proof (talk_ret p i o a f [] [] p' H1 H2) as H. by rewrite !app_nil_r in H.
Qed.

Lemma talk_out_bind {A B} (p : io A) o a (f : A -> io B) i o' p' :
  talk p [] o (Ret a) -> talk (f a) i o' p' -> talk (p ≫= f) i (o ++ o') p'.
Proof. intros H1 H2. exact (talk_ret p [] o a f i o' p' H1 H2). Qed.

Lemma talk_in_bind {A B} (p : io A) i a (f : A -> io B) o p' :
  talk p i [] (Ret a) -> talk (f a) [] o p' -> talk (p ≫= f) i o p'.
Proof.
  intros H1 H2. pose proof (talk_ret p i [] a f [] o p' H1 H2) as H. by rewrite app_nil_r in H.
Qed.

(** An end that is done stays as it is. *)
Lemma lhs_done_stays {A B} (c c' : conf A B) : rtc step c c' -> done (lhs c) = true -> lhs c' = lhs c.
Proof.
  induction 1 as [|c c1 c' Hs _ IH]; intros Hd; [done|].
  assert (Heq : lhs c1 = lhs c) by (destruct Hs; simpl in *; [by rewrite act_done in H|done]).
  rewrite IH; [done|by rewrite Heq].
Qed.
