(* ===== verification/Socks5.v ===== *)
(** * Socks5: the SOCKS5 protocol of the rootless proxy ([socks5])

    Addresses and their text, the two handshakes as programs over a connection
    ([Duplex.io]) and the header of the relayed datagrams.  [session] says what
    both ends of a handshake return, for every user, authenticator, command and
    address, and whatever the schedule. *)

From S2P Require Import Prelude Text Url Netip Duplex.

(** ** Constants and errors *)

Definition Version : Z := 5.
Definition CmdConnect : Z := 1.
Definition CmdBind : Z := 2.
Definition CmdUDPAssociate : Z := 3.
Definition AtypIPv4 : Z := 1.
Definition AtypDomainName : Z := 3.
Definition AtypIPv6 : Z := 4.
Definition IPv4len : nat := 4.
Definition IPv6len : nat := 16.
Definition MaxAddrLen : nat := 1 + 1 + 255 + 2.
Definition MaxAuthLen : nat := 255.

Inductive Error :=
| EIo (e : conn_error)
| ErrShortBuffer
| SOCKSError (n : Z)
| ErrAuth
| Errorf (text : bytes).

Definition ErrCommandNotSupported : Error := SOCKSError 7.
Definition ErrAddressNotSupported : Error := SOCKSError 8.

Record User := MkUser { Username : bytes; Password : bytes }.

(** [binary.BigEndian.Uint16] and [int(a[i])<<8 | int(a[i+1])] at an index. *)
Definition port_at {E} (a : gslice) (i : Z) : res E Z :=
  h ← sl_get a i; l ← sl_get a (i + 1); Ok (de16 h l).

(** ** Addresses *)

(** [Addr.String] *)
Definition Addr_String {E} (a : gslice) : res E bytes :=
  t ← sl_get a 0;
  if bool_decide (b2z t = AtypDomainName) then
    l ← sl_get a 1;
    let hostLen := u16 (b2z l) in
    host ← sl_sub a 2 (u16 (2 + hostLen));
    port ← port_at a (u16 (2 + hostLen));
    Ok (JoinHostPort (vis host) (Itoa port))
  else if bool_decide (b2z t = AtypIPv4) then
    host ← sl_sub a 1 5; port ← port_at a 5; Ok (JoinHostPort (ip_String (vis host)) (Itoa port))
  else if bool_decide (b2z t = AtypIPv6) then
    host ← sl_sub a 1 17; port ← port_at a 17; Ok (JoinHostPort (ip_String (vis host)) (Itoa port))
  else Ok (JoinHostPort [] []).

(** [Addr.UDPAddr]: [None] is nil. *)
Definition Addr_UDPAddr {E} (a : gslice) : res E (option UDPAddr) :=
  if bool_decide (sl_len a = 0) then Ok None
  else
    t ← sl_get a 0;
    if bool_decide (b2z t = AtypIPv4) then
      ip ← sl_sub a 1 5; p ← sl_sub a 5 7; port ← sl_be16 p; Ok (Some (MkUDPAddr (vis ip) port))
    else if bool_decide (b2z t = AtypIPv6) then
      ip ← sl_sub a 1 17; p ← sl_sub a 17 19; port ← sl_be16 p; Ok (Some (MkUDPAddr (vis ip) port))
    else Ok None.

(** [SplitAddr]: the address at the start of [b]; [None] is nil. *)
Definition SplitAddr (b : bytes) : option bytes :=
  t ← b !! 0%nat;
  addrLen ← (if bool_decide (b2z t = AtypDomainName) then l ← b !! 1%nat; Some (1 + 1 + Z.to_nat (b2z l) + 2)%nat
             else if bool_decide (b2z t = AtypIPv4) then Some (1 + IPv4len + 2)%nat
             else if bool_decide (b2z t = AtypIPv6) then Some (1 + IPv6len + 2)%nat
             else None);
  if bool_decide (length b < addrLen)%nat then None else Some (take addrLen b).

(** [net.SplitHostPort] *)
Definition last_index_byte (c : byte) (s : bytes) : option nat :=
  i ← index_byte c (rev s); Some (length s - 1 - i)%nat.

Definition SplitHostPort (hostport : bytes) : option (bytes * bytes) :=
  i ← last_index_byte (z2b 58) hostport;
  hjk ← (if bool_decide (head hostport = Some (z2b 91)) then
           e ← index_byte (z2b 93) hostport;
           if bool_decide (S e = i) then Some (take (e - 1) (drop 1 hostport), 1%nat, S e) else None
         else
           let host := take i hostport in
           if bool_decide (z2b 58 ∈ host) then None else Some (host, O, O));
  let '(host, j, k) := hjk in
  if bool_decide (z2b 91 ∈ drop j hostport) then None
  else if bool_decide (z2b 93 ∈ drop k hostport) then None
  else Some (host, drop (S i) hostport).

(** [addr[len-2], addr[len-1] = byte(port>>8), byte(port)] after the rest. *)
Definition with_port (a : bytes) (port : Z) : bytes := a ++ be16 port.

(** [ParseAddr] *)
Definition ParseAddr (s : bytes) : option bytes :=
  hp ← SplitHostPort s;
  let '(host, port) := hp in
  let ip := ParseIP host in
  addr ← (if bool_decide (ip <> []) then
            Some (match To4 ip with Some ip4 => z2b AtypIPv4 :: ip4 | None => z2b AtypIPv6 :: ip end)
          else if bool_decide (255 < length host)%nat then None
          else Some (z2b AtypDomainName :: z2b (zlen host) :: host));
  portnum ← ParseUint 16 port;
  Some (with_port addr portnum).

(** A [net.Addr]: its dynamic type matters. *)
Inductive NetAddr := NetUDP (a : UDPAddr) | NetTCP (a : UDPAddr) | NetOther (text : bytes).
Definition NetAddr_String (a : NetAddr) : bytes :=
  match a with NetUDP a | NetTCP a => addr_String a | NetOther s => s end.

(** [copy] of [src] into [n] zero bytes. *)
Definition copied (n : nat) (src : bytes) : bytes := take n (src ++ repeat (z2b 0) n).

(** [ParseAddrToSocksAddr]: a four-byte address always has a default mask. *)
Definition ParseAddrToSocksAddr (addr : NetAddr) : option bytes :=
  let hostip := match addr with NetUDP a | NetTCP a => addr_IP a | NetOther _ => [] end in
  let port := match addr with NetUDP a | NetTCP a => addr_Port a | NetOther _ => 0 end in
  if bool_decide (hostip = []) then ParseAddr (NetAddr_String addr)
  else match To4 hostip with
       | Some ip4 => Some (with_port (z2b AtypIPv4 :: copied IPv4len ip4) (u16 port))
       | None => Some (with_port (z2b AtypIPv6 :: copied IPv6len hostip) (u16 port))
       end.

(** [AddrFromStdAddrPort] *)
Definition AsSlice (a : Addr) : bytes := match a with AddrZero => [] | Addr4 b | Addr6 b => b end.
Definition AddrFromStdAddrPort (addrPort : AddrPort) : bytes :=
  let addr := ap_addr addrPort in
  match addr with
  | Addr4 ip4 => with_port (z2b AtypIPv4 :: ip4) (ap_port addrPort)
  | _ => with_port (z2b AtypIPv6 :: copied IPv6len (AsSlice addr)) (ap_port addrPort)
  end.

(** ** Relayed datagrams *)

(** [DecodeUDPPacket]: the address (nil is [None]), the payload and the error. *)
Definition DecodeUDPPacket (packet : bytes) : option bytes * bytes * option Error :=
  if bool_decide (length packet < 5)%nat then (None, [], Some (Errorf (bs "insufficient length of packet")))
  else if bool_decide (take 2 packet <> [z2b 0; z2b 0]) then
    (None, [], Some (Errorf (bs "reserved fields should be zero")))
  else if bool_decide (packet !! 2%nat <> Some (z2b 0)) then
    (None, [], Some (Errorf (bs "discarding fragmented payload")))
  else
    let addr := SplitAddr (drop 3 packet) in
    let err := match addr with None => Some (Errorf (bs "failed to read UDP header")) | Some _ => None end in
    (addr, drop (3 + length (default [] addr)) packet, err).

(** [EncodeUDPPacket] *)
Definition EncodeUDPPacket (addr : option bytes) (payload : bytes) : res Error bytes :=
  match addr with
  | None => Err (Errorf (bs "address is invalid"))
  | Some addr => Ok ([z2b 0; z2b 0; z2b 0] ++ addr ++ payload)
  end.

(** ** Handshakes *)

Definition zeros (n : nat) : bytes := repeat (z2b 0) n.

Definition io_err (e : option conn_error) : option Error := EIo <$> e.

(** [ReadAddr]: the address and the error; an address cut short comes with both. *)
Definition ReadAddr (b : bytes) : io (option bytes * option Error) :=
  if bool_decide (length b < MaxAddrLen)%nat then Ret (None, Some ErrShortBuffer)
  else
    r ← ReadFull b 0 1;
    onerr r.2 as e give Ret (None, Some (EIo e)) in
    t ← at_index r.1 0;
    if bool_decide (b2z t = AtypDomainName) then
      r ← ReadFull r.1 1 2;
      onerr r.2 as e give Ret (None, Some (EIo e)) in
      l ← at_index r.1 1;
      let domainLength := Z.to_nat (u16 (b2z l)) in
      r ← ReadFull r.1 2 (2 + domainLength + 2);
      a ← upto r.1 (1 + 1 + domainLength + 2);
      Ret (Some a, io_err r.2)
    else if bool_decide (b2z t = AtypIPv4) then
      r ← ReadFull r.1 1 (1 + IPv4len + 2);
      a ← upto r.1 (1 + IPv4len + 2);
      Ret (Some a, io_err r.2)
    else if bool_decide (b2z t = AtypIPv6) then
      r ← ReadFull r.1 1 (1 + IPv6len + 2);
      a ← upto r.1 (1 + IPv6len + 2);
      Ret (Some a, io_err r.2)
    else Ret (None, Some ErrAddressNotSupported).

(** The username and password of [ServerHandshake] (RFC 1929) and the reply. *)
Definition server_userpass (Verify : bytes -> bytes -> bool) : io (option Error) :=
  r ← ReadFull (zeros 2) 0 2;
  onerr r.2 as e give Ret (Some (EIo e)) in
  let header := r.1 in
  let authBuf := zeros MaxAuthLen in
  l ← at_index header 1;
  let userLen := Z.to_nat (b2z l) in
  if bool_decide (userLen <= 0)%nat then
    _ ← WriteAll [z2b 1; z2b 1]; Ret (Some ErrAuth)
  else
    r ← ReadFull authBuf 0 userLen;
    onerr r.2 as e give Ret (Some (EIo e)) in
    let authBuf := r.1 in
    user ← upto authBuf userLen;
    r ← ReadFull header 0 1;
    onerr r.2 as e give Ret (Some (EIo e)) in
    l ← at_index r.1 0;
    let passLen := Z.to_nat (b2z l) in
    if bool_decide (passLen <= 0)%nat then
      _ ← WriteAll [z2b 1; z2b 1]; Ret (Some ErrAuth)
    else
      r ← ReadFull authBuf 0 passLen;
      onerr r.2 as e give Ret (Some (EIo e)) in
      pass ← upto r.1 passLen;
      if negb (Verify user pass) then
        _ ← WriteAll [z2b 1; z2b 1]; Ret (Some ErrAuth)
      else
        e ← WriteAll [z2b 1; z2b 0]; Ret (io_err e).

(** The negotiation of [ServerHandshake]: the offered methods are not looked at. *)
Definition server_auth (authenticator : option (bytes -> bytes -> bool)) : io (option Error) :=
  match authenticator with
  | Some Verify =>
      e ← WriteAll [z2b 5; z2b 2];
      onerr e as e give Ret (Some (EIo e)) in
      server_userpass Verify
  | None => e ← WriteAll [z2b 5; z2b 0]; Ret (io_err e)
  end.

(** The reply of [ServerHandshake]; [local] is the text of the local address of
    the connection. *)
Definition server_reply (local : bytes) (addr : option bytes) (command : Z) :
    io (option bytes * Z * option Error) :=
  if bool_decide (command = CmdConnect \/ command = CmdUDPAssociate) then
    match ParseAddr local with
    | None => Ret (addr, command, Some ErrAddressNotSupported)
    | Some localAddr =>
        e ← WriteAll ([z2b 5; z2b 0; z2b 0] ++ localAddr);
        Ret (addr, command, io_err e)
    end
  else Ret (addr, command, Some ErrCommandNotSupported).

(** The request of [ServerHandshake]. *)
Definition server_request (local : bytes) (buf : bytes) : io (option bytes * Z * option Error) :=
  r ← ReadFull buf 0 3;
  onerr r.2 as e give Ret (None, 0, Some (EIo e)) in
  c ← at_index r.1 1;
  let command := b2z c in
  r ← ReadAddr r.1;
  let addr := r.1 in
  onerr r.2 as e give Ret (addr, command, Some e) in
  server_reply local addr command.

(** [ServerHandshake]: the address, the command and the error. *)
Definition ServerHandshake (local : bytes) (authenticator : option (bytes -> bytes -> bool)) :
    io (option bytes * Z * option Error) :=
  let buf := zeros MaxAddrLen in
  r ← ReadFull buf 0 2;
  onerr r.2 as e give Ret (None, 0, Some (EIo e)) in
  n ← at_index r.1 1;
  let nmethods := Z.to_nat (b2z n) in
  r ← ReadFull r.1 0 nmethods;
  onerr r.2 as e give Ret (None, 0, Some (EIo e)) in
  e ← server_auth authenticator;
  onerr e as e give Ret (None, 0, Some e) in
  server_request local r.1.

(** The username and password message: the lengths are cut to a byte. *)
Definition auth_msg (user : User) : bytes :=
  [z2b 1; z2b (zlen (Username user))] ++ Username user ++ [z2b (zlen (Password user))] ++ Password user.

(** The negotiation of [ClientHandshake]: the buffer, or the error. *)
Definition client_auth (user : option User) (buf : bytes) : io (bytes * option Error) :=
  m ← at_index buf 1;
  if bool_decide (b2z m = 2) then
    match user with
    | None => Ret (buf, Some ErrAuth)
    | Some user =>
        e ← WriteAll (auth_msg user);
        onerr e as e give Ret (buf, Some (EIo e)) in
        r ← ReadFull buf 0 2;
        onerr r.2 as e give Ret (r.1, Some (EIo e)) in
        s ← at_index r.1 1;
        if bool_decide (b2z s <> 0) then Ret (r.1, Some (Errorf (bs "rejected username/password")))
        else Ret (r.1, None)
    end
  else if bool_decide (b2z m <> 0) then Ret (buf, Some (Errorf (bs "SOCKS need auth")))
  else Ret (buf, None).

(** The request of [ClientHandshake]: the status in the reply is not looked at. *)
Definition client_request (addr : bytes) (command : Z) (buf : bytes) : io (option bytes * option Error) :=
  e ← WriteAll ([z2b 5; z2b command; z2b 0] ++ addr);
  onerr e as e give Ret (None, Some (EIo e)) in
  r ← ReadFull buf 0 3;
  onerr r.2 as e give Ret (None, Some (EIo e)) in
  ReadAddr r.1.

(** [ClientHandshake] *)
Definition ClientHandshake (addr : bytes) (command : Z) (user : option User) : io (option bytes * option Error) :=
  let buf := zeros MaxAddrLen in
  e ← WriteAll (match user with Some _ => [z2b 5; z2b 1; z2b 2] | None => [z2b 5; z2b 1; z2b 0] end);
  onerr e as e give Ret (None, Some (EIo e)) in
  r ← ReadFull buf 0 2;
  onerr r.2 as e give Ret (None, Some (EIo e)) in
  v ← at_index r.1 0;
  if bool_decide (b2z v <> 5) then Ret (None, Some (Errorf (bs "SOCKS version error")))
  else
    r ← client_auth user r.1;
    onerr r.2 as e give Ret (None, Some e) in
    client_request addr command r.1.

(** ** Lemmas: addresses *)

Definition wf_addr (a : bytes) : Prop := SplitAddr a = Some a.

(** The three forms of an address. *)
Inductive addr_form : bytes -> Prop :=
| form_domain t l d : b2z t = AtypDomainName -> length d = (Z.to_nat (b2z l) + 2)%nat -> addr_form (t :: l :: d)
| form_ip4 t d : b2z t = AtypIPv4 -> length d = 6%nat -> addr_form (t :: d)
| form_ip6 t d : b2z t = AtypIPv6 -> length d = 18%nat -> addr_form (t :: d).

Lemma SplitAddr_form a r : addr_form a -> SplitAddr (a ++ r) = Some a.
Proof.
  intros H. destruct H as [t l d Ht Hd|t d Ht Hd|t d Ht Hd]; unfold SplitAddr; simpl; rewrite Ht; simpl.
  - rewrite length_app, bool_decide_false by lia. do 2 f_equal.
    replace (Z.to_nat (b2z l) + 2)%nat with (length d) by lia. simpl. f_equal. apply take_app_length.
  - rewrite length_app, bool_decide_false by lia. rewrite take_app_length'; done.
  - rewrite length_app, bool_decide_false by lia. rewrite take_app_length'; done.
Qed.

Lemma SplitAddr_inv b a : SplitAddr b = Some a -> addr_form a /\ b = a ++ drop (length a) b.
Proof.
  unfold SplitAddr. intros H.
  destruct b as [|t b]; [done|]. simpl in H.
  repeat case_bool_decide; try done; simpl in H.
  - destruct b as [|l b]; [done|]. simpl in H. case_bool_decide as Hl; [done|]. injection H as <-.
    simpl in Hl. split; [constructor; [done|rewrite length_take; lia]|].
    simpl. f_equal. f_equal. rewrite length_take. replace (_ `min` _)%nat with (Z.to_nat (b2z l) + 2)%nat by lia.
    by rewrite take_drop.
  - case_bool_decide as Hl; [done|]. injection H as <-. simpl in Hl.
    split; [apply form_ip4; [done|rewrite length_take; lia]|]. simpl. f_equal.
    rewrite length_take. replace (_ `min` _)%nat with 6%nat by lia. by rewrite take_drop.
  - case_bool_decide as Hl; [done|]. injection H as <-. simpl in Hl.
    split; [apply form_ip6; [done|rewrite length_take; lia]|]. simpl. f_equal.
    rewrite length_take. replace (_ `min` _)%nat with 18%nat by lia. by rewrite take_drop.
Qed.

Lemma wf_addr_form a : wf_addr a <-> addr_form a.
Proof.
  split; [by intros [? _]%SplitAddr_inv|].
  intros H. unfold wf_addr. pose proof (SplitAddr_form a [] H) as Hs. by rewrite app_nil_r in Hs.
Qed.

(** Reading an address: its type, then the rest of it. *)
Lemma talk_ReadAddr b a :
  (MaxAddrLen <= length b)%nat -> addr_form a -> talk (ReadAddr b) a [] (Ret (Some a, None)).
Proof.
  unfold MaxAddrLen. intros Hb Ha. unfold ReadAddr. rewrite bool_decide_false by (unfold MaxAddrLen; lia).
  assert (Hlen : length (drop 1 b) = (length b - 1)%nat) by apply length_drop.
  assert (Hfix : forall t d n, length d = (n - 1)%nat -> (1 <= n <= length b)%nat ->
    talk (r ← ReadFull (t :: drop 1 b) 1 n; a ← upto r.1 n; Ret (Some a, io_err r.2))
         d [] (Ret (Some (t :: d), None))).
  { intros t d n Hd Hn. rewrite <- (app_nil_r d) at 1.
    apply talk_ReadFull_bind; [done|lia|simpl; lia|]. cbn [fst snd].
    rewrite upto_bind by (rewrite length_fill; simpl; lia).
    replace n with (1 + length d)%nat by lia. rewrite take_fill by (simpl; lia). apply talk_refl. }
  destruct Ha as [t l d Ht Hd|t d Ht Hd|t d Ht Hd].
  - apply (talk_ReadFull_bind b 0 1 [t] _ (l :: d)); [done|lia|lia|].
    cbn [snd fst or_fail]. change (fill b 0 [t]) with (t :: drop 1 b). at_idx.
    rewrite Ht, (bool_decide_true (_ = _)) by done.
    apply (talk_ReadFull_bind _ 1 2 [l] _ d); [done|lia|simpl; lia|].
    cbn [snd fst or_fail]. change (fill (t :: drop 1 b) 1 [l]) with (t :: l :: drop 1 (drop 1 b)).
    at_idx. pose proof (b2z_range l). unfold u16. rewrite Z.mod_small by lia.
    assert (Hl2 : length (t :: l :: drop 1 (drop 1 b)) = length b) by (cbn [length]; rewrite !length_drop; lia).
    rewrite <- (app_nil_r d) at 1.
    apply talk_ReadFull_bind; [lia|lia|lia|]. cbn [fst snd].
    rewrite upto_bind by (rewrite length_fill; lia).
    replace (1 + 1 + Z.to_nat (b2z l) + 2)%nat with (2 + length d)%nat by lia.
    rewrite take_fill by lia. apply talk_refl.
  - apply (talk_ReadFull_bind b 0 1 [t] _ d); [done|lia|lia|].
    cbn [snd fst or_fail]. change (fill b 0 [t]) with (t :: drop 1 b). at_idx.
    rewrite Ht, (bool_decide_false (_ = _)), (bool_decide_true (_ = _)) by done.
    apply Hfix; simpl; lia.
  - apply (talk_ReadFull_bind b 0 1 [t] _ d); [done|lia|lia|].
    cbn [snd fst or_fail]. change (fill b 0 [t]) with (t :: drop 1 b). at_idx.
    rewrite Ht, !(bool_decide_false (_ = _)), (bool_decide_true (_ = _)) by done.
    apply Hfix; simpl; lia.
Qed.

(** *** What [ParseAddr] answers is an address *)

Lemma ParseIP_length s : ParseIP s = [] \/ length (ParseIP s) = 16%nat.
Proof.
  unfold ParseIP. destruct (Netip.ParseAddr s) as [a|] eqn:E; [right|by left].
  unfold Netip.ParseAddr in E. repeat case_match; try done.
  - apply fmap_Some in E as (ip & Hb & ->). simpl. by rewrite (parse_ip4_length _ _ Hb).
  - apply fmap_Some in E as (ip & Hb & ->). by apply parse_ip6_length in Hb.
Qed.

Lemma ParseAddr_form s a : ParseAddr s = Some a -> addr_form a.
Proof.
  unfold ParseAddr. intros H. apply bind_Some in H as ([host port] & _ & H).
  apply bind_Some in H as (b & Hb & H). apply bind_Some in H as (n & _ & H). injection H as <-.
  unfold with_port. case_bool_decide as Hip.
  - injection Hb as <-. destruct (To4 (ParseIP host)) as [ip4|] eqn:E.
    + apply form_ip4; [done|]. rewrite length_app, (To4_length _ _ E). done.
    + apply form_ip6; [done|]. rewrite length_app. destruct (ParseIP_length host) as [Hl|Hl]; [done|].
      rewrite Hl. done.
  - case_bool_decide as Hl; [done|]. injection Hb as <-. apply form_domain; [done|].
    rewrite length_app, b2z_z2b_small by (unfold zlen; lia). unfold zlen. simpl. lia.
Qed.

(** ** What a handshake comes to *)

(** The request, once both ends agree on it. *)
Definition request_outcome (local : bytes) (addr : bytes) (command : Z) :
    (option bytes * option Error) * (option bytes * Z * option Error) :=
  if bool_decide (command = CmdConnect \/ command = CmdUDPAssociate) then
    match ParseAddr local with
    | Some l => ((Some l, None), (Some addr, command, None))
    | None => ((None, Some (EIo EOF)), (Some addr, command, Some ErrAddressNotSupported))
    end
  else ((None, Some (EIo EOF)), (Some addr, command, Some ErrCommandNotSupported)).

(** What both ends return, and the bytes the server leaves unread. *)
Definition session_outcome (local : bytes) (authenticator : option (bytes -> bytes -> bool))
    (addr : bytes) (command : Z) (user : option User) :
    (option bytes * option Error) * (option bytes * Z * option Error) * bytes :=
  match authenticator, user with
  | None, _ => (request_outcome local addr command, [])
  | Some _, None => ((None, Some ErrAuth), (None, 0, Some (EIo EOF)), [])
  | Some Verify, Some u =>
      if bool_decide (Username u <> [] /\ Password u <> []) && Verify (Username u) (Password u) then
        (request_outcome local addr command, [])
      else ((None, Some (Errorf (bs "rejected username/password"))), (None, 0, Some ErrAuth),
            if bool_decide (Username u = []) then z2b (zlen (Password u)) :: Password u else [])
  end.

Definition hello (user : option User) : bytes :=
  match user with Some _ => [z2b 5; z2b 1; z2b 2] | None => [z2b 5; z2b 1; z2b 0] end.

(** *** The request *)

Lemma request_session local addr command b1 b2 :
  0 <= command < 256 -> addr_form addr -> length b1 = MaxAddrLen -> length b2 = MaxAddrLen ->
  rtc step (Conf (client_request addr command b1) (server_request local b2) [] [])
           (Conf (Ret (request_outcome local addr command).1) (Ret (request_outcome local addr command).2) [] []).
Proof.
  unfold MaxAddrLen. intros Hc Ha H1 H2. unfold request_outcome.
  eapply lhs_turn; [apply talk_last_write, talk_refl|].
  assert (Hsrv : forall o r, talk (server_reply local (Some addr) command) [] o r ->
    talk (server_request local b2) ([z2b 5; z2b command; z2b 0] ++ addr) o r).
  { intros o r Hr. apply (talk_ReadFull_bind b2 0 3 [_; _; _]); [done|lia|lia|]. cbn [snd fst or_fail].
    change (fill b2 0 ?d) with (d ++ drop 3 b2). at_idx. rewrite b2z_z2b_small by done.
    rewrite <- (app_nil_r addr) at 1.
    apply (talk_ret _ addr [] (Some addr, None) _ [] o r); [apply talk_ReadAddr; [|done]|exact Hr].
    unfold MaxAddrLen. simpl. rewrite length_drop. lia. }
  unfold server_reply in Hsrv. case_bool_decide.
  - destruct (ParseAddr local) as [l|] eqn:El.
    + eapply rhs_turn; [apply Hsrv; apply talk_last_write, talk_refl|].
      eapply lhs_turn; [|apply rtc_refl].
      apply (talk_ReadFull_bind b1 0 3 [_; _; _]); [done|lia|lia|]. cbn [snd fst or_fail].
      apply talk_ReadAddr; [|by eapply ParseAddr_form].
      unfold MaxAddrLen. change (fill b1 0 ?d) with (d ++ drop 3 b1). simpl. rewrite length_drop. lia.
    + eapply rhs_turn; [apply Hsrv; apply talk_refl|].
      unfold ReadFull. rewrite !bool_decide_true by lia. cbn [andb].
      apply lhs_eof; [lia|done|]. apply rtc_refl.
  - eapply rhs_turn; [apply Hsrv; apply talk_refl|].
    unfold ReadFull. rewrite !bool_decide_true by lia. cbn [andb].
    apply lhs_eof; [lia|done|]. apply rtc_refl.
Qed.

(** *** The credentials *)

Definition short_user (u : User) : Prop := (length (Username u) <= 255)%nat /\ (length (Password u) <= 255)%nat.

Lemma b2z_len (s : bytes) : (length s <= 255)%nat -> Z.to_nat (b2z (z2b (zlen s))) = length s.
Proof. intros H. unfold zlen. rewrite b2z_z2b_small by lia. lia. Qed.

Lemma nonempty_length {A} (s : list A) : s <> [] -> (0 < length s)%nat.
Proof. destruct s; [done|]. simpl. lia. Qed.

(** The username is read; [rest] is what the password and the check come to. *)
Lemma talk_userpass (Verify : bytes -> bytes -> bool) u (o : bytes) (r : io (option Error)) :
  short_user u -> Username u <> [] ->
  (if bool_decide (Password u = []) then o = [z2b 1; z2b 1] /\ r = Ret (Some ErrAuth)
   else if Verify (Username u) (Password u) then o = [z2b 1; z2b 0] /\ r = Ret None
   else o = [z2b 1; z2b 1] /\ r = Ret (Some ErrAuth)) ->
  talk (server_userpass Verify) (auth_msg u) o r.
Proof.
  intros [Hul Hpl] Hu%nonempty_length Hr. unfold server_userpass.
  assert (Hab : length (zeros MaxAuthLen) = 255%nat) by done.
  generalize dependent (zeros MaxAuthLen). intros authBuf Hab.
  apply (talk_ReadFull_bind _ 0 2 [z2b 1; _]); [done|lia|simpl; lia|]. cbn [fst snd or_fail].
  at_idx.
  rewrite b2z_len, bool_decide_false by lia.
  apply talk_ReadFull_bind; [lia|lia|lia|]. cbn [fst snd or_fail].
  rewrite upto_bind by (rewrite length_fill; lia).
  rewrite take_fill0 by lia.
  apply (talk_ReadFull_bind _ 0 1 [_ : byte]); [done|lia|simpl; lia|]. cbn [fst snd or_fail].
  at_idx.
  rewrite b2z_len by done. destruct (decide (Password u = [])) as [Hp|Hp].
  - rewrite bool_decide_true in Hr by done. rewrite Hp, bool_decide_true by done.
    destruct Hr as [-> ->]. apply talk_last_write, talk_refl.
  - rewrite bool_decide_false in Hr by done. apply nonempty_length in Hp. rewrite bool_decide_false by lia.
    apply talk_last_read; [lia|lia|rewrite length_fill; lia|]. cbn [fst snd or_fail].
    rewrite upto_bind by (rewrite !length_fill; rewrite ?length_fill; lia).
    rewrite take_fill0 by (rewrite length_fill; lia).
    destruct (Verify _ _); destruct Hr as [-> ->]; apply talk_last_write, talk_refl.
Qed.

Lemma talk_userpass_empty Verify :
  talk (server_userpass Verify) [z2b 1; z2b 0] [z2b 1; z2b 1] (Ret (Some ErrAuth)).
Proof.
  unfold server_userpass.
  apply (talk_ReadFull_bind _ 0 2 [_; _ : byte] _ []); [done|lia|simpl; lia|]. cbn [fst snd or_fail].
  change (fill (zeros 2) 0 [z2b 1; z2b 0]) with [z2b 1; z2b 0]. at_idx.
  rewrite bool_decide_true by done. apply talk_last_write, talk_refl.
Qed.

(** *** Up to the choice of the method *)

(** What is left of the server after its choice of the method. *)
Definition server_left (local : bytes) (buf : bytes) (p : io (option Error)) : io (option bytes * Z * option Error) :=
  e ← p; onerr e as e give Ret (None, 0, Some e) in server_request local buf.

Definition client_left (addr : bytes) (command : Z) (p : io (bytes * option Error)) : io (option bytes * option Error) :=
  r ← p; onerr r.2 as e give Ret (None, Some e) in client_request addr command r.1.

Definition method (authenticator : option (bytes -> bytes -> bool)) : Z :=
  match authenticator with Some _ => 2 | None => 0 end.

Lemma hello_session local authenticator addr command user (e : conf _ _) :
  (forall b1 b2, length b1 = MaxAddrLen -> length b2 = MaxAddrLen -> b1 !! 1%nat = Some (z2b (method authenticator)) ->
   rtc step (Conf (client_left addr command (client_auth user b1))
                  (server_left local b2 (match authenticator with Some V => server_userpass V | None => Ret None end))
                  [] []) e) ->
  rtc step (Conf (ClientHandshake addr command user) (ServerHandshake local authenticator) [] []) e.
Proof.
  intros He. unfold ClientHandshake, ServerHandshake.
  assert (Hz : length (zeros MaxAddrLen) = MaxAddrLen) by done.
  generalize dependent (zeros MaxAddrLen). intros buf Hz. unfold MaxAddrLen in Hz.
  eapply lhs_turn; [apply talk_last_write, talk_refl|]. cbn [or_fail].
  replace (match user with Some _ => _ | None => _ end)
    with ([z2b 5; z2b 1] ++ [match user with Some _ => z2b 2 | None => z2b 0 end]) by by destruct user.
  eapply rhs_turn.
  - apply (talk_ReadFull_bind buf 0 2 [_; _]); [done|lia|lia|]. cbn [fst snd or_fail].
    at_idx. change (Z.to_nat (b2z (z2b 1))) with 1%nat. apply (talk_last_read _ 0 1 [_]); [done|lia|rewrite length_fill; simpl; lia|]. cbn [fst snd or_fail].
    eapply (talk_bind _ [] [z2b 5; z2b (method authenticator)]).
    instantiate (1 := match authenticator with Some V => server_userpass V | None => Ret None end).
    unfold server_auth. destruct authenticator; apply talk_last_write, talk_refl.
  - eapply lhs_turn.
    + apply (talk_last_read buf 0 2 [_; _]); [done|lia|lia|]. cbn [fst snd or_fail]. at_idx.
      rewrite bool_decide_false by (intros Hn; by apply Hn). apply talk_refl.
    + apply He; [| |done]; unfold MaxAddrLen; rewrite !length_fill by (rewrite ?length_fill by (simpl; lia); simpl; lia); done.
Qed.

(** The credentials, and the request when they are accepted. *)
Lemma credentials_session local Verify addr command u b1 b2 :
  0 <= command < 256 -> addr_form addr -> short_user u -> length b1 = MaxAddrLen -> length b2 = MaxAddrLen ->
  let o := session_outcome local (Some Verify) addr command (Some u) in
  rtc step
    (Conf (client_left addr command
             (e ← WriteAll (auth_msg u);
              onerr e as e give Ret (b1, Some (EIo e)) in
              r ← ReadFull b1 0 2;
              onerr r.2 as e give Ret (r.1, Some (EIo e)) in
              s ← at_index r.1 1;
              if bool_decide (b2z s <> 0) then Ret (r.1, Some (Errorf (bs "rejected username/password")))
              else Ret (r.1, None)))
          (server_left local b2 (server_userpass Verify)) [] [])
    (Conf (Ret o.1.1) (Ret o.1.2) o.2 []).
Proof.
  unfold MaxAddrLen. intros Hc Ha Hu H1 H2.
  assert (Hread : forall st, talk (r ← ReadFull b1 0 2;
      onerr r.2 as e give Ret (r.1, Some (EIo e)) in
      s ← at_index r.1 1;
      if bool_decide (b2z s <> 0) then Ret (r.1, Some (Errorf (bs "rejected username/password")))
      else Ret (r.1, None)) [z2b 1; st] []
      (if bool_decide (b2z st <> 0) then Ret (fill b1 0 [z2b 1; st], Some (Errorf (bs "rejected username/password")))
       else Ret (fill b1 0 [z2b 1; st], None))).
  { intros st. apply (talk_last_read b1 0 2 [_; _]); [done|lia|lia|]. cbn [fst snd or_fail]. at_idx. apply talk_refl. }
  unfold client_left, server_left, session_outcome.
  eapply lhs_turn; [apply talk_bind, talk_last_write, talk_refl|]. cbn [or_fail].
  destruct (decide (Username u = [])) as [Hn|Hn].
  - rewrite (bool_decide_false (_ /\ _)) by naive_solver. rewrite (bool_decide_true (Username u = [])) by done.
    unfold auth_msg. rewrite Hn. cbn [app andb fst snd].
    change (z2b 1 :: z2b (zlen []) :: ?r) with ([z2b 1; z2b 0] ++ r).
    etrans; [apply talk_rhs, talk_bind, talk_userpass_empty|]. cbn [app].
    eapply lhs_turn_over; [apply talk_bind, Hread|]. rewrite app_nil_r. apply rtc_refl.
  - rewrite (bool_decide_false (Username u = [])) by done.
    destruct (bool_decide (Username u <> [] /\ Password u <> []) && Verify (Username u) (Password u)) eqn:Eok.
    + apply andb_prop in Eok as [[_ Hp]%bool_decide_eq_true HV].
      eapply rhs_turn; [apply talk_bind, (talk_userpass Verify u [z2b 1; z2b 0] (Ret None) Hu Hn)|].
      { by rewrite bool_decide_false, HV. }
      eapply lhs_turn; [apply talk_bind, Hread|].
      apply request_session; [done|done| |done]. cbn [fst]. rewrite length_fill by (simpl; lia). done.
    + eapply rhs_turn; [apply talk_bind, (talk_userpass Verify u [z2b 1; z2b 1] (Ret (Some ErrAuth)) Hu Hn)|].
      { destruct (decide (Password u = [])) as [Hp|Hp]; [by rewrite bool_decide_true|].
        rewrite bool_decide_true in Eok by done. cbn [andb] in Eok. by rewrite (bool_decide_false (Password u = [])), Eok. }
      eapply lhs_turn; [apply talk_bind, Hread|]. apply rtc_refl.
Qed.

(** C39. The two handshakes agree, whatever the schedule: every run of the client
    and the server on the two ends of a connection, however the bytes arrive, can
    be completed, has a bounded number of steps, and ends in the same way, which
    [session_outcome] gives: with an authenticator the server refuses a client
    without credentials, and credentials that are empty or that it does not
    accept; otherwise it receives the command and the address of the client, and
    the client receives the local address of the server when the command is one
    that the server carries out.  Nothing of a request is left unread. *)
Theorem session local authenticator addr command user :
  0 <= command < 256 -> wf_addr addr -> (forall u, user = Some u -> short_user u) ->
  let o := session_outcome local authenticator addr command user in
  settles (Conf (ClientHandshake addr command user) (ServerHandshake local authenticator) [] [])
          (Conf (Ret o.1.1) (Ret o.1.2) o.2 []).
Proof.
  intros Hc Ha%wf_addr_form Hu. apply settles_run; [|done]. apply hello_session.
  intros b1 b2 H1 H2 Hm. unfold client_auth. rewrite (at_index_bind _ _ _ _ Hm).
  unfold session_outcome. destruct authenticator as [Verify|]; cbn [method].
  2: { cbv iota beta. apply request_session; done. }
  change (bool_decide (b2z (z2b 2) = 2)) with true. cbv iota. destruct user as [u|].
  - by apply credentials_session; [|done|by apply Hu| |].
  - unfold server_left, server_userpass. rewrite ReadFull_ok by (simpl; lia).
    apply rhs_eof; [simpl; lia|done|apply rtc_refl].
Qed.

(** *** An address from a stream and from a datagram *)

(** What reading [s] comes to, given the address that [SplitAddr] finds in it. *)
Definition reads_as (p : io (option bytes * option Error)) (s : bytes) (w : nat) (found : option bytes) (all : bytes) : Prop :=
  match found with
  | Some a => run p s w = (Some (Some a, None), drop (length a) all, [])
  | None => exists a e r, run p s w = (Some (a, Some e), r, [])
  end.

(** The rest of an address, from [lo] to [n], behind the bytes [h]. *)
Lemma run_rest b h n s w :
  (length h <= n <= length b)%nat ->
  reads_as (r ← ReadFull (h ++ drop (length h) b) (length h) n; a ← upto r.1 n; Ret (Some a, io_err r.2)) s w
    (if bool_decide (length (h ++ s) < n)%nat then None else Some (take n (h ++ s))) (h ++ s).
Proof.
  intros Hn. assert (Hlen : length (h ++ drop (length h) b) = length b) by (rewrite length_app, length_drop; lia).
  unfold reads_as. rewrite run_ReadFull by lia. cbn [fst snd]. rewrite length_app.
  destruct (decide (n <= length h + length s)%nat) as [Hs|Hs].
  - rewrite bool_decide_false, bool_decide_true by lia.
    rewrite upto_bind by (rewrite length_fill; rewrite ?length_take; lia).
    pose proof (take_fill (h ++ drop (length h) b) (length h) (take (n - length h) s)) as Ht.
    rewrite length_take in Ht. replace (length h + ((n - length h) `min` length s))%nat with n in Ht by lia.
    rewrite Ht by lia. rewrite take_app_length, length_take, length_app.
    rewrite take_app_ge, drop_app_ge by lia.
    replace ((n `min` (length h + length s)) - length h)%nat with (n - length h)%nat by lia. done.
  - rewrite bool_decide_true, bool_decide_false by lia.
    rewrite upto_bind by (rewrite length_fill; lia). simpl. eauto.
Qed.

(** [ReadAddr] on a stream is [SplitAddr] on what the stream holds: it
    returns the address that [SplitAddr] cuts off, without an error, and leaves
    the stream at its end; and an error where [SplitAddr] finds no address. *)
Theorem read_addr_split b s w : (MaxAddrLen <= length b)%nat -> reads_as (ReadAddr b) s w (SplitAddr s) s.
Proof.
  intros Hb. unfold ReadAddr. rewrite bool_decide_false by lia. unfold MaxAddrLen in Hb.
  unfold reads_as. rewrite run_ReadFull by lia. destruct s as [|t s].
  { rewrite bool_decide_false by (simpl; lia). simpl. eauto. }
  rewrite bool_decide_true by (simpl; lia). cbn [fst snd or_fail take drop Nat.sub].
  rewrite take_0, drop_0. at_idx.
  unfold SplitAddr. cbn [lookup list_lookup mbind option_bind app].
  destruct (decide (b2z t = AtypDomainName)) as [H3|H3]; [|destruct (decide (b2z t = AtypIPv4)) as [H1|H1];
    [|destruct (decide (b2z t = AtypIPv6)) as [H4|H4]]].
  - rewrite !(bool_decide_true (b2z t = AtypDomainName)) by done.
    rewrite run_ReadFull by (simpl; rewrite ?length_drop; lia).
    destruct s as [|l s]; [rewrite bool_decide_false by (simpl; lia); simpl; eauto|].
    rewrite bool_decide_true by (simpl; lia). cbn [fst snd or_fail take drop Nat.sub].
    rewrite take_0, drop_0. at_idx.
    change (fill (fill b 0 [t]) 1 [l]) with ([t; l] ++ drop 1 (drop 1 b)). rewrite drop_drop.
    cbn [lookup list_lookup mbind option_bind].
    pose proof (b2z_range l). unfold u16. rewrite Z.mod_small by lia.
    apply (run_rest b [t; l]). simpl. lia.
  - rewrite !(bool_decide_false (b2z t = AtypDomainName)), !(bool_decide_true (b2z t = AtypIPv4)) by done.
    change (fill b 0 [t]) with ([t] ++ drop 1 b). apply (run_rest b [t]). simpl. lia.
  - rewrite !(bool_decide_false (b2z t = AtypDomainName)), !(bool_decide_false (b2z t = AtypIPv4)),
      !(bool_decide_true (b2z t = AtypIPv6)) by done.
    change (fill b 0 [t]) with ([t] ++ drop 1 b). apply (run_rest b [t]). simpl. lia.
  - rewrite !bool_decide_false by done. simpl. eauto.
Qed.

(** ** Relayed datagrams *)

Lemma Decode_Encode a payload :
  addr_form a -> DecodeUDPPacket ([z2b 0; z2b 0; z2b 0] ++ a ++ payload) = (Some a, payload, None).
Proof.
  intros Ha. assert (Hl : (4 <= length a)%nat) by (destruct Ha; simpl; lia).
  unfold DecodeUDPPacket. cbn [take lookup list_lookup length app drop].
  rewrite length_app, bool_decide_false by lia. rewrite !bool_decide_false by (intros Hn; by apply Hn).
  rewrite drop_0, SplitAddr_form by done. simpl. by rewrite drop_app_length.
Qed.

(** The header of a relayed datagram round-trips: what is encoded for an
    address decodes to that address and the payload, and a datagram that decodes
    without an error is the encoding of what it decodes to. *)
Theorem udp_packet_roundtrip packet a payload :
  wf_addr a ->
  (EncodeUDPPacket (Some a) payload = Ok packet <-> DecodeUDPPacket packet = (Some a, payload, None)).
Proof.
  intros Ha%wf_addr_form. split; [intros [= <-]; by apply Decode_Encode|].
  unfold DecodeUDPPacket. case_bool_decide as H5; [done|]. case_bool_decide as H0; [done|].
    case_bool_decide as H2; [done|]. intros H. injection H as Hs Hp _. rewrite Hs in Hp. simpl in Hp.
    destruct (SplitAddr_inv _ _ Hs) as [_ Hd]. unfold EncodeUDPPacket. f_equal.
    destruct packet as [|x [|y [|z packet]]]; simpl in H5; try lia.
    simpl in H0, H2, Hd, Hp. rewrite drop_0 in Hd. simplify_eq.
    simpl. by rewrite <- Hd.
Qed.

(** ** The text of an address *)

Lemma ParseUint_port n : 0 <= n < 65536 -> ParseUint 16 (Itoa n) = Some n.
Proof. intros H. unfold Itoa. rewrite bool_decide_false by lia. apply ParseUint_itoa; lia. Qed.

Definition plain_host (host : bytes) : Prop := z2b 58 ∉ host /\ z2b 91 ∉ host /\ z2b 93 ∉ host.

Lemma last_index_app c s t : c ∉ t -> last_index_byte c (s ++ c :: t) = Some (length s).
Proof.
  intros Ht. unfold last_index_byte. rewrite rev_app_distr. simpl. rewrite <- app_assoc. simpl.
  rewrite index_byte_app by (by rewrite list_elem_of_In, <- in_rev, <- list_elem_of_In).
  simpl. f_equal. rewrite length_app, length_rev. simpl. lia.
Qed.

Lemma SplitHostPort_plain host port :
  plain_host host -> plain_host port -> SplitHostPort (JoinHostPort host port) = Some (host, port).
Proof.
  intros (Hh1 & Hh2 & Hh3) (Hp1 & Hp2 & Hp3). unfold JoinHostPort. rewrite bool_decide_false by done.
  change (bs ":" ++ port) with (z2b 58 :: port).
  unfold SplitHostPort. rewrite last_index_app by done. cbn [mbind option_bind].
  rewrite bool_decide_false.
  2: { destruct host as [|x host]; simpl; [done|]. intros [= ->]. apply Hh2. left. }
  rewrite take_app_length, bool_decide_false by done. cbn [mbind option_bind]. rewrite !drop_0.
  rewrite !bool_decide_false by (rewrite elem_of_app, elem_of_cons; naive_solver).
  by rewrite drop_past.
Qed.

Lemma Itoa_plain n : 0 <= n -> plain_host (Itoa n).
Proof.
  intros Hn. split; [|split]; (apply not_in_Itoa; [done|]);
    intros H; vm_compute in H; by destruct H as [H1 H2]; first [by apply H1 | discriminate H2].
Qed.

(** *** IPv4 *)

Lemma ip4_field_Itoa c : ip4_field (Itoa (b2z c)) = Some c.
Proof. destruct c; vm_compute; reflexivity. Qed.

Lemma no_dot_Itoa c : z2b 46 ∉ Itoa (b2z c).
Proof. apply not_in_Itoa; [apply b2z_range|]. change (b2z (z2b 46)) with 46. lia. Qed.

Lemma parse_ip4_String a b c d : parse_ip4 (ip4_String [a; b; c; d]) = Some [a; b; c; d].
Proof.
  unfold parse_ip4, ip4_String. change (bs ".") with [z2b 46]. change (octet ?l ?i) with (b2z (nth i l (z2b 0))).
  cbn [nth app]. rewrite !Split_app by apply no_dot_Itoa. rewrite Split_no_sep by apply no_dot_Itoa.
  by rewrite !ip4_field_Itoa.
Qed.

Lemma find_app_not {A} (p : A -> bool) l k : Forall (fun x => p x = false) l -> List.find p (l ++ k) = List.find p k.
Proof. induction 1 as [|x l Hx _ IH]; [done|]. simpl. by rewrite Hx. Qed.

Lemma ParseIP_ip4 a b c d : ParseIP (ip4_String [a; b; c; d]) = v4InV6Prefix ++ [a; b; c; d].
Proof.
  unfold ParseIP, Netip.ParseAddr.
  assert (Hf : List.find (fun x => bool_decide (b2z x = 46 \/ b2z x = 58 \/ b2z x = 37)) (ip4_String [a; b; c; d]) = Some (z2b 46)).
  { unfold ip4_String. rewrite find_app_not; [done|]. apply Forall_forall. intros x Hx.
    apply bool_decide_false. intros Hc. change (octet _ 0) with (b2z a) in Hx.
    apply (not_in_Itoa (b2z a) x); [apply b2z_range|lia|done]. }
  rewrite Hf. change (bool_decide (b2z (z2b 46) = 46)) with true. cbv iota. by rewrite parse_ip4_String.
Qed.

Lemma ip4_String_plain a b c d : plain_host (ip4_String [a; b; c; d]).
Proof.
  unfold ip4_String. change (octet ?l ?i) with (b2z (nth i l (z2b 0))). cbn [nth].
  pose proof (fun c => Itoa_plain (b2z c) (proj1 (b2z_range c))) as Hp. unfold plain_host in *.
  change (bs ".") with [z2b 46].
  split; [|split]; rewrite !elem_of_app, !list_elem_of_singleton;
    pose proof (Hp a); pose proof (Hp b); pose proof (Hp c); pose proof (Hp d); naive_solver.
Qed.

Lemma ParseAddr_ip4 a b c d port :
  0 <= port < 65536 ->
  ParseAddr (JoinHostPort (ip4_String [a; b; c; d]) (Itoa port)) = Some (with_port (z2b AtypIPv4 :: [a; b; c; d]) port).
Proof.
  intros Hp. unfold ParseAddr.
  rewrite SplitHostPort_plain by (apply ip4_String_plain || (apply Itoa_plain; lia)).
  cbn [mbind option_bind]. rewrite ParseIP_ip4, bool_decide_true by done.
  change (To4 (v4InV6Prefix ++ [a; b; c; d])) with (Some [a; b; c; d]). cbn [mbind option_bind].
  by rewrite ParseUint_port.
Qed.

(** Four bytes, named. *)
Lemma four_bytes (l : bytes) : length l = 4%nat -> exists a b c d, l = [a; b; c; d].
Proof. destruct l as [|a [|b [|c [|d [|]]]]]; try done. intros _. by exists a, b, c, d. Qed.

(** The fast path is the slow one for an IPv4 endpoint, in either form. *)
Theorem fast_path_ip4 ip ip4 port addr :
  To4 ip = Some ip4 -> 0 <= port < 65536 -> addr = NetUDP (MkUDPAddr ip port) \/ addr = NetTCP (MkUDPAddr ip port) ->
  ParseAddrToSocksAddr addr = ParseAddr (NetAddr_String addr).
Proof.
  intros H4 Hp Haddr. destruct (four_bytes ip4 (To4_length _ _ H4)) as (a & b & c & d & ->).
  assert (Hip : ip <> []) by by intros ->.
  assert (Hs : NetAddr_String addr = JoinHostPort (ip4_String [a; b; c; d]) (Itoa port)).
  { destruct Haddr as [-> | ->]; simpl; unfold addr_String; simpl; rewrite bool_decide_false by done;
      unfold ip_String; by rewrite bool_decide_false, H4. }
  rewrite Hs, ParseAddr_ip4 by done. unfold ParseAddrToSocksAddr.
  destruct Haddr as [-> | ->]; simpl; rewrite bool_decide_false, H4 by done; by rewrite u16_small by lia.
Qed.

Lemma rest_of_domain (d : bytes) n : length d = (n + 2)%nat -> exists host h lo, d = host ++ [h; lo] /\ length host = n.
Proof.
  intros Hd. destruct (drop n d) as [|h [|lo [|]]] eqn:E; apply (f_equal length) in E as El;
    rewrite length_drop in El; simpl in El; try lia.
  exists (take n d), h, lo. split; [by rewrite <- E, take_drop|]. rewrite length_take. lia.
Qed.

(** The text of an address parses back to the address: for an IPv4 address
    and for a domain name that is not itself the text of an IP address and has
    none of the bytes ':', '[' and ']'. *)
Theorem addr_text_roundtrip a :
  wf_addr a -> b2z (hd (z2b 0) a) = AtypIPv4 \/
    (b2z (hd (z2b 0) a) = AtypDomainName /\
     let host := take (length a - 4) (drop 2 a) in plain_host host /\ ParseIP host = []) ->
  exists s, @Addr_String Error (exact a) = Ok s /\ ParseAddr s = Some a.
Proof.
  intros Ha%wf_addr_form Ht. destruct Ha as [t l d Htt Hd|t d Htt Hd|t d Htt Hd]; simpl in Ht; rewrite Htt in Ht.
  - destruct Ht as [Ht|(_ & Hh & Hip)]; [done|]. 
    pose proof (b2z_range l) as Hl.
    destruct (rest_of_domain d (Z.to_nat (b2z l)) Hd) as (host & h & lo & -> & Hlen).
    replace (length (host ++ [h; lo]) - 2)%nat with (length host) in Hh, Hip by (rewrite length_app; simpl; lia).
    rewrite drop_0, take_app_length in Hh, Hip.
    assert (Hz : zlen host = b2z l) by (unfold zlen; lia).
    exists (JoinHostPort host (Itoa (de16 h lo))). split.
    + unfold Addr_String, port_at, exact.
      rewrite (sl_get_app [] t (l :: host ++ [h; lo]) [] 0), bind_Ok, Htt by done.
      rewrite (bool_decide_true (AtypDomainName = _)) by done.
      rewrite (sl_get_app [t] l (host ++ [h; lo]) [] 1), bind_Ok by done.
      unfold u16. rewrite !Z.mod_small by (rewrite ?Z.mod_small; lia).
      rewrite (sl_sub_app [t; l] host [h; lo] [] 2), bind_Ok by (zlen_lia || done).
      rewrite (sl_get_app (t :: l :: host) h [lo] [] (2 + b2z l)), bind_Ok by zlen_lia.
      pose proof (@sl_get_app Error (t :: l :: host ++ [h]) lo [] [] (2 + b2z l + 1) ltac:(zlen_lia)) as Hlo.
      cbn [app] in Hlo. rewrite <- app_assoc in Hlo. cbn [app] in Hlo. by rewrite Hlo.
    + unfold ParseAddr. rewrite SplitHostPort_plain by (done || apply Itoa_plain, de16_range).
      cbn [mbind option_bind]. rewrite (bool_decide_false (ParseIP host <> [])) by (intros Hn; by apply Hn).
      rewrite bool_decide_false by lia. cbn [mbind option_bind].
      rewrite ParseUint_port by apply de16_range. cbn [mbind option_bind]. unfold with_port.
      rewrite be16_de16, Hz, z2b_b2z, <- Htt, z2b_b2z. done.
  - destruct d as [|a [|b [|c [|d [|h [|lo [|]]]]]]]; try done.
    exists (JoinHostPort (ip4_String [a; b; c; d]) (Itoa (de16 h lo))). split.
    + unfold Addr_String, port_at, exact.
      rewrite (sl_get_app [] t [a; b; c; d; h; lo] [] 0), bind_Ok, Htt by done.
      rewrite (bool_decide_false (AtypIPv4 = AtypDomainName)) by by unfold AtypIPv4, AtypDomainName.
      rewrite (bool_decide_true (AtypIPv4 = _)) by done.
      rewrite (sl_sub_app [t] [a; b; c; d] [h; lo] [] 1), bind_Ok by done.
      rewrite (sl_get_app [t; a; b; c; d] h [lo] [] 5), bind_Ok by done.
      by rewrite (sl_get_app [t; a; b; c; d; h] lo [] []).
    + rewrite ParseAddr_ip4 by apply de16_range. unfold with_port. rewrite be16_de16.
      by rewrite <- Htt, z2b_b2z.
  - destruct Ht as [Ht|[Ht _]]; done.
Qed.

(** ** Nothing that arrives panics a handshake *)

Lemma byte_nat_bound (c : byte) : (Z.to_nat (b2z c) <= 255)%nat.
Proof. pose proof (b2z_range c). lia. Qed.

(** The bounds that come from a length in one byte. *)
Ltac byte_bound :=
  unfold IPv4len, IPv6len; try lia;
  match goal with |- context [b2z ?c] =>
    pose proof (byte_nat_bound c); pose proof (b2z_range c); unfold u16; rewrite ?Z.mod_small by lia; lia end.

Definition total {A} (p : io A) : Prop := safe (fun _ => True) p.

(** What is returned without an error is an address. *)
Definition addr_or_error (r : option bytes * option Error) : Prop :=
  r.2 = None -> exists a, r.1 = Some a /\ addr_form a.

Lemma safe_rest h b n :
  (length h <= n <= length b)%nat -> (forall d, length d = (n - length h)%nat -> addr_form (h ++ d)) ->
  safe addr_or_error (r ← ReadFull (h ++ drop (length h) b) (length h) n; a ← upto r.1 n; Ret (Some a, io_err r.2)).
Proof.
  intros Hn Hform. assert (Hlen : length (h ++ drop (length h) b) = length b) by (rewrite length_app, length_drop; lia).
  apply safe_ReadFull_data; [lia|lia|]. intros d e Hd He. cbn [fst snd].
  rewrite upto_bind by (rewrite length_fill; lia). apply safe_ret. intros Hnone.
  destruct e; [done|]. specialize (He eq_refl). eexists. split; [done|]. 
  pose proof (take_fill (h ++ drop (length h) b) (length h) d ltac:(lia)) as Ht.
  replace (length h + length d)%nat with n in Ht by lia. rewrite Ht, take_app_length. by apply Hform.
Qed.

Lemma safe_ReadAddr b : safe addr_or_error (ReadAddr b).
Proof.
  unfold ReadAddr. case_bool_decide as Hb; [by constructor|]. unfold MaxAddrLen in Hb.
  apply safe_ReadFull_data; [lia|lia|]. intros d [e|] _ Hd; cbn [fst snd or_fail]; [by constructor|].
  specialize (Hd eq_refl). destruct d as [|t [|]]; try done.
  change (fill b 0 [t]) with ([t] ++ drop 1 b). at_idx.
  case_bool_decide as H3; [|case_bool_decide as H1; [|case_bool_decide as H4]].
  - apply safe_ReadFull_data; [lia|simpl; rewrite length_drop; lia|].
    intros d [e|] _ Hd'; cbn [fst snd or_fail]; [by constructor|].
    specialize (Hd' eq_refl). destruct d as [|l [|]]; try done.
    change (fill ([t] ++ drop 1 b) 1 [l]) with ([t; l] ++ drop 1 (drop 1 b)). at_idx. rewrite drop_drop.
    pose proof (b2z_range l). unfold u16. rewrite Z.mod_small by lia.
    apply (safe_rest [t; l]); [simpl; lia|]. intros d Hl. apply form_domain; [done|]. simpl in Hl. lia.
  - apply (safe_rest [t]); [simpl; lia|]. intros d Hl. by apply form_ip4.
  - apply (safe_rest [t]); [simpl; lia|]. intros d Hl. by apply form_ip6.
  - by constructor.
Qed.

Lemma safe_server_auth authenticator : total (server_auth authenticator).
Proof.
  unfold total, server_auth, server_userpass.
  assert (H1 : length (zeros 2) = 2%nat) by done. assert (H2 : length (zeros MaxAuthLen) = 255%nat) by done.
  generalize dependent (zeros MaxAuthLen). generalize dependent (zeros 2). intros z2 H2 z255 H255.
  repeat safe_step; byte_bound.
Qed.

Definition served_or_error (r : option bytes * Z * option Error) : Prop :=
  r.2 = None -> exists a, r.1.1 = Some a /\ addr_form a /\ (r.1.2 = CmdConnect \/ r.1.2 = CmdUDPAssociate).

Lemma safe_server_request local buf : length buf = 259%nat -> safe served_or_error (server_request local buf).
Proof.
  intros Hb. unfold server_request, server_reply. repeat safe_step.
  eapply safe_seq; [apply safe_ReadAddr|]. intros [ad e'] Had. cbn [fst snd].
  destruct e' as [e'|]; cbn [or_fail]; [by constructor|]. destruct (Had eq_refl) as (a & Ha & Hf). simpl in Ha. subst ad.
  case_bool_decide as Hc; [|by constructor]. repeat safe_step. intros _. simpl. eauto.
Qed.

Lemma safe_ServerHandshake local authenticator : safe served_or_error (ServerHandshake local authenticator).
Proof.
  unfold ServerHandshake. assert (Hz : length (zeros MaxAddrLen) = 259%nat) by done.
  generalize dependent (zeros MaxAddrLen). intros buf Hz.
  repeat safe_step; try byte_bound.
  eapply safe_seq; [apply safe_server_auth|]. intros e' _. repeat safe_step.
  apply safe_server_request. lia.
Qed.

Lemma safe_client_auth user buf : length buf = 259%nat -> safe (fun r => length r.1 = 259%nat) (client_auth user buf).
Proof. intros Hb. unfold client_auth. repeat safe_step; simpl; lia. Qed.

(** No bytes that arrive, wherever the connection ends and whichever write
    fails, panic either handshake, and an address that is returned without an
    error is well formed, on the server with a command that it carries out. *)
Theorem handshakes_total local authenticator addr command user s w :
  (exists r, (run (ServerHandshake local authenticator) s w).1.1 = Some r /\ served_or_error r) /\
  (exists r, (run (ClientHandshake addr command user) s w).1.1 = Some r /\ addr_or_error r).
Proof.
  split; apply safe_run; [apply safe_ServerHandshake|].
  unfold ClientHandshake, client_request. assert (Hz : length (zeros MaxAddrLen) = 259%nat) by done.
  generalize dependent (zeros MaxAddrLen). intros buf Hz.
  repeat safe_step. eapply safe_seq; [apply safe_client_auth; lia|]. intros [bf e'] Hbf. simpl in Hbf.
  repeat safe_step. apply safe_ReadAddr.
Qed.

(** ** Only credentials get past an authenticator *)

(** A read of a length that goes on without an error took that many bytes. *)
Lemma run_ReadFull_inv {B} buf hi (k : bytes * option conn_error -> io B) s w r :
  (hi <= length buf)%nat -> run (ReadFull buf 0 hi ≫= k) s w = r ->
  (forall b e t, (run (k (b, Some e)) t w).1.1 <> r.1.1) ->
  exists d s', s = d ++ s' /\ length d = hi /\ run (k (fill buf 0 d, None)) s' w = r.
Proof.
  intros Hhi Hr Hne. rewrite run_ReadFull, Nat.sub_0_r in Hr by lia.
  case_bool_decide as Hs.
  - exists (take hi s), (drop hi s). split; [by rewrite take_drop|]. split; [rewrite length_take; lia|done].
  - exfalso. unfold short_error in Hr. rewrite <- Hr in Hne. by eapply Hne.
Qed.

(** A server with an authenticator accepts a connection only on a username
    and a password that it verified, and it reads them and nothing else: whatever
    a client sends instead is refused. *)
Theorem accepted_credentials Verify s w rest out :
  run (server_userpass Verify) s w = (Some None, rest, out) ->
  exists v user pass, s = [v; z2b (zlen user)] ++ user ++ [z2b (zlen pass)] ++ pass ++ rest /\ Verify user pass = true.
Proof.
  unfold server_userpass. assert (H255 : length (zeros MaxAuthLen) = 255%nat) by done.
  generalize dependent (zeros MaxAuthLen). intros authBuf Hab H.
  apply run_ReadFull_inv in H as (d & s1 & -> & Hd & H); [|simpl; lia|done].
  destruct d as [|v [|l [|]]]; try done. cbn [fst snd or_fail] in H.
  erewrite at_index_bind in H by reflexivity. cbv beta zeta in H.
  pose proof (byte_nat_bound l) as Hl. case_bool_decide as Hl0; [by destruct w|].
  apply run_ReadFull_inv in H as (user & s2 & -> & Hu & H); [|lia|done]. cbn [fst snd or_fail] in H.
  rewrite upto_bind in H by (rewrite length_fill; lia). rewrite <- Hu, take_fill0 in H by lia.
  apply run_ReadFull_inv in H as (d & s3 & -> & Hd2 & H); [|simpl; lia|done].
  destruct d as [|pl [|]]; try done. cbn [fst snd or_fail] in H.
  erewrite at_index_bind in H by reflexivity. cbv beta zeta in H.
  pose proof (byte_nat_bound pl) as Hpl. case_bool_decide as Hp0; [by destruct w|].
  apply run_ReadFull_inv in H as (pass & s4 & -> & Hp & H); [|rewrite length_fill; lia|done]. cbn [fst snd or_fail] in H.
  rewrite upto_bind in H by (rewrite !length_fill; rewrite ?length_fill; lia).
  rewrite <- Hp, take_fill0 in H by (rewrite length_fill; lia).
  destruct (Verify user pass) eqn:EV; cbn [negb] in H; [|by destruct w].
  exists v, user, pass. split; [|done].
  assert (Hrest : s4 = rest) by (destruct w; simpl in H; congruence). subst s4.
  pose proof (b2z_range l). pose proof (b2z_range pl).
  assert (Hz : forall c (t : bytes), length t = Z.to_nat (b2z c) -> z2b (zlen t) = c).
  { intros c t Ht. apply b2z_inj. pose proof (b2z_range c). rewrite b2z_z2b_small; unfold zlen; lia. }
  by rewrite (Hz l user Hu), (Hz pl pass Hp).
Qed.

(** A handshake that ends without an error has read such credentials. *)
Lemma handshake_credentials local Verify s w addr cmd rest out :
  run (ServerHandshake local (Some Verify)) s w = (Some (addr, cmd, None), rest, out) ->
  exists pre v user pass post,
    s = pre ++ [v; z2b (zlen user)] ++ user ++ [z2b (zlen pass)] ++ pass ++ post /\ Verify user pass = true.
Proof.
  unfold ServerHandshake. generalize (zeros MaxAddrLen). intros buf H.
  apply run_bind_inv in H as (r1 & s1 & w1 & o1 & o1' & H1 & H). pose proof (run_suffix (ReadFull buf 0 2) s w) as [p1 Hp1].
  rewrite H1 in Hp1. cbn [fst snd] in Hp1. apply or_fail_inv in H as [_ H]; [|done].
  apply run_bind_inv in H as (n & s2 & w2 & o2 & o2' & H2 & H). pose proof (run_suffix (at_index r1.1 1) s1 w1) as [p2 Hp2].
  rewrite H2 in Hp2. cbn [fst snd] in Hp2. cbv zeta in H.
  apply run_bind_inv in H as (r3 & s3 & w3 & o3 & o3' & H3 & H).
  pose proof (run_suffix (ReadFull r1.1 0 (Z.to_nat (b2z n))) s2 w2) as [p3 Hp3]. rewrite H3 in Hp3. cbn [fst snd] in Hp3.
  apply or_fail_inv in H as [_ H]; [|done].
  apply run_bind_inv in H as (e & s4 & w4 & o4 & o4' & H4 & H). apply or_fail_inv in H as [-> _]; [|done].
  unfold server_auth in H4. apply run_bind_inv in H4 as (e5 & s5 & w5 & o5 & o5' & H5 & H4).
  assert (Hs5 : s5 = s3) by (unfold WriteAll in H5; simpl in H5; destruct w3; simpl in H5; congruence). subst s5.
  apply or_fail_inv in H4 as [_ H4]; [|done]. apply accepted_credentials in H4 as (v & user & pass & Hs & Hv).
  exists (p1 ++ p2 ++ p3), v, user, pass, s4. split; [|done]. rewrite Hp1, Hp2, Hp3, Hs. by rewrite <- !app_assoc.
Qed.

(** ** Witnesses *)

Module Examples.
Definition web : bytes := default [] (ParseAddr (bs "example.com:80")).
Definition Verify (user pass : bytes) : bool := bool_decide (user = bs "bob" /\ pass = bs "pw").
Definition bob : User := MkUser (bs "bob") (bs "pw").

Example outcome_bob :
  session_outcome (bs "10.0.0.1:1080") (Some Verify) web CmdConnect (Some bob) =
  ((Some [z2b 1; z2b 10; z2b 0; z2b 0; z2b 1; z2b 4; z2b 56], None), (Some web, 1, None), []).
Proof. vm_compute. reflexivity. Qed.

Lemma session_witness :
  let o := session_outcome (bs "10.0.0.1:1080") (Some Verify) web CmdConnect (Some bob) in
  o.1.1.2 = None /\
  settles (Conf (ClientHandshake web CmdConnect (Some bob)) (ServerHandshake (bs "10.0.0.1:1080") (Some Verify)) [] [])
          (Conf (Ret o.1.1) (Ret o.1.2) o.2 []).
Proof.
  split; [vm_compute; reflexivity|].
  refine (session (bs "10.0.0.1:1080") (Some Verify) web CmdConnect (Some bob) _ _ _).
  - unfold CmdConnect. lia.
  - vm_compute. reflexivity.
  - intros u [= <-]. unfold short_user. simpl. lia.
Defined.

Lemma accepted_credentials_witness :
  exists v user pass,
    auth_msg bob ++ bs "next" = [v; z2b (zlen user)] ++ user ++ [z2b (zlen pass)] ++ pass ++ bs "next" /\
    Verify user pass = true.
Proof.
  refine (accepted_credentials Verify (auth_msg bob ++ bs "next") 1 (bs "next") [z2b 1; z2b 0] _).
  vm_compute. reflexivity.
Defined.

Lemma read_addr_split_witness :
  SplitAddr (web ++ bs "rest") = Some web /\
  reads_as (ReadAddr (zeros MaxAddrLen)) (web ++ bs "rest") 0 (SplitAddr (web ++ bs "rest")) (web ++ bs "rest").
Proof.
  split; [vm_compute; reflexivity|].
  exact (read_addr_split (zeros MaxAddrLen) (web ++ bs "rest") 0 (le_n _)).
Defined.

Lemma udp_packet_roundtrip_witness :
  wf_addr web /\
  (EncodeUDPPacket (Some web) (bs "query") = Ok (zeros 3 ++ web ++ bs "query") <->
   DecodeUDPPacket (zeros 3 ++ web ++ bs "query") = (Some web, bs "query", None)).
Proof.
  split; [vm_compute; reflexivity|].
  refine (udp_packet_roundtrip (zeros 3 ++ web ++ bs "query") web (bs "query") _). vm_compute. reflexivity.
Defined.

Lemma addr_text_roundtrip_witness :
  wf_addr web /\ exists s, @Addr_String Error (exact web) = Ok s /\ ParseAddr s = Some web.
Proof.
  split; [vm_compute; reflexivity|].
  refine (addr_text_roundtrip web _ _); [vm_compute; reflexivity|].
  right. split; [vm_compute; reflexivity|]. split; [|vm_compute; reflexivity].
  split; [|split]; apply (bool_decide_unpack _); vm_compute; exact I.
Defined.
End Examples.
