(* ===== verification/Proxy.v ===== *)
(** * Proxy: the rootless proxy ([cmd/pgcli/vpn/rootless/proxy.go])

    A connection whose first byte was peeked, the SOCKS5 side with its relayed
    datagrams, and what the HTTP side decides for a parsed request.  The network
    stack that the proxy dials through is outside: an accepted connection ends in
    an [action]. *)

From S2P Require Import Prelude Text Base64 Netip Stream Duplex Socks5.

(** ** [peekConn]: some bytes in front of a connection *)

(** [Read] with a buffer of [n] bytes: [None] when the call goes on to the
    connection below. *)
Definition peek_Read (n : Z) (peekBytes : option bytes) : option (bytes * option bytes) :=
  p ← peekBytes; Some (copy_out n p).

(** Reads of given sizes, until one goes below. *)
Fixpoint peek_reads (ns : list Z) (c : option bytes) : bytes * option bytes :=
  match ns with
  | [] => ([], c)
  | n :: ns =>
      match peek_Read n c with
      | Some (d, c) => let r := peek_reads ns c in (d ++ r.1, r.2)
      | None => ([], c)
      end
  end.

Lemma peek_reads_exact ns c :
  Forall (Z.le 0) ns -> default [] c = (peek_reads ns c).1 ++ default [] (peek_reads ns c).2.
Proof.
  intros Hns. revert c. induction Hns as [|n ns Hn _ IH]; intros c; [done|].
  destruct c as [p|]; [|done]. cbn [peek_reads peek_Read mbind option_bind].
  pose proof (copy_out_split n p Hn) as Hp. destruct (copy_out n p) as [d c]. simpl in Hp |- *.
  rewrite Hp, (IH c) at 1. by rewrite app_assoc.
Qed.

(** ** Configuration *)

Record ProxyConfig := MkProxyConfig { Listen : bytes; Users : list bytes }.

Definition cfg_Verify (c : ProxyConfig) (user password : bytes) : bool :=
  if bool_decide (Users c = []) then true
  else bool_decide (user ++ bs ":" ++ password ∈ Users c).

(** ** Relayed datagrams: [Socks5UDPConn]

    The address is a slice of the read buffer, from byte 3, so its bytes are what
    the buffer holds when it is used. *)
Record Socks5UDPConn := MkSocks5UDPConn {
  readBuf : option bytes;
  addr_len : option nat;
  peekPacket : option bytes
}.

Definition new_conn : Socks5UDPConn := MkSocks5UDPConn None None None.
Definition buf_size : nat := 65535.

(** The bytes of [c.Addr] now. *)
Definition conn_Addr (c : Socks5UDPConn) : option bytes :=
  n ← addr_len c; Some (take n (drop 3 (default [] (readBuf c)))).

(** [readBufMakeOnce], then [c.Conn.Read(c.readBuf)]: [r] is the next datagram or
    the error of the connection below. *)
Definition makeBuf (c : Socks5UDPConn) : Socks5UDPConn :=
  match readBuf c with
  | Some _ => c
  | None => MkSocks5UDPConn (Some (repeat (z2b 0) buf_size)) (addr_len c) (peekPacket c)
  end.
Definition below_Read (r : res conn_error bytes) (c : Socks5UDPConn) : res conn_error bytes * Socks5UDPConn :=
  match r with
  | Ok d =>
      let d := take buf_size d in
      (Ok d, MkSocks5UDPConn (Some (fill (default [] (readBuf c)) 0 d)) (addr_len c) (peekPacket c))
  | Err e => (Err e, c)
  | Panic => (Panic, c)
  end.

(** [peekTarget] *)
Definition peekTarget (r : res conn_error bytes) (c : Socks5UDPConn) : res Error bytes * Socks5UDPConn :=
  let c := makeBuf c in
  match below_Read r c with
  | (Ok pkt, c) =>
      let c := MkSocks5UDPConn (readBuf c) (addr_len c) (Some pkt) in
      match DecodeUDPPacket pkt with
      | (_, _, Some e) => (Err e, c)
      | (addr, _, None) =>
          let addr := default [] addr in
          (Ok addr, MkSocks5UDPConn (readBuf c) (Some (length addr)) (peekPacket c))
      end
  | (Err e, c) => (Err (EIo e), c)
  | (Panic, c) => (Panic, c)
  end.

(** [Read] with a buffer of [n] bytes; [r] is used when no packet was peeked. *)
Definition conn_Read (n : nat) (r : res conn_error bytes) (c : Socks5UDPConn) : res Error bytes * Socks5UDPConn :=
  let c := makeBuf c in
  let '(pkt, c) := match peekPacket c with Some p => (Ok p, c) | None => below_Read r c end in
  match pkt with
  | Ok pkt =>
      let c := MkSocks5UDPConn (readBuf c) (addr_len c) None in
      match DecodeUDPPacket pkt with
      | (_, _, Some e) => (Err e, c)
      | (_, b, None) => (Ok (take n b), c)
      end
  | Err e => (Err (EIo e), c)
  | Panic => (Panic, c)
  end.

(** [Write]: the datagram handed to the connection below. *)
Definition conn_Write (p : bytes) (c : Socks5UDPConn) : res Error bytes := EncodeUDPPacket (conn_Addr c) p.

(** ** Connections *)

(** Where an accepted connection goes. *)
Inductive action :=
| DialTCP (target : bytes)
| DiscardUntilClosed
| Rejected (e : Error)
| Finished.

(** [serveSOCKS5]; [local] is the text of the local address. *)
Definition serveSOCKS5 (cfg : ProxyConfig) (local : bytes) : io action :=
  let authenticator := if bool_decide (Users cfg = []) then None else Some (cfg_Verify cfg) in
  r ← ServerHandshake local authenticator;
  onerr r.2 as e give Ret (Rejected e) in
  let addr := default [] r.1.1 in
  let cmd := r.1.2 in
  if bool_decide (cmd = CmdConnect) then
    match @Addr_String Error (exact addr) with
    | Ok t => Ret (DialTCP t)
    | Err e => Ret (Rejected e)
    | Panic => Crash
    end
  else if bool_decide (cmd = CmdUDPAssociate) then Ret DiscardUntilClosed
  else Ret Finished.

(** A parsed HTTP request, with its Proxy-Authorization header. *)
Record Request := MkRequest { Method : bytes; Host : bytes; Proxy_Authorization : bytes }.

Inductive http_action :=
| AuthError
| Tunnel (target : bytes)
| Forwarded (target : bytes).

(** [serveHTTP] after the request is parsed. *)
Definition serveHTTP (cfg : ProxyConfig) (r : Request) : http_action :=
  let host := match SplitHostPort (Host r) with Some _ => Host r | None => Host r ++ bs ":80" end in
  let refused := match parseBasicAuth (Proxy_Authorization r) with
                 | Some (user, pass) => negb (cfg_Verify cfg user pass)
                 | None => false
                 end in
  if refused then AuthError
  else if bool_decide (Method r = bs "CONNECT") then Tunnel host else Forwarded host.

(** The status lines a client is written; [dialled] is whether [proxy] reaches the
    target.  A tunnel is confirmed before it is dialled. *)
Definition http_statuses (a : http_action) (dialled : bool) : list Z :=
  match a with
  | AuthError => [407]
  | Tunnel _ => 200 :: (if dialled then [] else [500])
  | Forwarded _ => if dialled then [] else [500]
  end.

(** [readTCP]: the first byte decides, and is given back to the reader. *)
Inductive protocol := SOCKS5 | HTTP.
Definition dispatch (b : byte) : protocol := if bool_decide (b2z b = 5) then SOCKS5 else HTTP.

(** What becomes of an accepted connection on which [s] is sent, when [w] writes to
    it succeed; [ReadRequest] is [http.ReadRequest].  One that sends nothing is
    left open. *)
Inductive tcp_fate := LeftOpen | Socks (a : action) | Http (a : http_action) | NoRequest | Died.
Definition readTCP (cfg : ProxyConfig) (local : bytes) (ReadRequest : bytes -> option Request) (s : bytes) (w : nat) : tcp_fate :=
  match s with
  | [] => LeftOpen
  | b :: _ =>
      match dispatch b with
      | SOCKS5 => match (run (serveSOCKS5 cfg local) s w).1.1 with Some a => Socks a | None => Died end
      | HTTP => match ReadRequest s with Some r => Http (serveHTTP cfg r) | None => NoRequest end
      end
  end.

(** [readUDP]: the target of a flow whose first datagram is given. *)
Definition readUDP (first : res conn_error bytes) : res Error bytes :=
  match peekTarget first new_conn with
  | (Ok addr, _) => Addr_String (exact addr)
  | (Err e, _) => Err e
  | (Panic, _) => Panic
  end.

(** ** Theorems *)

Lemma Addr_String_total a : addr_form a -> exists t, @Addr_String Error (exact a) = Ok t.
Proof.
  intros Ha. unfold Addr_String, port_at, exact.
  assert (Hg : forall (s : bytes) i, 0 <= i < zlen s -> exists c, @sl_get Error (GSlice s []) i = Ok c).
  { intros s i Hi. unfold sl_get, sl_len. cbn [vis]. rewrite bool_decide_true by done.
    destruct (lookup_lt_is_Some_2 s (Z.to_nat i)) as [c Hc]; [unfold zlen in Hi; lia|]. rewrite Hc. eauto. }
  assert (Hs : forall (s : bytes) lo hi, 0 <= lo <= hi -> hi <= zlen s -> exists m, @sl_sub Error (GSlice s []) lo hi = Ok m).
  { intros s lo hi Hlo Hhi. unfold sl_sub, sl_cap. cbn [vis spare]. rewrite bool_decide_true by zlen_lia. eauto. }
  destruct Ha as [t l d Ht Hd|t d Ht Hd|t d Ht Hd];
    assert (Hz : zlen d = Z.of_nat (length d)) by done; rewrite Hd in Hz.
  - pose proof (b2z_range l). rewrite (sl_get_app [] t (l :: d) [] 0), bind_Ok, Ht by done.
    rewrite bool_decide_true by done. rewrite (sl_get_app [t] l d [] 1), bind_Ok by done.
    unfold u16. rewrite !Z.mod_small by (rewrite ?Z.mod_small; lia).
    destruct (Hs (t :: l :: d) 2 (2 + b2z l)) as (m & ->); [lia|zlen_lia|]. rewrite bind_Ok.
    destruct (Hg (t :: l :: d) (2 + b2z l)) as (h & ->); [zlen_lia|]. rewrite bind_Ok.
    destruct (Hg (t :: l :: d) (2 + b2z l + 1)) as (lo & ->); [zlen_lia|]. eexists. done.
  - rewrite (sl_get_app [] t d [] 0), bind_Ok, Ht by done.
    rewrite (bool_decide_false (AtypIPv4 = AtypDomainName)) by by unfold AtypIPv4, AtypDomainName.
    rewrite bool_decide_true by done.
    destruct (Hs (t :: d) 1 5) as (m & ->); [lia|zlen_lia|]. rewrite bind_Ok.
    destruct (Hg (t :: d) 5) as (h & ->); [zlen_lia|]. rewrite bind_Ok.
    destruct (Hg (t :: d) (5 + 1)) as (lo & ->); [zlen_lia|]. eexists. done.
  - rewrite (sl_get_app [] t d [] 0), bind_Ok, Ht by done.
    rewrite (bool_decide_false (AtypIPv6 = AtypDomainName)) by by unfold AtypIPv6, AtypDomainName.
    rewrite (bool_decide_false (AtypIPv6 = AtypIPv4)) by by unfold AtypIPv6, AtypIPv4.
    rewrite bool_decide_true by done.
    destruct (Hs (t :: d) 1 17) as (m & ->); [lia|zlen_lia|]. rewrite bind_Ok.
    destruct (Hg (t :: d) 17) as (h & ->); [zlen_lia|]. rewrite bind_Ok.
    destruct (Hg (t :: d) (17 + 1)) as (lo & ->); [zlen_lia|]. eexists. done.
Qed.

(** Whatever a client sends, serving it does not panic, and it is connected
    to a target only after a handshake without an error. *)
Theorem serveSOCKS5_total cfg local s w :
  exists a, (run (serveSOCKS5 cfg local) s w).1.1 = Some a /\ a <> Finished.
Proof.
  apply safe_run. unfold serveSOCKS5. eapply safe_seq; [apply safe_ServerHandshake|].
  intros [[addr cmd] e] Hs. cbn [fst snd]. destruct e as [e|]; cbn [or_fail]; [by constructor|].
  destruct (Hs eq_refl) as (a & Ha & Hf & Hc). simpl in Ha, Hc. subst addr.
  change (default [] (Some a)) with a.
  destruct (Addr_String_total a Hf) as (t & Ht). rewrite Ht.
  destruct Hc as [-> | ->]; repeat case_bool_decide; by constructor.
Qed.

(** The HTTP side asks nobody for credentials: a request without the header goes
    through although users are configured. *)
Theorem http_open_without_header cfg m host :
  serveHTTP cfg (MkRequest m host []) = serveHTTP (MkProxyConfig (Listen cfg) []) (MkRequest m host []) /\
  serveHTTP cfg (MkRequest m host []) <> AuthError.
Proof. unfold serveHTTP. simpl. split; [done|]. by case_bool_decide. Qed.

(** ** Relayed datagrams *)

Definition opened (first : bytes) : res Error bytes * Socks5UDPConn := peekTarget (Ok first) new_conn.

Lemma take_drop_fill buf d : (length d <= length buf)%nat -> forall i n, (i + n <= length d)%nat ->
  take n (drop i (fill buf 0 d)) = take n (drop i d).
Proof.
  intros Hd i n Hi. unfold fill. simpl. rewrite drop_app_le by lia.
  rewrite take_app_le; [done|]. rewrite length_drop. lia.
Qed.

(** The state after a datagram that opens a flow to [a]. *)
Lemma opened_ok a payload :
  wf_addr a -> (3 + length a + length payload <= buf_size)%nat ->
  exists buf, opened ([z2b 0; z2b 0; z2b 0] ++ a ++ payload) =
    (Ok a, MkSocks5UDPConn (Some buf) (Some (length a)) (Some ([z2b 0; z2b 0; z2b 0] ++ a ++ payload))) /\
    length buf = buf_size /\ take (length a) (drop 3 buf) = a.
Proof.
  intros Ha Hlen. set (pkt := [z2b 0; z2b 0; z2b 0] ++ a ++ payload).
  assert (Hpl : length pkt = (3 + (length a + length payload))%nat) by (unfold pkt; by rewrite !length_app).
  pose proof (Decode_Encode a payload (proj1 (wf_addr_form a) Ha)) as Hd. fold pkt in Hd.
  exists (fill (repeat (z2b 0) buf_size) 0 pkt). unfold opened, peekTarget, makeBuf, new_conn, below_Read. cbn [readBuf].
  rewrite (take_ge pkt) by lia. cbn [readBuf addr_len peekPacket]. rewrite Hd. split; [done|].
  assert (Hb : length (repeat (z2b 0) buf_size) = buf_size) by apply repeat_length.
  split; [by rewrite length_fill; [done|lia]|].
  rewrite take_drop_fill by (rewrite ?Hb; lia). unfold pkt. simpl. rewrite drop_0. apply take_app_length.
Qed.

Definition datagram (a payload : bytes) : bytes := [z2b 0; z2b 0; z2b 0] ++ a ++ payload.

Lemma below_Read_ok d c buf :
  (length d <= buf_size)%nat -> readBuf c = Some buf ->
  below_Read (Ok d) c = (Ok d, MkSocks5UDPConn (Some (fill buf 0 d)) (addr_len c) (peekPacket c)).
Proof. intros Hd Hb. unfold below_Read. rewrite take_ge by done. by rewrite Hb. Qed.

(** A flow of relayed datagrams: the datagram that was peeked is the first
    that is read, then those that follow, each without its header.  The replies
    carry the address bytes of the datagram that was read last, because the
    address is a slice of the read buffer: a client that sends to another target
    on the same flow gets the replies of the first target under the second one's
    address. *)
Theorem flow_reads_and_labels a a2 p1 p2 n reply r :
  wf_addr a -> wf_addr a2 -> length a2 = length a ->
  (3 + length a + length p1 <= buf_size)%nat -> (3 + length a + length p2 <= buf_size)%nat ->
  let o := opened (datagram a p1) in
  let r1 := conn_Read n r o.2 in
  let r2 := conn_Read n (Ok (datagram a2 p2)) r1.2 in
  o.1 = Ok a /\ r1.1 = Ok (take n p1) /\ conn_Write reply r1.2 = Ok (datagram a reply) /\
  r2.1 = Ok (take n p2) /\ conn_Write reply r2.2 = Ok (datagram a2 reply).
Proof.
  intros Ha Ha2 Hl H1 H2.
  destruct (opened_ok a p1 Ha H1) as (buf & Ho & Hbuf & Hlab). fold (datagram a p1) in Ho.
  assert (Hr1 : conn_Read n r (opened (datagram a p1)).2 = (Ok (take n p1), MkSocks5UDPConn (Some buf) (Some (length a)) None)).
  { rewrite Ho. unfold conn_Read, makeBuf. cbn [snd readBuf peekPacket addr_len].
    unfold datagram. rewrite Decode_Encode by by apply wf_addr_form. done. }
  assert (Hr2 : conn_Read n (Ok (datagram a2 p2)) (MkSocks5UDPConn (Some buf) (Some (length a)) None) =
    (Ok (take n p2), MkSocks5UDPConn (Some (fill buf 0 (datagram a2 p2))) (Some (length a)) None)).
  { unfold conn_Read, makeBuf. cbn [snd readBuf peekPacket addr_len].
    rewrite (below_Read_ok _ _ buf) by (done || (unfold datagram; rewrite !length_app; simpl; lia)).
    cbn [readBuf addr_len]. unfold datagram at 1. rewrite Decode_Encode by by apply wf_addr_form. done. }
  cbv zeta. rewrite Hr1. cbn [fst snd]. rewrite Hr2. rewrite Ho. cbn [fst snd].
  unfold conn_Write, conn_Addr. cbn [addr_len readBuf mbind option_bind].
  split; [done|]. split; [done|]. split.
  { change (default [] (Some buf)) with buf. by rewrite Hlab. } split; [done|].
  change (default [] (Some ?b)) with b. rewrite take_drop_fill by (unfold datagram; rewrite ?length_app; simpl; rewrite ?length_app; lia).
  unfold datagram at 1. simpl (drop 3 _). rewrite drop_0, <- Hl, take_app_length. done.
Qed.

(** ** Who gets through *)

(** The credentials that a configuration has. *)
Definition configured (cfg : ProxyConfig) (user pass : bytes) : Prop := user ++ bs ":" ++ pass ∈ Users cfg.

Lemma Verify_configured cfg user pass : Users cfg <> [] -> cfg_Verify cfg user pass = true <-> configured cfg user pass.
Proof. intros Hu. unfold cfg_Verify. rewrite bool_decide_false by done. by rewrite bool_decide_eq_true. Qed.

Lemma readTCP_dial cfg local RR s w t :
  readTCP cfg local RR s w = Socks (DialTCP t) -> exists rest out, run (serveSOCKS5 cfg local) s w = (Some (DialTCP t), rest, out).
Proof.
  unfold readTCP. destruct s as [|b s']; [done|]. destruct (dispatch b); [|by destruct (RR _)].
  destruct (run _ _ _) as [[[a|] rest] out]; [|done]. intros [= ->]. by exists rest, out.
Qed.

Lemma serveSOCKS5_credentials cfg local s w t rest out :
  Users cfg <> [] -> run (serveSOCKS5 cfg local) s w = (Some (DialTCP t), rest, out) ->
  exists pre v user pass post,
    s = pre ++ [v; z2b (zlen user)] ++ user ++ [z2b (zlen pass)] ++ pass ++ post /\ configured cfg user pass.
Proof.
  intros Hu. unfold serveSOCKS5. rewrite bool_decide_false by done. intros H.
  apply run_bind_inv in H as (r & s1 & w1 & o1 & o2 & H1 & H). destruct r as [[addr cmd] e]. cbn [fst snd] in H.
  apply or_fail_inv in H as [-> _]; [|done]. apply handshake_credentials in H1 as (pre & v & user & pass & post & Hs & Hv).
  exists pre, v, user, pass, post. split; [done|]. by apply Verify_configured.
Qed.

(** C10. Who gets through a proxy with users.  A SOCKS5 connection is dialled only
    after it sent credentials that are configured.  An HTTP request is refused
    exactly when its header has credentials that are not: without a header, or
    with one that is malformed, it goes through.  A datagram of anybody is relayed
    to the target that it names. *)
Theorem proxy_access cfg local ReadRequest :
  Users cfg <> [] ->
  (forall s w t, readTCP cfg local ReadRequest s w = Socks (DialTCP t) ->
     exists pre v user pass post,
       s = pre ++ [v; z2b (zlen user)] ++ user ++ [z2b (zlen pass)] ++ pass ++ post /\ configured cfg user pass) /\
  (forall s w a, readTCP cfg local ReadRequest s w = Http a ->
     (a = AuthError <-> exists r user pass, ReadRequest s = Some r /\
        parseBasicAuth (Proxy_Authorization r) = Some (user, pass) /\ ~ configured cfg user pass)) /\
  (forall m host user pass, z2b 58 ∉ user ->
     serveHTTP cfg (MkRequest m host (bs "Basic " ++ b64_Encode (user ++ bs ":" ++ pass))) = AuthError <-> ~ configured cfg user pass) /\
  (forall a payload, wf_addr a -> (3 + length a + length payload <= buf_size)%nat ->
     exists t, readUDP (Ok ([z2b 0; z2b 0; z2b 0] ++ a ++ payload)) = Ok t /\ @Addr_String Error (exact a) = Ok t).
Proof.
  intros Hu. assert (Hserve : forall r, serveHTTP cfg r = AuthError <->
      exists user pass, parseBasicAuth (Proxy_Authorization r) = Some (user, pass) /\ ~ configured cfg user pass).
  { intros r. unfold serveHTTP. destruct (parseBasicAuth _) as [[user pass]|].
    - pose proof (Verify_configured cfg user pass Hu) as Hv. destruct (cfg_Verify cfg user pass); cbn [negb].
      + split; [by case_bool_decide|]. intros (u & p & [= <- <-] & Hn). by destruct Hn, Hv; auto.
      + split; [|done]. intros _. exists user, pass. split; [done|]. intros Hc. by apply Hv in Hc.
    - split; [by case_bool_decide|]. by intros (? & ? & ? & _). }
  split_and!.
  - intros s w t (rest & out & H)%readTCP_dial. by eapply serveSOCKS5_credentials.
  - intros s w a. unfold readTCP. destruct s as [|b s']; [done|]. destruct (dispatch b); [by destruct (run _ _ _).1.1|].
    destruct (ReadRequest _) as [r|]; [|done]. intros [= <-]. rewrite Hserve. split.
    + intros (user & pass & H). by exists r, user, pass.
    + intros (r' & user & pass & [= <-] & H). by exists user, pass.
  - intros m host user pass Hc. rewrite Hserve. cbn [Proxy_Authorization]. rewrite parseBasicAuth_header by done. split.
    + by intros (u & p & [= <- <-] & Hn).
    + intros Hn. by exists user, pass.
  - intros a payload Ha Hl. destruct (opened_ok a payload Ha Hl) as (buf & Ho & _). unfold readUDP. unfold opened in Ho. rewrite Ho.
    destruct (Addr_String_total a) as [t Ht]; [by apply wf_addr_form|]. exists t. by rewrite Ht.
Qed.

(** ** Witnesses *)

Module Examples.
Definition dns1 : bytes := [z2b 1; z2b 9; z2b 9; z2b 9; z2b 9; z2b 0; z2b 53].
Definition dns2 : bytes := [z2b 1; z2b 8; z2b 8; z2b 8; z2b 8; z2b 0; z2b 53].

Lemma flow_reads_and_labels_witness :
  let o := opened (datagram dns1 (bs "q1")) in
  let r1 := conn_Read 100 (Err EOF) o.2 in
  let r2 := conn_Read 100 (Ok (datagram dns2 (bs "q2"))) r1.2 in
  o.1 = Ok dns1 /\ r1.1 = Ok (take 100 (bs "q1")) /\ conn_Write (bs "a1") r1.2 = Ok (datagram dns1 (bs "a1")) /\
  r2.1 = Ok (take 100 (bs "q2")) /\ conn_Write (bs "a1") r2.2 = Ok (datagram dns2 (bs "a1")).
Proof.
  refine (flow_reads_and_labels dns1 dns2 (bs "q1") (bs "q2") 100 (bs "a1") (Err EOF) _ _ _ _ _);
    try reflexivity; apply (bool_decide_unpack _); vm_compute; exact I.
Defined.

Definition guarded : ProxyConfig := MkProxyConfig (bs "127.0.0.1:4090") [bs "bob:s3cret"].
Definition one_request : bytes -> option Request := fun _ => Some (MkRequest (bs "CONNECT") (bs "10.0.0.2") (bs "Basic Ym9iOndyb25n")).

Lemma proxy_access_witness :
  readTCP guarded (bs "127.0.0.1:4090") one_request (bs "CONNECT") 9 = Http AuthError /\
  (AuthError = AuthError <-> (exists r user pass, one_request (bs "CONNECT") = Some r /\
     parseBasicAuth (Proxy_Authorization r) = Some (user, pass) /\ ~ configured guarded user pass)).
Proof.
  split; [vm_compute; reflexivity|].
  refine (proj1 (proj2 (proxy_access guarded (bs "127.0.0.1:4090") one_request _)) (bs "CONNECT") 9%nat AuthError _).
  - discriminate.
  - vm_compute. reflexivity.
Defined.

Example tunnel_failure : http_statuses (serveHTTP guarded (MkRequest (bs "CONNECT") (bs "10.0.0.2") [])) false = [200; 500].
Proof. reflexivity. Qed.
Example udp_for_all : readUDP (Ok (datagram dns1 (bs "q"))) = Ok (bs "9.9.9.9:53").
Proof. vm_compute. reflexivity. Qed.
End Examples.
