(* ===== verification/Fileshare.v ===== *)
(** * Fileshare: sharing files between peers ([fileshare], [cmd/pgcli/download])

    The index of the shared files, the links that name them, and the transfer:
    [handleRequest] on the side that shares and [readFile] on the side that
    downloads, as programs over one connection.  A local file that is a beginning
    of the shared one is completed; the checksum of the other peer decides.
    The read deadline of the handshake is an argument, [late]; the goroutine that
    closes the connection on a close message is [watch].

    [sha256] is a parameter: only its length is used. *)

From S2P Require Import Prelude Text Url Duplex.

(** ** The index of shared files *)

Module Index.

(** What [os.Lstat] and [os.ReadDir] find at a path. *)
Inductive node :=
| NMissing
| NSymlink
| NFile
| NDir (entries : option (list (bytes * node))).

Record FileManager := MkFileManager { index : Z; files : gmap Z bytes }.
Definition empty_manager : FileManager := MkFileManager 0 ∅.

(** [filepath.Join] of a clean absolute path and an entry of it. *)
Definition Join (dir name : bytes) : bytes := if bool_decide (dir = bs "/") then dir ++ name else dir ++ bs "/" ++ name.

(** [addAbs]: whether there was an error; those of the entries are ignored. *)
Fixpoint addAbs (absPath : bytes) (n : node) (fm : FileManager) : bool * FileManager :=
  match n with
  | NMissing => (true, fm)
  | NSymlink => (false, fm)
  | NDir None => (true, fm)
  | NDir (Some es) =>
      (false, (fix go (es : list (bytes * node)) (fm : FileManager) : FileManager :=
                 match es with
                 | [] => fm
                 | (name, n) :: es => go es (addAbs (Join absPath name) n fm).2
                 end) es fm)
  | NFile => (false, MkFileManager (index fm + 1) (<[index fm := absPath]> (files fm)))
  end.

(** The regular files below a path, in the order of the walk. *)
Fixpoint leaves (absPath : bytes) (n : node) : list bytes :=
  match n with
  | NFile => [absPath]
  | NDir (Some es) =>
      (fix go (es : list (bytes * node)) : list bytes :=
         match es with [] => [] | (name, n) :: es => leaves (Join absPath name) n ++ go es end) es
  | _ => []
  end.

(** [Add] of a path that [filepath.Abs] makes absolute, or of one in the home
    directory. *)
Definition Add (Abs : bytes -> option bytes) (home : option bytes) (JoinHome : bytes -> bytes -> bytes)
    (stat : bytes -> node) (file : bytes) (fm : FileManager) : bool * FileManager :=
  match Abs file with
  | None => (true, fm)
  | Some absPath =>
      if HasPrefix file (bs "~") then
        match home with
        | None => (true, fm)
        | Some h => let p := JoinHome h (drop 1 file) in addAbs p (stat p) fm
        end
      else addAbs absPath (stat absPath) fm
  end.

(** The files added one after the other. *)
Fixpoint numbered (i : Z) (paths : list bytes) (m : gmap Z bytes) : gmap Z bytes :=
  match paths with
  | [] => m
  | p :: paths => numbered (i + 1) paths (<[i := p]> m)
  end.

(** Every path has the number of its place. *)
Definition well_indexed (fm : FileManager) : Prop :=
  0 <= index fm /\ forall k, is_Some (files fm !! k) <-> 0 <= k < index fm.

Lemma numbered_app i a b m : numbered i (a ++ b) m = numbered (i + zlen a) b (numbered i a m).
Proof.
  revert i m. induction a as [|p a IH]; intros i m; simpl; [f_equal; rewrite zlen_nil; lia|].
  rewrite IH. f_equal. rewrite zlen_cons. lia.
Qed.

(** A node and what is below it, for inductions. *)
Fixpoint node_size (n : node) : nat :=
  match n with
  | NDir (Some es) => S ((fix go (es : list (bytes * node)) : nat := match es with [] => O | (_, n) :: es => (node_size n + go es)%nat end) es)
  | _ => 1%nat
  end.

(** Walking a path numbers its files from the next number on. *)
Lemma addAbs_numbers n : forall path fm,
  (addAbs path n fm).2 =
  MkFileManager (index fm + zlen (leaves path n)) (numbered (index fm) (leaves path n) (files fm)).
Proof.
  remember (node_size n) as m eqn:Hm. revert n Hm. induction m as [m IH] using lt_wf_ind. intros n Hm path fm.
  assert (Hid : fm = MkFileManager (index fm + zlen (@nil bytes)) (numbered (index fm) [] (files fm))).
  { destruct fm as [i f]. simpl. f_equal. rewrite zlen_nil. lia. }
  destruct n as [| | |[es|]]; simpl; try exact Hid.
  - by rewrite zlen_cons, zlen_nil.
  - simpl in Hm. revert fm m IH Hm Hid. induction es as [|[name n] es IHes]; intros fm m IH Hm Hid; [exact Hid|].
    simpl in Hm. assert (Hpos : (0 < node_size n)%nat) by (destruct n as [| | |[|]]; simpl; lia).
    rewrite (IH (node_size n)) by lia.
    rewrite (IHes _ (S ((fix go (es : list (bytes * node)) : nat :=
      match es with [] => O | (_, n) :: es => (node_size n + go es)%nat end) es))); [|intros; apply (IH m0); lia|done|].
    + simpl. rewrite numbered_app, zlen_app. f_equal. lia.
    + simpl. f_equal. rewrite zlen_nil. lia.
Qed.

Lemma numbered_lookup paths : forall i m k,
  numbered i paths m !! k = if bool_decide (i <= k < i + zlen paths) then paths !! Z.to_nat (k - i) else m !! k.
Proof.
  induction paths as [|p paths IH]; intros i m k; simpl.
  - rewrite bool_decide_false by (rewrite zlen_nil; lia). done.
  - rewrite IH, zlen_cons. destruct (decide (k = i)) as [->|Hk].
    + rewrite bool_decide_false, bool_decide_true by (pose proof (zlen_nonneg paths); lia).
      rewrite lookup_insert_eq, Z.sub_diag. done.
    + rewrite lookup_insert_ne by done. repeat case_bool_decide; try lia; [|done].
      replace (Z.to_nat (k - i)) with (S (Z.to_nat (k - (i + 1)))) by lia. done.
Qed.

Lemma numbered_well_indexed fm paths :
  well_indexed fm -> well_indexed (MkFileManager (index fm + zlen paths) (numbered (index fm) paths (files fm))).
Proof.
  intros [Hi Hw]. pose proof (zlen_nonneg paths). split; simpl; [lia|]. intros k. rewrite numbered_lookup.
  case_bool_decide as Hk.
  - split; [lia|]. intros _. apply lookup_lt_is_Some. unfold zlen in Hk. lia.
  - rewrite Hw. lia.
Qed.

(** Adding a path numbers the regular files below it, in the order of the
    walk and from the next number on; the numbers stay without gaps, and what was
    numbered before keeps its number. *)
Theorem added_files path n fm k :
  well_indexed fm ->
  let fm' := (addAbs path n fm).2 in
  well_indexed fm' /\ index fm' = index fm + zlen (leaves path n) /\
  files fm' !! k =
    if bool_decide (index fm <= k < index fm') then leaves path n !! Z.to_nat (k - index fm) else files fm !! k.
Proof.
  intros Hw. cbv zeta. rewrite addAbs_numbers. cbn [index files].
  split; [by apply numbered_well_indexed|]. split; [done|]. apply numbered_lookup.
Qed.

Definition photos : node := NDir (Some [(bs "a.jpg", NFile); (bs "old", NDir (Some [(bs "b.jpg", NFile); (bs "ln", NSymlink)]))]).

Lemma added_files_witness :
  let fm' := (addAbs (bs "/p") photos empty_manager).2 in
  well_indexed fm' /\ index fm' = index empty_manager + zlen (leaves (bs "/p") photos) /\
  files fm' !! 1 =
    if bool_decide (index empty_manager <= 1 < index fm') then leaves (bs "/p") photos !! Z.to_nat (1 - index empty_manager)
    else files empty_manager !! 1.
Proof.
  refine (added_files (bs "/p") photos empty_manager 1 _).
  split; [done|]. intros k. simpl. rewrite lookup_empty. split; [by intros [? ?]|lia].
Defined.

End Index.

(** ** Links *)

Module Link.

(** [filepath.Base] of an absolute path of a file. *)
Definition after_last_slash (s : bytes) : bytes :=
  match index_byte (z2b 47) (rev s) with
  | Some i => drop (length s - i) s
  | None => s
  end.

(** One entry of [SharedURLs]. *)
Definition shared_path (k : Z) (v : bytes) : bytes := bs "/" ++ Itoa k ++ bs "/" ++ QueryEscape (after_last_slash v).
Definition shared_url (peerID : bytes) (k : Z) (v : bytes) : bytes := bs "pg://" ++ peerID ++ shared_path k v.

(** [SharedURLs]: [None] when there is no file.  Go visits a map in no
    particular order. *)
Definition SharedURLs (peerID : bytes) (files : gmap Z bytes) : option (list bytes) :=
  let ret := (fun kv => shared_url peerID kv.1 kv.2) <$> map_to_list files in
  if bool_decide (ret = []) then None else Some ret.

(** The path of a parsed URL: escapes are decoded, '+' stays. *)
Fixpoint PathUnescape (s : bytes) : option bytes :=
  match s with
  | [] => Some []
  | c :: s =>
      if bool_decide (b2z c = 37) then
        match s with
        | a :: b :: s =>
            ha ← hex_val a; hb ← hex_val b; r ← PathUnescape s; Some (z2b (ha * 16 + hb) :: r)
        | _ => None
        end
      else r ← PathUnescape s; Some (c :: r)
  end.

(** [strings.Trim(s, "/")] *)
Fixpoint trim_left (s : bytes) : bytes :=
  match s with c :: t => if bool_decide (c = z2b 47) then trim_left t else s | [] => [] end.
Definition TrimSlash (s : bytes) : bytes := rev (trim_left (rev (trim_left s))).

(** What [Request] reads off the path of the link: the index and the name of the
    local file; [None] is an invalid link. *)
Definition request_target (path : bytes) : option (Z * bytes) :=
  let filename := after_last_slash path in
  let dir := take (length path - length filename) path in
  index ← ParseInt 16 (TrimSlash dir);
  Some (u16 index, match QueryUnescape filename with Some fn => fn | None => filename end).

(** *** What a shared link leads to *)

Definition plus_for_space (s : bytes) : bytes := (fun c => if bool_decide (b2z c = 32) then z2b 43 else c) <$> s.
Definition space_for_plus (s : bytes) : bytes := (fun c => if bool_decide (b2z c = 43) then z2b 32 else c) <$> s.

Lemma path_escape_byte c s :
  PathUnescape (escape_byte c ++ s) = r ← PathUnescape s; Some ((if bool_decide (b2z c = 32) then z2b 43 else c) :: r).
Proof. destruct c; reflexivity. Qed.

Lemma PathUnescape_Escape s : PathUnescape (QueryEscape s) = Some (plus_for_space s).
Proof.
  induction s as [|c s IH]; [done|]. by rewrite QueryEscape_cons, path_escape_byte, IH.
Qed.

Lemma PathUnescape_plain a s : z2b 37 ∉ a -> PathUnescape (a ++ s) = r ← PathUnescape s; Some (a ++ r).
Proof.
  induction a as [|c a IH]; intros Ha; simpl; [by destruct (PathUnescape s)|].
  apply not_elem_of_cons in Ha as [Hc Ha]. rewrite bool_decide_false.
  - rewrite IH by done. by destruct (PathUnescape s).
  - intros Hz. apply Hc. apply b2z_inj. by rewrite Hz.
Qed.

(** A second decoding, of a name without '%'. *)
Lemma QueryUnescape_plus s : z2b 37 ∉ s -> QueryUnescape (plus_for_space s) = Some (space_for_plus s).
Proof.
  induction s as [|c s IH]; intros Hs; [done|]. apply not_elem_of_cons in Hs as [Hc Hs].
  change (plus_for_space (c :: s)) with ((if bool_decide (b2z c = 32) then z2b 43 else c) :: plus_for_space s).
  change (space_for_plus (c :: s)) with ((if bool_decide (b2z c = 43) then z2b 32 else c) :: space_for_plus s).
  cbn [QueryUnescape]. rewrite IH by done. destruct (decide (b2z c = 32)) as [H32|H32].
  - rewrite (bool_decide_true (b2z c = 32)) by done. change (b2z (z2b 43)) with 43.
    rewrite (bool_decide_false (43 = 37)) by lia. cbn [mbind option_bind].
    rewrite (bool_decide_true (43 = 43)), (bool_decide_false (b2z c = 43)) by lia.
    do 2 f_equal. apply b2z_inj. by rewrite H32.
  - rewrite (bool_decide_false (b2z c = 32)), (bool_decide_false (b2z c = 37)); [done| |done].
    intros Hz. apply Hc. apply b2z_inj. by rewrite Hz.
Qed.

Lemma after_last_slash_app a s : z2b 47 ∉ s -> after_last_slash (a ++ z2b 47 :: s) = s.
Proof.
  intros Hs. unfold after_last_slash. rewrite rev_app_distr. simpl. rewrite <- app_assoc. simpl.
  rewrite index_byte_app by (by rewrite list_elem_of_In, <- in_rev, <- list_elem_of_In).
  rewrite length_rev, length_app. simpl.
  replace (length a + S (length s) - length s)%nat with (S (length a)) by lia. apply drop_past.
Qed.

Lemma trim_left_plain s : hd (z2b 0) s <> z2b 47 -> trim_left s = s.
Proof. destruct s as [|c s]; intros H; [done|]. simpl in *. by rewrite bool_decide_false. Qed.

Lemma TrimSlash_around s : s <> [] -> z2b 47 ∉ s -> TrimSlash (bs "/" ++ s ++ bs "/") = s.
Proof.
  intros Hn Hs. change (bs "/") with [z2b 47]. unfold TrimSlash. simpl (trim_left _).
  assert (Hl : trim_left (s ++ [z2b 47]) = s ++ [z2b 47]).
  { apply trim_left_plain. destruct s as [|c s]; [done|]. simpl. intros ->. apply Hs. left. }
  rewrite Hl, rev_app_distr. simpl. rewrite trim_left_plain; [apply rev_involutive|].
  destruct (rev s) as [|c t] eqn:E; [done|]. simpl. intros ->. apply Hs.
  apply list_elem_of_In, in_rev. rewrite E. left. done.
Qed.

Lemma plus_no_slash s : z2b 47 ∉ s -> z2b 47 ∉ plus_for_space s.
Proof.
  unfold plus_for_space. intros Hs (c & Hc & Hin)%list_elem_of_fmap. case_bool_decide; [done|]. by subst c.
Qed.

Lemma after_last_slash_none s : z2b 47 ∉ after_last_slash s.
Proof.
  unfold after_last_slash. destruct (index_byte (z2b 47) (rev s)) as [i|] eqn:E.
  - assert (Hi : take i (rev s) ++ drop i (rev s) = rev s) by apply take_drop.
    assert (Hnot : forall t j, index_byte (z2b 47) t = Some j -> z2b 47 ∉ take j t /\ (j < length t)%nat).
    { intros t. induction t as [|c t IH]; intros j Hj; [done|]. simpl in Hj. case_bool_decide as Hc.
      - injection Hj as <-. split; [apply not_elem_of_nil|simpl; lia].
      - apply fmap_Some in Hj as (j' & Hj' & ->). destruct (IH j' Hj') as [Hn Hl]. simpl. split; [|lia].
        rewrite not_elem_of_cons. split; congruence. }
    destruct (Hnot _ _ E) as [Hn Hl]. rewrite length_rev in Hl.
    rewrite List.firstn_rev in Hn. intros Hin. apply Hn. apply list_elem_of_In, in_rev.
    rewrite rev_involutive. by apply list_elem_of_In.
  - assert (Hno : forall t, index_byte (z2b 47) t = None -> z2b 47 ∉ t).
    { intros t. induction t as [|c t IH]; intros Ht; [apply not_elem_of_nil|]. simpl in Ht.
      case_bool_decide as Hc; [done|]. apply fmap_None in Ht. rewrite not_elem_of_cons. split; [congruence|auto]. }
    intros Hin. apply (Hno _ E). apply list_elem_of_In. rewrite <- in_rev. by apply list_elem_of_In.
Qed.

Lemma request_target_path k name :
  0 <= k < 10 ^ 20 -> z2b 47 ∉ name ->
  request_target (bs "/" ++ Itoa k ++ bs "/" ++ name) =
  if bool_decide (k < 32768) then Some (k, match QueryUnescape name with Some fn => fn | None => name end) else None.
Proof.
  intros Hk Hn. unfold request_target.
  assert (Hsl : after_last_slash (bs "/" ++ Itoa k ++ bs "/" ++ name) = name).
  { change (bs "/") with [z2b 47]. rewrite (app_assoc [z2b 47]). by apply after_last_slash_app. }
  rewrite Hsl. replace (bs "/" ++ Itoa k ++ bs "/" ++ name) with ((bs "/" ++ Itoa k ++ bs "/") ++ name) by by rewrite <- !app_assoc.
  rewrite length_app, Nat.add_sub, take_app_length, TrimSlash_around.
  - rewrite ParseInt_Itoa_bits by done. change (2 ^ (16 - 1)) with 32768.
    case_bool_decide; [|done]. cbn [mbind option_bind]. by rewrite u16_small by lia.
  - unfold Itoa. rewrite bool_decide_false by lia. apply itoa_nonempty.
  - apply not_in_Itoa; [lia|]. change (b2z (z2b 47)) with 47. lia.
Qed.

(** The name that the downloading side gives the file: the name of the shared file
    is escaped once for the link and unescaped twice. *)
Definition linked_name (name : bytes) : bytes :=
  match QueryUnescape (plus_for_space name) with Some fn => fn | None => plus_for_space name end.

(** C30. A shared link leads back to the file: the path of the link of number
    [k], decoded as a URL, gives the number; the numbers from 32768 on give links
    that are refused.  The name of the file comes back with its '+' turned into
    spaces when it has no '%'; with one it is unescaped once more, so that
    percent codes in it are decoded, and when that fails its spaces have become
    '+'. *)
Theorem link_leads_back k v :
  0 <= k < 10 ^ 20 ->
  let name := after_last_slash v in
  (path ← PathUnescape (shared_path k v); request_target path) = (if bool_decide (k < 32768) then Some (k, linked_name name) else None) /\
  (z2b 37 ∉ name -> linked_name name = space_for_plus name).
Proof.
  intros Hk name. split; [|intros Hv; unfold linked_name; by rewrite QueryUnescape_plus].
  unfold shared_path. fold name.
  assert (Hp : PathUnescape (bs "/" ++ Itoa k ++ bs "/" ++ QueryEscape name) =
               Some (bs "/" ++ Itoa k ++ bs "/" ++ plus_for_space name)).
  { replace (bs "/" ++ Itoa k ++ bs "/" ++ QueryEscape name) with ((bs "/" ++ Itoa k ++ bs "/") ++ QueryEscape name)
      by by rewrite <- !app_assoc.
    rewrite PathUnescape_plain, PathUnescape_Escape; [cbn [mbind option_bind]; by rewrite <- !app_assoc|].
    change (bs "/") with [z2b 47]. rewrite !elem_of_app, !list_elem_of_singleton.
    assert (Hd : z2b 37 ∉ Itoa k) by (apply not_in_Itoa; [lia|]; change (b2z (z2b 37)) with 37; lia).
    intros [H|[H|H]]; done. }
  rewrite Hp. cbn [mbind option_bind].
  by rewrite request_target_path by (done || apply plus_no_slash, after_last_slash_none).
Qed.

Lemma link_leads_back_witness :
  ((path ← PathUnescape (shared_path 7 (bs "/home/u/a+b c.txt")); request_target path) = Some (7, bs "a b c.txt")) /\
  ((path ← PathUnescape (shared_path 8 (bs "/home/u/%41")); request_target path) = Some (8, bs "A")).
Proof.
  split; [refine (proj1 (link_leads_back 7 (bs "/home/u/a+b c.txt") _))|refine (proj1 (link_leads_back 8 (bs "/home/u/%41") _))]; lia.
Defined.

End Link.

(** ** The transfer *)

Module Transfer.

(** *** Messages *)

Definition zeros (n : nat) : bytes := repeat (z2b 0) n.

Definition buildGet (index partSize : Z) (checksum : bytes) : bytes :=
  if bool_decide (0 < partSize) then
    [z2b 0; z2b 36] ++ be16 index ++ be32 partSize ++ checksum
  else [z2b 0; z2b 0] ++ be16 index.
Definition buildClose : bytes := [z2b 1].

(** The goroutine that [handleRequest] starts after the reply: whether it closes
    the connection.  A client writes nothing but [buildClose] after its request,
    when it is through or is interrupted. *)
Definition watch : io bool :=
  r ← ReadFull (zeros 1) 0 1; h ← at_index r.1 0; Ret (bool_decide (b2z h = 1)).
Definition buildOK (fileSize : Z) (resume : bool) : bytes :=
  [if resume then z2b 20 else z2b 0] ++ be32 (u32 fileSize).
Definition buildErr (code : Z) : bytes := [z2b code; z2b 0; z2b 0; z2b 0; z2b 0].

(** What [openFile] gives: a file that can be read, one whose [Stat] fails, or
    none. *)
Inductive opened := NotOpened | NoStat | Opened (content : bytes).

Definition openFile (read : bytes -> opened) (files : gmap Z bytes) (index : Z) : opened :=
  match files !! index with
  | Some absPath => read absPath
  | None => NotOpened
  end.

(** [io.Copy] from a file: pieces of 32 KiB. *)
Definition copy_size : nat := 32768.
Fixpoint pieces (fuel : nat) (data : bytes) : list bytes :=
  match fuel with
  | O => []
  | S fuel => if bool_decide (data = []) then [] else take copy_size data :: pieces fuel (drop copy_size data)
  end.

(** The copy to the connection and then to the checksum: the bytes that went to
    the checksum. *)
Fixpoint copy_out (ps : list bytes) : io bytes :=
  match ps with
  | [] => Ret []
  | p :: ps =>
      e ← WriteAll p;
      onerr e as e give Ret [] in
      r ← copy_out ps; Ret (p ++ r)
  end.

Section Transfer.
Variable sha256 : bytes -> bytes.

(** *** The side that shares *)

(** [handleRequest] after the request is accepted: the reply, the rest of the
    file from [pos] on, and the checksum of the whole. *)
Definition send_file (content : bytes) (pos : Z) : io unit :=
  _ ← WriteAll (buildOK (zlen content) (bool_decide (0 < pos)));
  let rest := drop (Z.to_nat pos) content in
  sent ← copy_out (pieces (length rest) rest);
  _ ← WriteAll (sha256 (take (Z.to_nat pos) content ++ sent));
  Ret tt.

(** The part that the client has, which must be a beginning of the file. *)
Definition check_part (content info : bytes) : io unit :=
  if bool_decide (length info = 0)%nat then send_file content 0
  else if bool_decide (length info < 36)%nat then Crash
  else
    match info with
    | a :: b :: c :: d :: tail =>
        let partSize := de32 a b c d in
        let partChecksum := take 32 tail in
        if bool_decide (u32 (zlen content) < partSize) then
          _ ← WriteAll (buildErr 4); Ret tt
        else if bool_decide (sha256 (take (Z.to_nat partSize) content) <> partChecksum) then
          _ ← WriteAll (buildErr 5); Ret tt
        else send_file content partSize
    | _ => Crash
    end.

(** The answer for what was opened; [info_len] is the length the header gives. *)
Definition serve_opened (o : opened) (info_len : nat) : io unit :=
  match o with
  | NotOpened => _ ← WriteAll (buildErr 2); Ret tt
  | NoStat => Ret tt
  | Opened content =>
      r ← ReadFull (zeros info_len) 0 info_len;
      onerr r.2 as e give (_ ← WriteAll (buildErr 3); Ret tt) in
      check_part content r.1
  end.

(** [handleRequest] *)
Definition handleRequest (open : Z -> opened) : io unit :=
  r ← ReadFull (zeros 4) 0 4;
  let header := r.1 in
  h0 ← at_index header 0;
  if bool_decide (is_Some r.2 \/ b2z h0 <> 0) then
    _ ← WriteAll (buildErr 1); Ret tt
  else
    i1 ← at_index header 2;
    i0 ← at_index header 3;
    l ← at_index header 1;
    serve_opened (open (de16 i1 i0)) (Z.to_nat (b2z l)).

(** *** The side that downloads *)

Inductive Error :=
| EIo (e : conn_error)
| BadRequest
| FileNotFound
| SizeLess
| NotPart
| InvalidHeader
| ChecksumNonMatched
| ChecksumMismatched
| DeadlineExceeded.

(** [Handshake] sets a read deadline five seconds ahead before it reads the reply
    and clears it after that.  When the sharing side is not so fast - it hashes the
    part that the client has before it replies, and serves one client after the
    other - the read fails; and a timer that fires between the reply and the
    clearing leaves its value behind, for a later read to find.  [late] says when
    that comes to be: [Some k], the read that goes on after [k] bytes of what the
    sharing side sends fails; [None], no read does. *)
Definition due (late : option nat) (n : nat) : option nat :=
  k ← late; if bool_decide (k < n)%nat then Some k else None.
Definition past (n : nat) (late : option nat) : option nat := (fun k => k - n)%nat <$> late.

(** [io.ReadFull(c, buf[:n])] with that deadline. *)
Definition ReadDue (late : option nat) (buf : bytes) (n : nat) : io (bytes * option Error) :=
  match due late n with
  | Some k => ReadN k (fun d ok => Ret (fill buf 0 d, if ok then Some DeadlineExceeded else EIo <$> short_error d false))
  | None => r ← ReadFull buf 0 n; Ret (r.1, EIo <$> (r.2 : option conn_error))
  end.

(** The reply that [Handshake] reads: the size of the file and what is left of it
    after [offset], in the arithmetic of [uint32]. *)
Definition handshake_reply (late : option nat) (offset : Z) : io (Z * Z * option Error) :=
  r ← ReadDue late (zeros 5) 5;
  onerr r.2 as e give Ret (0, 0, Some e) in
  match r.1 with
  | h :: a :: b :: c :: d :: _ =>
      let code := b2z h in
      if bool_decide (code = 0 \/ code = 20) then
        if bool_decide (0 < offset /\ code <> 20) then Ret (0, 0, Some ChecksumNonMatched)
        else let fSize := de32 a b c d in Ret (fSize, u32 (fSize - offset), None)
      else if bool_decide (code = 1) then Ret (0, 0, Some BadRequest)
      else if bool_decide (code = 2) then Ret (0, 0, Some FileNotFound)
      else if bool_decide (code = 4) then Ret (0, 0, Some SizeLess)
      else if bool_decide (code = 5) then Ret (0, 0, Some NotPart)
      else Ret (0, 0, Some InvalidHeader)
  | _ => Crash
  end.

(** [FileHandle.Handshake] *)
Definition Handshake (late : option nat) (index offset : Z) (checksum : bytes) : io (Z * Z * option Error) :=
  e ← WriteAll (buildGet index offset checksum);
  onerr e as e give Ret (0, 0, Some (EIo e)) in
  handshake_reply late offset.

(** [FileHandle.Sha256] *)
Definition Sha256 (late : option nat) : io (bytes * option Error) := ReadDue late (zeros 32) 32.

(** The end of [readFile]: the checksum that the sharing side sends against that
    of the file. *)
Definition check_sum (late : option nat) (file : bytes) : io (option Error * bytes) :=
  s ← Sha256 late;
  match s.2 with
  | Some e => Ret (Some e, file)
  | None => if bool_decide (s.1 = sha256 file) then Ret (None, file) else Ret (Some ChecksumMismatched, file)
  end.

(** [readFile] after the handshake: [limit] is what the reader of the file is
    limited to.  The copy takes the end of the connection for the end of the file,
    but not a deadline. *)
Definition receive (late : option nat) (local : bytes) (limit : Z) : io (option Error * bytes) :=
  match due late (Z.to_nat limit) with
  | Some k => ReadN k (fun got ok => if ok then Ret (Some DeadlineExceeded, local ++ got) else check_sum None (local ++ got))
  | None => ReadN (Z.to_nat limit) (fun got _ => check_sum (past (Z.to_nat limit) late) (local ++ got))
  end.

(** [readFile] of the download command: [local] is what the local file holds;
    the error, and what it holds at the end. *)
Definition readFile (late : option nat) (index : Z) (local : bytes) : io (option Error * bytes) :=
  r ← Handshake late index (u32 (zlen local)) (sha256 local);
  match r.2 with
  | Some e => Ret (Some e, local)
  | None => receive (past 5 late) local r.1.2
  end.

(** *** What a transfer comes to *)

(** The part of a request that follows its header. *)
Definition request_info (partSize : Z) (checksum : bytes) : bytes :=
  if bool_decide (0 < partSize) then be32 partSize ++ checksum else [].

(** Whether the sharing side accepts a local file. *)
Definition refusal (content local : bytes) : option (Z * Error) :=
  if bool_decide (u32 (zlen content) < zlen local) then Some (4, SizeLess)
  else if bool_decide (local <> [] /\ sha256 (take (length local) content) <> sha256 local) then Some (5, NotPart)
  else None.

(** What follows an accepting reply. *)
Definition stream (content local : bytes) : bytes := drop (length local) content ++ sha256 content.
Definition limit (content local : bytes) : nat := Z.to_nat (u32 (zlen content) - zlen local).

(** The error and the local file at the end, and the bytes that either side
    leaves unread. *)
Definition outcome (open : opened) (local : bytes) : (option Error * bytes) * bytes * bytes :=
  let info := request_info (zlen local) (sha256 local) in
  match open with
  | NotOpened => ((Some FileNotFound, local), info, [])
  | NoStat => ((Some (EIo EOF), local), info, [])
  | Opened content =>
      match refusal content local with
      | Some (_, e) => ((Some e, local), [], [])
      | None =>
          let n := limit content local in
          let file := local ++ take n (stream content local) in
          let sum := take 32 (drop n (stream content local)) in
          ((if bool_decide (sum = sha256 file) then None else Some ChecksumMismatched, file), [],
           drop (n + 32) (stream content local))
      end
  end.

(** *** Lemmas *)

Hypothesis sha256_length : forall b, length (sha256 b) = 32%nat.

Lemma concat_pieces fuel data : (length data <= fuel)%nat -> concat (pieces fuel data) = data.
Proof.
  revert data. induction fuel as [|fuel IH]; intros data Hd; simpl; [by destruct data; simpl in *; [|lia]|].
  case_bool_decide as Hn; [by subst|]. simpl. rewrite IH; [apply take_drop|].
  rewrite length_drop. unfold copy_size. destruct data; [done|]. simpl in *. lia.
Qed.

Lemma talk_copy_out ps : talk (copy_out ps) [] (concat ps) (Ret (concat ps)).
Proof.
  induction ps as [|p ps IH]; [apply talk_refl|]. cbn [copy_out concat].
  apply talk_WriteAll_bind. cbn [or_fail].
  apply (talk_last _ _ _ (concat ps)); [exact IH|]. apply talk_refl.
Qed.

Lemma talk_send_file content pos :
  0 <= pos <= zlen content ->
  talk (send_file content pos) [] (buildOK (zlen content) (bool_decide (0 < pos)) ++ drop (Z.to_nat pos) content ++ sha256 content)
       (Ret tt).
Proof.
  intros Hp. unfold send_file. apply talk_WriteAll_bind.
  pose proof (talk_copy_out (pieces (length (drop (Z.to_nat pos) content)) (drop (Z.to_nat pos) content))) as Hc.
  rewrite concat_pieces in Hc by done.
  eapply (talk_out_bind _ _ _ _ _ _ _ Hc). rewrite take_drop. apply talk_last_write, talk_refl.
Qed.

(** The request of a client, as the server reads it. *)
Lemma buildGet_split index partSize checksum :
  buildGet index partSize checksum =
  [z2b 0; if bool_decide (0 < partSize) then z2b 36 else z2b 0] ++ be16 index ++ request_info partSize checksum.
Proof. unfold buildGet, request_info. by case_bool_decide. Qed.

Lemma talk_request_header open index l i o p' :
  0 <= index < 65536 ->
  talk (serve_opened (open index) (Z.to_nat (b2z l))) i o p' ->
  talk (handleRequest open) ([z2b 0; l] ++ be16 index ++ i) o p'.
Proof.
  intros Hi H. unfold handleRequest.
  apply (talk_ReadFull_bind (zeros 4) 0 4 [z2b 0; l; z2b (index / 256); z2b index]); [done|lia|simpl; lia|].
  cbn [fst snd]. at_idx. rewrite bool_decide_false by (intros [[? ?]|Hn]; [done|by apply Hn]).
  do 3 at_idx. rewrite de16_be16, u16_small by done. exact H.
Qed.

(** The reply to the request of a client that has [local]. *)
Definition reply (content local : bytes) : bytes :=
  match refusal content local with
  | Some (code, _) => buildErr code
  | None => buildOK (zlen content) (bool_decide (0 < zlen local)) ++ stream content local
  end.

Lemma talk_check_part content local :
  zlen local < 4294967296 ->
  talk (check_part content (request_info (zlen local) (sha256 local))) [] (reply content local) (Ret tt).
Proof.
  intros Hl. unfold check_part, request_info, reply, refusal, stream. pose proof (zlen_nonneg local) as Hpos.
  pose proof (u32_range (zlen content)) as Hu.
  destruct (decide (0 < zlen local)) as [H0|H0].
  - assert (Hne : local <> []) by (intros ->; by vm_compute in H0).
    rewrite !(bool_decide_true (0 < zlen local)) by done.
    rewrite (bool_decide_false (length _ = 0%nat)), (bool_decide_false (length _ < 36)%nat)
      by (rewrite length_app, sha256_length; simpl; lia).
    unfold be32 at 1. cbn [app]. rewrite de32_be32, (u32_small (zlen local)) by lia.
    rewrite (take_ge (sha256 local)) by by rewrite sha256_length.
    replace (Z.to_nat (zlen local)) with (length local) by (unfold zlen; lia).
    case_bool_decide as Hs; [apply talk_last_write, talk_refl|].
    destruct (decide (sha256 (take (length local) content) = sha256 local)) as [Hsum|Hsum].
    + rewrite !bool_decide_false by naive_solver.
      pose proof (talk_send_file content (zlen local)) as Hsend.
      rewrite (bool_decide_true (0 < zlen local)) in Hsend by done.
      replace (Z.to_nat (zlen local)) with (length local) in Hsend by (unfold zlen; lia). apply Hsend.
      split; [done|]. unfold u32 in *. pose proof (Z.mod_le (zlen content) (2 ^ 32) (zlen_nonneg content) ltac:(lia)). lia.
    + rewrite !bool_decide_true by naive_solver. apply talk_last_write, talk_refl.
  - assert (Hnil : local = []) by (destruct local; [done|]; rewrite zlen_cons in H0; pose proof (zlen_nonneg local); lia).
    subst local. rewrite !(bool_decide_false (0 < zlen [])) by done. rewrite (bool_decide_true (length [] = 0%nat)) by done.
    rewrite (bool_decide_false (u32 _ < _)) by (rewrite zlen_nil; lia). rewrite bool_decide_false by naive_solver.
    apply (talk_send_file content 0). split; [lia|apply zlen_nonneg].
Qed.

(** *** The client *)

Definition after_handshake (late : option nat) (local : bytes) (r : Z * Z * option Error) : io (option Error * bytes) :=
  match r.2 with
  | Some e => Ret (Some e, local)
  | None => receive (past 5 late) local r.1.2
  end.

Definition reading_reply (late : option nat) (local : bytes) : io (option Error * bytes) :=
  r ← handshake_reply late (u32 (zlen local)); after_handshake late local r.

Lemma talk_ReadDue {B} x n d (k : bytes * option Error -> io B) o p' :
  length d = n -> (n <= length x)%nat -> talk (k (fill x 0 d, None)) [] o p' -> talk (ReadDue None x n ≫= k) d o p'.
Proof.
  intros Hd Hn H. unfold ReadDue, due. cbn [mbind option_bind]. rewrite ReadFull_ok by lia.
  rewrite <- (app_nil_r d). apply talk_read; [lia|exact H].
Qed.

(** What follows the reading of an error code. *)
Lemma talk_error_reply local code e :
  (code = 2 /\ e = FileNotFound) \/ (code = 4 /\ e = SizeLess) \/ (code = 5 /\ e = NotPart) ->
  talk (reading_reply None local) (buildErr code) [] (Ret (Some e, local)).
Proof.
  intros Hc. unfold reading_reply.
  apply (talk_last _ _ _ (0, 0, Some e)); [|apply talk_refl]. unfold handshake_reply, buildErr.
  apply talk_ReadDue; [done|simpl; lia|]. cbn [fst snd or_fail].
  change (fill (zeros 5) 0 [z2b code; z2b 0; z2b 0; z2b 0; z2b 0]) with [z2b code; z2b 0; z2b 0; z2b 0; z2b 0].
  destruct Hc as [[-> ->]|[[-> ->]|[-> ->]]]; apply talk_refl.
Qed.

Lemma talk_ok_reply offset size :
  0 <= offset ->
  talk (handshake_reply None offset) (buildOK size (bool_decide (0 < offset))) []
       (Ret (u32 size, u32 (u32 size - offset), None)).
Proof.
  intros Ho. unfold handshake_reply, buildOK. set (h := if bool_decide (0 < offset) then z2b 20 else z2b 0).
  pose proof (u32_range size) as Hu.
  apply (talk_ReadDue (zeros 5) 5 ([h] ++ be32 (u32 size))); [done|simpl; lia|]. cbn [fst snd or_fail].
  change (fill (zeros 5) 0 ([h] ++ be32 ?v)) with ([h] ++ be32 v). unfold be32. cbn [app].
  rewrite de32_be32, (u32_small (u32 _)) by lia.
  assert (Hh : b2z h = if bool_decide (0 < offset) then 20 else 0) by (unfold h; by case_bool_decide).
  rewrite Hh. rewrite (bool_decide_true (_ \/ _)) by (case_bool_decide; lia).
  rewrite (bool_decide_false (_ /\ _)) by (case_bool_decide; lia). apply talk_refl.
Qed.

(** The bytes of the file, and 32 more, which are taken for the checksum. *)
Lemma talk_receive local n got sum :
  length got = n -> length sum = 32%nat ->
  talk (receive None local (Z.of_nat n)) (got ++ sum) []
       (Ret (if bool_decide (sum = sha256 (local ++ got)) then None else Some ChecksumMismatched, local ++ got)).
Proof.
  intros Hg Hs. unfold receive, due, past. cbn [mbind option_bind fmap option_fmap option_map].
  rewrite Nat2Z.id. apply talk_read; [done|]. unfold check_sum, Sha256. apply talk_ReadDue; [done|simpl; lia|].
  assert (Hf : fill (zeros 32) 0 sum = sum).
  { unfold fill. rewrite drop_ge by (simpl; lia). rewrite take_0, app_nil_r. done. }
  rewrite Hf. cbn [fst snd]. case_bool_decide; apply talk_refl.
Qed.

Lemma limit_stream content local :
  zlen local <= u32 (zlen content) -> (limit content local + 32 <= length (stream content local))%nat.
Proof.
  intros Hle. unfold limit, stream. rewrite length_app, length_drop, sha256_length.
  pose proof (Z.mod_le (zlen content) (2 ^ 32) (zlen_nonneg content) ltac:(lia)). unfold u32, zlen in *. lia.
Qed.

Lemma refusal_none content local :
  refusal content local = None ->
  zlen local <= u32 (zlen content) /\ (local = [] \/ sha256 (take (length local) content) = sha256 local).
Proof.
  unfold refusal. intros H. case_bool_decide as H1; [done|]. case_bool_decide as H2; [done|].
  split; [lia|]. destruct (decide (local = [])); [by left|right].
  destruct (decide (sha256 (take (length local) content) = sha256 local)); [done|naive_solver].
Qed.

Lemma talk_accepted content local :
  zlen local < 4294967296 -> refusal content local = None ->
  let n := limit content local in
  let file := local ++ take n (stream content local) in
  let sum := take 32 (drop n (stream content local)) in
  talk (reading_reply None local)
       (buildOK (zlen content) (bool_decide (0 < zlen local)) ++ take n (stream content local) ++ sum) []
       (Ret (if bool_decide (sum = sha256 file) then None else Some ChecksumMismatched, file)).
Proof.
  intros Hl Hr n file sum. destruct (refusal_none _ _ Hr) as [Hle _].
  pose proof (limit_stream content local Hle) as Hlen. pose proof (zlen_nonneg local) as Hpos.
  pose proof (u32_range (zlen content)) as Hu.
  unfold reading_reply.
  apply (talk_ret _ _ [] (u32 (zlen content), u32 (u32 (zlen content) - u32 (zlen local)), None) _ _ []).
  - pose proof (talk_ok_reply (u32 (zlen local)) (zlen content)) as Hk.
    rewrite (u32_small (zlen local)) in Hk |- * by lia. by apply Hk.
  - unfold after_handshake. cbn [fst snd]. rewrite (u32_small (zlen local)), u32_small by lia.
    replace (u32 (zlen content) - zlen local) with (Z.of_nat n) by (unfold n, limit; lia).
    apply (talk_receive local n); [rewrite length_take; lia|]. unfold sum. rewrite length_take, length_drop. lia.
Qed.

(** *** The session *)

(** What the sharing side sends, and what it leaves of the request. *)
Definition answer (o : opened) (local : bytes) : bytes :=
  match o with NotOpened => buildErr 2 | NoStat => [] | Opened content => reply content local end.
Definition request_left (o : opened) (local : bytes) : bytes :=
  match o with Opened _ => [] | _ => request_info (zlen local) (sha256 local) end.
Definition hello (index : Z) (local : bytes) : bytes :=
  [z2b 0; if bool_decide (0 < zlen local) then z2b 36 else z2b 0] ++ be16 index ++ request_info (zlen local) (sha256 local).

Lemma talk_hello late index local :
  zlen local < 4294967296 -> talk (readFile late index local) [] (hello index local) (reading_reply late local).
Proof.
  intros Hl. pose proof (zlen_nonneg local). unfold readFile, Handshake, reading_reply, hello.
  rewrite (u32_small (zlen local)), buildGet_split by lia. apply talk_bind, talk_last_write, talk_refl.
Qed.

Lemma info_length local :
  Z.to_nat (b2z (if bool_decide (0 < zlen local) then z2b 36 else z2b 0)) = length (request_info (zlen local) (sha256 local)).
Proof. unfold request_info. case_bool_decide; [|done]. rewrite length_app, sha256_length. done. Qed.

Lemma hello_split index local :
  hello index local =
  ([z2b 0; if bool_decide (0 < zlen local) then z2b 36 else z2b 0] ++ be16 index ++ []) ++ request_info (zlen local) (sha256 local).
Proof. unfold hello. by rewrite app_nil_r, <- app_assoc. Qed.

(** The request and the whole of the answer. *)
Lemma request_run late open index local :
  0 <= index < 65536 -> zlen local < 4294967296 ->
  rtc step (Conf (readFile late index local) (handleRequest open) [] [])
           (Conf (reading_reply late local) (Ret tt) (request_left (open index) local) (answer (open index) local)).
Proof.
  intros Hi Hl. eapply lhs_turn; [by apply talk_hello|]. set (info := request_info (zlen local) (sha256 local)).
  destruct (open index) as [| |content] eqn:Eo; cbn [answer request_left].
  - rewrite hello_split. apply (talk_rhs _ _ _ _ _ _ []), talk_request_header; [done|]. rewrite Eo. apply talk_last_write, talk_refl.
  - rewrite hello_split. apply (talk_rhs _ _ _ _ _ _ []), talk_request_header; [done|]. rewrite Eo. apply talk_refl.
  - eapply rhs_turn; [|apply rtc_refl]. apply talk_request_header; [done|].
    rewrite Eo, info_length. fold info. cbn [serve_opened].
    apply (talk_in_bind _ info (info, None)); [|by apply talk_check_part].
    pose proof (talk_ReadFull (zeros (length info)) 0 (length info) info) as Hr.
    assert (Hz : length (zeros (length info)) = length info) by apply repeat_length.
    unfold fill in Hr. rewrite drop_ge, take_0, app_nil_r in Hr by lia. cbn [app] in Hr. apply Hr; lia.
Qed.

Lemma transfer_run open index local :
  0 <= index < 65536 -> zlen local < 4294967296 ->
  let o := outcome (open index) local in
  rtc step (Conf (readFile None index local) (handleRequest open) [] []) (Conf (Ret o.1.1) (Ret tt) o.1.2 o.2).
Proof.
  intros Hi Hl. cbv zeta. etrans; [by apply request_run|].
  unfold outcome, request_left, answer. destruct (open index) as [| |content] eqn:Eo; cbn [fst snd].
  - eapply lhs_turn_over; [apply talk_error_reply; auto|]. rewrite app_nil_r. apply rtc_refl.
  - unfold reading_reply, handshake_reply, ReadDue, due. cbn [mbind option_bind]. rewrite ReadFull_ok by (simpl; lia).
    apply lhs_eof; [lia|done|apply rtc_refl].
  - unfold reply. destruct (refusal content local) as [[code e]|] eqn:Er.
    + eapply lhs_turn; [apply talk_error_reply|apply rtc_refl]. unfold refusal in Er.
      repeat case_bool_decide; naive_solver.
    + pose proof (talk_accepted content local Hl Er) as Ht. cbv zeta in Ht.
      set (n := limit content local) in *. set (st := stream content local) in *.
      replace (buildOK (zlen content) (bool_decide (0 < zlen local)) ++ st)
        with ((buildOK (zlen content) (bool_decide (0 < zlen local)) ++ take n st ++ take 32 (drop n st)) ++ drop (n + 32) st).
      2: { rewrite <- !app_assoc. f_equal. rewrite <- drop_drop, take_drop, take_drop. done. }
      apply (talk_lhs _ _ (Ret tt) _ _ [] (drop (n + 32) st) Ht).
Qed.

(** *** When the deadline comes in between *)

Lemma talk_late {B} late x n k d (f : bytes * option Error -> io B) o p' :
  due late n = Some k -> length d = k -> talk (f (fill x 0 d, Some DeadlineExceeded)) [] o p' -> talk (ReadDue late x n ≫= f) d o p'.
Proof. intros Hd Hl H. unfold ReadDue. rewrite Hd, <- (app_nil_r d). apply talk_read; [done|exact H]. Qed.

Lemma due_some k n : (k < n)%nat -> due (Some k) n = Some k.
Proof. intros H. unfold due. cbn [mbind option_bind]. by rewrite bool_decide_true. Qed.
Lemma due_none k n : (n <= k)%nat -> due (Some k) n = None.
Proof. intros H. unfold due. cbn [mbind option_bind]. by rewrite bool_decide_false by lia. Qed.

(** The reply to a client that has a beginning of the file. *)
Lemma reply_beginning local rest :
  zlen (local ++ rest) < 4294967296 ->
  reply (local ++ rest) local = buildOK (zlen (local ++ rest)) (bool_decide (0 < zlen local)) ++ rest ++ sha256 (local ++ rest).
Proof.
  intros Hc. pose proof (zlen_nonneg local) as Hl. pose proof (zlen_nonneg rest) as Hrest. rewrite zlen_app in Hc.
  unfold reply, refusal, stream. rewrite u32_small, take_app_length, drop_app_length by (rewrite zlen_app; lia).
  rewrite (bool_decide_false (_ < _)) by (rewrite zlen_app; lia). by rewrite bool_decide_false by naive_solver.
Qed.

(** Its first five bytes in time. *)
Lemma talk_accepted_late local rest k i p' :
  zlen (local ++ rest) < 4294967296 -> (5 <= k)%nat ->
  talk (receive (Some (k - 5)%nat) local (Z.of_nat (length rest))) i [] p' ->
  talk (reading_reply (Some k) local) (buildOK (zlen (local ++ rest)) (bool_decide (0 < zlen local)) ++ i) [] p'.
Proof.
  intros Hc Hge Ht. pose proof (zlen_nonneg local) as Hl. pose proof (zlen_nonneg rest) as Hrest. rewrite zlen_app in Hc.
  unfold reading_reply. assert (Hsame : handshake_reply (Some k) (u32 (zlen local)) = handshake_reply None (u32 (zlen local)))
    by (unfold handshake_reply, ReadDue; rewrite due_none by lia; done).
  rewrite Hsame.
  apply (talk_ret _ _ [] (u32 (zlen (local ++ rest)), u32 (u32 (zlen (local ++ rest)) - u32 (zlen local)), None) _ _ []).
  { pose proof (talk_ok_reply (u32 (zlen local)) (zlen (local ++ rest))) as Hk.
    rewrite (u32_small (zlen local)) in Hk |- * by lia. by apply Hk. }
  unfold after_handshake. cbn [fst snd]. rewrite (u32_small (zlen local)) by lia.
  rewrite (u32_small (zlen (local ++ rest))), zlen_app, u32_small by (rewrite ?zlen_app; lia).
  replace (zlen local + zlen rest - zlen local) with (Z.of_nat (length rest)) by (unfold zlen; lia). exact Ht.
Qed.

(** The deadline after [k] bytes of it. *)
Lemma talk_cut content local rest k :
  content = local ++ rest -> zlen content < 4294967296 -> (k < 5 + length rest + 32)%nat ->
  talk (reading_reply (Some k) local) (take k (reply content local)) []
       (Ret (Some DeadlineExceeded, take (length local + (k - 5)) content)).
Proof.
  intros -> Hc Hk. rewrite reply_beginning by done. set (ok := buildOK _ _). set (sum := sha256 (local ++ rest)).
  assert (Hok : length ok = 5%nat) by done. pose proof (sha256_length (local ++ rest)) as Hsum. fold sum in Hsum.
  destruct (decide (k < 5)%nat) as [Hlt|Hge].
  - unfold reading_reply. apply (talk_last _ _ _ (0, 0, Some DeadlineExceeded)).
    + unfold handshake_reply. eapply talk_late; [by apply due_some|rewrite length_take, length_app; lia|]. apply talk_refl.
    + unfold after_handshake. cbn [fst snd]. replace (k - 5)%nat with 0%nat by lia. rewrite Nat.add_0_r, take_app_length. apply talk_refl.
  - rewrite take_app_ge, Hok by lia. apply talk_accepted_late; [done|lia|].
    unfold receive, past. cbn [fmap option_fmap option_map]. rewrite Nat2Z.id.
    rewrite (take_app_ge local rest), Nat.add_sub' by lia.
    destruct (decide (k - 5 < length rest)%nat) as [Hcut|Hall].
    + rewrite due_some, take_app_le by lia. rewrite <- (app_nil_r (take _ rest)) at 1.
      apply talk_read; [rewrite length_take; lia|apply talk_refl].
    + rewrite due_none, (take_ge rest), take_app_ge by lia. apply talk_read; [done|].
      unfold check_sum, Sha256. eapply talk_late; [apply due_some; lia|rewrite length_take; lia|]. apply talk_refl.
Qed.

(** The deadline after the end of it. *)
Lemma talk_uncut local rest k :
  zlen (local ++ rest) < 4294967296 -> (5 + length rest + 32 <= k)%nat ->
  talk (reading_reply (Some k) local) (reply (local ++ rest) local) [] (Ret (None, local ++ rest)).
Proof.
  intros Hc Hk. rewrite reply_beginning by done. apply talk_accepted_late; [done|lia|].
  pose proof (sha256_length (local ++ rest)) as Hsum. set (sum := sha256 (local ++ rest)) in *.
  unfold receive, past. cbn [fmap option_fmap option_map]. rewrite Nat2Z.id, due_none by lia. apply talk_read; [done|].
  unfold check_sum, Sha256.
  assert (Hsame : forall n, (32 <= n)%nat -> ReadDue (Some n) (zeros 32) 32 = ReadDue None (zeros 32) 32)
    by (intros n Hn; unfold ReadDue; by rewrite due_none).
  rewrite Hsame by lia. apply talk_ReadDue; [done|simpl; lia|].
  assert (Hf : fill (zeros 32) 0 sum = sum).
  { unfold fill. rewrite drop_ge by (simpl; lia). rewrite take_0, app_nil_r. done. }
  rewrite Hf. cbn [fst snd]. rewrite bool_decide_true by done. apply talk_refl.
Qed.

(** A client that only reads ends as it does on what has been sent to it. *)
Inductive reader {A} : io A -> Prop :=
| reader_ret a : reader (Ret a)
| reader_crash : reader Crash
| reader_read n k : (forall d ok, reader (k d ok)) -> reader (ReadN n k).

Lemma reader_bind {A B} (p : io A) (f : A -> io B) : reader p -> (forall a, reader (f a)) -> reader (p ≫= f).
Proof. induction 1; intros Hf; simpl; [apply Hf|constructor|constructor; auto]. Qed.

Lemma reader_ends {A} (p : io A) a s x s' w o :
  reader p -> run p s w = (Some x, s', o) -> rtc step (Conf p (Ret tt) a s) (Conf (Ret x) (Ret tt) a s').
Proof.
  intros Hp. revert s. induction Hp as [y| |n k _ IH]; intros s Hrun; simpl in Hrun; [by simplify_eq|done|].
  assert (Hgo : forall q s2, act (ReadN n k) s (done (Ret tt)) = Some (q, s2, []) -> step (Conf (ReadN n k) (Ret tt) a s) (Conf q (Ret tt) a s2)).
  { intros q s2 Hact. rewrite <- (app_nil_r a) at 2. by apply step_lhs. }
  case_bool_decide as Hn; (eapply rtc_l; [|by apply IH]); apply Hgo; cbn [act done].
  - by rewrite bool_decide_true.
  - by rewrite bool_decide_false.
Qed.

Lemma reader_silent {A} (p : io A) s w : reader p -> (run p s w).2 = [].
Proof. intros Hp. revert s. induction Hp as [x| |n k _ IH]; intros s; simpl; [done|done|]. case_bool_decide; apply IH. Qed.

Lemma reader_act {A} (p : io A) s d p' s' w : act p s d = Some (p', s', w) -> reader p -> reader p' /\ w = [].
Proof.
  intros H Hp. destruct Hp as [x| |n k Hk]; simpl in H; [done|done|]. case_bool_decide; [by simplify_eq|]. destruct d; by simplify_eq.
Qed.

Lemma reader_ReadDue late buf n : (n <= length buf)%nat -> reader (ReadDue late buf n).
Proof.
  intros Hn. unfold ReadDue. destruct (due late n); [|rewrite ReadFull_ok by lia]; repeat constructor.
Qed.
Lemma reader_check_sum late file : reader (check_sum late file).
Proof.
  unfold check_sum, Sha256. apply reader_bind; [by apply reader_ReadDue|]. intros [d [e|]]; cbn [fst snd]; [constructor|].
  case_bool_decide; constructor.
Qed.
Lemma reader_handshake late offset : reader (handshake_reply late offset).
Proof.
  unfold handshake_reply. apply reader_bind; [by apply reader_ReadDue|]. intros [d [e|]]; cbn [fst snd or_fail]; [constructor|].
  destruct d as [|? [|? [|? [|? [|? ?]]]]]; try constructor. repeat case_bool_decide; constructor.
Qed.
Lemma reader_reading late local : reader (reading_reply late local).
Proof.
  unfold reading_reply. apply reader_bind; [apply reader_handshake|].
  - intros [r [e|]]; unfold after_handshake; cbn [fst snd]; [constructor|]. unfold receive.
    destruct (due (past 5 late) (Z.to_nat r.2)); constructor; [intros d [|]; [constructor|]|intros d ok]; apply reader_check_sum.
Qed.

Lemma safe_ReadDue {B} (R : B -> Prop) late buf n (k : bytes * option Error -> io B) :
  (n <= length buf)%nat -> (forall b e, length b = length buf -> safe R (k (b, e))) -> safe R (ReadDue late buf n ≫= k).
Proof.
  intros Hn Hk. unfold ReadDue, due. destruct late as [j|]; cbn [mbind option_bind].
  - case_bool_decide.
    + apply safe_read. intros d ok Hd _. apply Hk. apply length_fill. lia.
    + rewrite ReadFull_ok by lia. apply safe_read. intros d ok Hd _. apply Hk. apply length_fill. lia.
  - rewrite ReadFull_ok by lia. apply safe_read. intros d ok Hd _. apply Hk. apply length_fill. lia.
Qed.

Lemma safe_check_sum late file : safe (fun _ => True) (check_sum late file).
Proof. unfold check_sum, Sha256. apply safe_ReadDue; [done|]. intros b e Hb. repeat safe_step. Qed.

Lemma safe_reading late local : safe (fun _ => True) (reading_reply late local).
Proof.
  unfold reading_reply, handshake_reply. apply (safe_seq (fun _ => True)).
  - apply safe_ReadDue; [done|]. intros b e Hb. cbn [fst snd]. apply safe_or_fail; [intros x; by constructor|].
    destruct b as [|? [|? [|? [|? [|? ?]]]]]; try done. repeat safe_step.
  - intros [r [e|]] _; unfold after_handshake; cbn [fst snd]; [by constructor|]. unfold receive.
    destruct (due (past 5 late) (Z.to_nat r.2)).
    + apply safe_read. intros d [|] _ _; [by constructor|apply safe_check_sum].
    + apply safe_read. intros d ok _ _. apply safe_check_sum.
Qed.

Lemma run_ReadDue {B} late buf n (f : bytes * option Error -> io B) s w :
  (n <= length buf)%nat ->
  (exists d e s', run (ReadDue late buf n ≫= f) s w = run (f (d, Some e)) s' w) \/
  (due late n = None /\ (n <= length s)%nat /\
   run (ReadDue late buf n ≫= f) s w = run (f (fill buf 0 (take n s), None)) (drop n s) w).
Proof.
  intros Hn. unfold ReadDue. destruct (due late n) as [k|] eqn:Ed.
  - left. cbn [mbind io_bind]. simpl. case_bool_decide; [by eexists _, _, _|]. by eexists _, _, _.
  - rewrite ReadFull_ok by lia. cbn [mbind io_bind]. simpl. rewrite Nat.sub_0_r. case_bool_decide.
    + right. done.
    + left. by eexists _, _, _.
Qed.

(** A download that ends without an error has met no deadline. *)
Lemma run_bind_reader {A B} (p : io A) (f : A -> io B) s w :
  reader p -> run (p ≫= f) s w = match run p s w with (Some x, s', _) => run (f x) s' w | (None, s', _) => (None, s', []) end.
Proof.
  intros Hp. revert s. induction Hp as [x| |n k _ IH]; intros s; [done|done|]. cbn [mbind io_bind]. simpl.
  case_bool_decide; apply IH.
Qed.

Lemma check_sum_intime late file s w r s' o :
  run (check_sum late file) s w = (Some (None, r), s', o) -> run (check_sum None file) s w = (Some (None, r), s', o).
Proof.
  unfold check_sum, Sha256. intros H.
  match type of H with run (_ ≫= ?f) _ _ = _ => destruct (run_ReadDue late (zeros 32) 32 f s w ltac:(done)) as [(d & e & s1 & Hr)|(Hd & _)] end.
  - by rewrite Hr in H.
  - revert H. unfold ReadDue. by rewrite Hd.
Qed.

Lemma receive_intime late local limit s w r s' o :
  run (receive late local limit) s w = (Some (None, r), s', o) -> run (receive None local limit) s w = (Some (None, r), s', o).
Proof.
  unfold receive. destruct (due late (Z.to_nat limit)) as [k|] eqn:Ed.
  - simpl. case_bool_decide; done.
  - simpl. case_bool_decide; apply check_sum_intime.
Qed.

Lemma reading_intime late local s w r s' o :
  run (reading_reply late local) s w = (Some (None, r), s', o) -> run (reading_reply None local) s w = (Some (None, r), s', o).
Proof.
  unfold reading_reply. intros H. destruct (due late 5) as [k|] eqn:Ed.
  - exfalso. revert H. unfold handshake_reply, ReadDue. rewrite Ed. simpl. case_bool_decide; done.
  - assert (Hsame : handshake_reply late (u32 (zlen local)) = handshake_reply None (u32 (zlen local)))
      by (unfold handshake_reply, ReadDue; by rewrite Ed).
    rewrite Hsame, run_bind_reader in H by apply reader_handshake. rewrite run_bind_reader by apply reader_handshake.
    destruct (run (handshake_reply None (u32 (zlen local))) s w) as [[[[z [e|]]|] s1] o1]; [done| |done].
    by apply receive_intime in H.
Qed.

(** A session that has ended for a client that met a deadline or not: it ended as
    the client does on the answer. *)
Lemma late_run late open index local :
  0 <= index < 65536 -> zlen local < 4294967296 ->
  exists x s, run (reading_reply late local) (answer (open index) local) 0 = (Some x, s, []) /\
    rtc step (Conf (readFile late index local) (handleRequest open) [] []) (Conf (Ret x) (Ret tt) (request_left (open index) local) s).
Proof.
  intros Hi Hl. pose proof (request_run late open index local Hi Hl) as Hgo.
  destruct (safe_run _ _ (safe_reading late local) (answer (open index) local) 0) as (x & Hx & _).
  pose proof (reader_silent _ (answer (open index) local) 0 (reader_reading late local)) as Ho.
  destruct (run (reading_reply late local) (answer (open index) local) 0) as [[x' s] o] eqn:Er. simpl in Hx, Ho. subst x' o.
  exists x, s. split; [done|]. etrans; [exact Hgo|]. eapply reader_ends; [apply reader_reading|exact Er].
Qed.

Lemma safe_copy_out ps : safe (fun _ => True) (copy_out ps).
Proof.
  induction ps as [|p ps IH]; cbn [copy_out]; [by constructor|]. repeat safe_step.
  eapply safe_seq; [exact IH|]. intros r _. repeat safe_step.
Qed.

Lemma safe_send_file content pos : safe (fun _ => True) (send_file content pos).
Proof.
  unfold send_file. repeat safe_step. eapply safe_seq; [apply safe_copy_out|]. intros r _. repeat safe_step.
Qed.

(** A part of the wrong length panics. *)
Lemma check_part_run content info s w :
  (run (check_part content info) s w).1.1 = None <-> (0 < length info < 36)%nat.
Proof.
  assert (Hsafe : forall p : io unit, safe (fun _ => True) p -> (run p s w).1.1 <> None).
  { intros p Hp. destruct (safe_run _ p Hp s w) as (a & -> & _). done. }
  unfold check_part. case_bool_decide as H0.
  - split; [intros Hn; by apply Hsafe in Hn; [|apply safe_send_file]|lia].
  - case_bool_decide as H36; [split; [lia|done]|].
    split; [|lia]. intros Hn. exfalso. revert Hn. apply Hsafe.
    destruct info as [|a [|b [|c [|d tail]]]]; simpl in H36; try lia.
    repeat safe_step. apply safe_send_file.
Qed.

(** *** The sharing side comes to an end in any case

    [returns q inp]: the handler returns on the bytes [inp], however many of its
    writes succeed before the connection is closed. *)
Definition returns (q : io unit) (inp : bytes) : Prop := forall w, (run q inp w).1.1 = Some tt.

Lemma returns_act q inp d q' inp' out : act q inp d = Some (q', inp', out) -> returns q inp -> returns q' inp'.
Proof.
  destruct q as [a|n k|b k|]; simpl; [done| | |done].
  - intros H Hr. case_bool_decide as Hn; simplify_eq.
    + intros w. specialize (Hr w). simpl in Hr. by rewrite bool_decide_true in Hr.
    + destruct d; simplify_eq. intros w. specialize (Hr w). simpl in Hr. by rewrite bool_decide_false in Hr.
  - intros [= <- <- <-] Hr w. exact (Hr (S w)).
Qed.

Lemma safe_returns (q : io unit) : safe (fun _ => True) q -> forall s w, (run q s w).1.1 = Some tt.
Proof. intros Hq s w. destruct (safe_run _ _ Hq s w) as ([] & Hx & _). done. Qed.

Lemma request_returns open index local : 0 <= index < 65536 -> returns (handleRequest open) (hello index local).
Proof.
  intros Hi w. unfold hello, handleRequest. set (info := request_info (zlen local) (sha256 local)).
  set (l := if bool_decide (0 < zlen local) then z2b 36 else z2b 0).
  rewrite run_ReadFull by (simpl; lia). rewrite bool_decide_true by (simpl; lia).
  change (take (4 - 0) ([z2b 0; l] ++ be16 index ++ info)) with ([z2b 0; l] ++ be16 index).
  change (drop (4 - 0) ([z2b 0; l] ++ be16 index ++ info)) with info.
  cbn [fst snd]. at_idx. rewrite bool_decide_false by (intros [[? ?]|Hn]; [done|by apply Hn]). do 3 at_idx.
  unfold l. rewrite info_length. fold info. destruct (open _) as [| |content]; cbn [serve_opened].
  - apply safe_returns. repeat safe_step.
  - done.
  - assert (Hz : length (zeros (length info)) = length info) by apply repeat_length.
    rewrite run_ReadFull, Nat.sub_0_r, bool_decide_true by lia. cbn [fst snd or_fail].
    rewrite firstn_all, skipn_all. unfold fill. rewrite drop_ge, take_0, app_nil_r by lia. cbn [app].
    destruct (run (check_part content info) [] w) as [[[[]|] s] o] eqn:Er; [done|].
    assert (Hn : (run (check_part content info) [] w).1.1 = None) by by rewrite Er.
    apply check_part_run in Hn. unfold info, request_info in Hn. revert Hn. case_bool_decide; [|simpl; lia].
    rewrite length_app, sha256_length. simpl. lia.
Qed.

(** The goroutine closes the connection on the close message and on nothing else. *)
Lemma watch_closes inp w : (run watch inp w).1.1 = Some (bool_decide (head inp = Some (z2b 1))).
Proof.
  unfold watch. rewrite run_ReadFull by (simpl; lia). destruct inp as [|b inp]; simpl.
  - reflexivity.
  - simpl. f_equal. apply bool_decide_ext. split; [|by intros [= ->]].
    intros Hb. f_equal. apply b2z_inj. by rewrite Hb.
Qed.

(** What a session goes through: the client asks and then only reads. *)
Lemma session_shape late open index local p q a s :
  0 <= index < 65536 -> zlen local < 4294967296 ->
  rtc step (Conf (readFile late index local) (handleRequest open) [] []) (Conf p q a s) ->
  (p = readFile late index local /\ q = handleRequest open /\ a = [] /\ s = []) \/ (reader p /\ returns q a).
Proof.
  intros Hi Hl Hrun. remember (Conf p q a s) as c eqn:Ec. revert p q a s Ec.
  apply rtc_ind_r with (P := fun c => forall p q a s, c = Conf p q a s ->
    (p = readFile late index local /\ q = handleRequest open /\ a = [] /\ s = []) \/ (reader p /\ returns q a)) in Hrun; [exact Hrun| |].
  { intros p q a s [= <- <- <- <-]. by left. }
  intros c1 c2 _ Hs IH p q a s ->. inversion Hs as [p0 q0 a0 s0 p' s' w Hact|p0 q0 a0 s0 q' a' w Hact]; subst.
  - destruct (IH _ _ _ _ eq_refl) as [(-> & -> & -> & ->)|[Hp Hq]]; right.
    + pose proof (zlen_nonneg local). injection Hact as <- <- <-. split; [apply reader_reading|].
      rewrite (u32_small (zlen local)), buildGet_split by lia. by apply request_returns.
    + destruct (reader_act _ _ _ _ _ _ Hact Hp) as [Hp' ->]. by rewrite app_nil_r.
  - destruct (IH _ _ _ _ eq_refl) as [(-> & -> & -> & ->)|[Hp Hq]].
    + done.
    + right. split; [done|]. by eapply returns_act.
Qed.

Lemma outcome_below content local :
  zlen content < 4294967296 -> refusal content local = None ->
  let file := local ++ drop (length local) content in
  outcome (Opened content) local =
  ((if bool_decide (sha256 content = sha256 file) then None else Some ChecksumMismatched, file), [], []).
Proof.
  intros Hc Hr. destruct (refusal_none _ _ Hr) as [Hle _]. pose proof (zlen_nonneg content) as Hpos.
  rewrite u32_small in Hle by lia. unfold outcome. rewrite Hr. unfold limit, stream. rewrite u32_small by lia.
  assert (Hn : Z.to_nat (zlen content - zlen local) = length (drop (length local) content))
    by (rewrite length_drop; unfold zlen in *; lia).
  rewrite Hn, take_app_length, <- drop_drop, drop_app_length.
  rewrite (take_ge (sha256 content)), (drop_ge (sha256 content)) by (rewrite sha256_length; lia). done.
Qed.

(** A transfer, on every schedule: each run of the downloading and the
    sharing side on the two ends of a connection can be completed, has a bounded
    number of steps and ends as [outcome] says, for every file and every local
    file below 4 GiB: the file is not there, or the local file is larger or is not
    a beginning of it by the checksum, and the local file stays as it is; or what
    follows the local part is appended, as far as the size that the reply gives
    modulo 2^32, and the checksum that follows decides. *)
Theorem transfer_session open index local :
  0 <= index < 65536 -> zlen local < 4294967296 ->
  let o := outcome (open index) local in
  settles (Conf (readFile None index local) (handleRequest open) [] []) (Conf (Ret o.1.1) (Ret tt) o.1.2 o.2).
Proof. intros Hi Hl o. apply settles_run; [by apply transfer_run|done]. Qed.

(** The deadline, if there is one, comes after all that is read. *)
Definition in_time (late : option nat) (content local : bytes) : Prop :=
  forall k, late = Some k -> (5 + (length content - length local) + 32 <= k)%nat.

Lemma resume_run late open index content local :
  0 <= index < 65536 -> open index = Opened content -> zlen content < 4294967296 -> local `prefix_of` content ->
  in_time late content local ->
  rtc step (Conf (readFile late index local) (handleRequest open) [] []) (Conf (Ret (None, content)) (Ret tt) [] []).
Proof.
  intros Hi Ho Hc [rest ->] Hlate. pose proof (zlen_nonneg local) as Hl. pose proof (zlen_nonneg rest) as Hrest.
  pose proof Hc as Hsum. rewrite zlen_app in Hsum. destruct late as [k|].
  - etrans; [apply request_run; [done|lia]|]. rewrite Ho. cbn [request_left answer].
    specialize (Hlate k eq_refl). rewrite length_app in Hlate.
    pose proof (talk_lhs _ _ (Ret tt) _ [] [] [] (talk_uncut local rest k Hc ltac:(lia))) as Ht.
    rewrite app_nil_r in Ht. exact Ht.
  - pose proof (transfer_run open index local Hi ltac:(lia)) as Hrun. rewrite Ho in Hrun.
    rewrite outcome_below in Hrun; [|rewrite zlen_app; lia|].
    + rewrite drop_app_length, bool_decide_true in Hrun by done. exact Hrun.
    + unfold refusal. rewrite u32_small, take_app_length by (rewrite zlen_app; lia).
      rewrite bool_decide_false by (rewrite zlen_app; lia). rewrite bool_decide_false by naive_solver. done.
Qed.

Lemma cut_run open index content local k :
  0 <= index < 65536 -> open index = Opened content -> zlen content < 4294967296 -> local `prefix_of` content ->
  (k < 5 + (length content - length local) + 32)%nat ->
  rtc step (Conf (readFile (Some k) index local) (handleRequest open) [] [])
           (Conf (Ret (Some DeadlineExceeded, take (length local + (k - 5)) content)) (Ret tt) [] (drop k (reply content local))).
Proof.
  intros Hi Ho Hc [rest Heq] Hk. assert (Hl : zlen local < 4294967296)
    by (subst; rewrite zlen_app in Hc; pose proof (zlen_nonneg rest); lia).
  etrans; [by apply request_run|]. rewrite Ho. cbn [request_left answer].
  rewrite <- (take_drop k (reply content local)) at 1.
  apply (talk_lhs _ _ (Ret tt) _ [] []). apply (talk_cut content local rest); [done|done|].
  subst content. rewrite length_app in Hk. lia.
Qed.


(** C28. A download that ends without an error has the file, whatever the local
    file was, whatever the schedule and whenever the deadline fires, unless two
    different contents with the same checksum have been met: below 4 GiB. *)
Theorem download_checked late open index local file q a s :
  0 <= index < 65536 -> zlen local < 4294967296 ->
  rtc step (Conf (readFile late index local) (handleRequest open) [] []) (Conf (Ret (None, file)) q a s) ->
  exists content, open index = Opened content /\
    (zlen content < 4294967296 -> file = content \/ (file <> content /\ sha256 file = sha256 content)).
Proof.
  intros Hi Hl Hrun. destruct (late_run late open index local Hi Hl) as (x & sx & Hx & Hend).
  pose proof (session_unique _ _ Hend ltac:(done) _ Hrun) as Hgo.
  apply lhs_done_stays in Hgo; [|done]. simpl in Hgo. injection Hgo as Hgo. subst x.
  apply reading_intime in Hx. pose proof (reader_ends _ (request_left (open index) local) _ _ _ _ _ (reader_reading None local) Hx) as Hin.
  assert (Hdone : rtc step (Conf (readFile None index local) (handleRequest open) [] []) (Conf (Ret (None, file)) (Ret tt) (request_left (open index) local) sx))
    by (etrans; [by apply request_run|exact Hin]).
  pose proof (session_unique _ _ (transfer_run open index local Hi Hl) ltac:(done) _ Hdone) as Hres.
  apply lhs_done_stays in Hres; [|done]. simpl in Hres. injection Hres as Hres. clear -sha256_length Hres.
  destruct (open index) as [| |content] eqn:Eo; [done|done|]. exists content. split; [done|]. intros Hc.
  destruct (refusal content local) as [[code e]|] eqn:Er.
  - unfold outcome in Hres. by rewrite Er in Hres.
  - rewrite outcome_below in Hres by done. simpl in Hres. case_bool_decide as Hsum; [|done].
    injection Hres as Hf. subst file.
    destruct (decide (local ++ drop (length local) content = content)); [by left|right]. by rewrite Hsum.
Qed.

(** From 4 GiB on a download ends before the file does. *)
Theorem large_file_cut content :
  4294967296 <= zlen content ->
  zlen (outcome (Opened content) []).1.1.2 = zlen content mod 4294967296 /\
  zlen (outcome (Opened content) []).1.1.2 < zlen content.
Proof.
  intros Hc. assert (Hr : refusal content [] = None).
  { unfold refusal. pose proof (u32_range (zlen content)).
    rewrite bool_decide_false by (rewrite zlen_nil; lia). by rewrite bool_decide_false by naive_solver. }
  destruct (refusal_none _ _ Hr) as [Hle _]. pose proof (limit_stream content [] Hle) as Hlen.
  pose proof (Z.mod_pos_bound (zlen content) 4294967296 ltac:(lia)) as Hb.
  unfold outcome. rewrite Hr. cbn [fst snd app].
  assert (Hz : zlen (take (limit content []) (stream content [])) = zlen content mod 4294967296).
  { unfold zlen at 1. rewrite length_take, Nat.min_l by lia. unfold limit.
    rewrite zlen_nil, Z.sub_0_r. unfold u32. change (2 ^ 32) with 4294967296. lia. }
  lia.
Qed.

(** *** Panics *)

(** C29. What crashes the sharing side: a request for a file that can be opened,
    whose header announces between 1 and 35 bytes, and those bytes.  Nothing
    recovers, so the process ends. *)
Theorem request_panic_iff open s w :
  (run (handleRequest open) s w).1.1 = None <->
  exists n i1 i0 info rest content,
    s = [z2b 0; n; i1; i0] ++ info ++ rest /\ (0 < length info < 36)%nat /\ Z.to_nat (b2z n) = length info /\
    open (de16 i1 i0) = Opened content.
Proof.
  unfold handleRequest. rewrite run_ReadFull by (simpl; lia).
  destruct (decide (4 <= length s)%nat) as [H4|H4].
  2: { rewrite bool_decide_false by (simpl; lia). cbn [fst snd].
    split; [|intros (n & i1 & i0 & info & rest & content & -> & _); simpl in H4; lia].
    destruct (at_index (fill (zeros 4) 0 s) 0) eqn:Eat.
    - cbn [mbind io_bind]. rewrite bool_decide_true by (left; eauto). by destruct w.
    - unfold at_index in Eat. by destruct (_ !! _).
    - unfold at_index in Eat. by destruct (_ !! _).
    - unfold at_index in Eat. destruct (_ !! 0%nat) eqn:El; [done|].
      apply lookup_ge_None in El. rewrite length_fill in El by (simpl; lia). simpl in El. lia. }
  rewrite bool_decide_true by (simpl; lia).
  destruct s as [|h0 [|n [|i1 [|i0 s]]]]; simpl in H4; try lia.
  cbn [Nat.sub take drop fst snd]. rewrite ?drop_0, ?take_0. at_idx.
  destruct (decide (b2z h0 = 0)) as [Hh|Hh].
  2: { rewrite bool_decide_true by (right; done). split; [by destruct w|].
    intros (n' & i1' & i0' & info & rest & content & Heq & _). injection Heq as -> _. by destruct Hh. }
  assert (h0 = z2b 0) as -> by (apply b2z_inj; by rewrite Hh).
  rewrite bool_decide_false by (intros [[? ?]|Hn]; [done|by apply Hn]). do 3 at_idx.
  destruct (open (de16 i1 i0)) as [| |content] eqn:Eo; cbn [serve_opened].
  - split; [by destruct w|]. intros (n' & i1' & i0' & info & rest & content & Heq & _ & _ & Ho).
    injection Heq as -> -> -> ->. congruence.
  - split; [done|]. intros (n' & i1' & i0' & info & rest & content & Heq & _ & _ & Ho).
    injection Heq as -> -> -> ->. congruence.
  - remember (Z.to_nat (b2z n)) as k eqn:Hkn. assert (Hz : length (zeros k) = k) by apply repeat_length.
    rewrite run_ReadFull, Nat.sub_0_r by lia.
    case_bool_decide as Hk; cbn [fst snd or_fail].
    + assert (Hf : fill (zeros k) 0 (take k s) = take k s).
      { assert (Hlk : length (take k s) = k) by (rewrite length_take; lia).
        unfold fill. rewrite drop_ge, take_0, app_nil_r by (rewrite Hlk; lia). done. }
      rewrite Hf, check_part_run, length_take, Nat.min_l by lia. split.
      * intros Hr. exists n, i1, i0, (take k s), (drop k s), content. rewrite length_take, Nat.min_l, take_drop by lia. done.
      * intros (n' & i1' & i0' & info & rest & content' & Heq & Hlen & Hn & _).
        injection Heq as -> -> -> ->. lia.
    + unfold short_error. cbn [or_fail]. split; [by destruct w|].
      intros (n' & i1' & i0' & info & rest & content' & Heq & Hlen & Hn & _).
      injection Heq as -> -> -> ->. rewrite length_app in Hk. lia.
Qed.
End Transfer.

(** *** Witnesses *)

(** A checksum of 32 bytes. *)
Definition toy_sum (b : bytes) : bytes := take 32 (rev b ++ zeros 32).
Lemma toy_sum_length b : length (toy_sum b) = 32%nat.
Proof. unfold toy_sum, zeros. rewrite length_take, length_app, repeat_length. lia. Qed.

Definition shared (index : Z) : opened := if bool_decide (index = 3) then Opened (bs "hello, world") else NotOpened.

Lemma transfer_session_witness :
  let o := outcome toy_sum (shared 3) (bs "help") in
  o.1.1 = (Some NotPart, bs "help") /\
  settles (Conf (readFile toy_sum None 3 (bs "help")) (handleRequest toy_sum shared) [] []) (Conf (Ret o.1.1) (Ret tt) o.1.2 o.2).
Proof.
  split; [vm_compute; reflexivity|].
  refine (transfer_session toy_sum toy_sum_length shared 3 (bs "help") _ _); [lia|]. vm_compute. reflexivity.
Defined.


Lemma download_checked_witness :
  exists content, shared 3 = Opened content /\
    (zlen content < 4294967296 ->
     bs "hello, world" = content \/ (bs "hello, world" <> content /\ toy_sum (bs "hello, world") = toy_sum content)).
Proof.
  refine (download_checked toy_sum toy_sum_length None shared 3 (bs "hello") (bs "hello, world") (Ret tt) [] [] _ _ _);
    [lia|vm_compute; reflexivity|].
  exact (transfer_run toy_sum toy_sum_length shared 3 (bs "hello") ltac:(lia) ltac:(vm_compute; reflexivity)).
Defined.
End Transfer.
