(* ===== verification/Ws.v ===== *)
(** * The control connection of a client ([disco/ws/ws.go])

    A [WSConn] is a websocket to the server; every binary message is masked with
    the nonce of the connection.  [handleEvents] turns messages into datagrams,
    events and calls of controllers, [Read] and [Write] carry the stream that is
    multiplexed on the connection, and [dial] opens or reopens it.

    The websocket library is outside of the sources: [out] records what is handed
    to it, and [WriteMessage] is its answer to a write, which may depend on all
    that was handed over before.  So are the decoding of JSON, base64 and URLs
    and the resolver.  Rate limiters only delay, and are kept as their limit and
    burst. *)

From S2P Require Import Prelude Text Netip Disco Langs Url GoTime Stream.

(** ** State *)

Record Datagram := MkDatagram { dg_PeerID : bytes; dg_Data : bytes }.
Record Peer := MkPeer { peer_ID : bytes; Metadata : Values }.
Record Endpoint := MkEndpoint { ep_ID : bytes; ep_Addr : UDPAddr; ep_Type : bytes }.

Inductive event_data :=
| NoData
| PeerData (p : Peer)
| PeerIDData (id : bytes)
| EndpointData (e : Endpoint).
Record Event := MkEvent { ControlCode : Z; Data : event_data }.

(** What is handed to the websocket library, on which connection. *)
Inductive ws_out :=
| OutMessage (conn : nat) (messageType : Z) (data : bytes)
| OutClose (conn : nat) (code : Z)
| OutPing (conn : nat)
| OutPong (conn : nat) (appData : bytes)
| OutShut (conn : nat).

Inductive ws_error := ErrCloseSent | ErrWs (text : bytes).
Inductive conn_error := ErrClosed | EOF | ErrWrite (e : ws_error).

Definition TextMessage : Z := 1.
Definition BinaryMessage : Z := 2.
Definition CloseNormalClosure : Z := 1000.
Definition CloseNoStatusReceived : Z := 1005.

Record Controller := MkController { ctr_Name : bytes; ctr_Type : Z }.

Record limiter := Limiter { lim_Limit : Z; lim_Burst : Z }.

(** The part of the connection that [dial] sets up. *)
Record link := MkLink {
  rawConn : option nat;
  connectedServer : bytes;
  nonce : byte;
  stuns : list bytes;
  activeTime : Z;
  rateLimiter : option limiter;
  streamRateLimiter : option limiter
}.

Record WSConn := MkWSConn {
  lnk : link;
  wclosed : bool;
  closedSig : chan unit;
  datagrams : chan Datagram;
  events : chan Event;
  connData : chan bytes;
  connEOF : chan unit;
  connBuf : option bytes;
  controllers : gmap Z (list Controller);
  out : list ws_out;
  handled : list (bytes * bytes);
  updates : list NetworkSecret
}.

Definition set_lnk (x : link) (c : WSConn) : WSConn :=
  MkWSConn x (wclosed c) (closedSig c) (datagrams c) (events c) (connData c) (connEOF c) (connBuf c)
    (controllers c) (out c) (handled c) (updates c).
Definition set_datagrams (x : chan Datagram) (c : WSConn) : WSConn :=
  MkWSConn (lnk c) (wclosed c) (closedSig c) x (events c) (connData c) (connEOF c) (connBuf c)
    (controllers c) (out c) (handled c) (updates c).
Definition set_events (x : chan Event) (c : WSConn) : WSConn :=
  MkWSConn (lnk c) (wclosed c) (closedSig c) (datagrams c) x (connData c) (connEOF c) (connBuf c)
    (controllers c) (out c) (handled c) (updates c).
Definition set_connData (x : chan bytes) (c : WSConn) : WSConn :=
  MkWSConn (lnk c) (wclosed c) (closedSig c) (datagrams c) (events c) x (connEOF c) (connBuf c)
    (controllers c) (out c) (handled c) (updates c).
Definition set_connEOF (x : chan unit) (c : WSConn) : WSConn :=
  MkWSConn (lnk c) (wclosed c) (closedSig c) (datagrams c) (events c) (connData c) x (connBuf c)
    (controllers c) (out c) (handled c) (updates c).
Definition set_closedSig (x : chan unit) (c : WSConn) : WSConn :=
  MkWSConn (lnk c) true x (datagrams c) (events c) (connData c) (connEOF c) (connBuf c)
    (controllers c) (out c) (handled c) (updates c).
Definition set_connBuf (x : option bytes) (c : WSConn) : WSConn :=
  MkWSConn (lnk c) (wclosed c) (closedSig c) (datagrams c) (events c) (connData c) (connEOF c) x
    (controllers c) (out c) (handled c) (updates c).
Definition set_controllers (x : gmap Z (list Controller)) (c : WSConn) : WSConn :=
  MkWSConn (lnk c) (wclosed c) (closedSig c) (datagrams c) (events c) (connData c) (connEOF c) (connBuf c)
    x (out c) (handled c) (updates c).
Definition add_out (x : list ws_out) (c : WSConn) : WSConn :=
  MkWSConn (lnk c) (wclosed c) (closedSig c) (datagrams c) (events c) (connData c) (connEOF c) (connBuf c)
    (controllers c) (out c ++ x) (handled c) (updates c).
Definition add_handled (x : list (bytes * bytes)) (c : WSConn) : WSConn :=
  MkWSConn (lnk c) (wclosed c) (closedSig c) (datagrams c) (events c) (connData c) (connEOF c) (connBuf c)
    (controllers c) (out c) (handled c ++ x) (updates c).
Definition add_update (x : NetworkSecret) (c : WSConn) : WSConn :=
  MkWSConn (lnk c) (wclosed c) (closedSig c) (datagrams c) (events c) (connData c) (connEOF c) (connBuf c)
    (controllers c) (out c) (handled c) (updates c ++ [x]).
Definition set_activeTime (x : Z) (c : WSConn) : WSConn :=
  let l := lnk c in
  set_lnk (MkLink (rawConn l) (connectedServer l) (nonce l) (stuns l) x (rateLimiter l) (streamRateLimiter l)) c.

Definition wnonce (c : WSConn) : byte := nonce (lnk c).

(** A send on one of the channels: it panics when the channel is closed. *)
Definition send_datagram {E} (x : Datagram) : GoM WSConn E unit := fun c =>
  match @chan_send E _ x (datagrams c) with Ok q => (Ok tt, set_datagrams q c) | _ => (Panic, c) end.
Definition send_event {E} (x : Event) : GoM WSConn E unit := fun c =>
  match @chan_send E _ x (events c) with Ok q => (Ok tt, set_events q c) | _ => (Panic, c) end.
Definition send_connData {E} (x : bytes) : GoM WSConn E unit := fun c =>
  match @chan_send E _ x (connData c) with Ok q => (Ok tt, set_connData q c) | _ => (Panic, c) end.

(** ** Reading the stream *)

(** The outcomes that a [Read] of [n] bytes can have; none when it blocks.  Of
    several channels that are ready the [select] takes any. *)
Definition Read (n : Z) (c : WSConn) : list ((bytes * option conn_error) * WSConn) :=
  match connBuf c with
  | Some b => let '(p, rest) := copy_out n b in [((p, None), set_connBuf rest c)]
  | None =>
      (if closed (closedSig c) then [(([], Some EOF), c)] else []) ++
      (if closed (connEOF c) then [(([], Some EOF), c)] else []) ++
      match chan_recv (connData c) with
      | None => []
      | Some (None, _) => [(([], Some EOF), c)]
      | Some (Some wsb, q) =>
          let '(p, rest) := copy_out n wsb in [((p, None), set_connBuf rest (set_connData q c))]
      end
  end.

Section Ws.
Context (WriteMessage : list ws_out -> nat -> Z -> bytes -> option ws_error).
Context (ResolveUDPAddr : bytes -> option UDPAddr).
Context (json_secret : bytes -> option NetworkSecret).
Context (json_natinfo : NATInfo -> option bytes).

(** ** Writing *)

Definition writeWS (messageType : Z) (data : bytes) : GoM WSConn conn_error unit := fun c =>
  match rawConn (lnk c) with
  | Some wsConn =>
      let c' := add_out [OutMessage wsConn messageType data] c in
      match WriteMessage (out c) wsConn messageType data with
      | Some ErrCloseSent => (Err ErrClosed, c')
      | Some e => (Err (ErrWrite e), c')
      | None => (Ok tt, c')
      end
  | None => (Err ErrClosed, c)
  end.

Definition write (b : bytes) : GoM WSConn conn_error unit := fun c =>
  writeWS BinaryMessage (xor_all (wnonce c) b) c.

Definition Write (p : bytes) : GoM WSConn conn_error Z :=
  _ ← write (z2b CONTROL_CONN :: p); mret (zlen p).

Definition WriteTo (p : bytes) (peerID : bytes) (op : Z) : GoM WSConn conn_error unit :=
  let b := [z2b op] in
  let b := b ++ [Len peerID] in
  let b := b ++ Bytes peerID in
  write (b ++ p).

Definition LeadDisco (peerID : bytes) : GoM WSConn conn_error unit := WriteTo [] peerID CONTROL_LEAD_DISCO.

(** The addresses without the later duplicates. *)
Definition distinct (addrs : list UDPAddr) : list UDPAddr :=
  fold_left (fun acc a => if UDPAddrContains acc a then acc else acc ++ [a]) addrs [].

(** [None] is the error of [json.Marshal]. *)
Definition UpdateNATInfo (natInfo : NATInfo) : GoM WSConn (option conn_error) unit := fun c =>
  if bool_decide (zlen (nat_Addrs natInfo) = 0) then (Ok tt, c)
  else
    match json_natinfo (MkNATInfo (nat_Type natInfo) (distinct (nat_Addrs natInfo))) with
    | None => (Err None, c)
    | Some b =>
        match write ([z2b CONTROL_UPDATE_NAT_INFO; z2b 0] ++ b) c with
        | (Ok _, c) => (Ok tt, c)
        | (Err e, c) => (Err (Some e), c)
        | (Panic, c) => (Panic, c)
        end
    end.

(** ** Controllers *)

Definition Register (ctr : Controller) (c : WSConn) : WSConn :=
  set_controllers (<[ctr_Type ctr := default [] (controllers c !! ctr_Type ctr) ++ [ctr]]> (controllers c)) c.
Definition Unregister (ctr : Controller) (c : WSConn) : WSConn :=
  set_controllers
    (<[ctr_Type ctr := filter (fun ct => ctr_Name ct <> ctr_Name ctr)
                         (default [] (controllers c !! ctr_Type ctr))]> (controllers c)) c.

(** ** Received messages *)

(** The peer identifier of a message, [b[2:b[1]+2]], and the rest,
    [b[b[1]+2:]]; the sums are sums of bytes. *)
Definition msg_id {E} (b : gslice) : res E bytes :=
  n ← sl_get b 1; s ← sl_sub b 2 (u8 (b2z n + 2)); Ok (vis s).
Definition msg_rest {E} (b : gslice) : res E gslice := n ← sl_get b 1; sl_from b (u8 (b2z n + 2)).

(** An endpoint: [None] when its address does not resolve. *)
Definition parse_endpoint {E} (b : gslice) : res E (option Endpoint) :=
  n ← sl_get b 1;
  a ← sl_get b (u8 (b2z n + 2));
  if bool_decide (b2z a <> 97) then
    rest ← msg_rest b;
    match ResolveUDPAddr (vis rest) with
    | None => Ok None
    | Some addr => id ← msg_id b; Ok (Some (MkEndpoint id addr []))
    end
  else
    addrLen ← sl_get b (u8 (b2z n + 3));
    let s := u8 (b2z n + 4) in
    text ← sl_sub b s (u8 (s + b2z addrLen));
    match ResolveUDPAddr (vis text) with
    | None => Ok None
    | Some addr =>
        id ← msg_id b;
        ty ← sl_from b (u8 (s + b2z addrLen));
        Ok (Some (MkEndpoint id addr (vis ty)))
    end.

Definition peer_event {E} (code : Z) (b : gslice) : GoM WSConn E unit :=
  rest ← lift (msg_rest b);
  id ← lift (msg_id b);
  send_event (MkEvent code (PeerData (MkPeer id (ParseQuery (vis rest)).1))).

Definition handleEvents {E} (b : gslice) : GoM WSConn E unit :=
  b0 ← lift (sl_get b 0);
  let code := b2z b0 in
  if bool_decide (code = CONTROL_RELAY) then
    id ← lift (msg_id b);
    data ← lift (msg_rest b);
    send_datagram (MkDatagram id (vis data))
  else if bool_decide (code = CONTROL_NEW_PEER) then peer_event code b
  else if bool_decide (code = CONTROL_PEER_LEAVE) then
    id ← lift (msg_id b);
    send_event (MkEvent code (PeerIDData id))
  else if bool_decide (code = CONTROL_UPDATE_META) then peer_event code b
  else if bool_decide (code = CONTROL_NEW_PEER_UDP_ADDR) then
    e ← lift (parse_endpoint b);
    match e with
    | Some e => send_event (MkEvent code (EndpointData e))
    | None => mret tt
    end
  else if bool_decide (code = CONTROL_UPDATE_NETWORK_SECRET) then
    body ← lift (sl_from b 1);
    match json_secret (vis body) with
    | None => mret tt
    | Some secret => modify (add_update secret)
    end
  else if bool_decide (code = CONTROL_CONN) then
    body ← lift (sl_from b 1);
    send_connData (vis body)
  else
    ctrs ← gets (fun c => default [] (controllers c !! code));
    modify (add_handled ((fun ctr => (ctr_Name ctr, vis b)) <$> ctrs)).

(** A message as the read loop treats it once [ReadMessage] has returned it. *)
Definition onMessage {E} (now : time) (mt : Z) (b : gslice) : GoM WSConn E unit :=
  _ ← modify (set_activeTime (Unix now));
  if bool_decide (mt <> BinaryMessage) then mret tt
  else
    k ← gets wnonce;
    handleEvents (GSlice (xor_all k (vis b)) (spare b)).
End Ws.

(** ** Closing *)

Definition close_chan {E A} (get : WSConn -> chan A) (set : chan A -> WSConn -> WSConn) : GoM WSConn E unit :=
  fun c => match @chan_close E _ (get c) with Ok q => (Ok tt, set q c) | _ => (Panic, c) end.

Definition close_raw (code : Z) (c : WSConn) : WSConn :=
  match rawConn (lnk c) with
  | Some conn => add_out [OutClose conn code; OutShut conn] c
  | None => c
  end.

Definition Close {E} : GoM WSConn E unit :=
  _ ← modify (fun c => set_closedSig (closedSig c) c);
  _ ← close_chan closedSig set_closedSig;
  _ ← close_chan datagrams set_datagrams;
  _ ← close_chan events set_events;
  _ ← close_chan connData set_connData;
  _ ← close_chan connEOF set_connEOF;
  modify (close_raw CloseNormalClosure).

(** [reader] is whether a [Read] waits on [connEOF], which has no buffer: without
    one nothing is sent; with one that reader gets the end of the stream
    ([true]). *)
Definition RestartListener {E} (reader : bool) : GoM WSConn E bool := fun c =>
  if wclosed c then (Ok false, c)
  else
    let c := close_raw CloseNoStatusReceived c in
    if closed (connEOF c) then (Panic, c) else (Ok reader, c).

(** One turn of [runConnAliveDetector]: [None] when it ends. *)
Definition checkAlive {E} (now : time) (reader : bool) : GoM WSConn E (option bool) := fun c =>
  if closed (closedSig c) then (Ok None, c)
  else if bool_decide (Unix now - activeTime (lnk c) > 25) then
    match RestartListener reader c with
    | (Ok r, c) => (Ok (Some r), c)
    | (Err e, c) => (Err e, c)
    | (Panic, c) => (Panic, c)
    end
  else (Ok (Some false), c).

(** ** Dialling *)

(** The answer of a server to the request of [dial]: its status and header, the
    error document in its body, and the connection, [None] when the dialer
    failed.  [ws_response] is [None] when there was no HTTP answer. *)
Record response := MkResponse { StatusCode : Z; header : gmap bytes bytes; err_body : Error }.
Record dial_answer := MkAnswer { ws_response : option response; ws_conn : option nat; answered_at : time }.

Definition hget (h : gmap bytes bytes) (k : bytes) : bytes := default [] (h !! k).

Inductive dial_error :=
| NoSecret
| InvalidServer (server : bytes)
| AddressInUse (peer : bytes)
| NotFound (server : bytes)
| Denied (e : Error)
| DialFailed (server : bytes)
| BadStunsEncoding
| BadStunsJSON
| BadLimit
| BadBurst
| BadStreamLimit
| BadStreamBurst.

Definition set_stuns (x : list bytes) (l : link) : link :=
  MkLink (rawConn l) (connectedServer l) (nonce l) x (activeTime l) (rateLimiter l) (streamRateLimiter l).
Definition set_rateLimiter (x : option limiter) (l : link) : link :=
  MkLink (rawConn l) (connectedServer l) (nonce l) (stuns l) (activeTime l) x (streamRateLimiter l).
Definition set_streamRateLimiter (x : option limiter) (l : link) : link :=
  MkLink (rawConn l) (connectedServer l) (nonce l) (stuns l) (activeTime l) (rateLimiter l) x.

Section Dial.
Context (base64_decode : bytes -> option bytes).
(** [json.Unmarshal] into a list that has a value: the list afterwards and whether it failed. *)
Context (json_stuns : list bytes -> bytes -> list bytes * bool).

Definition configureSTUNs (h : gmap bytes bytes) : GoM link dial_error unit := fun l =>
  let stunsArg := hget h (bs "X-STUNs") in
  if bool_decide (stunsArg = []) then (Ok tt, l)
  else match base64_decode stunsArg with
       | None => (Err BadStunsEncoding, l)
       | Some xSTUNs =>
           let '(s, failed) := json_stuns (stuns l) xSTUNs in
           (if failed then Err BadStunsJSON else Ok tt, set_stuns s l)
       end.

Definition configureRatelimiter (h : gmap bytes bytes) : GoM link dial_error unit := fun l =>
  let limitArg := hget h (bs "X-Limiter-Limit") in
  if bool_decide (limitArg = []) then (Ok tt, l)
  else match ParseInt 64 limitArg with
  | None => (Err BadLimit, l)
  | Some limit =>
      let burstArg := hget h (bs "X-Limiter-Burst") in
      let burstArg := if bool_decide (burstArg = []) then limitArg else burstArg in
      match ParseInt 64 burstArg with
      | None => (Err BadBurst, l)
      | Some burst =>
          let l := if bool_decide (limit > 0) then set_rateLimiter (Some (Limiter limit burst)) l else l in
          let streamLimitArg := hget h (bs "X-Limiter-Stream-Limit") in
          if bool_decide (limitArg = []) then (Ok tt, l)
          else match ParseInt 64 streamLimitArg with
          | None => (Err BadStreamLimit, l)
          | Some streamLimit =>
              let streamBurstArg := hget h (bs "X-Limiter-Stream-Burst") in
              let streamBurstArg := if bool_decide (streamBurstArg = []) then streamLimitArg else streamBurstArg in
              match ParseInt 64 streamBurstArg with
              | None => (Err BadStreamBurst, l)
              | Some streamBurst =>
                  (Ok tt, if bool_decide (limit > 0)
                          then set_streamRateLimiter (Some (Limiter streamLimit streamBurst)) l else l)
              end
          end
      end
  end.

Definition on_link {E A} (m : GoM link E A) : GoM WSConn E A := fun c =>
  let '(r, l) := m (lnk c) in (r, set_lnk l c).

(** The last part of [dial], after a connection was made. *)
Definition establish (server : bytes) (now : time) (conn : nat) (h : gmap bytes bytes) : GoM WSConn dial_error unit :=
  _ ← send_event (MkEvent CONTROL_SERVER_CONNECTED NoData);
  _ ← on_link (configureSTUNs h);
  _ ← on_link (configureRatelimiter h);
  modify (fun c =>
    set_lnk (MkLink (Some conn) server (MustParseNonce (hget h (bs "X-Nonce"))) (stuns (lnk c)) (Unix now)
               (rateLimiter (lnk c)) (streamRateLimiter (lnk c))) c).

(** [has_secret] is whether the secret store answers, [url_ok] whether
    [url.Parse] reads a server's address, [self] and [url] are the identifier and
    the configured address.  Each request consumes one answer; a redirection is
    followed without a bound, and a request that nobody answers fails. *)
Fixpoint dial (has_secret : bool) (url_ok : bytes -> bool) (self url : bytes) (answers : list dial_answer)
    (server : bytes) : GoM WSConn dial_error unit :=
  if negb has_secret then fun c => (Err NoSecret, c)
  else
    let server := if bool_decide (server = []) then url else server in
    if negb (url_ok server) then fun c => (Err (InvalidServer server), c)
    else match answers with
    | [] => fun c => (Err (DialFailed server), c)
    | a :: answers =>
        match ws_response a with
        | None => fun c => (Err (DialFailed server), c)
        | Some r =>
            if bool_decide (StatusCode r = 400) then fun c => (Err (AddressInUse self), c)
            else if bool_decide (StatusCode r = 404) then fun c => (Err (NotFound server), c)
            else if bool_decide (StatusCode r = 403) then fun c => (Err (Denied (err_body r)), c)
            else if bool_decide (StatusCode r = 307) then
              dial has_secret url_ok self url answers (hget (header r) (bs "Location"))
            else match ws_conn a with
                 | None => fun c => (Err (DialFailed server), c)
                 | Some conn => establish server (answered_at a) conn (header r)
                 end
        end
    end.
End Dial.

(** [ws://] and [wss://] for [http://] and [https://]. *)
Definition ws_scheme (scheme : bytes) : bytes :=
  if bool_decide (scheme = bs "http") then bs "ws"
  else if bool_decide (scheme = bs "https") then bs "wss"
  else scheme.

(** The sleeps of [handleError] before its first [n+1] attempts. *)
Definition retryInitDuration : Z := 200 * Millisecond.
Definition retryMaxDuration : Z := 5 * Second.
Fixpoint retry_waits (n : nat) (retryWaitDuration : Z) : list Z :=
  Z.min retryWaitDuration retryMaxDuration ::
  match n with
  | O => []
  | S n => retry_waits n (Z.max (i64 (retryWaitDuration * 2)) retryInitDuration)
  end.

(** [handleError]: restart, then dial until an attempt succeeds or the connection
    is closed.  [attempts] are the answers of one [dial] each; the sum is
    whether it got a connection. *)
Section Retry.
Context (dial1 : list dial_answer -> GoM WSConn dial_error unit).

Fixpoint redial (attempts : list (list dial_answer)) : GoM WSConn Empty_set bool := fun c =>
  if closed (closedSig c) then (Ok false, c)
  else match attempts with
  | [] => (Ok false, c)
  | a :: attempts =>
      match dial1 a c with
      | (Ok _, c) => (Ok true, c)
      | (Err _, c) => redial attempts c
      | (Panic, c) => (Panic, c)
      end
  end.

Definition handleError (reader : bool) (attempts : list (list dial_answer)) : GoM WSConn Empty_set bool :=
  _ ← RestartListener reader; redial attempts.
End Retry.

(** The secret store is asked at most five times: the answers are given, the
    result is whether one of them was a success and how many were asked. *)
Fixpoint updateNetworkSecret (i : nat) (stored : nat -> bool) (tries : nat) : bool * nat :=
  match tries with
  | O => (false, i)
  | S tries => if stored i then (true, S i) else updateNetworkSecret (S i) stored tries
  end.

Definition new_WSConn : WSConn :=
  MkWSConn (MkLink None [] (z2b 0) [] 0 None None) false make_chan make_chan make_chan make_chan make_chan None
    ∅ [] [] [].

(** [Dial]: [None] is the refusal of a missing peer or server. *)
Definition Dial (dial1 : list dial_answer -> GoM WSConn dial_error unit) (given : bool)
    (answers : list dial_answer) : option (res dial_error unit * WSConn) :=
  if negb given then None else Some (dial1 answers new_WSConn).

(** ** Lemmas: framed messages *)

(** A message as both sides build it. *)
Definition framed (op : Z) (id rest : bytes) : bytes := z2b op :: Len id :: id ++ rest.

(** Decides the comparisons of a control code. *)
Ltac codes :=
  repeat match goal with
  | |- context [bool_decide (?a = ?b)] =>
      first [ rewrite (bool_decide_true (a = b)) by reflexivity
            | rewrite (bool_decide_false (a = b)) by (vm_compute; discriminate) ]
  end.

Lemma Len_range id : 0 <= b2z (Len id) < 256.
Proof. apply b2z_range. Qed.

Lemma b2z_Len id : zlen id <= 255 -> b2z (Len id) = zlen id.
Proof. intros H. unfold Len. pose proof (zlen_nonneg id). apply b2z_z2b_small. lia. Qed.

Lemma framed_get0 {E} op id rest sp : @sl_get E (GSlice (framed op id rest) sp) 0 = Ok (z2b op).
Proof. by apply (sl_get_app []). Qed.
Lemma framed_get1 {E} op id rest sp : @sl_get E (GSlice (framed op id rest) sp) 1 = Ok (Len id).
Proof. by apply (sl_get_app [z2b op]). Qed.

Lemma framed_offset id : zlen id <= 253 -> u8 (b2z (Len id) + 2) = 2 + zlen id.
Proof. intros H. pose proof (zlen_nonneg id). rewrite b2z_Len, u8_small; lia. Qed.

Lemma msg_id_framed {E} op id rest sp :
  zlen id <= 253 -> @msg_id E (GSlice (framed op id rest) sp) = Ok id.
Proof.
  intros Hid. unfold msg_id. rewrite framed_get1, bind_Ok, framed_offset by done.
  change (framed op id rest) with ([z2b op; Len id] ++ id ++ rest).
  rewrite sl_sub_app by zlen_lia. done.
Qed.

Lemma msg_rest_framed {E} op id rest sp :
  zlen id <= 253 -> @msg_rest E (GSlice (framed op id rest) sp) = Ok (GSlice rest sp).
Proof.
  intros Hid. unfold msg_rest. rewrite framed_get1, bind_Ok, framed_offset by done.
  change (framed op id rest) with (([z2b op; Len id] ++ id) ++ rest).
  apply sl_from_app. zlen_lia.
Qed.

(** The messages that carry an identifier and a rest are the framed ones. *)
Lemma msg_parts {E} b i r :
  @msg_id E b = Ok i -> @msg_rest E b = Ok r ->
  exists op, vis b = framed op i (vis r) /\ zlen i <= 253.
Proof.
  unfold msg_id, msg_rest. destruct b as [v sp]. destruct v as [|a [|n body]];
    [unfold sl_get; simpl; done..|].
  pose proof (@sl_get_app E [a] n body sp 1 eq_refl) as Hg. cbn [app] in Hg.
  rewrite Hg, !bind_Ok. pose proof (b2z_range n) as Hn.
  destruct (decide (254 <= b2z n)) as [Hbig|Hs].
  { rewrite sl_sub_oob; [done|]. right. unfold u8. mlia. }
  rewrite u8_small by lia. intros Hi Hr. destruct (decide (zlen body < b2z n)) as [Hlt|Hge].
  { rewrite sl_from_oob in Hr; [done|]. unfold sl_len; simpl. zlen_lia. }
  set (id := take (Z.to_nat (b2z n)) body) in *.
  assert (Hid : zlen id = b2z n) by (unfold id, zlen in *; rewrite length_take; lia).
  assert (Hb : body = id ++ drop (Z.to_nat (b2z n)) body) by (unfold id; by rewrite take_drop).
  exists (b2z a). cbn [vis].
  rewrite Hb in Hi, Hr. change (a :: n :: id ++ drop (Z.to_nat (b2z n)) body)
    with ([a; n] ++ id ++ drop (Z.to_nat (b2z n)) body) in Hi, Hr.
  rewrite sl_sub_app in Hi by zlen_lia. injection Hi as <-. cbn [vis].
  rewrite app_assoc, sl_from_app in Hr by zlen_lia. injection Hr as <-. cbn [vis].
  unfold framed. rewrite z2b_b2z. replace (Len id) with n; [|apply b2z_inj; rewrite b2z_Len; lia].
  rewrite <- Hb. split; [done|lia].
Qed.

Lemma handleEvents_relay {E} res js id data sp c :
  zlen id <= 253 ->
  @handleEvents res js E (GSlice (framed CONTROL_RELAY id data) sp) c =
  send_datagram (MkDatagram id data) c.
Proof.
  intros Hid. unfold handleEvents. rewrite framed_get0.
  rewrite lift_bind. change (b2z (z2b CONTROL_RELAY)) with CONTROL_RELAY. codes.
  rewrite msg_id_framed, lift_bind, msg_rest_framed, lift_bind by done. done.
Qed.

Lemma handleEvents_peer {E} res js op id meta sp c :
  op = CONTROL_NEW_PEER \/ op = CONTROL_UPDATE_META -> zlen id <= 253 ->
  @handleEvents res js E (GSlice (framed op id meta) sp) c =
  send_event (MkEvent op (PeerData (MkPeer id (ParseQuery meta).1))) c.
Proof.
  intros Hop Hid. unfold handleEvents. rewrite framed_get0.
  rewrite lift_bind.
  destruct Hop as [->| ->]; (rewrite b2z_z2b_small by (unfold CONTROL_NEW_PEER, CONTROL_UPDATE_META; lia));
    codes; unfold peer_event;
    by rewrite msg_rest_framed, lift_bind, msg_id_framed, lift_bind by done.
Qed.

Lemma handleEvents_leave {E} res js id rest sp c :
  zlen id <= 253 ->
  @handleEvents res js E (GSlice (framed CONTROL_PEER_LEAVE id rest) sp) c =
  send_event (MkEvent CONTROL_PEER_LEAVE (PeerIDData id)) c.
Proof.
  intros Hid. unfold handleEvents. rewrite framed_get0, lift_bind.
  change (b2z (z2b CONTROL_PEER_LEAVE)) with CONTROL_PEER_LEAVE.
  codes.
  by rewrite msg_id_framed, lift_bind by done.
Qed.

(** The message of an endpoint: the byte 'a', the length of the address, the
    address and the type. *)
Lemma parse_endpoint_framed {E} res id text ty addr sp :
  zlen id + zlen text <= 251 -> res text = Some addr ->
  @parse_endpoint res E (GSlice (framed CONTROL_NEW_PEER_UDP_ADDR id (z2b 97 :: z2b (zlen text) :: text ++ ty)) sp) =
  Ok (Some (MkEndpoint id addr ty)).
Proof.
  intros Hlen Hres. pose proof (zlen_nonneg id). pose proof (zlen_nonneg text).
  unfold parse_endpoint. rewrite framed_get1, bind_Ok, b2z_Len by lia. rewrite !u8_small by lia.
  set (pre := [z2b CONTROL_NEW_PEER_UDP_ADDR; Len id] ++ id).
  assert (Hpre : zlen pre = zlen id + 2) by (unfold pre; zlen_lia).
  assert (Hf : framed CONTROL_NEW_PEER_UDP_ADDR id (z2b 97 :: z2b (zlen text) :: text ++ ty) =
               pre ++ z2b 97 :: (z2b (zlen text) :: text ++ ty)) by done.
  rewrite Hf, (sl_get_app pre _ _ _ (zlen id + 2)) by done. rewrite bind_Ok.
  rewrite bool_decide_false by (intros Hx; by apply Hx).
  assert (Hf2 : pre ++ z2b 97 :: (z2b (zlen text) :: text ++ ty) = (pre ++ [z2b 97]) ++ z2b (zlen text) :: (text ++ ty))
    by by rewrite <- app_assoc.
  rewrite Hf2 at 1. rewrite (sl_get_app _ _ _ _ (zlen id + 3)) by zlen_lia. rewrite bind_Ok, b2z_z2b_small, u8_small by lia.
  assert (Hf3 : pre ++ z2b 97 :: (z2b (zlen text) :: text ++ ty) = (pre ++ [z2b 97; z2b (zlen text)]) ++ text ++ ty)
    by by rewrite <- app_assoc.
  rewrite Hf3 at 1. rewrite sl_sub_app by zlen_lia. rewrite bind_Ok. cbn [vis]. rewrite Hres.
  rewrite <- Hf, msg_id_framed, bind_Ok by lia. rewrite Hf, Hf3, app_assoc, sl_from_app by zlen_lia. done.
Qed.

Lemma handleEvents_endpoint {E} res js id text ty addr sp c :
  zlen id + zlen text <= 251 -> res text = Some addr ->
  @handleEvents res js E
    (GSlice (framed CONTROL_NEW_PEER_UDP_ADDR id (z2b 97 :: z2b (zlen text) :: text ++ ty)) sp) c =
  send_event (MkEvent CONTROL_NEW_PEER_UDP_ADDR (EndpointData (MkEndpoint id addr ty))) c.
Proof.
  intros Hlen Hres. unfold handleEvents. rewrite framed_get0, lift_bind.
  change (b2z (z2b CONTROL_NEW_PEER_UDP_ADDR)) with CONTROL_NEW_PEER_UDP_ADDR. codes.
  by rewrite parse_endpoint_framed with (addr := addr), lift_bind.
Qed.

Lemma handleEvents_conn {E} res js p sp c :
  @handleEvents res js E (GSlice (z2b CONTROL_CONN :: p) sp) c = send_connData p c.
Proof.
  unfold handleEvents. pose proof (@sl_get_app E [] (z2b CONTROL_CONN) p sp 0 eq_refl) as Hg.
  cbn [app] in Hg. rewrite Hg, lift_bind.
  change (b2z (z2b CONTROL_CONN)) with CONTROL_CONN.
  codes.
  change (z2b CONTROL_CONN :: p) with ([z2b CONTROL_CONN] ++ p).
  rewrite sl_from_app by done. by rewrite lift_bind.
Qed.

(** ** Lemmas: the stream *)

#[export] Instance ws_reader : FrameReader WSConn := {
  fr_pending c := default [] (connBuf c) ++ concat (queue (connData c));
  fr_size c := (length (queue (connData c)) + if connBuf c then 1 else 0)%nat;
  fr_push p c c' := @send_connData Empty_set p c = (Ok tt, c');
  fr_read n c p c' := ((p, None), c') ∈ Read n c
}.

Lemma Read_cases n c p c' :
  ((p, None), c') ∈ Read n c ->
  (exists b, connBuf c = Some b /\ p = (copy_out n b).1 /\ c' = set_connBuf (copy_out n b).2 c) \/
  (exists b q, connBuf c = None /\ queue (connData c) = b :: q /\ p = (copy_out n b).1 /\
    c' = set_connBuf (copy_out n b).2 (set_connData (Chan q (closed (connData c))) c)).
Proof.
  unfold Read. destruct (connBuf c) as [b|].
  - destruct (copy_out n b) as [x rest] eqn:E. rewrite list_elem_of_singleton. intros [= -> ->].
    left. exists b. by rewrite E.
  - intros [Hin|[Hin|Hin]%elem_of_app]%elem_of_app.
    + destruct (closed (closedSig c)); [apply list_elem_of_singleton in Hin; done|by apply elem_of_nil in Hin].
    + destruct (closed (connEOF c)); [apply list_elem_of_singleton in Hin; done|by apply elem_of_nil in Hin].
    + unfold chan_recv in Hin. destruct (queue (connData c)) as [|b q] eqn:Hq.
      * destruct (closed (connData c)); [apply list_elem_of_singleton in Hin; done|by apply elem_of_nil in Hin].
      * destruct (copy_out n b) as [x rest] eqn:E. apply list_elem_of_singleton in Hin. injection Hin as -> ->.
        right. exists b, q. by rewrite E.
Qed.

#[export] Instance ws_reader_laws : FrameReaderLaws WSConn.
Proof.
  constructor.
  - intros p c c'. simpl. unfold send_connData, chan_send. destruct (closed (connData c)); [done|].
    intros [= <-]. simpl. rewrite concat_app. simpl. by rewrite app_nil_r, app_assoc.
  - intros n c p c' Hn. simpl. intros [(b & Hb & -> & ->)|(b & q & Hb & Hq & -> & ->)]%Read_cases;
      rewrite Hb; (split; [|by apply copy_out_le]); simpl.
    + rewrite app_assoc. f_equal. by apply copy_out_split.
    + rewrite Hq. simpl. rewrite app_assoc. f_equal. by apply copy_out_split.
  - intros n c Hn Hne. simpl in *. unfold Read. destruct (connBuf c) as [b|] eqn:Hb.
    + exists (copy_out n b).1, (set_connBuf (copy_out n b).2 c).
      pose proof (copy_out_progress n b Hn) as Hp. destruct (copy_out n b) as [x rest]. cbn [fst snd] in *.
      split; [by left|]. destruct rest as [r|]; simpl; (split; [lia|]); [left|right; lia]. by destruct Hp.
    + destruct (queue (connData c)) as [|b q] eqn:Hq; [done|].
      exists (copy_out n b).1, (set_connBuf (copy_out n b).2 (set_connData (Chan q (closed (connData c))) c)).
      unfold chan_recv. rewrite Hq.
      pose proof (copy_out_progress n b Hn) as Hp. destruct (copy_out n b) as [x rest]. cbn [fst snd] in *.
      split; [apply elem_of_app; right; apply elem_of_app; right; by left|].
      destruct rest as [r|]; simpl; (split; [lia|]); [left|right; lia]. by destruct Hp.
Qed.

(** ** Lemmas: dialling *)

Lemma retry_waits_bounds n w :
  retryInitDuration <= w -> Forall (fun d => retryInitDuration <= d <= retryMaxDuration) (retry_waits n w).
Proof.
  revert w. induction n as [|n IH]; intros w Hw; simpl; constructor;
    unfold retryInitDuration, retryMaxDuration, Millisecond, Second in *; [lia|done|lia|].
  apply IH. lia.
Qed.

Definition open_channels (c : WSConn) : Prop :=
  closed (datagrams c) = false /\ closed (events c) = false /\ closed (connData c) = false.

Lemma send_datagram_ok {E} x c :
  open_channels c ->
  @send_datagram E x c = (Ok tt, set_datagrams (Chan (queue (datagrams c) ++ [x]) false) c).
Proof. intros (H & _). unfold send_datagram, chan_send. by rewrite H. Qed.
Lemma send_event_ok {E} x c :
  open_channels c -> @send_event E x c = (Ok tt, set_events (Chan (queue (events c) ++ [x]) false) c).
Proof. intros (_ & H & _). unfold send_event, chan_send. by rewrite H. Qed.
Lemma send_connData_ok {E} x c :
  open_channels c -> @send_connData E x c = (Ok tt, set_connData (Chan (queue (connData c) ++ [x]) false) c).
Proof. intros (_ & _ & H). unfold send_connData, chan_send. by rewrite H. Qed.

(** The connection a client talks on, the nonce it masks with and the server it
    names. *)
Definition session (l : link) : option nat * byte * bytes := (rawConn l, nonce l, connectedServer l).

Definition configures_session (m : GoM link dial_error unit) : Prop :=
  forall l, session (m l).2 = session l /\ (m l).1 <> Panic.

Lemma configureSTUNs_session b64 js h : configures_session (configureSTUNs b64 js h).
Proof.
  intros l. unfold configureSTUNs. case_bool_decide; [done|].
  destruct (b64 _) as [x|]; [|done]. destruct (js _ x) as [s [|]]; done.
Qed.

Lemma configureRatelimiter_session h : configures_session (configureRatelimiter h).
Proof.
  intros l. unfold configureRatelimiter.
  repeat first [ case_bool_decide | destruct (ParseInt 64 _) ]; done.
Qed.

Lemma establish_session b64 js server now conn h c r c' :
  establish b64 js server now conn h c = (r, c') ->
  match r with
  | Ok _ => session (lnk c') = (Some conn, MustParseNonce (hget h (bs "X-Nonce")), server)
  | _ => session (lnk c') = session (lnk c)
  end.
Proof.
  unfold establish, mbind, gom_bind, on_link, send_event.
  destruct (chan_send _ (events c)) as [q| |]; [|intros [= <- <-]; done..].
  pose proof (configureSTUNs_session b64 js h (lnk (set_events q c))) as [Hs Hp].
  destruct (configureSTUNs b64 js h _) as [r1 l1]. cbn [fst snd] in *.
  destruct r1 as [u| |]; [|intros [= <- <-]; done..].
  pose proof (configureRatelimiter_session h (lnk (set_lnk l1 (set_events q c)))) as [Hr Hp'].
  destruct (configureRatelimiter h _) as [r2 l2]. cbn [fst snd lnk set_lnk] in *.
  destruct r2 as [u'| |]; [|intros [= <- <-]; cbn [lnk set_lnk]; by rewrite Hr..].
  intros [= <- <-]. done.
Qed.

Definition redirects (a : dial_answer) : Prop := exists r, ws_response a = Some r /\ StatusCode r = 307.

(** Decides whether a control code is in a list of them. *)
Ltac member :=
  repeat match goal with
  | |- context [bool_decide (?x ∈ ?l)] =>
      first [ change (bool_decide (x ∈ l)) with true | change (bool_decide (x ∈ l)) with false ]
  end.

(** An operation on both parts of a message, in either order, panics exactly when
    the message is not framed. *)
Lemma parts_panic (b0 : byte) v sp (k : bytes -> gslice -> GoM WSConn Empty_set unit) c :
  (forall i r, (k i r c).1 <> Panic) ->
  ((i ← lift (msg_id (GSlice (b0 :: v) sp)); r ← lift (msg_rest (GSlice (b0 :: v) sp)); k i r) c).1 = Panic <->
  ~ exists id rest, b0 :: v = framed (b2z b0) id rest /\ zlen id <= 253.
Proof.
  intros Hk. set (b := GSlice (b0 :: v) sp). rewrite lift_bind.
  destruct (msg_id b) as [i|[]|] eqn:Ei.
  - rewrite lift_bind. destruct (msg_rest b) as [r|[]|] eqn:Er.
    + split; [intros H; by apply Hk in H|]. intros H. exfalso. apply H.
      destruct (msg_parts b i r Ei Er) as (op & Hv & Hl). exists i, (vis r). split; [|done].
      unfold b in Hv. cbn [vis] in Hv. injection Hv as H0 Hv.
      unfold framed. by rewrite z2b_b2z, Hv.
    + split; [|done]. intros _ (id & rest & Hv & Hl). unfold b in Er. rewrite Hv, msg_rest_framed in Er; done.
  - split; [|done]. intros _ (id & rest & Hv & Hl). unfold b in Ei. rewrite Hv, msg_id_framed in Ei; done.
Qed.

Lemma parts_comm {A} (b : gslice) (k : bytes -> gslice -> GoM WSConn Empty_set A) c :
  ((r ← lift (msg_rest b); i ← lift (msg_id b); k i r) c).1 =
  ((i ← lift (msg_id b); r ← lift (msg_rest b); k i r) c).1.
Proof.
  rewrite !lift_bind. destruct (msg_id b) as [i|[]|], (msg_rest b) as [r|[]|]; by rewrite ?lift_bind.
Qed.

Lemma peer_event_panic (b0 : byte) v sp code c :
  open_channels c ->
  (@peer_event Empty_set code (GSlice (b0 :: v) sp) c).1 = Panic <->
  ~ exists id rest, b0 :: v = framed (b2z b0) id rest /\ zlen id <= 253.
Proof.
  intros Hop. unfold peer_event. rewrite parts_comm. apply parts_panic.
  intros i r. by rewrite send_event_ok.
Qed.

Lemma lift_panic {A} (m : res Empty_set A) (k : A -> GoM WSConn Empty_set unit) c :
  (forall a, (k a c).1 <> Panic) -> ((a ← lift m; k a) c).1 = Panic <-> m = Panic.
Proof.
  intros Hk. rewrite lift_bind. destruct m as [a|[]|]; [|done].
  split; [intros H; by apply Hk in H|done].
Qed.

(** ** Properties *)

(** C38. The stream of a control connection: whatever the sizes of the reads and of
    the frames, the bytes read are those of the frames received, in order, each
    once; what was received and not read yet is still pending, and enough reads of
    any positive size return all of it. *)
Theorem stream_exact c i o c' n :
  @run WSConn _ c i o c' -> fr_pending c = [] -> 0 < n ->
  i = o ++ fr_pending c' /\
  exists c'', run c' [] (fr_pending c') c'' /\ fr_pending c'' = [].
Proof.
  intros Hrun Hc Hn. pose proof (run_exact c i o c' Hrun) as H. rewrite Hc in H.
  split; [exact H|]. by apply (run_drain n).
Qed.

(** What a message of the server can do to the client while its channels are
    open: the read loop, which does not recover, panics exactly on an empty
    message, on a relayed datagram, a new peer or a metadata update whose
    identifier does not fit the message or has more than 253 bytes, and on a leave
    or an endpoint that cannot be taken apart. *)
Theorem handleEvents_panic_iff res js b c :
  open_channels c ->
  (@handleEvents res js Empty_set b c).1 = Panic <->
  match vis b with
  | [] => True
  | b0 :: _ =>
      let code := b2z b0 in
      if bool_decide (code ∈ [CONTROL_RELAY; CONTROL_NEW_PEER; CONTROL_UPDATE_META]) then
        ~ exists id rest, vis b = framed code id rest /\ zlen id <= 253
      else if bool_decide (code = CONTROL_PEER_LEAVE) then @msg_id Empty_set b = Panic
      else if bool_decide (code = CONTROL_NEW_PEER_UDP_ADDR) then @parse_endpoint res Empty_set b = Panic
      else False
  end.
Proof.
  intros Hop. destruct b as [[|b0 v] sp]; [done|]. cbn [vis]. cbv zeta.
  unfold handleEvents. pose proof (@sl_get_app Empty_set [] b0 v sp 0 eq_refl) as Hg. cbn [app] in Hg.
  rewrite Hg, lift_bind.
  destruct (decide (b2z b0 = CONTROL_RELAY)) as [E|H1].
  { rewrite E. codes. member. rewrite <- E. apply parts_panic. intros i r. by rewrite send_datagram_ok. }
  destruct (decide (b2z b0 = CONTROL_NEW_PEER)) as [E|H2].
  { rewrite E. codes. member. rewrite <- E. by apply peer_event_panic. }
  destruct (decide (b2z b0 = CONTROL_PEER_LEAVE)) as [E|H3].
  { rewrite E. codes. member. apply lift_panic. intros i. by rewrite send_event_ok. }
  destruct (decide (b2z b0 = CONTROL_UPDATE_META)) as [E|H4].
  { rewrite E. codes. member. rewrite <- E. by apply peer_event_panic. }
  destruct (decide (b2z b0 = CONTROL_NEW_PEER_UDP_ADDR)) as [E|H5].
  { rewrite E. codes. member. apply lift_panic. intros [e|]; [by rewrite send_event_ok|done]. }
  rewrite (bool_decide_false (b2z b0 ∈ _)) by (rewrite !elem_of_cons, elem_of_nil; tauto).
  rewrite !bool_decide_false by done. split; [|done].
  assert (Hf : @sl_from Empty_set (GSlice (b0 :: v) sp) 1 = Ok (GSlice v sp)) by by apply (sl_from_app [b0]).
  repeat case_bool_decide.
  - rewrite Hf, lift_bind. by destruct (js _).
  - rewrite Hf, lift_bind, send_connData_ok by done. done.
  - done.
Qed.

(** [dial] as a transaction on the session: when it fails, or panics on a
    closed connection, the client still masks with the nonce of its old
    connection and talks on it; when it succeeds, every request before the last
    answer was redirected, and connection, nonce and server are those of that
    answer. *)
Theorem dial_session b64 js has_secret url_ok self url answers server c r c' :
  dial b64 js has_secret url_ok self url answers server c = (r, c') ->
  match r with
  | Ok _ => exists pre a post resp conn srv,
      answers = pre ++ a :: post /\ Forall redirects pre /\
      ws_response a = Some resp /\ ws_conn a = Some conn /\ StatusCode resp ∉ [400; 404; 403; 307] /\
      session (lnk c') = (Some conn, MustParseNonce (hget (header resp) (bs "X-Nonce")), srv)
  | _ => session (lnk c') = session (lnk c)
  end.
Proof.
  revert server c. induction answers as [|a answers IH]; intros server c; cbn [dial];
    (destruct has_secret; cbn [negb]; [|by intros [= <- <-]]);
    (destruct (url_ok _); cbn [negb]; [|by intros [= <- <-]]); [by intros [= <- <-]|].
  destruct (ws_response a) as [resp|] eqn:Ha; [|by intros [= <- <-]].
  case_bool_decide; [by intros [= <- <-]|]. case_bool_decide; [by intros [= <- <-]|].
  case_bool_decide; [by intros [= <- <-]|]. case_bool_decide as Hr.
  - intros Hd. apply IH in Hd. destruct r as [u| |]; [|done..].
    destruct Hd as (pre & a' & post & resp' & conn & srv & -> & Hpre & Hrest).
    exists (a :: pre), a', post, resp', conn, srv. split; [done|]. split; [|done].
    constructor; [by exists resp|done].
  - destruct (ws_conn a) as [conn|] eqn:Hc; [|by intros [= <- <-]].
    intros He. apply establish_session in He. destruct r as [u| |]; [|done..].
    exists [], a, answers, resp, conn. eexists. split; [done|]. split; [constructor|].
    split; [done|]. split; [done|]. split; [|exact He].
    rewrite !not_elem_of_cons. split_and!; [done..|apply not_elem_of_nil].
Qed.

(** ** Witnesses *)

Module Examples.
Definition pushed : WSConn := set_connData (Chan [bs "hello"] false) new_WSConn.
Definition read3 : WSConn := set_connBuf (Some (bs "lo")) (set_connData (Chan [] false) pushed).

Lemma run_hello : run new_WSConn (bs "hello") (bs "hel") read3.
Proof.
  apply (run_read new_WSConn (bs "hello") [] pushed 3 (bs "hel") read3); [|lia|].
  - apply (run_push new_WSConn [] [] new_WSConn (bs "hello") pushed); [constructor|]. reflexivity.
  - change ((bs "hel", None, read3) ∈ Read 3 pushed). apply list_elem_of_singleton. reflexivity.
Qed.

Lemma stream_exact_witness :
  bs "hello" = bs "hel" ++ fr_pending read3 /\
  exists c'', run read3 [] (fr_pending read3) c'' /\ fr_pending c'' = [].
Proof. exact (stream_exact new_WSConn (bs "hello") (bs "hel") read3 1 run_hello eq_refl eq_refl). Defined.

(** The empty message, and a relayed datagram with the identifier length 254. *)
Lemma handleEvents_panic_iff_witness :
  (@handleEvents (fun _ => None) (fun _ => None) Empty_set (GSlice [] []) new_WSConn).1 = Panic <-> True.
Proof. exact (handleEvents_panic_iff (fun _ => None) (fun _ => None) (GSlice [] []) new_WSConn (conj eq_refl (conj eq_refl eq_refl))). Defined.

Definition no_headers : response := MkResponse 101 {[bs "X-Nonce" := bs "7"]} (MkError 0 []).
Definition moved : response := MkResponse 307 {[bs "Location" := bs "ws://b"]} (MkError 0 []).
Definition answers2 : list dial_answer :=
  [MkAnswer (Some moved) None zero_time; MkAnswer (Some no_headers) (Some 5%nat) zero_time].
Definition dialled : res dial_error unit * WSConn :=
  dial (fun _ => None) (fun s _ => (s, false)) true (fun _ => true) (bs "me") (bs "ws://a") answers2 [] new_WSConn.

Lemma dial_session_witness :
  exists pre a post resp conn srv,
      answers2 = pre ++ a :: post /\ Forall redirects pre /\
      ws_response a = Some resp /\ ws_conn a = Some conn /\ StatusCode resp ∉ [400; 404; 403; 307] /\
      session (lnk dialled.2) = (Some conn, MustParseNonce (hget (header resp) (bs "X-Nonce")), srv).
Proof.
  exact (dial_session (fun _ => None) (fun s _ => (s, false)) true (fun _ => true) (bs "me") (bs "ws://a")
           answers2 [] new_WSConn (Ok tt) dialled.2 eq_refl).
Defined.
End Examples.
