(* ===== verification/Secure.v ===== *)
(** * Encryption of datagrams ([secure])

    [SymmAlgo] is the interface of [secure.SymmAlgo]: an algorithm with the
    environment of a call (the random bytes it draws, the clock) and the promise
    that what one end encrypts the other decrypts when both hold the same key.
    [Module AesCbc] and [Module ChaCha] are its two implementations; the ciphers
    of a peer are kept in an LRU cache, used through [CacheLaws].

    The block cipher and the AEAD construction are parameters with the laws of
    their documentation; the CBC mode and the PKCS#7 padding are written out. *)

From S2P Require Import Prelude Lru.

(** ** Interface *)

Inductive crypt_error :=
| ErrNil
| ErrNoKey
| ErrBadKey
| ErrBadData
| ErrPaddingSize
| ErrPadding.

Class SymmAlgo (S E : Type) := {
  Encrypt : E -> bytes -> bytes -> S -> res crypt_error bytes * S;
  Decrypt : E -> bytes -> bytes -> S -> res crypt_error bytes * S;
  SecretKey : S -> bytes -> option bytes;
  sound : S -> Prop;
  in_step : E -> E -> Prop
}.

(** [usable s pub k]: the provider answers the key [k], which the cipher takes. *)
Class SymmLaws (S E : Type) `{!SymmAlgo S E} := {
  usable : bytes -> Prop;
  Encrypt_sound e data pub s : sound s -> sound (Encrypt e data pub s).2;
  Decrypt_sound e data pub s : sound s -> sound (Decrypt e data pub s).2;
  Encrypt_keys e data pub s : SecretKey (Encrypt e data pub s).2 = SecretKey s;
  Decrypt_keys e data pub s : SecretKey (Decrypt e data pub s).2 = SecretKey s;
  roundtrip e e' data a b k s s' :
    sound s -> sound s' -> usable k -> SecretKey s b = Some k -> SecretKey s' a = Some k ->
    in_step e e' ->
    exists c, (Encrypt e data b s).1 = Ok c /\ (Decrypt e' c a s').1 = Ok data
}.

(** ** The cache of ciphers *)

Section Cipher.
Context {K : Type} (NewCipher : bytes -> option K).
Context {C : Type} `{CacheLaws C bytes K}.

(** An algorithm: its ciphers and the provider of secret keys. *)
Record algo := MkAlgo { cipher : C; provideSecretKey : bytes -> option bytes }.

(** [ensureChiperBlock] and [ensureChiperAEAD]. *)
Definition ensureChiper (pubKey : bytes) (s : algo) : res crypt_error K * algo :=
  match cget pubKey (cipher s) with
  | (Some k, c) => (Ok k, MkAlgo c (provideSecretKey s))
  | (None, c) =>
      let s := MkAlgo c (provideSecretKey s) in
      match provideSecretKey s pubKey with
      | None => (Err ErrNoKey, s)
      | Some secretKey =>
          match NewCipher secretKey with
          | None => (Err ErrBadKey, s)
          | Some b => (Ok b, MkAlgo (cput pubKey b (cipher s)) (provideSecretKey s))
          end
      end
  end.

(** A method of an algorithm: the nil check, the cipher of the peer, the work. *)
Definition on_algo (work : K -> res crypt_error bytes) (pubKey : bytes) (s : option algo) :
    res crypt_error bytes * option algo :=
  match s with
  | None => (Err ErrNil, None)
  | Some s =>
      match ensureChiper pubKey s with
      | (Ok k, s) => (work k, Some s)
      | (Err e, s) => (Err e, Some s)
      | (Panic, s) => (Panic, Some s)
      end
  end.

Definition algo_key (s : option algo) (pub : bytes) : option bytes := s ← s; provideSecretKey s pub.

(** The cached ciphers are those of the keys that the provider answers. *)
Definition coherent (s : algo) : Prop :=
  cok (cipher s) /\
  forall pub k, cview (cipher s) pub = Some k ->
    exists key, provideSecretKey s pub = Some key /\ NewCipher key = Some k.

Lemma ensureChiper_keys pub s : provideSecretKey (ensureChiper pub s).2 = provideSecretKey s.
Proof.
  unfold ensureChiper. destruct (cget pub (cipher s)) as [[k|] c]; [done|]. cbn [provideSecretKey cipher].
  destruct (provideSecretKey s pub) as [key|]; [|done]. by destruct (NewCipher key).
Qed.

Lemma ensureChiper_coherent pub s : coherent s -> coherent (ensureChiper pub s).2.
Proof.
  intros [Hok Hco]. unfold ensureChiper.
  pose proof (cget_ok pub (cipher s) Hok) as Hok'.
  assert (Hk : forall k', cview (cget pub (cipher s)).2 k' = cview (cipher s) k') by (intros; by apply cget_keeps).
  destruct (cget pub (cipher s)) as [[k|] c]; cbn [fst snd] in *.
  - split; [done|]. intros pub' k'. cbn [cipher provideSecretKey]. rewrite Hk. apply Hco.
  - cbn [provideSecretKey cipher]. destruct (provideSecretKey s pub) as [key|] eqn:Ek; [destruct (NewCipher key) as [b|] eqn:Eb|].
    + split; [by apply cput_ok|]. intros pub' k'. cbn [snd cipher provideSecretKey].
      destruct (decide (pub' = pub)) as [->|Hne].
      * rewrite cput_view by done. intros [= <-]. by exists key.
      * intros Hv. apply cput_other in Hv; [|done..]. rewrite Hk in Hv. by apply Hco.
    + split; [done|]. intros pub' k'. cbn [snd cipher provideSecretKey]. rewrite Hk. apply Hco.
    + split; [done|]. intros pub' k'. cbn [snd cipher provideSecretKey]. rewrite Hk. apply Hco.
Qed.

(** Cached or not, the cipher is the one of the provided key. *)
Lemma ensureChiper_key pub s key k :
  coherent s -> provideSecretKey s pub = Some key -> NewCipher key = Some k ->
  (ensureChiper pub s).1 = Ok k.
Proof.
  intros [Hok Hco] Hkey Hk. unfold ensureChiper. pose proof (cget_view pub (cipher s) Hok) as Hv.
  destruct (cget pub (cipher s)) as [[k'|] c]; cbn [fst] in *.
  - symmetry in Hv. apply Hco in Hv as (key' & Hkey' & Hk'). cbn [fst]. congruence.
  - cbn [provideSecretKey]. by rewrite Hkey, Hk.
Qed.

Definition algo_sound (s : option algo) : Prop := match s with Some s => coherent s | None => True end.

Lemma on_algo_keys work pub s : algo_key (on_algo work pub s).2 = algo_key s.
Proof.
  destruct s as [s|]; [|done]. unfold on_algo. pose proof (ensureChiper_keys pub s) as Hk.
  by destruct (ensureChiper pub s) as [[k|e|] s']; cbn [fst snd algo_key mbind option_bind] in *; unfold algo_key; cbn; rewrite Hk.
Qed.

Lemma on_algo_sound work pub s : algo_sound s -> algo_sound (on_algo work pub s).2.
Proof.
  destruct s as [s|]; [|done]. unfold on_algo. cbn [algo_sound]. intros Hc.
  pose proof (ensureChiper_coherent pub s Hc) as Hk.
  by destruct (ensureChiper pub s) as [[k|e|] s'].
Qed.

Lemma on_algo_work work pub s key k :
  algo_sound s -> algo_key s pub = Some key -> NewCipher key = Some k ->
  (on_algo work pub s).1 = work k.
Proof.
  destruct s as [s|]; [|done]. cbn [algo_sound]. unfold algo_key, on_algo. cbn. intros Hc Hkey Hk.
  pose proof (ensureChiper_key pub s key k Hc Hkey Hk) as H1.
  destruct (ensureChiper pub s) as [r s']. cbn [fst] in H1. by subst r.
Qed.
End Cipher.
Arguments algo _ : clear implicits.

(** ** PKCS#7 padding and the CBC mode *)

Module AesCbc.

Definition BlockSize : nat := 16.

(** [append(data, padText...)] writes into the spare capacity of its argument
    when the padding fits: the padded slice, and the argument afterwards. *)
Definition PKCS7Padding (data : gslice) (blockSize : nat) : bytes * gslice :=
  let padding := (blockSize - length (vis data) mod blockSize)%nat in
  let padText := repeat (z2b (Z.of_nat padding)) padding in
  (vis data ++ padText,
   if (padding <=? length (spare data))%nat
   then GSlice (vis data) (padText ++ drop padding (spare data)) else data).

Definition PKCS7UnPadding (data : bytes) : res crypt_error bytes :=
  match last data with
  | None => Panic
  | Some p =>
      let padding := Z.to_nat (b2z p) in
      if bool_decide (b2z p < 1 \/ b2z p > Z.of_nat BlockSize) then Err ErrPaddingSize
      else if bool_decide (length data < padding)%nat then Panic
      else if forallb (fun c => bool_decide (c = p)) (drop (length data - padding) data)
      then Ok (take (length data - padding) data)
      else Err ErrPadding
  end.

(** A block cipher: encryption and decryption of one block. *)
Record block := MkBlock { bEncrypt : bytes -> bytes; bDecrypt : bytes -> bytes }.

Definition xor_bytes (a b : bytes) : bytes := zip_with bxor a b.

(** Blocks of the data, as long as there is a whole one. *)
Fixpoint blocks (fuel : nat) (data : bytes) : list bytes :=
  match fuel with
  | O => []
  | S fuel =>
      if (length data <? BlockSize)%nat then []
      else take BlockSize data :: blocks fuel (drop BlockSize data)
  end.

Fixpoint cbc_encrypt (b : block) (iv : bytes) (ps : list bytes) : bytes :=
  match ps with
  | [] => []
  | p :: ps => let c := bEncrypt b (xor_bytes p iv) in c ++ cbc_encrypt b c ps
  end.

Fixpoint cbc_decrypt (b : block) (iv : bytes) (cs : list bytes) : bytes :=
  match cs with
  | [] => []
  | c :: cs => xor_bytes (bDecrypt b c) iv ++ cbc_decrypt b c cs
  end.

Section AesCbc.
Context (aes_NewCipher : bytes -> option block).

(** [Encrypt] and [Decrypt] with a key; [iv] is what the random reader gives. *)
Definition encrypt_with (b : block) (iv data : bytes) : bytes :=
  let dataBytes := (PKCS7Padding (exact data) BlockSize).1 in
  iv ++ cbc_encrypt b iv (blocks (length dataBytes) dataBytes).

Definition decrypt_with (b : block) (data : bytes) : res crypt_error bytes :=
  if bool_decide (length data < BlockSize \/ length data mod BlockSize <> 0)%nat then Err ErrBadData
  else
    let iv := take BlockSize data in
    let data := drop BlockSize data in
    PKCS7UnPadding (cbc_decrypt b iv (blocks (length data) data)).

Definition key_Encrypt (key iv data : bytes) : res crypt_error bytes :=
  match aes_NewCipher key with None => Err ErrBadKey | Some b => Ok (encrypt_with b iv data) end.
Definition key_Decrypt (key data : bytes) : res crypt_error bytes :=
  match aes_NewCipher key with None => Err ErrBadKey | Some b => decrypt_with b data end.

Context {C : Type} `{CacheLaws C bytes block}.

(** The methods accept a nil receiver ([None]). *)
Definition aes_Encrypt (iv data pubKey : bytes) (s : option (algo C)) :
    res crypt_error bytes * option (algo C) :=
  on_algo aes_NewCipher (fun b => Ok (encrypt_with b iv data)) pubKey s.
Definition aes_Decrypt (data pubKey : bytes) (s : option (algo C)) :
    res crypt_error bytes * option (algo C) :=
  on_algo aes_NewCipher (fun b => decrypt_with b data) pubKey s.
End AesCbc.

(** *** Lemmas *)

Definition block_ok (b : block) : Prop :=
  forall p, length p = BlockSize ->
    length (bEncrypt b p) = BlockSize /\ length (bDecrypt b p) = BlockSize /\ bDecrypt b (bEncrypt b p) = p.

Lemma length_xor a b : length a = length b -> length (xor_bytes a b) = length a.
Proof. intros Hl. unfold xor_bytes. rewrite length_zip_with. lia. Qed.

Lemma xor_bytes_cancel a k : length a = length k -> xor_bytes (xor_bytes a k) k = a.
Proof.
  revert k. induction a as [|x a IH]; intros [|y k] Hl; try done.
  simpl in *. unfold xor_bytes in *. simpl. rewrite bxor_cancel. f_equal. apply IH. lia.
Qed.

Definition is_blocks (ps : list bytes) : Prop := Forall (fun p => length p = BlockSize) ps.

Lemma length_blocks ps : is_blocks ps -> length (concat ps) = (length ps * BlockSize)%nat.
Proof. induction 1 as [|p ps Hp _ IH]; [done|]. cbn [concat length]. rewrite length_app, IH, Hp. lia. Qed.

Lemma blocks_concat ps fuel :
  is_blocks ps -> (length (concat ps) <= fuel)%nat -> blocks fuel (concat ps) = ps.
Proof.
  revert fuel. induction ps as [|p ps IH]; intros fuel Hps Hf.
  - by destruct fuel.
  - apply Forall_cons in Hps as [Hp Hps]. cbn [concat] in *. rewrite length_app in Hf.
    destruct fuel as [|fuel]; [unfold BlockSize in *; lia|]. cbn [blocks].
    destruct (Nat.ltb_spec (length (p ++ concat ps)) BlockSize) as [Hlt|Hge]; [rewrite length_app in Hlt; lia|].
    rewrite <- Hp at 1 2. rewrite take_app_length, drop_app_length, IH; [done|done|].
    unfold BlockSize in *. lia.
Qed.

Lemma blocks_spec n fuel data :
  length data = (n * BlockSize)%nat -> (length data <= fuel)%nat ->
  is_blocks (blocks fuel data) /\ concat (blocks fuel data) = data.
Proof.
  revert fuel data. induction n as [|n IH]; intros fuel data Hl Hf.
  - destruct data; [|done]. destruct fuel; (split; [constructor|done]).
  - destruct fuel as [|fuel]; [unfold BlockSize in *; lia|]. cbn [blocks].
    destruct (Nat.ltb_spec (length data) BlockSize) as [Hlt|Hge]; [unfold BlockSize in *; lia|].
    destruct (IH fuel (drop BlockSize data)) as [H1 H2].
    { rewrite length_drop. unfold BlockSize in *. lia. }
    { rewrite length_drop. unfold BlockSize in *. lia. }
    split; [constructor; [rewrite length_take; lia|done]|]. cbn [concat]. by rewrite H2, take_drop.
Qed.

(** The ciphertext blocks. *)
Fixpoint cbc_blocks (b : block) (iv : bytes) (ps : list bytes) : list bytes :=
  match ps with
  | [] => []
  | p :: ps => let c := bEncrypt b (xor_bytes p iv) in c :: cbc_blocks b c ps
  end.

Lemma cbc_encrypt_blocks b iv ps : cbc_encrypt b iv ps = concat (cbc_blocks b iv ps).
Proof. revert iv. induction ps as [|p ps IH]; intros iv; [done|]. simpl. by rewrite IH. Qed.

Lemma cbc_blocks_spec b iv ps :
  block_ok b -> length iv = BlockSize -> is_blocks ps ->
  is_blocks (cbc_blocks b iv ps) /\ cbc_decrypt b iv (cbc_blocks b iv ps) = concat ps.
Proof.
  intros Hb. revert iv. induction ps as [|p ps IH]; intros iv Hiv Hps; [split; [constructor|done]|].
  apply Forall_cons in Hps as [Hp Hps]. cbn [cbc_blocks cbc_decrypt concat].
  assert (Hx : length (xor_bytes p iv) = BlockSize) by (rewrite length_xor; lia).
  destruct (Hb _ Hx) as (He & _ & Hd). destruct (IH _ He Hps) as [H1 H2].
  split; [by constructor|]. by rewrite Hd, xor_bytes_cancel, H2 by lia.
Qed.

Lemma cbc_decrypt_length b iv cs :
  block_ok b -> length iv = BlockSize -> is_blocks cs -> length (cbc_decrypt b iv cs) = (length cs * BlockSize)%nat.
Proof.
  intros Hb. revert iv. induction cs as [|c cs IH]; intros iv Hiv Hcs; [done|].
  apply Forall_cons in Hcs as [Hc Hcs]. cbn [cbc_decrypt]. destruct (Hb _ Hc) as (_ & Hd & _).
  rewrite length_app, length_xor, IH by (done || lia). rewrite Hd. simpl. lia.
Qed.

Lemma pkcs7_length data :
  exists n, (1 <= n)%nat /\ length (PKCS7Padding data BlockSize).1 = (n * BlockSize)%nat.
Proof.
  unfold PKCS7Padding. cbn [fst]. rewrite length_app, repeat_length. unfold BlockSize.
  pose proof (Nat.mod_upper_bound (length (vis data)) 16 ltac:(lia)).
  pose proof (Nat.div_mod_eq (length (vis data)) 16).
  exists (S (length (vis data) / 16)). lia.
Qed.

Lemma pkcs7_roundtrip data : PKCS7UnPadding (PKCS7Padding data BlockSize).1 = Ok (vis data).
Proof.
  unfold PKCS7Padding, PKCS7UnPadding. cbn [fst]. set (n := (BlockSize - _)%nat).
  assert (Hn : (1 <= n <= 16)%nat).
  { unfold n, BlockSize. pose proof (Nat.mod_upper_bound (length (vis data)) 16 ltac:(lia)). lia. }
  set (x := z2b (Z.of_nat n)). assert (Hx : b2z x = Z.of_nat n) by (apply b2z_z2b_small; lia).
  assert (Hlast : last (vis data ++ repeat x n) = Some x).
  { replace n with (S (n - 1)) by lia. cbn [repeat]. rewrite repeat_cons, app_assoc. apply last_snoc. }
  rewrite Hlast. cbv zeta. rewrite Hx. rewrite bool_decide_false by (unfold BlockSize; lia).
  rewrite Nat2Z.id, length_app, repeat_length. rewrite bool_decide_false by lia.
  replace (length (vis data) + n - n)%nat with (length (vis data)) by lia.
  rewrite drop_app_length, take_app_length.
  assert (Hall : forallb (fun c => bool_decide (c = x)) (repeat x n) = true).
  { apply forallb_forall. intros c Hc%repeat_spec. by rewrite bool_decide_true. }
  by rewrite Hall.
Qed.

Lemma decrypt_encrypt b iv data :
  block_ok b -> length iv = BlockSize -> decrypt_with b (encrypt_with b iv data) = Ok data.
Proof.
  intros Hb Hiv. unfold encrypt_with. set (p := (PKCS7Padding (exact data) BlockSize).1).
  destruct (pkcs7_length (exact data)) as (n & Hn & Hlen). fold p in Hlen.
  destruct (blocks_spec n (length p) p Hlen ltac:(lia)) as [Hps Hcat].
  rewrite cbc_encrypt_blocks. destruct (cbc_blocks_spec b iv _ Hb Hiv Hps) as [Hcs Hdec].
  set (cs := cbc_blocks b iv (blocks (length p) p)) in *.
  pose proof (length_blocks cs Hcs) as Hl.
  unfold decrypt_with. cbv zeta. rewrite bool_decide_false.
  - rewrite <- Hiv at 1 2 3. rewrite take_app_length, drop_app_length, blocks_concat by done.
    rewrite Hdec, Hcat. unfold p. by rewrite pkcs7_roundtrip.
  - rewrite length_app, Hl, Hiv. unfold BlockSize. intros [H|H]; [lia|]. apply H.
    replace (16 + length cs * 16)%nat with ((1 + length cs) * 16)%nat by lia. by apply Nat.mod_mul.
Qed.

(** Deciphering panics exactly on the data that are an initialisation vector and
    nothing else. *)
Lemma decrypt_with_panic b data :
  block_ok b -> decrypt_with b data = Panic <-> length data = BlockSize.
Proof.
  intros Hb. unfold decrypt_with. cbv zeta. case_bool_decide as Hd.
  { split; [done|]. intros Hl. rewrite Hl in Hd. unfold BlockSize in Hd. destruct Hd as [?|[]]; [lia|done]. }
  assert (Hmod : (length data mod BlockSize)%nat = 0%nat) by lia. assert (Hge : (BlockSize <= length data)%nat) by lia.
  set (iv := take BlockSize data). set (body := drop BlockSize data).
  assert (Hiv : length iv = BlockSize) by (unfold iv; rewrite length_take; lia).
  assert (Hbody : length body = ((length data / BlockSize - 1) * BlockSize)%nat).
  { unfold body. rewrite length_drop. unfold BlockSize in *. pose proof (Nat.div_mod_eq (length data) 16). lia. }
  destruct (blocks_spec _ (length body) body Hbody ltac:(lia)) as [Hbs Hcat].
  pose proof (cbc_decrypt_length b iv _ Hb Hiv Hbs) as Hlen.
  set (m := cbc_decrypt b iv (blocks (length body) body)) in *.
  assert (Hnb : (length (blocks (length body) body) * BlockSize = length body)%nat).
  { rewrite <- (length_blocks _ Hbs). by rewrite Hcat. }
  unfold PKCS7UnPadding. destruct (last m) as [x|] eqn:Hlast.
  - assert (Hm : (BlockSize <= length m)%nat).
    { destruct m as [|y m']; [done|]. simpl in Hlen. unfold BlockSize in *. simpl length in *. lia. }
    cbv zeta. case_bool_decide as Hr; [split; [done|unfold body in *; rewrite length_drop in *; unfold BlockSize in *; lia]|].
    rewrite bool_decide_false by (unfold BlockSize in *; lia).
    assert (Hne : length data <> BlockSize).
    { intros Heq. unfold body in *. rewrite length_drop in *. lia. }
    by destruct (forallb _ _).
  - apply last_None in Hlast. rewrite Hlast in Hlen. simpl in Hlen. split; [intros _|done].
    unfold body in *. rewrite length_drop in *. unfold BlockSize in *. lia.
Qed.

(** *** The interface *)

Section Instance_.
Context (aes_NewCipher : bytes -> option block).
Hypothesis aes_block : forall key b, aes_NewCipher key = Some b -> block_ok b.
Context {C : Type} `{CacheLaws C bytes block}.

#[export] Instance aes_algo : SymmAlgo (option (algo C)) bytes := {|
  Encrypt := fun iv data pub s => aes_Encrypt aes_NewCipher iv data pub s;
  Decrypt := fun _ data pub s => aes_Decrypt aes_NewCipher data pub s;
  SecretKey := algo_key;
  sound := algo_sound aes_NewCipher;
  in_step := fun iv _ => length iv = BlockSize
|}.

#[export] Program Instance aes_laws : SymmLaws (option (algo C)) bytes := {|
  usable key := is_Some (aes_NewCipher key)
|}.
Next Obligation. intros. by apply on_algo_sound. Qed.
Next Obligation. intros. by apply on_algo_sound. Qed.
Next Obligation. intros. apply on_algo_keys. Qed.
Next Obligation. intros. apply on_algo_keys. Qed.
Next Obligation.
  intros iv e' data a b k s s' Hs Hs' [c Hc] Hk Hk' Hiv. simpl in *.
  exists (encrypt_with c iv data). unfold aes_Encrypt, aes_Decrypt.
  rewrite (on_algo_work aes_NewCipher _ b s k c), (on_algo_work aes_NewCipher _ a s' k c) by done.
  split; [done|]. apply decrypt_encrypt; [by eapply aes_block|done].
Qed.
End Instance_.
End AesCbc.

(** ** ChaCha20-Poly1305 with a nonce from the clock *)

Module ChaCha.

(** An AEAD construction without additional data. *)
Record AEAD := MkAEAD {
  NonceSize : nat;
  Seal : bytes -> bytes -> bytes;
  Open : bytes -> bytes -> option bytes
}.

(** [binary.LittleEndian.PutUint64]: eight bytes, the low one first. *)
Fixpoint le_bytes (n : nat) (v : Z) : bytes :=
  match n with O => [] | S n => z2b v :: le_bytes n (v / 256) end.
Definition le64 (v : Z) : bytes := le_bytes 8 v.

(** The nonce of a time window. *)
Definition nonce_of (a : AEAD) (window : Z) : bytes :=
  repeat (z2b 0) (NonceSize a - 8) ++ le64 (u64 window).

Section ChaCha.
Context (timeWindow : Z).

Definition seal_at (nowUnix : Z) (a : AEAD) (data : bytes) : bytes :=
  Seal a (nonce_of a (Z.quot nowUnix timeWindow)) data.

(** The current window, the next one, the previous one. *)
Definition open_at (nowUnix : Z) (a : AEAD) (data : bytes) : res crypt_error bytes :=
  let w := Z.quot nowUnix timeWindow in
  match Open a (nonce_of a w) data with
  | Some plain => Ok plain
  | None =>
      match Open a (nonce_of a (w + 1)) data with
      | Some plain => Ok plain
      | None =>
          match Open a (nonce_of a (w - 1)) data with
          | Some plain => Ok plain
          | None => Err ErrBadData
          end
      end
  end.

Context (chacha_New : bytes -> option AEAD).
Context {C : Type} `{CacheLaws C bytes AEAD}.

(** The cipher of a peer, made of its key at the first use. *)
Definition ensureChiperAEAD (pubKey : bytes) (s : algo C) : res crypt_error AEAD * algo C := ensureChiper chacha_New pubKey s.

Definition chacha_Encrypt (nowUnix : Z) (data pubKey : bytes) (s : option (algo C)) :
    res crypt_error bytes * option (algo C) :=
  on_algo chacha_New (fun a => Ok (seal_at nowUnix a data)) pubKey s.
Definition chacha_Decrypt (nowUnix : Z) (data pubKey : bytes) (s : option (algo C)) :
    res crypt_error bytes * option (algo C) :=
  on_algo chacha_New (fun a => open_at nowUnix a data) pubKey s.
End ChaCha.

(** The documented behaviour of an AEAD construction: what was sealed opens under
    its nonce and, being authenticated, under no other. *)
Definition aead_ok (a : AEAD) : Prop :=
  forall n n' d, Open a n' (Seal a n d) = if bool_decide (n' = n) then Some d else None.

Lemma le_bytes_inj n v v' :
  0 <= v < 256 ^ Z.of_nat n -> 0 <= v' < 256 ^ Z.of_nat n -> le_bytes n v = le_bytes n v' -> v = v'.
Proof.
  revert v v'. induction n as [|n IH]; intros v v' Hv Hv' Heq.
  - change (256 ^ Z.of_nat 0) with 1 in *. lia.
  - rewrite Nat2Z.inj_succ, Z.pow_succ_r in Hv, Hv' by lia. cbn [le_bytes] in Heq. injection Heq as H0 Hr.
    apply (f_equal b2z) in H0. rewrite !b2z_z2b in H0.
    apply IH in Hr; [mlia| |]; (split; [mlia|apply Z.div_lt_upper_bound; lia]).
Qed.

Lemma nonce_of_inj a w w' :
  - 2 ^ 62 <= w < 2 ^ 62 -> - 2 ^ 62 <= w' < 2 ^ 62 -> nonce_of a w = nonce_of a w' -> w = w'.
Proof.
  intros Hw Hw' Heq. unfold nonce_of in Heq. apply app_inv_head in Heq.
  apply (le_bytes_inj 8) in Heq; [unfold u64 in Heq; mlia|unfold u64; change (256 ^ Z.of_nat 8) with (2 ^ 64)..];
    by apply Z.mod_pos_bound.
Qed.

(** Two clocks are in step when their windows are at most one apart. *)
Definition windows_near (timeWindow t t' : Z) : Prop := Z.abs (Z.quot t timeWindow - Z.quot t' timeWindow) <= 1.
#[global] Instance windows_near_dec timeWindow t t' : Decision (windows_near timeWindow t t').
Proof. unfold windows_near. apply _. Defined.

Lemma open_seal timeWindow a t t' data :
  aead_ok a -> 0 < timeWindow -> 0 <= t < 2 ^ 61 -> 0 <= t' < 2 ^ 61 ->
  open_at timeWindow t' a (seal_at timeWindow t a data) =
  if bool_decide (windows_near timeWindow t t') then Ok data else Err ErrBadData.
Proof.
  intros Ha Hw Ht Ht'. unfold open_at, seal_at, windows_near. rewrite !Ha.
  assert (Hq : 0 <= Z.quot t timeWindow < 2 ^ 61).
  { split; [apply Z.quot_pos; lia|]. apply (Z.le_lt_trans _ t); [|lia]. apply Z.quot_le_upper_bound; nia. }
  assert (Hq' : 0 <= Z.quot t' timeWindow < 2 ^ 61).
  { split; [apply Z.quot_pos; lia|]. apply (Z.le_lt_trans _ t'); [|lia]. apply Z.quot_le_upper_bound; nia. }
  set (w := Z.quot t timeWindow) in *. set (w' := Z.quot t' timeWindow) in *.
  assert (Hn : forall x, - 2 ^ 62 <= x < 2 ^ 62 -> nonce_of a x = nonce_of a w <-> x = w).
  { intros x Hx. split; [intros; apply (nonce_of_inj a); [done|lia|done]|by intros ->]. }
  assert (Hd : forall x, - 2 ^ 62 <= x < 2 ^ 62 -> bool_decide (nonce_of a x = nonce_of a w) = bool_decide (x = w)).
  { intros x Hx. apply bool_decide_ext. by apply Hn. }
  rewrite !Hd by lia. repeat case_bool_decide; try done; lia.
Qed.

Section Instance_.
Context (timeWindow : Z) (chacha_New : bytes -> option AEAD).
Hypothesis window_pos : 0 < timeWindow.
Hypothesis chacha_aead : forall key a, chacha_New key = Some a -> aead_ok a.
Context {C : Type} `{CacheLaws C bytes AEAD}.

#[export] Instance chacha_algo : SymmAlgo (option (algo C)) Z := {|
  Encrypt := fun t data pub s => chacha_Encrypt timeWindow chacha_New t data pub s;
  Decrypt := fun t data pub s => chacha_Decrypt timeWindow chacha_New t data pub s;
  SecretKey := algo_key;
  sound := algo_sound chacha_New;
  in_step := fun t t' => 0 <= t < 2 ^ 61 /\ 0 <= t' < 2 ^ 61 /\ windows_near timeWindow t t'
|}.

#[export] Program Instance chacha_laws : SymmLaws (option (algo C)) Z := {|
  usable key := is_Some (chacha_New key)
|}.
Next Obligation. intros. by apply on_algo_sound. Qed.
Next Obligation. intros. by apply on_algo_sound. Qed.
Next Obligation. intros. apply on_algo_keys. Qed.
Next Obligation. intros. apply on_algo_keys. Qed.
Next Obligation.
  intros t t' data a b k s s' Hs Hs' [c Hc] Hk Hk' (Ht & Ht' & Hnear). simpl in *.
  exists (seal_at timeWindow t c data). unfold chacha_Encrypt, chacha_Decrypt.
  rewrite (on_algo_work chacha_New _ b s k c), (on_algo_work chacha_New _ a s' k c) by done.
  split; [done|]. rewrite open_seal by (done || by eapply chacha_aead). by rewrite bool_decide_true.
Qed.
End Instance_.
End ChaCha.

(** ** Properties *)

(** AES-CBC: a datagram encrypted for a peer is decrypted by it, whatever the
    two LRU caches of ciphers hold, when both providers answer the same key. *)
Theorem aes_roundtrip NewCipher C `{CacheLaws C bytes AesCbc.block} iv data a b key (s s' : option (algo C)) :
  (forall k c, NewCipher k = Some c -> AesCbc.block_ok c) ->
  algo_sound NewCipher s -> algo_sound NewCipher s' ->
  is_Some (NewCipher key) -> algo_key s b = Some key -> algo_key s' a = Some key ->
  length iv = AesCbc.BlockSize ->
  exists c, (AesCbc.aes_Encrypt NewCipher iv data b s).1 = Ok c /\
    (AesCbc.aes_Decrypt NewCipher c a s').1 = Ok data.
Proof.
  intros Hok Hs Hs' Hk Hb Ha Hiv.
  exact (@roundtrip _ _ (AesCbc.aes_algo NewCipher) (AesCbc.aes_laws NewCipher Hok)
           iv iv data a b key s s' Hs Hs' Hk Hb Ha Hiv).
Qed.

(** Received data panic [AESCBC.Decrypt] exactly when they are one block long:
    an initialisation vector without ciphertext leaves no byte to read the
    padding from. *)
Theorem aes_Decrypt_panic_iff NewCipher C `{CacheLaws C bytes AesCbc.block} data pub key (s : option (algo C)) :
  (forall k c, NewCipher k = Some c -> AesCbc.block_ok c) ->
  algo_sound NewCipher s -> algo_key s pub = Some key -> is_Some (NewCipher key) ->
  (AesCbc.aes_Decrypt NewCipher data pub s).1 = Panic <-> length data = AesCbc.BlockSize.
Proof.
  intros Hok Hs Hkey [c Hc]. unfold AesCbc.aes_Decrypt.
  rewrite (on_algo_work NewCipher _ pub s key c) by done. apply AesCbc.decrypt_with_panic. by eapply Hok.
Qed.

(** ChaCha20-Poly1305: what is encrypted at one time is decrypted at another
    exactly when the time windows of the two clocks are at most one apart. *)
Theorem chacha_window timeWindow New C `{CacheLaws C bytes ChaCha.AEAD} t t' data a b key (s s' : option (algo C)) :
  0 < timeWindow -> (forall k c, New k = Some c -> ChaCha.aead_ok c) ->
  algo_sound New s -> algo_sound New s' ->
  is_Some (New key) -> algo_key s b = Some key -> algo_key s' a = Some key ->
  0 <= t < 2 ^ 61 -> 0 <= t' < 2 ^ 61 ->
  exists c, (ChaCha.chacha_Encrypt timeWindow New t data b s).1 = Ok c /\
    (ChaCha.chacha_Decrypt timeWindow New t' c a s').1 =
      if bool_decide (ChaCha.windows_near timeWindow t t') then Ok data else Err ErrBadData.
Proof.
  intros Hw Hok Hs Hs' [k Hk] Hb Ha Ht Ht'. exists (ChaCha.seal_at timeWindow t k data).
  unfold ChaCha.chacha_Encrypt, ChaCha.chacha_Decrypt.
  rewrite (on_algo_work New _ b s key k), (on_algo_work New _ a s' key k) by done.
  split; [done|]. apply ChaCha.open_seal; [by eapply Hok|done..].
Qed.

(** ** Witnesses *)

Module Examples.
Import LruCache.

Lemma new_sound {K} (NewCipher : bytes -> option K) (cap : Z) (c : Cache bytes K) p :
  LruCache.New cap = Ok c -> algo_sound NewCipher (Some (MkAlgo c p)).
Proof.
  intros HN. pose proof (repr_New _ _ HN) as R. split; [by exists []|].
  intros pub k. simpl. rewrite (repr_Dump _ _ _ R). done.
Qed.

Definition mask : bytes -> bytes := fmap (fun c => bxor c (z2b 90)).
Definition toy_block : AesCbc.block := AesCbc.MkBlock mask mask.
Definition toy_cipher (key : bytes) : option AesCbc.block :=
  if bool_decide (length key = 16%nat) then Some toy_block else None.

Lemma toy_ok k c : toy_cipher k = Some c -> AesCbc.block_ok c.
Proof.
  unfold toy_cipher. case_bool_decide; [|done]. intros [= <-] p Hp. unfold toy_block, mask; simpl.
  rewrite !length_fmap. split_and!; [done..|]. rewrite <- list_fmap_compose.
  rewrite <- (list_fmap_id p) at 2. apply list_fmap_ext. intros i x _. apply bxor_cancel.
Qed.

Definition key16 : bytes := repeat (z2b 7) 16.
Definition iv16 : bytes := repeat (z2b 9) 16.

Lemma aes_roundtrip_witness :
  exists s s' : option (algo (Cache bytes AesCbc.block)), exists c,
    (AesCbc.aes_Encrypt toy_cipher iv16 (bs "hello") (bs "b") s).1 = Ok c /\
    (AesCbc.aes_Decrypt toy_cipher c (bs "a") s').1 = Ok (bs "hello").
Proof.
  destruct (@LruCache.New bytes AesCbc.block _ _ 128) as [c| |] eqn:HN; [|by destruct e|done].
  exists (Some (MkAlgo c (fun _ => Some key16))), (Some (MkAlgo c (fun _ => Some key16))).
  exact (aes_roundtrip toy_cipher (Cache bytes AesCbc.block) iv16 (bs "hello") (bs "a") (bs "b") key16
           (Some (MkAlgo c (fun _ => Some key16))) (Some (MkAlgo c (fun _ => Some key16))) toy_ok
           (new_sound toy_cipher 128 c _ HN) (new_sound toy_cipher 128 c _ HN) (ex_intro _ toy_block eq_refl) eq_refl eq_refl eq_refl).
Defined.

Lemma aes_Decrypt_panic_iff_witness :
  exists s : option (algo (Cache bytes AesCbc.block)),
    (AesCbc.aes_Decrypt toy_cipher iv16 (bs "a") s).1 = Panic <-> length iv16 = AesCbc.BlockSize.
Proof.
  destruct (@LruCache.New bytes AesCbc.block _ _ 128) as [c| |] eqn:HN; [|by destruct e|done].
  exists (Some (MkAlgo c (fun _ => Some key16))).
  exact (aes_Decrypt_panic_iff toy_cipher (Cache bytes AesCbc.block) iv16 (bs "a") key16
           (Some (MkAlgo c (fun _ => Some key16))) toy_ok (new_sound toy_cipher 128 c _ HN) eq_refl
           (ex_intro _ toy_block eq_refl)).
Defined.

(** An AEAD construction that writes the nonce, marked byte by byte, before the data. *)
Definition fixed_aead : ChaCha.AEAD :=
  ChaCha.MkAEAD 12 (fun n d => concat ((fun x => [z2b 1; x]) <$> n) ++ z2b 0 :: d)
    (fun n c => let p := concat ((fun x => [z2b 1; x]) <$> n) ++ [z2b 0] in
                if bool_decide (take (length p) c = p) then Some (drop (length p) c) else None).

Lemma marked_prefix (n n' d : bytes) :
  let p := concat ((fun x => [z2b 1; x]) <$> n') ++ [z2b 0] in
  take (length p) (concat ((fun x => [z2b 1; x]) <$> n) ++ z2b 0 :: d) = p -> n' = n.
Proof.
  revert n. induction n' as [|x' n' IH]; intros [|x n]; simpl; try (intros H; by discriminate H); [done|].
  intros [= -> H]. f_equal. apply IH. exact H.
Qed.

Lemma fixed_aead_ok : ChaCha.aead_ok fixed_aead.
Proof.
  intros n n' d. simpl.
  assert (Happ : forall (l : bytes), l ++ z2b 0 :: d = (l ++ [z2b 0]) ++ d) by (intros l; by rewrite <- app_assoc).
  case_bool_decide as Hp.
  - apply marked_prefix in Hp as ->. rewrite bool_decide_true by done. f_equal.
    rewrite Happ. apply drop_app_length.
  - case_bool_decide as Hn; [|done]. subst n'. exfalso. apply Hp.
    rewrite Happ. apply take_app_length.
Qed.

Definition toy_chacha (key : bytes) : option ChaCha.AEAD := Some fixed_aead.

Lemma chacha_window_witness :
  exists s s' : option (algo (Cache bytes ChaCha.AEAD)), exists c,
    (ChaCha.chacha_Encrypt 10 toy_chacha 1009 (bs "hello") (bs "b") s).1 = Ok c /\
    (ChaCha.chacha_Decrypt 10 toy_chacha 1010 c (bs "a") s').1 =
      if bool_decide (ChaCha.windows_near 10 1009 1010) then Ok (bs "hello") else Err ErrBadData.
Proof.
  destruct (@LruCache.New bytes ChaCha.AEAD _ _ 128) as [c| |] eqn:HN; [|by destruct e|done].
  exists (Some (MkAlgo c (fun _ => Some key16))), (Some (MkAlgo c (fun _ => Some key16))).
  apply (chacha_window 10 toy_chacha (Cache bytes ChaCha.AEAD) 1009 1010 (bs "hello") (bs "a") (bs "b") key16
           (Some (MkAlgo c (fun _ => Some key16))) (Some (MkAlgo c (fun _ => Some key16)))).
  - lia.
  - intros k a [= <-]. exact fixed_aead_ok.
  - exact (new_sound toy_chacha 128 c _ HN).
  - exact (new_sound toy_chacha 128 c _ HN).
  - exact (ex_intro _ fixed_aead eq_refl).
  - reflexivity.
  - reflexivity.
  - lia.
  - lia.
Defined.
End Examples.
