(* ===== verification/Auth.v ===== *)
(** * Secrets, tokens and the configuration of the server
    ([peermap/auth], [peermap/exporter/auth], [peermap/config])

    A network secret is a JSON document sealed with the key of the server.  The
    AEAD construction, the base64 and JSON codecs are parameters; what the
    theorems need of them is in [codec_ok].  [AESCBC] of [Secure.v] is reached
    through its [Decrypt] and [Encrypt]. *)

From S2P Require Import Prelude Text Langs GoTime Secure.

(** ** Network secrets *)

Definition ErrInvalidToken : Error := MkError 9000 (bs "invalid token").
Definition ErrTokenExpired : Error := MkError 9001 (bs "token expired").
Definition secretVersion : byte := z2b 1.

Record JSONSecret := MkJSONSecret {
  js_Network : bytes;
  js_Admin : bool;
  js_Alias : bytes;
  js_Neighbors : list bytes;
  js_Deadline : Z
}.
Definition zero_secret : JSONSecret := MkJSONSecret [] false [] [] 0.

Record Net := MkNet { net_ID : bytes; net_Alias : bytes; net_Neighbors : list bytes }.

(** The codecs an authenticator uses: AES-GCM with a random nonce under its key,
    base64 in the URL alphabet, JSON. *)
Record codec := MkCodec {
  aead_Seal : bytes -> bytes -> bytes -> bytes;
  aead_Open : bytes -> bytes -> option bytes;
  aead_Overhead : nat;
  b64_Encode : bytes -> bytes;
  b64_Decode : bytes -> option bytes;
  json_Marshal : JSONSecret -> bytes;
  json_Unmarshal : bytes -> option JSONSecret
}.

(** What is used of the codecs.  [json_inverse] is the law of names in valid UTF-8:
    [encoding/json] replaces other bytes. *)
Record codec_ok (a : codec) : Prop := {
  open_seal nonce ad plain : aead_Open a (aead_Seal a nonce plain ad) ad = Some plain;
  seal_length nonce ad plain : length (aead_Seal a nonce plain ad) = (length plain + aead_Overhead a)%nat;
  b64_inverse b : b64_Decode a (b64_Encode a b) = Some b;
  json_inverse s : json_Unmarshal a (json_Marshal a s) = Some s
}.

Section Authenticator.
Context (a : codec).

(** [nonce] is what the random reader gives. *)
Definition GenerateSecretAdmin (nonce : bytes) (now : time) (adm : bool) (n : Net) (validDuration : Z) : bytes :=
  let b := json_Marshal a (MkJSONSecret (net_ID n) adm (net_Alias n) (net_Neighbors n)
                             (Unix (Add now validDuration))) in
  let version := [secretVersion] in
  let token := version ++ aead_Seal a nonce b version in
  b64_Encode a token.

Definition GenerateSecret (nonce : bytes) (now : time) (n : Net) (validDuration : Z) : bytes :=
  GenerateSecretAdmin nonce now false n validDuration.

(** The secret, and the error that comes with it. *)
Definition ParseSecret (now : time) (networkIDChiper : bytes) : JSONSecret * option Error :=
  match b64_Decode a networkIDChiper with
  | None => (zero_secret, Some ErrInvalidToken)
  | Some tokenData =>
      if bool_decide (length tokenData < 1 + aead_Overhead a)%nat then (zero_secret, Some ErrInvalidToken)
      else if bool_decide (head tokenData <> Some secretVersion) then (zero_secret, Some ErrInvalidToken)
      else
        let version := take 1 tokenData in
        match aead_Open a (drop 1 tokenData) version with
        | None => (zero_secret, Some ErrInvalidToken)
        | Some plainData =>
            match json_Unmarshal a plainData with
            | None => (zero_secret, Some ErrInvalidToken)
            | Some token =>
                if bool_decide (Until (UnixTime (js_Deadline token)) now <= 0)
                then (token, Some ErrTokenExpired)
                else (token, None)
            end
        end
  end.

Lemma ParseSecret_Generate nonce now now' adm n d :
  codec_ok a ->
  let token := MkJSONSecret (net_ID n) adm (net_Alias n) (net_Neighbors n) (Unix (Add now d)) in
  ParseSecret now' (GenerateSecretAdmin nonce now adm n d) =
    (token, if bool_decide (Until (UnixTime (js_Deadline token)) now' <= 0) then Some ErrTokenExpired else None).
Proof.
  intros Ha token. unfold ParseSecret, GenerateSecretAdmin. rewrite b64_inverse by done.
  rewrite bool_decide_false by (simpl; rewrite seal_length by done; lia).
  rewrite bool_decide_false by (simpl; congruence).
  cbn [app take drop]. change (drop 0 ?x) with x. rewrite open_seal, json_inverse by done.
  fold token. by case_bool_decide.
Qed.

(** A secret is accepted only when it is a sealed document of this version. *)
Lemma ParseSecret_accepts now s token :
  ParseSecret now s = (token, None) ->
  exists c plain, b64_Decode a s = Some (secretVersion :: c) /\ aead_Open a c [secretVersion] = Some plain /\
    json_Unmarshal a plain = Some token /\ 0 < Until (UnixTime (js_Deadline token)) now.
Proof.
  unfold ParseSecret. destruct (b64_Decode a s) as [t|]; [|done].
  case_bool_decide; [done|]. case_bool_decide as Hv; [done|].
  destruct t as [|v c]; [done|]. cbn [head] in Hv. assert (v = secretVersion) as -> by naive_solver.
  cbn [take drop]. destruct (aead_Open a _ _) as [plain|] eqn:Ho; [|done].
  destruct (json_Unmarshal a plain) as [token'|] eqn:Hj; [|done].
  case_bool_decide; [done|]. intros [= ->]. exists c, plain. split_and!; [done|done|done|lia].
Qed.
End Authenticator.

(** The deadline of a secret in an ordinary year: it is accepted strictly before
    the whole second in which its validity ends. *)
Lemma deadline_sane now d now' :
  sane now -> sane now' -> 0 <= d < 2 ^ 62 -> near (Add now d) now' -> sane (Add now d) ->
  unixToInternal <= t_sec (Add now d) ->
  (Until (UnixTime (Unix (Add now d))) now' <= 0 <-> (nanos now + d) / Second * Second <= nanos now').
Proof.
  intros Hn Hn' Hd Hnear Hs Hu. unfold Until, UnixTime, Unix.
  assert (Hi : i64 (i64 (t_sec (Add now d) - unixToInternal) + unixToInternal) = t_sec (Add now d)).
  { destruct Hs as [Hs _]. unfold unixToInternal in *. rewrite (i64_small (_ - _)) by lia. rewrite i64_small; lia. }
  rewrite Hi. rewrite Sub_sane; [|split; [apply Hs|unfold Second; simpl; lia]|done|done].
  destruct (Add_sane now d Hn ltac:(lia)) as [Ha Hr]. rewrite <- Ha.
  set (t := Add now d) in *.
  assert (Hdiv : nanos t / Second = t_sec t).
  { symmetry. apply (Z.div_unique_pos _ _ _ (t_nsec t)); [lia|]. unfold nanos. lia. }
  rewrite Hdiv. unfold nanos at 1. cbn [t_sec t_nsec]. lia.
Qed.

(** ** Tokens of the exporter *)

Inductive token_error := BadBase64 | BadCipher (e : crypt_error) | InvalidToken | TokenExpired.

Section Exporter.
Context (b64_Decode : bytes -> option bytes) (b64_Encode : bytes -> bytes).
(** The encryption under the server's key, and JSON of the expiry; a document
    that is not one leaves the expiry zero. *)
Context (Decrypt : bytes -> res crypt_error bytes) (Encrypt : bytes -> res crypt_error bytes).
Context (json_expiry : bytes -> Z) (expiry_json : Z -> bytes).

Definition CheckToken (now : time) (token : bytes) : res token_error Z :=
  match b64_Decode token with
  | None => Err BadBase64
  | Some b =>
      match Decrypt b with
      | Err e => Err (BadCipher e)
      | Panic => Panic
      | Ok plain =>
          match plain with
          | [] => Panic
          | v :: rest =>
              if bool_decide (b2z v <> 1) then Err InvalidToken
              else
                let expiredAt := json_expiry rest in
                if bool_decide (i64 (expiredAt - Unix now) <= 0) then Err TokenExpired
                else Ok expiredAt
          end
      end
  end.

Definition GenerateToken (expiredAt : Z) : res crypt_error bytes :=
  chiper ← Encrypt (z2b 1 :: expiry_json expiredAt); Ok (b64_Encode chiper).

Lemma CheckToken_Generate now expiredAt token :
  (forall b, b64_Decode (b64_Encode b) = Some b) ->
  (forall p c, Encrypt p = Ok c -> Decrypt c = Ok p) ->
  (forall e, json_expiry (expiry_json e) = e) ->
  GenerateToken expiredAt = Ok token ->
  CheckToken now token = if bool_decide (i64 (expiredAt - Unix now) <= 0) then Err TokenExpired else Ok expiredAt.
Proof.
  intros Hb He Hj. unfold GenerateToken. intros Hg. res_inv. unfold CheckToken. rewrite Hb.
  erewrite He by done. cbv beta iota zeta. change (b2z (z2b 1)) with 1. rewrite (bool_decide_false (1 <> 1)) by lia. by rewrite Hj.
Qed.
End Exporter.

(** ** Configuration *)

Record RateLimiter := MkRateLimiter { rl_Limit : Z; rl_Burst : Z }.
Record RateLimiterConfig := MkRateLimiterConfig {
  cfg_Limit : Z; cfg_Burst : Z; Relay : RateLimiter; StreamR : RateLimiter; StreamW : RateLimiter
}.

(** The defaults of one limiter: burst and limit of the whole configuration. *)
Definition or_default (c : RateLimiterConfig) (r : RateLimiter) : RateLimiter :=
  MkRateLimiter
    (if bool_decide (rl_Limit r = 0 /\ cfg_Limit c > 0) then cfg_Limit c else rl_Limit r)
    (if bool_decide (rl_Burst r = 0 /\ cfg_Burst c > 0) then cfg_Burst c else rl_Burst r).

Inductive config_error :=
| BurstBelowLimit (which : bytes)
| NegativeLimit (which : bytes)
| RotationTooLong.

Definition check_one (which : bytes) (r : RateLimiter) : option config_error :=
  if bool_decide (rl_Burst r < rl_Limit r) then Some (BurstBelowLimit which)
  else if bool_decide (rl_Limit r < 0) then Some (NegativeLimit which)
  else None.

(** [check] fills in the defaults, then looks at the limiters one by one. *)
Definition rate_defaults (c : RateLimiterConfig) : RateLimiterConfig :=
  MkRateLimiterConfig (cfg_Limit c) (cfg_Burst c) (or_default c (Relay c)) (or_default c (StreamR c))
    (or_default c (StreamW c)).
Definition rate_check (c : RateLimiterConfig) : option config_error :=
  let c := rate_defaults c in
  match check_one (bs "relay") (Relay c) with
  | Some e => Some e
  | None => match check_one (bs "stream_r") (StreamR c) with
            | Some e => Some e
            | None => check_one (bs "stream_w") (StreamW c)
            end
  end.

(** The providers of the configuration are named by an opaque list. *)
Record Config := MkConfig {
  Listen : bytes;
  SecretKey : bytes;
  STUNs : list bytes;
  PublicNetwork : bytes;
  OIDCProviders : list bytes;
  RateLimits : option RateLimiterConfig;
  SecretRotationPeriod : Z;
  SecretValidityPeriod : Z
}.

(** [hex_key] is the text of the sixteen random bytes drawn for a missing key.
    The providers that are registered are the second component. *)
Definition ApplyDefaults (hex_key : bytes) (cfg : Config) : res config_error (Config * list bytes) :=
  let listen := if bool_decide (Listen cfg = []) then bs "127.0.0.1:9987" else Listen cfg in
  let key := if bool_decide (SecretKey cfg = []) then hex_key else SecretKey cfg in
  let limits := rate_defaults <$> RateLimits cfg in
  match RateLimits cfg ≫= rate_check with
  | Some e => Err e
  | None =>
      let validity := if bool_decide (SecretValidityPeriod cfg = 0) then 48 * Hour else SecretValidityPeriod cfg in
      let rotation := if bool_decide (SecretRotationPeriod cfg = 0)
                      then Z.max (Z.quot validity 2) Minute else SecretRotationPeriod cfg in
      if bool_decide (rotation >= validity) then Err RotationTooLong
      else Ok (MkConfig listen key (STUNs cfg) (PublicNetwork cfg) (OIDCProviders cfg) limits rotation validity,
               OIDCProviders cfg)
  end.

Definition Overwrite (cfg cfg1 : Config) : Config :=
  MkConfig
    (if bool_decide (zlen (Listen cfg1) > 0) then Listen cfg1 else Listen cfg)
    (if bool_decide (zlen (SecretKey cfg1) > 0) then SecretKey cfg1 else SecretKey cfg)
    (if bool_decide (zlen (STUNs cfg1) > 0) then STUNs cfg1 else STUNs cfg)
    (if bool_decide (zlen (PublicNetwork cfg1) > 0) then PublicNetwork cfg1 else PublicNetwork cfg)
    (OIDCProviders cfg) (RateLimits cfg) (SecretRotationPeriod cfg) (SecretValidityPeriod cfg).

(** The configurations a server runs with. *)
Definition limiter_ok (r : RateLimiter) : Prop := 0 <= rl_Limit r <= rl_Burst r.
Definition limits_ok (c : RateLimiterConfig) : Prop :=
  limiter_ok (Relay c) /\ limiter_ok (StreamR c) /\ limiter_ok (StreamW c).
Definition config_ok (cfg : Config) : Prop :=
  Listen cfg <> [] /\ SecretRotationPeriod cfg < SecretValidityPeriod cfg /\
  forall c, RateLimits cfg = Some c -> limits_ok c.

Lemma check_one_ok w r : check_one w r = None -> limiter_ok r.
Proof. unfold check_one, limiter_ok. repeat case_bool_decide; try done; lia. Qed.

Lemma ApplyDefaults_ok hex cfg cfg' ps : ApplyDefaults hex cfg = Ok (cfg', ps) -> config_ok cfg'.
Proof.
  unfold ApplyDefaults, config_ok.
  destruct (RateLimits cfg ≫= rate_check) as [e|] eqn:Hc; [done|].
  case_bool_decide as Hr; [done|]. intros [= <- <-]. cbn [Listen SecretRotationPeriod SecretValidityPeriod RateLimits].
  split; [by destruct (bool_decide_reflect (Listen cfg = []))|]. split; [lia|].
  destruct (RateLimits cfg) as [c|]; simpl in *; [|done]. intros c' [= <-].
  unfold rate_check in Hc. destruct (check_one (bs "relay") _) eqn:H1; [done|].
  destruct (check_one (bs "stream_r") _) eqn:H2; [done|].
  split_and!; by eapply check_one_ok.
Qed.

(** ** Properties *)

(** The life of a network secret: what the server issues parses back to the
    same network, alias, neighbours and role; it is refused as expired from the
    whole second in which its validity ends, and accepted before. *)
Theorem secret_lifetime a nonce now now' adm n d :
  codec_ok a -> sane now -> sane now' -> 0 <= d < 2 ^ 62 -> near (Add now d) now' -> sane (Add now d) ->
  unixToInternal <= t_sec (Add now d) ->
  let token := MkJSONSecret (net_ID n) adm (net_Alias n) (net_Neighbors n) (Unix (Add now d)) in
  ParseSecret a now' (GenerateSecretAdmin a nonce now adm n d) =
    (token, if bool_decide ((nanos now + d) / Second * Second <= nanos now') then Some ErrTokenExpired else None).
Proof.
  intros Ha Hn Hn' Hd Hnear Hs Hu token. rewrite ParseSecret_Generate by done. cbn [js_Deadline].
  f_equal. rewrite (bool_decide_ext _ _ (deadline_sane now d now' Hn Hn' Hd Hnear Hs Hu)). done.
Qed.

(** ** A concrete codec *)

Module Examples.
#[export] Instance JSONSecret_eq_dec : EqDecision JSONSecret.
Proof. solve_decision. Defined.
#[export] Instance JSONSecret_countable : Countable JSONSecret.
Proof.
  refine (inj_countable' (fun s => (js_Network s, js_Admin s, js_Alias s, js_Neighbors s, js_Deadline s))
            (fun t => MkJSONSecret t.1.1.1.1 t.1.1.1.2 t.1.1.2 t.1.2 t.2) _).
  by intros [].
Defined.

(** The bits of a positive number, one byte each. *)
Fixpoint pos_bytes (p : positive) : bytes :=
  match p with
  | xH => []
  | xO p => z2b 0 :: pos_bytes p
  | xI p => z2b 1 :: pos_bytes p
  end.
Fixpoint bytes_pos (b : bytes) : positive :=
  match b with
  | [] => xH
  | c :: b => if bool_decide (b2z c = 0) then xO (bytes_pos b) else xI (bytes_pos b)
  end.
Lemma bytes_pos_inverse p : bytes_pos (pos_bytes p) = p.
Proof. induction p as [p IH|p IH|]; simpl; [by rewrite IH..|done]. Qed.

(** The documents of this codec are sealed by reversing them. *)
Definition toy_codec : codec := MkCodec
  (fun _ plain _ => rev plain) (fun c _ => Some (rev c)) 0
  (fun b => b) Some
  (fun s => pos_bytes (encode s)) (fun b => decode (bytes_pos b)).

Lemma toy_codec_ok : codec_ok toy_codec.
Proof.
  constructor; simpl.
  - intros. by rewrite rev_involutive.
  - intros. by rewrite length_rev, Nat.add_0_r.
  - done.
  - intros s. by rewrite bytes_pos_inverse, decode_encode.
Qed.

Definition y2025 : time := Time (unixToInternal + 1735689600) 5.
Definition some_net : Net := MkNet (bs "net") (bs "home") [bs "other"].

Lemma secret_lifetime_witness :
  ParseSecret toy_codec (Add y2025 (2 * Hour)) (GenerateSecretAdmin toy_codec [] y2025 true some_net Hour) =
    (MkJSONSecret (bs "net") true (bs "home") [bs "other"] (Unix (Add y2025 Hour)),
     if bool_decide ((nanos y2025 + Hour) / Second * Second <= nanos (Add y2025 (2 * Hour)))
     then Some ErrTokenExpired else None).
Proof.
  apply (secret_lifetime toy_codec [] y2025 (Add y2025 (2 * Hour)) true some_net Hour toy_codec_ok);
    vm_compute; repeat split; discriminate.
Defined.
End Examples.
