(* ===== verification/Peermap.v ===== *)
(** * The server ([peermap/peermap.go])

    The state of a [PeerMap] is an arena of peer connections ([*peerConn] is an
    index into it), the networks by their identifier and the network in which a
    peer identifier was last registered.  A network is created once and neither
    removed nor replaced, so a [*networkContext] is named by its identifier.

    [Panic] in the goroutine of a connection ends the server.  [out] records what
    is handed to the websocket library and [WriteMessage] is its answer, as in
    [Ws.v]; a connection whose upgrade has not completed is nil ([None]) and
    writing to it is a nil dereference.  Maps are ranged over in the order of
    [map_to_list], standing for any order.  Rate limiters only delay. *)

From S2P Require Import Prelude Text Netip Disco Langs Url GoTime Stream Ws Auth.

(** ** State *)

Record peerStat := MkStat { RelayRx : Z; StreamTx : Z; StreamRx : Z }.

Record peerConn := MkPeerConn {
  p_conn : option nat;
  p_closed : bool;
  closeChan : chan unit;
  networkSecret : JSONSecret;
  p_network : bytes;
  p_stat : peerStat;
  metadata : Values;
  p_activeTime : Z;
  p_id : bytes;
  p_nonce : byte;
  relayRatelimiter : option limiter;
  connRRL : option limiter;
  connWRL : option limiter;
  p_connData : chan bytes;
  p_connBuf : option bytes
}.

Record networkContext := MkNetworkContext {
  peers : gmap bytes nat;
  nc_createTime : time;
  nc_updateTime : time;
  nc_id : bytes;
  alias : bytes;
  neighbors : list bytes
}.

Record PeerMap := MkPeerMap {
  conns : gmap nat peerConn;
  networkMap : gmap bytes networkContext;
  peerMap : gmap bytes bytes;
  cfg : Config;
  pm_out : list ws_out
}.

Definition set_conns (x : gmap nat peerConn) (s : PeerMap) : PeerMap :=
  MkPeerMap x (networkMap s) (peerMap s) (cfg s) (pm_out s).
Definition set_networkMap (x : gmap bytes networkContext) (s : PeerMap) : PeerMap :=
  MkPeerMap (conns s) x (peerMap s) (cfg s) (pm_out s).
Definition set_peerMap (x : gmap bytes bytes) (s : PeerMap) : PeerMap :=
  MkPeerMap (conns s) (networkMap s) x (cfg s) (pm_out s).
Definition add_pm_out (x : list ws_out) (s : PeerMap) : PeerMap :=
  MkPeerMap (conns s) (networkMap s) (peerMap s) (cfg s) (pm_out s ++ x).

Definition set_p_conn (x : option nat) (p : peerConn) : peerConn :=
  MkPeerConn x (p_closed p) (closeChan p) (networkSecret p) (p_network p) (p_stat p) (metadata p)
    (p_activeTime p) (p_id p) (p_nonce p) (relayRatelimiter p) (connRRL p) (connWRL p) (p_connData p) (p_connBuf p).
Definition set_p_closed (p : peerConn) : peerConn :=
  MkPeerConn (p_conn p) true (closeChan p) (networkSecret p) (p_network p) (p_stat p) (metadata p)
    (p_activeTime p) (p_id p) (p_nonce p) (relayRatelimiter p) (connRRL p) (connWRL p) (p_connData p) (p_connBuf p).
Definition set_closeChan (x : chan unit) (p : peerConn) : peerConn :=
  MkPeerConn (p_conn p) (p_closed p) x (networkSecret p) (p_network p) (p_stat p) (metadata p)
    (p_activeTime p) (p_id p) (p_nonce p) (relayRatelimiter p) (connRRL p) (connWRL p) (p_connData p) (p_connBuf p).
Definition set_networkSecret (x : JSONSecret) (p : peerConn) : peerConn :=
  MkPeerConn (p_conn p) (p_closed p) (closeChan p) x (p_network p) (p_stat p) (metadata p)
    (p_activeTime p) (p_id p) (p_nonce p) (relayRatelimiter p) (connRRL p) (connWRL p) (p_connData p) (p_connBuf p).
Definition set_p_stat (x : peerStat) (p : peerConn) : peerConn :=
  MkPeerConn (p_conn p) (p_closed p) (closeChan p) (networkSecret p) (p_network p) x (metadata p)
    (p_activeTime p) (p_id p) (p_nonce p) (relayRatelimiter p) (connRRL p) (connWRL p) (p_connData p) (p_connBuf p).
Definition set_metadata (x : Values) (p : peerConn) : peerConn :=
  MkPeerConn (p_conn p) (p_closed p) (closeChan p) (networkSecret p) (p_network p) (p_stat p) x
    (p_activeTime p) (p_id p) (p_nonce p) (relayRatelimiter p) (connRRL p) (connWRL p) (p_connData p) (p_connBuf p).
Definition set_p_activeTime (x : Z) (p : peerConn) : peerConn :=
  MkPeerConn (p_conn p) (p_closed p) (closeChan p) (networkSecret p) (p_network p) (p_stat p) (metadata p)
    x (p_id p) (p_nonce p) (relayRatelimiter p) (connRRL p) (connWRL p) (p_connData p) (p_connBuf p).
Definition set_p_connData (x : chan bytes) (p : peerConn) : peerConn :=
  MkPeerConn (p_conn p) (p_closed p) (closeChan p) (networkSecret p) (p_network p) (p_stat p) (metadata p)
    (p_activeTime p) (p_id p) (p_nonce p) (relayRatelimiter p) (connRRL p) (connWRL p) x (p_connBuf p).
Definition set_p_connBuf (x : option bytes) (p : peerConn) : peerConn :=
  MkPeerConn (p_conn p) (p_closed p) (closeChan p) (networkSecret p) (p_network p) (p_stat p) (metadata p)
    (p_activeTime p) (p_id p) (p_nonce p) (relayRatelimiter p) (connRRL p) (connWRL p) (p_connData p) x.

Definition set_peers (x : gmap bytes nat) (n : networkContext) : networkContext :=
  MkNetworkContext x (nc_createTime n) (nc_updateTime n) (nc_id n) (alias n) (neighbors n).
Definition set_meta (t : time) (a : bytes) (ns : list bytes) (n : networkContext) : networkContext :=
  MkNetworkContext (peers n) (nc_createTime n) t (nc_id n) a ns.

(** Go code of the server; the only errors it returns are those of writes. *)
Abbreviation Srv := (GoM PeerMap ws_error) (only parsing).

(** The peer behind a pointer, and an update of it. *)
Definition deref (pid : nat) : GoM PeerMap ws_error peerConn := fun s =>
  match conns s !! pid with Some p => (Ok p, s) | None => (Panic, s) end.
Definition update (pid : nat) (f : peerConn -> peerConn) : GoM PeerMap ws_error unit :=
  modify (fun s => set_conns (alter f pid (conns s)) s).

Lemma deref_bind {A} pid (k : peerConn -> GoM PeerMap ws_error A) s :
  (deref pid ≫= k) s = match conns s !! pid with Some p => k p s | None => (Panic, s) end.
Proof. unfold deref, mbind, gom_bind. by destruct (conns s !! pid). Qed.

(** ** Networks *)

Definition getNetwork (network : bytes) (s : PeerMap) : option networkContext := networkMap s !! network.
Definition nc_getPeer (ctx : networkContext) (id : bytes) : option nat := peers ctx !! id.
Definition peerCount (ctx : networkContext) : nat := size (peers ctx).

Definition nc_removePeer (network id : bytes) (s : PeerMap) : PeerMap :=
  set_networkMap (alter (fun ctx => set_peers (delete id (peers ctx)) ctx) network (networkMap s)) s.

Definition removePeer (network id : bytes) (s : PeerMap) : PeerMap :=
  match getNetwork network s with
  | Some _ => let s := nc_removePeer network id s in set_peerMap (delete id (peerMap s)) s
  | None => s
  end.

(** [getPeer]: the peer of the network, or one that the neighbour network in which
    its identifier was registered last still has. *)
Definition getPeer (network peerID : bytes) (s : PeerMap) : option nat :=
  ctx ← getNetwork network s;
  match nc_getPeer ctx peerID with
  | Some pid => Some pid
  | None =>
      name ← peerMap s !! peerID;
      neighNet ← networkMap s !! name;
      if bool_decide (nc_id neighNet ∈ neighbors ctx) then nc_getPeer neighNet peerID else None
  end.

Definition FindPeer (network : bytes) (f : Values -> bool) (s : PeerMap) : option (list nat) :=
  ctx ← getNetwork network s;
  Some (List.filter (fun pid => match conns s !! pid with Some p => f (metadata p) | None => false end)
          (snd <$> map_to_list (peers ctx))).

Definition newNetworkContext (id : bytes) (createTime updateTime : time) (al : bytes) (ns : list bytes) : networkContext :=
  MkNetworkContext ∅ createTime updateTime id al ns.

Definition initMeta (network : bytes) (al : bytes) (ns : list bytes) (updateTime : time) (s : PeerMap) : PeerMap :=
  set_networkMap
    (alter (fun ctx => if After (nc_updateTime ctx) updateTime then ctx else set_meta updateTime al ns ctx)
       network (networkMap s)) s.

(** ** Reading the stream of a peer *)

(** As [Ws.Read]: the outcomes of a read of [n] bytes, none when it blocks. *)
Definition peer_Read (n : Z) (p : peerConn) : list ((bytes * option conn_error) * peerConn) :=
  let count b p :=
    set_p_stat (MkStat (RelayRx (p_stat p)) (StreamTx (p_stat p)) (u64 (StreamRx (p_stat p) + zlen b))) p in
  match p_connBuf p with
  | Some b => let '(x, rest) := copy_out n b in [((x, None), count x (set_p_connBuf rest p))]
  | None =>
      match chan_recv (p_connData p) with
      | None => []
      | Some (None, _) => [(([], Some EOF), p)]
      | Some (Some wsb, q) =>
          let '(x, rest) := copy_out n wsb in [((x, None), count x (set_p_connBuf rest (set_p_connData q p)))]
      end
  end.

(** ** Operations of a connection *)

Definition ErrAddressAlreadyInuse : Error := MkError 4000 (bs "the network address is already in use").
Definition ErrNetworkSecretExpired : Error := MkError 4030 (bs "network secret is expired").
Definition ErrParseMetadataFailed : Error := MkError 4050 (bs "parse metadata failed").

(** A call whose error is dropped. *)
Definition ignore {A} (m : GoM PeerMap ws_error A) : GoM PeerMap ws_error unit := fun s =>
  match m s with
  | (Panic, s) => (Panic, s)
  | (_, s) => (Ok tt, s)
  end.

Fixpoint for_each {A} (l : list A) (f : A -> GoM PeerMap ws_error unit) : GoM PeerMap ws_error unit :=
  match l with
  | [] => mret tt
  | x :: l => _ ← f x; for_each l f
  end.

(** [copy(dst[lo:], src)] and [copy(dst[lo:hi], src)] with the bounds checked. *)
Definition blit {E} (lo : Z) (hi : option Z) (src dst : bytes) : res E bytes :=
  let h := default (zlen dst) hi in
  if bool_decide (0 <= lo <= h /\ h <= zlen dst) then
    let n := Z.to_nat (Z.min (h - lo) (zlen src)) in
    Ok (take (Z.to_nat lo) dst ++ take n src ++ drop (Z.to_nat lo + n) dst)
  else Panic.

(** A message about a peer: its identifier and its metadata. *)
Definition peer_msg (code : Z) (p : peerConn) : bytes :=
  z2b code :: Len (p_id p) :: Bytes (p_id p) ++ Encode (metadata p).

(** The message that [relayTo] builds; the sums with [p.id.Len()] are sums of
    bytes. *)
Definition relay_msg {E} (p : peerConn) (b : gslice) : res E bytes :=
  data ← msg_rest b;
  let id := p_id p in
  let bb := repeat (z2b 0) (2 + length id + length (vis data)) in
  b0 ← sl_get b 0;
  bb ← blit 0 None [b0; Len id] bb;
  bb ← blit 2 (Some (u8 (b2z (Len id) + 2))) (Bytes id) bb;
  blit (u8 (b2z (Len id) + 2)) None (vis data) bb.

Section Server.
Context (WriteMessage : list ws_out -> nat -> Z -> bytes -> option ws_error).
Context (a : codec).
Context (json_secret : NetworkSecret -> bytes).
Context (json_natinfo : bytes -> option NATInfo).

(** [writeWS] on the connection of a peer. *)
Definition peer_writeWS (conn : nat) (messageType : Z) (data : bytes) : GoM PeerMap ws_error unit := fun s =>
  let s' := add_pm_out [OutMessage conn messageType data] s in
  match WriteMessage (pm_out s) conn messageType data with
  | None => (Ok tt, s')
  | Some e => (Err e, s')
  end.

Definition peer_write (pid : nat) (b : bytes) : GoM PeerMap ws_error unit :=
  p ← deref pid;
  match p_conn p with
  | None => panic
  | Some conn => peer_writeWS conn BinaryMessage (xor_all (p_nonce p) b)
  end.

Definition peer_Write (pid : nat) (b : bytes) : GoM PeerMap ws_error Z :=
  _ ← peer_write pid (z2b CONTROL_CONN :: b);
  _ ← update pid (fun p => set_p_stat (MkStat (RelayRx (p_stat p)) (u64 (StreamTx (p_stat p) + zlen b)) (StreamRx (p_stat p))) p);
  mret (zlen b).

Definition leadDisco (pid target : nat) : GoM PeerMap ws_error unit :=
  p ← deref pid;
  _ ← ignore (peer_write target (peer_msg CONTROL_NEW_PEER p));
  t ← deref target;
  ignore (peer_write pid (peer_msg CONTROL_NEW_PEER t)).

Definition relayTo (pid target : nat) (b : gslice) : GoM PeerMap ws_error unit :=
  p ← deref pid;
  bb ← lift (relay_msg p b);
  _ ← ignore (peer_write target bb);
  update pid (fun p => set_p_stat (MkStat (u64 (RelayRx (p_stat p) + sl_len b)) (StreamTx (p_stat p)) (StreamRx (p_stat p))) p).

(** The other peers of a network, by identifier. *)
Definition other_peers (id : bytes) (ctx : networkContext) : list nat :=
  snd <$> filter (fun kv => kv.1 <> id) (map_to_list (peers ctx)).

Definition broadcast (pid : nat) (b : bytes) : GoM PeerMap ws_error unit :=
  p ← deref pid;
  ctx ← gets (getNetwork (js_Network (networkSecret p)));
  match ctx with
  | None => panic
  | Some ctx => for_each (other_peers (p_id p) ctx) (fun target => ignore (peer_write target b))
  end.

Definition broadcastMeta (pid : nat) : GoM PeerMap ws_error unit :=
  p ← deref pid; broadcast pid (peer_msg CONTROL_UPDATE_META p).

Definition broadcastLeave (pid : nat) : GoM PeerMap ws_error unit :=
  p ← deref pid; broadcast pid ([z2b CONTROL_PEER_LEAVE] ++ [Len (p_id p)] ++ Bytes (p_id p)).

Definition close_peer_chan {A} (get : peerConn -> chan A) (set : chan A -> peerConn -> peerConn) (pid : nat) :
    GoM PeerMap ws_error unit :=
  p ← deref pid;
  c ← lift (chan_close (get p));
  update pid (set c).

(** The connection and its channels are closed, then the others are told. *)
Definition shutdown (pid : nat) (p : peerConn) : GoM PeerMap ws_error unit :=
  match p_conn p with
  | None => panic
  | Some conn =>
      _ ← modify (add_pm_out [OutClose conn CloseNormalClosure; OutShut conn]);
      _ ← close_peer_chan closeChan set_closeChan pid;
      _ ← close_peer_chan p_connData set_p_connData pid;
      broadcastLeave pid
  end.

(** The peer is marked as closed and leaves its network. *)
Definition unregister (pid : nat) (p : peerConn) (s : PeerMap) : PeerMap :=
  removePeer (js_Network (networkSecret p)) (p_id p) (set_conns (alter set_p_closed pid (conns s)) s).

(** [Close] runs once; a panic counts. *)
Definition peer_Close (pid : nat) : GoM PeerMap ws_error unit :=
  p ← deref pid;
  if p_closed p then mret tt
  else
    _ ← modify (unregister pid p);
    shutdown pid p.

(** The metadata with the reported NAT type and addresses. *)
Definition nat_metadata (natInfo : NATInfo) (m : Values) : Values :=
  let m := vals_Del m (bs "addr") in
  let m := vals_Set m (bs "nat") (nat_String (nat_Type natInfo)) in
  fold_left (fun m addr => vals_Add m (bs "addr") (addr_String addr)) (nat_Addrs natInfo) m.

Definition updateNATInfo (pid : nat) (b : gslice) : GoM PeerMap ws_error unit :=
  body ← lift (sl_from b 2);
  match json_natinfo (vis body) with
  | None => mret tt
  | Some natInfo =>
      _ ← update pid (fun p => set_metadata (nat_metadata natInfo (metadata p)) p);
      broadcastMeta pid
  end.

Definition send_peer_data (pid : nat) (x : bytes) : GoM PeerMap ws_error unit :=
  p ← deref pid;
  c ← lift (chan_send x (p_connData p));
  update pid (set_p_connData c).

(** A message as [readMessageLoop] treats it once [ReadMessage] has returned it.
    When [ReadMessage] fails the loop calls [peer_Close]. *)
Definition handleMessage (pid : nat) (now : time) (mt : Z) (b : gslice) : GoM PeerMap ws_error unit :=
  p ← deref pid;
  _ ← update pid (set_p_activeTime (Unix now));
  if bool_decide (mt <> BinaryMessage) then mret tt
  else
    let b := GSlice (xor_all (p_nonce p) (vis b)) (spare b) in
    b0 ← lift (sl_get b 0);
    if bool_decide (b2z b0 = CONTROL_CONN) then
      body ← lift (sl_from b 1); send_peer_data pid (vis body)
    else if bool_decide (b2z b0 = CONTROL_UPDATE_NAT_INFO) then updateNATInfo pid b
    else
      tgtPeerID ← lift (msg_id b);
      tgtPeer ← gets (getPeer (js_Network (networkSecret p)) tgtPeerID);
      match tgtPeer with
      | None => mret tt
      | Some tgtPeer =>
          if bool_decide (b2z b0 = CONTROL_LEAD_DISCO) then leadDisco pid tgtPeer
          else relayTo pid tgtPeer b
      end.

(** ** Secrets *)

(** [rnd] is what the random reader gives; the clock is read once. *)
Definition generateSecret (rnd : bytes) (now : time) (n : Net) (adm : bool) (s : PeerMap) : NetworkSecret :=
  MkNetworkSecret (GenerateSecretAdmin a rnd now adm n (SecretValidityPeriod (cfg s))) (net_ID n)
    (nanos (Add now (SecretValidityPeriod (cfg s) - 10 * Second))).

Definition updateSecret (rnd : bytes) (now : time) (pid : nat) : GoM PeerMap ws_error unit :=
  p ← deref pid;
  ctx ← gets (getNetwork (p_network p));
  match ctx with
  | None => panic
  | Some ctx =>
      secret ← gets (generateSecret rnd now (MkNet (js_Network (networkSecret p)) (alias ctx) (neighbors ctx)) false);
      _ ← peer_write pid (z2b CONTROL_UPDATE_NETWORK_SECRET :: json_secret secret);
      update pid (set_networkSecret (ParseSecret a now (Secret secret)).1)
  end.

Definition updateMeta (rnd : bytes) (now : time) (network al : bytes) (ns : list bytes) : GoM PeerMap ws_error unit :=
  ctx ← gets (getNetwork network);
  match ctx with
  | None => panic
  | Some ctx =>
      if bool_decide (alias ctx = al /\ neighbors ctx = ns) then mret tt
      else
        _ ← modify (fun s => set_networkMap (alter (set_meta now al ns) network (networkMap s)) s);
        for_each (snd <$> map_to_list (peers ctx)) (fun pid => ignore (updateSecret rnd now pid))
  end.

Definition Grant (rnd : bytes) (now : time) (network state : bytes) (s : PeerMap) : NetworkSecret :=
  let n := match getNetwork network s with
           | Some ctx => MkNet network (alias ctx) (neighbors ctx)
           | None => MkNet network [] []
           end in
  generateSecret rnd now n (HasPrefix state (bs "PG_ADM")) s.

(** ** Liveness *)

Definition send_ping (pid : nat) : GoM PeerMap ws_error unit :=
  p ← deref pid;
  match p_conn p with
  | None => panic
  | Some conn => modify (add_pm_out [OutPing conn])
  end.

(** One tick of [keepalive]; the result is whether it goes on. *)
Definition keepalive_tick (rnd : bytes) (now : time) (pid : nat) : GoM PeerMap ws_error bool :=
  p ← deref pid;
  if closed (closeChan p) then mret false
  else if bool_decide (Unix now - p_activeTime p > 25) then _ ← peer_Close pid; mret false
  else
    _ ← send_ping pid;
    c ← gets cfg;
    _ ← (if bool_decide (Until (UnixTime (js_Deadline (networkSecret p))) now <
                          SecretValidityPeriod c - SecretRotationPeriod c)
         then ignore (updateSecret rnd now pid) else mret tt);
    mret true.

(** [checkAlive]: [pongs] are the times that answers of the peer set before each
    of the three looks, if any. *)
Fixpoint check_looks (seconds : Z) (pongs : list (option Z)) (pid : nat) : GoM PeerMap ws_error bool :=
  match pongs with
  | [] => _ ← peer_Close pid; mret false
  | pong :: pongs =>
      _ ← match pong with Some t => update pid (set_p_activeTime t) | None => mret tt end;
      p ← deref pid;
      if bool_decide (seconds - p_activeTime p <= 2) then mret true
      else _ ← send_ping pid; check_looks seconds pongs pid
  end.

Definition peer_checkAlive (now : time) (pongs : option Z * option Z * option Z) (pid : nat) : GoM PeerMap ws_error bool :=
  check_looks (Unix now) [pongs.1.1; pongs.1.2; pongs.2] pid.

(** [SetIfAbsent], as one step.  The lock is free while the old connection is looked
    at, so that of two newcomers with one identifier that look at the same time the
    second takes the place of the first; that is not modelled. *)
Definition SetIfAbsent (now : time) (pongs : option Z * option Z * option Z) (network peerID : bytes) (pid : nat) :
    GoM PeerMap ws_error bool :=
  ctx ← gets (getNetwork network);
  match ctx with
  | None => panic
  | Some ctx =>
      alive ← match peers ctx !! peerID with
              | Some p1 => peer_checkAlive now pongs p1
              | None => mret false
              end;
      if (alive : bool) then mret false
      else
        _ ← modify (fun s => set_networkMap (alter (fun ctx => set_peers (<[peerID := pid]> (peers ctx)) ctx)
                                               network (networkMap s)) s);
        mret true
  end.

(** ** Connecting *)

(** [start]: [keepalive] notes the time, and the peer is led to the others unless
    it or they are silent, or the network is the public one. *)
Definition start (now : time) (pid : nat) : GoM PeerMap ws_error unit :=
  _ ← update pid (set_p_activeTime (Unix now));
  p ← deref pid;
  c ← gets cfg;
  if vals_Has (metadata p) (bs "silenceMode") then mret tt
  else if bool_decide (PublicNetwork c = js_Network (networkSecret p)) then mret tt
  else
    ctx ← gets (getNetwork (js_Network (networkSecret p)));
    match ctx with
    | None => panic
    | Some ctx =>
        for_each (other_peers (p_id p) ctx) (fun k =>
          v ← deref k;
          if vals_Has (metadata v) (bs "silenceMode") then mret tt else leadDisco pid k)
    end.

(** A request: its header, and the connection that the upgrader makes of it. *)
Record request := MkRequest { rq_header : gmap bytes bytes; rq_upgrade : option nat }.
Inductive reply :=
| Forbidden (e : Error)
| ServerError
| Switching (h : gmap bytes bytes).

(** The text of an error of [url.ParseQuery], the encoding of the STUN list. *)
Context (query_error : bytes -> bytes) (encode_stuns : list bytes -> bytes).

Definition limiter_of (r : RateLimiterConfig -> RateLimiter) (c : Config) : option limiter :=
  match RateLimits c with
  | Some rl => if bool_decide (rl_Limit (r rl) > 0) then Some (Limiter (rl_Limit (r rl)) (rl_Burst (r rl))) else None
  | None => None
  end.

Definition upgradeHeader (nonce : bytes) (c : Config) : gmap bytes bytes :=
  let h := {[bs "X-Nonce" := nonce]} in
  let h := <[bs "X-STUNs" := encode_stuns (STUNs c)]> h in
  let h := match limiter_of Relay c with
           | Some l => <[bs "X-Limiter-Limit" := Itoa (lim_Limit l)]> (<[bs "X-Limiter-Burst" := Itoa (lim_Burst l)]> h)
           | None => h
           end in
  match limiter_of StreamR c with
  | Some l => <[bs "X-Limiter-Stream-Limit" := Itoa (lim_Limit l)]>
                (<[bs "X-Limiter-Stream-Burst" := Itoa (lim_Burst l)]> h)
  | None => h
  end.

(** The secret that a request presents, [None] when it is refused. *)
Definition authenticate (now : time) (secret : bytes) (c : Config) : option JSONSecret :=
  if bool_decide (PublicNetwork c = [] \/ PublicNetwork c <> secret) then
    match ParseSecret a now secret with
    | (s, None) => Some s
    | (_, Some _) => None
    end
  else Some (MkJSONSecret secret false [] [] MaxInt64).

Definition ensureNetwork (now : time) (network : bytes) (s : PeerMap) : PeerMap :=
  match networkMap s !! network with
  | Some _ => s
  | None => set_networkMap (<[network := newNetworkContext network now zero_time [] []]> (networkMap s)) s
  end.

Definition newPeer (secret : JSONSecret) (id : bytes) (nonce : byte) (meta : Values) (c : Config) : peerConn :=
  MkPeerConn None false make_chan secret (js_Network secret) (MkStat 0 0 0) meta 0 id nonce
    (limiter_of Relay c) (limiter_of StreamR c) (limiter_of StreamW c) make_chan None.

Definition alloc (p : peerConn) : GoM PeerMap ws_error nat := fun s =>
  let pid := fresh (dom (conns s)) in (Ok pid, set_conns (<[pid := p]> (conns s)) s).

(** What follows the upgrade. *)
Definition finish_connect (now : time) (rq : request) (pid : nat) : GoM PeerMap ws_error reply :=
  match rq_upgrade rq with
  | None => mret ServerError
  | Some conn =>
      _ ← update pid (set_p_conn (Some conn));
      _ ← start now pid;
      c ← gets cfg;
      mret (Switching (upgradeHeader (hget (rq_header rq) (bs "X-Nonce")) c))
  end.

Definition HandlePeerPacketConnect (now : time) (pongs : option Z * option Z * option Z) (rq : request) :
    GoM PeerMap ws_error reply :=
  let h := rq_header rq in
  let secret := if bool_decide (hget h (bs "X-Secret") = []) then hget h (bs "X-Network") else hget h (bs "X-Secret") in
  c ← gets cfg;
  match authenticate now secret c with
  | None => mret (Forbidden ErrNetworkSecretExpired)
  | Some jsonSecret =>
      let network := js_Network jsonSecret in
      let peerID := hget h (bs "X-PeerID") in
      let nonce := MustParseNonce (hget h (bs "X-Nonce")) in
      _ ← modify (ensureNetwork now network);
      _ ← modify (initMeta network (js_Alias jsonSecret) (js_Neighbors jsonSecret)
                    (Add (UnixTime (js_Deadline jsonSecret)) (- SecretValidityPeriod c)));
      let md := hget h (bs "X-Metadata") in
      let '(meta, failed) := if bool_decide (md = []) then (∅, false) else ParseQuery md in
      if (failed : bool) then
        mret (Forbidden (Wrap (Wrap ErrParseMetadataFailed (Langs.Other (query_error md))) (Langs.Other md)))
      else
        pid ← alloc (newPeer jsonSecret peerID nonce meta c);
        ok ← SetIfAbsent now pongs network peerID pid;
        if negb ok then mret (Forbidden ErrAddressAlreadyInuse)
        else
          _ ← modify (fun s => set_peerMap (<[peerID := network]> (peerMap s)) s);
          finish_connect now rq pid
  end.
End Server.

(** ** Queries *)

Section Queries.
(** How [url.URL] writes a host, and the raw query that [url.Parse] finds in a URL. *)
Context (escape_host : bytes -> bytes) (raw_query : bytes -> option bytes).

(** [String] of a peer sets its counters in the metadata first. *)
Definition counted (p : peerConn) : peerConn :=
  let m := vals_Set (metadata p) (bs "rrx") (Itoa (RelayRx (p_stat p))) in
  let m := vals_Set m (bs "stx") (Itoa (StreamTx (p_stat p))) in
  let m := vals_Set m (bs "srx") (Itoa (StreamRx (p_stat p))) in
  set_metadata m p.
Definition peer_String (p : peerConn) : bytes * peerConn :=
  let p := counted p in (bs "pg://" ++ escape_host (p_id p) ++ bs "?" ++ Encode (metadata p), p).

Record NetworkPeers := MkNetworkPeers { np_ID : bytes; np_Alias : bytes; np_Peers : list bytes }.

(** The answer, and the state with the counters in the metadata. *)
Definition HandleQueryNetworkPeers (authorized : bool) (s : PeerMap) : option (list NetworkPeers) * PeerMap :=
  if negb authorized then (None, s)
  else
    let shown (ctx : networkContext) := omap (fun pid => conns s !! pid) (snd <$> map_to_list (peers ctx)) in
    let pids := concat ((fun kv : bytes * networkContext => snd <$> map_to_list (peers kv.2)) <$> map_to_list (networkMap s)) in
    (Some ((fun kv : bytes * networkContext =>
        MkNetworkPeers kv.1 (alias kv.2) ((fun p => (peer_String p).1) <$> shown kv.2))
      <$> map_to_list (networkMap s)),
     fold_left (fun s pid => set_conns (alter counted pid (conns s)) s) pids s).

(** [Peers]: sorted by the name in the query of the URL.  An address that
    [url.Parse] refuses is a panic, once there are two to compare. *)
Definition url_name (u : bytes) : bytes :=
  vals_Get (ParseQuery (default [] (raw_query u))).1 (bs "name").
Definition name_le (u v : bytes) : Prop := str_Compare (url_name u) (url_name v) <= 0.
#[export] Instance name_le_dec u v : Decision (name_le u v).
Proof. unfold name_le. apply _. Defined.

Definition Peers (network : bytes) (s : PeerMap) : res Empty_set (list bytes) :=
  match getNetwork network s with
  | None => Ok []
  | Some ctx =>
      let urls := (fun p => bs "pg://" ++ p_id p ++ bs "?" ++ Encode (metadata p)) <$>
                    omap (fun pid => conns s !! pid) (snd <$> map_to_list (peers ctx)) in
      if (1 <? length urls)%nat && existsb (fun u => match raw_query u with None => true | _ => false end) urls
      then Panic
      else Ok (merge_sort name_le urls)
  end.
End Queries.

Record NetworkHead := MkNetworkHead { nh_ID : bytes; nh_Alias : bytes; nh_PeersCount : nat; nh_CreateTime : bytes }.
Definition unixNano (t : time) : Z := i64 (i64 (i64 (t_sec t - unixToInternal) * Second) + t_nsec t).

Definition HandleQueryNetworks (authorized : bool) (s : PeerMap) : option (list NetworkHead) :=
  if negb authorized then None
  else Some ((fun kv : bytes * networkContext =>
         MkNetworkHead kv.1 (alias kv.2) (peerCount kv.2) (Itoa (unixNano (nc_createTime kv.2))))
       <$> map_to_list (networkMap s)).

Inductive status := OK200 (al : bytes) (ns : list bytes) | Unauthorized401 | NotFound404 | BadRequest400.

Definition HandleGetNetworkMeta (authorized : bool) (network : bytes) (s : PeerMap) : status :=
  if negb authorized then Unauthorized401
  else match getNetwork network s with
       | None => NotFound404
       | Some ctx => OK200 (alias ctx) (neighbors ctx)
       end.

Definition HandlePutNetworkMeta WM a json_secret (rnd : bytes) (now : time) (authorized : bool) (network : bytes)
    (request : option (bytes * list bytes)) : GoM PeerMap ws_error status := fun s =>
  if negb authorized then (Ok Unauthorized401, s)
  else match request with
  | None => (Ok BadRequest400, s)
  | Some (al, ns) =>
      match getNetwork network s with
      | None => (Ok NotFound404, s)
      | Some _ =>
          match updateMeta WM a json_secret rnd now network al ns s with
          | (Ok _, s) => (Ok (OK200 al ns), s)
          | (Err e, s) => (Err e, s)
          | (Panic, s) => (Panic, s)
          end
      end
  end.

(** [New]: defaults, then an empty server. *)
Definition New (hex_key : bytes) (c : Config) : res config_error PeerMap :=
  match ApplyDefaults hex_key c with
  | Ok (c, _) => Ok (MkPeerMap ∅ ∅ ∅ c [])
  | Err e => Err e
  | Panic => Panic
  end.
