(* ===== verification/PeermapFacts.v ===== *)
(** * What the server does with messages: frames, reach, malformed messages

    The quiet operations (everything a message other than a leave can cause) keep
    the identity of every connection and the networks and only append to the log
    of writes; [quiet] is a small logic for them.  The theorems follow from it:
    who can be written to on behalf of a peer, what a relayed message becomes,
    which messages panic. *)

From S2P Require Import Prelude Text Netip Disco Langs Url GoTime Stream Ws Auth Peermap.

(** ** Frames *)

Lemma blit_at {E} pre mid post src lo hi :
  lo = zlen pre -> zlen src = zlen mid ->
  default (zlen (pre ++ mid ++ post)) hi = zlen pre + zlen mid \/ hi = None ->
  @blit E lo hi src (pre ++ mid ++ post) = Ok (pre ++ src ++ post).
Proof.
  intros -> Hs Hh. unfold blit.
  assert (Hh' : zlen pre + zlen mid <= default (zlen (pre ++ mid ++ post)) hi <= zlen (pre ++ mid ++ post)).
  { destruct Hh as [Hh| ->]; [rewrite Hh|simpl]; zlen_lia. }
  pose proof (zlen_nonneg pre). pose proof (zlen_nonneg mid).
  rewrite bool_decide_true by lia.
  rewrite Z.min_r by lia. f_equal.
  assert (Hn : Z.to_nat (zlen src) = length src) by (unfold zlen; lia).
  assert (Hp : Z.to_nat (zlen pre) = length pre) by (unfold zlen; lia).
  rewrite Hn, Hp, take_app_length, take_ge by lia.
  replace (length src) with (length mid) by (unfold zlen in Hs; lia).
  by rewrite <- drop_drop, !drop_app_length.
Qed.

Lemma zlen_repeat {A} (x : A) n : zlen (repeat x n) = Z.of_nat n.
Proof. unfold zlen. by rewrite repeat_length. Qed.

Lemma relay_msg_framed {E} p op id rest sp :
  zlen id <= 253 -> zlen (p_id p) <= 253 ->
  @relay_msg E p (GSlice (framed op id rest) sp) = Ok (framed op (p_id p) rest).
Proof.
  intros Hid Hp. unfold relay_msg. rewrite msg_rest_framed by done. rewrite bind_Ok. cbn [vis].
  cbv zeta. rewrite framed_get0, bind_Ok. unfold Bytes.
  rewrite !repeat_app. set (z := z2b 0).
  rewrite (blit_at [] (repeat z 2) (repeat z (length (p_id p)) ++ repeat z (length rest))) by (auto; done).
  rewrite bind_Ok. cbn [app]. rewrite framed_offset by done.
  pose proof (blit_at (E:=E) [z2b op; Len (p_id p)] (repeat z (length (p_id p))) (repeat z (length rest)) (p_id p)
                2 (Some (2 + zlen (p_id p)))) as Hb.
  cbn [app] in Hb. rewrite Hb; [|done|by rewrite zlen_repeat|left; cbn [default]; rewrite zlen_repeat; unfold zlen; simpl; lia].
  rewrite bind_Ok.
  pose proof (blit_at (E:=E) (z2b op :: Len (p_id p) :: p_id p) (repeat z (length rest)) [] rest
                (2 + zlen (p_id p)) None) as Hc.
  rewrite !app_nil_r in Hc. cbn [app] in Hc. rewrite Hc; [done|zlen_lia|by rewrite zlen_repeat|by right].
Qed.

(** ** A logic for operations that only write *)

Definition ident (p : peerConn) : option nat * bytes * byte * JSONSecret * bytes :=
  (p_conn p, p_id p, p_nonce p, networkSecret p, p_network p).
(** What a quiet operation does not change. *)
Definition view (s : PeerMap) := (networkMap s, peerMap s, ident <$> conns s, cfg s).

Definition quiet {A} (V : _) (Q : ws_out -> Prop) (m : GoM PeerMap ws_error A) (post : A -> Prop) : Prop :=
  forall s, view s = V ->
    view (m s).2 = V /\ (exists log, pm_out (m s).2 = pm_out s ++ log /\ Forall Q log) /\
    (forall x, (m s).1 = Ok x -> post x).

Section Quiet.
Context (V : gmap bytes networkContext * gmap bytes bytes * gmap nat (option nat * bytes * byte * JSONSecret * bytes) * Config).
Context (Q : ws_out -> Prop).

Lemma quiet_ret {A} (x : A) (post : A -> Prop) : post x -> quiet V Q (mret x) post.
Proof. intros Hx s Hs. split; [done|]. split; [exists []; by rewrite app_nil_r|]. intros y [= <-]. done. Qed.

Lemma quiet_panic {A} (post : A -> Prop) : quiet V Q panic post.
Proof. intros s Hs. split; [done|]. split; [exists []; by rewrite app_nil_r|]. done. Qed.

Lemma quiet_lift {A} (r : res ws_error A) (post : A -> Prop) : (forall x, r = Ok x -> post x) -> quiet V Q (lift r) post.
Proof. intros Hr s Hs. split; [done|]. split; [exists []; by rewrite app_nil_r|]. exact Hr. Qed.

Lemma quiet_bind {A B} (m : GoM PeerMap ws_error A) (k : A -> GoM PeerMap ws_error B) (mid : A -> Prop) post :
  quiet V Q m mid -> (forall x, mid x -> quiet V Q (k x) post) -> quiet V Q (m ≫= k) post.
Proof.
  intros Hm Hk s Hs. destruct (Hm s Hs) as (Hv & (l1 & Hl1 & Hq1) & Hp).
  unfold mbind, gom_bind. destruct (m s) as [[x|e|] s1]; cbn [fst snd] in *.
  - destruct (Hk x (Hp x eq_refl) s1 Hv) as (Hv' & (l2 & Hl2 & Hq2) & Hp').
    split; [done|]. split; [|done]. exists (l1 ++ l2). rewrite Hl2, Hl1, app_assoc. split; [done|]. by apply Forall_app.
  - split; [done|]. split; [by exists l1|done].
  - split; [done|]. split; [by exists l1|done].
Qed.

Lemma quiet_weaken {A} (m : GoM PeerMap ws_error A) (post post' : A -> Prop) :
  quiet V Q m post -> (forall x, post x -> post' x) -> quiet V Q m post'.
Proof. intros Hm Hp s Hs. destruct (Hm s Hs) as (? & ? & ?). split_and!; [done|done|]. eauto. Qed.

Lemma quiet_ignore {A} (m : GoM PeerMap ws_error A) post : quiet V Q m post -> quiet V Q (ignore m) (fun _ => True).
Proof.
  intros Hm s Hs. destruct (Hm s Hs) as (? & ? & ?). unfold ignore. by destruct (m s) as [[x|e|] s1].
Qed.

Lemma quiet_for_each {A} (l : list A) f :
  (forall x, x ∈ l -> quiet V Q (f x) (fun _ => True)) -> quiet V Q (for_each l f) (fun _ => True).
Proof.
  induction l as [|x l IH]; intros Hl; [by apply quiet_ret|]. cbn [for_each].
  apply (quiet_bind _ _ (fun _ => True)); [apply Hl; by left|]. intros _ _. apply IH. intros y Hy. apply Hl. by right.
Qed.

Lemma view_lookup s pid p : view s = V -> conns s !! pid = Some p -> V.1.2 !! pid = Some (ident p).
Proof. intros <- Hp. simpl. by rewrite lookup_fmap, Hp. Qed.

Lemma quiet_deref pid :
  quiet V Q (deref pid) (fun p => V.1.2 !! pid = Some (ident p)).
Proof.
  intros s Hs. unfold deref. destruct (conns s !! pid) as [p|] eqn:Hp;
    (split; [done|]; split; [exists []; by rewrite app_nil_r|]).
  - intros x [= <-]. by eapply view_lookup.
  - done.
Qed.

Lemma quiet_update pid f : (forall p, ident (f p) = ident p) -> quiet V Q (update pid f) (fun _ => True).
Proof.
  intros Hf s Hs. unfold update, modify. cbn [fst snd]. split; [|split; [exists []; by rewrite app_nil_r|done]].
  rewrite <- Hs. unfold view. simpl. f_equal. f_equal. apply map_eq. intros i.
  rewrite !lookup_fmap. destruct (decide (i = pid)) as [->|Hne].
  - rewrite lookup_alter_eq. destruct (conns s !! pid) as [p|]; simpl; [by rewrite Hf|done].
  - by rewrite lookup_alter_ne.
Qed.

(** Reading networks and configuration. *)
Lemma quiet_gets {A} (f : PeerMap -> A) (post : A -> Prop) :
  (forall s, view s = V -> post (f s)) -> quiet V Q (gets f) post.
Proof.
  intros Hf s Hs. unfold gets. cbn [fst snd]. split; [done|]. split; [exists []; by rewrite app_nil_r|].
  intros x [= <-]. by apply Hf.
Qed.

Context (WM : list ws_out -> nat -> Z -> bytes -> option ws_error).

(** A write to a peer is allowed when its connection is. *)
Definition may_write (pid : nat) : Prop :=
  forall conn i n sec net, V.1.2 !! pid = Some (Some conn, i, n, sec, net) ->
    forall data, Q (OutMessage conn BinaryMessage data).

Lemma quiet_write pid b : may_write pid -> quiet V Q (peer_write WM pid b) (fun _ => True).
Proof.
  intros Hw. apply (quiet_bind _ _ _ _ (quiet_deref pid)). intros p Hp.
  destruct (p_conn p) as [conn|] eqn:Hc; [|apply quiet_panic].
  intros s Hs. unfold peer_writeWS. unfold ident in Hp. rewrite Hc in Hp.
  destruct (WM (pm_out s) conn BinaryMessage _); cbn [fst snd];
    (split; [done|]; split; [|done]; eexists; split; [reflexivity|]; constructor; [|constructor]; by eapply Hw).
Qed.

Lemma quiet_leadDisco pid target : may_write pid -> may_write target -> quiet V Q (leadDisco WM pid target) (fun _ => True).
Proof.
  intros Hp Ht. apply (quiet_bind _ _ _ _ (quiet_deref pid)). intros p _.
  apply (quiet_bind _ _ (fun _ => True)); [by eapply quiet_ignore, quiet_write|]. intros _ _.
  apply (quiet_bind _ _ _ _ (quiet_deref target)). intros t _. by eapply quiet_ignore, quiet_write.
Qed.

Lemma quiet_relayTo pid target b : may_write target -> quiet V Q (relayTo WM pid target b) (fun _ => True).
Proof.
  intros Ht. apply (quiet_bind _ _ _ _ (quiet_deref pid)). intros p _.
  apply (quiet_bind _ _ (fun _ => True)); [by apply quiet_lift|]. intros bb _.
  apply (quiet_bind _ _ (fun _ => True)); [by eapply quiet_ignore, quiet_write|]. intros _ _.
  by apply quiet_update.
Qed.

Lemma other_peers_in id ctx k : k ∈ other_peers id ctx -> exists i, i <> id /\ peers ctx !! i = Some k.
Proof.
  unfold other_peers. intros ([i k'] & -> & Hin)%list_elem_of_fmap.
  apply list_elem_of_filter in Hin as [Hne Hin]. apply elem_of_map_to_list in Hin. by exists i.
Qed.

Lemma quiet_broadcast pid p b :
  V.1.2 !! pid = Some (ident p) ->
  (forall ctx i k, V.1.1.1 !! js_Network (networkSecret p) = Some ctx -> peers ctx !! i = Some k -> may_write k) ->
  quiet V Q (broadcast WM pid b) (fun _ => True).
Proof.
  intros HV Hw. apply (quiet_bind _ _ _ _ (quiet_deref pid)). intros p' Hp'.
  assert (networkSecret p' = networkSecret p) as Heq by (unfold ident in *; congruence).
  apply (quiet_bind _ _ (fun o => forall ctx, o = Some ctx -> V.1.1.1 !! js_Network (networkSecret p) = Some ctx)).
  { apply quiet_gets. intros s <- ctx. unfold getNetwork. by rewrite Heq. }
  intros [ctx|] Hctx; [|apply quiet_panic].
  apply quiet_for_each. intros k (i & _ & Hk)%other_peers_in.
  eapply quiet_ignore, quiet_write, Hw; [by apply Hctx|exact Hk].
Qed.
End Quiet.

(** ** Operations that do not panic *)

Definition any (_ : ws_out) : Prop := True.
Definition safe {A} V (m : GoM PeerMap ws_error A) : Prop := forall s, view s = V -> (m s).1 <> Panic.

Section Safe.
Context (V : gmap bytes networkContext * gmap bytes bytes * gmap nat (option nat * bytes * byte * JSONSecret * bytes) * Config).
Context (WM : list ws_out -> nat -> Z -> bytes -> option ws_error).

(** Every connection of the arena has completed its upgrade. *)
Definition upgraded : Prop := forall q i, V.1.2 !! q = Some i -> i.1.1.1.1 <> None.

Lemma safe_ret {A} (x : A) : safe V (mret x).
Proof. by intros s _. Qed.
Lemma safe_gets {A} (f : PeerMap -> A) : safe V (gets f).
Proof. by intros s _. Qed.
Lemma safe_update pid f : safe V (update pid f).
Proof. by intros s _. Qed.

Lemma safe_bind {A B} (m : GoM PeerMap ws_error A) (k : A -> GoM PeerMap ws_error B) mid :
  safe V m -> quiet V any m mid -> (forall x, mid x -> safe V (k x)) -> safe V (m ≫= k).
Proof.
  intros Hs Hm Hk s Hv. specialize (Hs s Hv). destruct (Hm s Hv) as (Hv1 & _ & Hp). rewrite gom_bind_run.
  destruct (m s) as [[x|e|] s1]; cbn [fst snd] in *; [|done..]. by apply (Hk x (Hp x eq_refl)).
Qed.

Lemma safe_ignore {A} (m : GoM PeerMap ws_error A) : safe V m -> safe V (ignore m).
Proof. intros Hs s Hv. specialize (Hs s Hv). unfold ignore. by destruct (m s) as [[x|e|] s1]. Qed.

Lemma safe_for_each {A} (l : list A) f :
  (forall x, x ∈ l -> safe V (f x) /\ quiet V any (f x) (fun _ => True)) -> safe V (for_each l f).
Proof.
  induction l as [|x l IH]; intros Hl; [apply safe_ret|]. cbn [for_each].
  apply (safe_bind _ _ (fun _ => True)); [apply Hl; by left|apply Hl; by left|]. intros _ _. apply IH.
  intros y Hy. apply Hl. by right.
Qed.

Lemma safe_deref pid : is_Some (V.1.2 !! pid) -> safe V (deref pid).
Proof.
  intros [i Hi] s <-. simpl in Hi. rewrite lookup_fmap in Hi. unfold deref.
  by destruct (conns s !! pid).
Qed.

Lemma any_write pid : may_write V any pid.
Proof. by intros conn i n sec net _ data. Qed.

Lemma safe_write pid b : upgraded -> is_Some (V.1.2 !! pid) -> safe V (peer_write WM pid b).
Proof.
  intros Hup Hpid. apply (safe_bind _ _ _ (safe_deref pid Hpid) (quiet_deref V any pid)).
  intros p Hp. specialize (Hup pid _ Hp). unfold ident in Hup. simpl in Hup.
  destruct (p_conn p) as [conn|]; [|done]. intros s _. unfold peer_writeWS. by destruct (WM _ _ _ _).
Qed.

Lemma safe_leadDisco pid t :
  upgraded -> is_Some (V.1.2 !! pid) -> is_Some (V.1.2 !! t) -> safe V (leadDisco WM pid t).
Proof.
  intros Hup Hp Ht. apply (safe_bind _ _ _ (safe_deref pid Hp) (quiet_deref V any pid)). intros p _.
  apply (safe_bind _ _ (fun _ => True)); [by apply safe_ignore, safe_write|by eapply quiet_ignore, quiet_write, any_write|].
  intros _ _. apply (safe_bind _ _ _ (safe_deref t Ht) (quiet_deref V any t)). intros q _.
  by apply safe_ignore, safe_write.
Qed.

Lemma safe_broadcast pid p ctx b :
  upgraded -> V.1.2 !! pid = Some (ident p) -> V.1.1.1 !! js_Network (networkSecret p) = Some ctx ->
  (forall id q, peers ctx !! id = Some q -> is_Some (V.1.2 !! q)) ->
  safe V (broadcast WM pid b).
Proof.
  intros Hup HV Hctx Hall. apply (safe_bind _ _ _ (safe_deref pid (mk_is_Some _ _ HV)) (quiet_deref V any pid)).
  intros p' Hp'. assert (networkSecret p' = networkSecret p) as Heq by (unfold ident in *; congruence).
  apply (safe_bind _ _ (fun o => o = Some ctx)); [apply safe_gets| |].
  { apply quiet_gets. intros s <-. unfold getNetwork. by rewrite Heq. }
  intros o ->. apply safe_for_each. intros k (i & _ & Hk)%other_peers_in.
  split; [apply safe_ignore, safe_write; [done|by eapply Hall]|by eapply quiet_ignore, quiet_write, any_write].
Qed.
End Safe.

(** ** Reach of a peer *)

(** The peers that the members of a network can address: its own, and those of the
    networks it lists as neighbours. *)
Definition in_reach (s : PeerMap) (network : bytes) (q : nat) : Prop :=
  exists ctx, networkMap s !! network = Some ctx /\
    ((exists id, peers ctx !! id = Some q) \/
     (exists n ctx' id, n ∈ neighbors ctx /\ networkMap s !! n = Some ctx' /\ peers ctx' !! id = Some q)).

(** Networks are registered under their own identifier. *)
Definition ids_ok (m : gmap bytes networkContext) : Prop := map_Forall (fun n ctx => nc_id ctx = n) m.

Lemma getPeer_in_reach s network id q :
  ids_ok (networkMap s) -> getPeer network id s = Some q -> in_reach s network q.
Proof.
  intros Hid. unfold getPeer, getNetwork, in_reach.
  destruct (networkMap s !! network) as [ctx|] eqn:Hn; [|done]. simpl. unfold nc_getPeer.
  destruct (peers ctx !! id) as [pid|] eqn:Hp.
  { intros [= <-]. exists ctx. split; [done|]. left. by exists id. }
  destruct (peerMap s !! id) as [nn|] eqn:Hm; simpl; [|done].
  destruct (networkMap s !! nn) as [ctx'|] eqn:Hn'; simpl; [|done].
  case_bool_decide as Hin; [|done]. intros Hq.
  exists ctx. split; [done|]. right. exists nn, ctx', id. by rewrite (Hid nn ctx' Hn') in Hin.
Qed.

Lemma getPeer_view s s' network id : view s' = view s -> getPeer network id s' = getPeer network id s.
Proof. unfold view, getPeer, getNetwork. intros [= -> -> _ _]. done. Qed.

(** The writes that a message of [pid] can cause. *)
Definition allowed (s : PeerMap) (network : bytes) (pid : nat) (o : ws_out) : Prop :=
  exists q pq conn data, o = OutMessage conn BinaryMessage data /\ conns s !! q = Some pq /\
    p_conn pq = Some conn /\ (q = pid \/ in_reach s network q).

Lemma may_write_allowed s network pid q :
  q = pid \/ in_reach s network q -> may_write (view s) (allowed s network pid) q.
Proof.
  intros Hq conn i n sec net Hv data. simpl in Hv. rewrite lookup_fmap in Hv.
  destruct (conns s !! q) as [pq|] eqn:Hpq; [|done]. simpl in Hv. unfold ident in Hv.
  exists q, pq, conn, data. split; [done|]. split; [done|]. split; [congruence|done].
Qed.

Lemma quiet_handleMessage WM jn s pid p now mt b :
  ids_ok (networkMap s) -> conns s !! pid = Some p ->
  quiet (view s) (allowed s (js_Network (networkSecret p)) pid) (handleMessage WM jn pid now mt b) (fun _ => True).
Proof.
  intros Hids Hp. set (V := view s). set (net := js_Network (networkSecret p)).
  assert (HV : V.1.2 !! pid = Some (ident p)) by (simpl; by rewrite lookup_fmap, Hp).
  assert (Hself : may_write V (allowed s net pid) pid) by (apply may_write_allowed; by left).
  apply (quiet_bind _ _ _ _ _ _ (quiet_deref V _ pid)). intros p' Hp'.
  assert (Hn' : networkSecret p' = networkSecret p) by (unfold ident in *; congruence).
  apply (quiet_bind _ _ _ _ (fun _ => True)); [by apply quiet_update|]. intros _ _.
  destruct (bool_decide (mt <> BinaryMessage)); [by apply quiet_ret|]. cbv zeta.
  set (b' := GSlice _ _).
  apply (quiet_bind _ _ _ _ (fun _ => True)); [by apply quiet_lift|]. intros b0 _.
  destruct (bool_decide (b2z b0 = CONTROL_CONN)).
  { apply (quiet_bind _ _ _ _ (fun _ => True)); [by apply quiet_lift|]. intros body _.
    apply (quiet_bind _ _ _ _ _ _ (quiet_deref V _ pid)). intros p2 _.
    apply (quiet_bind _ _ _ _ (fun _ => True)); [by apply quiet_lift|]. intros c _. by apply quiet_update. }
  destruct (bool_decide (b2z b0 = CONTROL_UPDATE_NAT_INFO)).
  { apply (quiet_bind _ _ _ _ (fun _ => True)); [by apply quiet_lift|]. intros body _.
    destruct (jn (vis body)) as [ni|]; [|by apply quiet_ret].
    apply (quiet_bind _ _ _ _ (fun _ => True)); [by apply quiet_update|]. intros _ _.
    apply (quiet_bind _ _ _ _ _ _ (quiet_deref V _ pid)). intros p2 Hp2.
    apply (quiet_broadcast V _ WM pid p); [done|].
    intros ctx i k Hctx Hk. apply may_write_allowed. right. exists ctx. split; [exact Hctx|]. left. by exists i. }
  apply (quiet_bind _ _ _ _ (fun _ => True)); [by apply quiet_lift|]. intros tgt _.
  apply (quiet_bind _ _ _ _ (fun o => forall q, o = Some q -> in_reach s net q)).
  { apply quiet_gets. intros s' Hs' q Hq. rewrite (getPeer_view s s'), Hn' in Hq by done. by eapply getPeer_in_reach. }
  intros [q|] Hq; [|by apply quiet_ret]. specialize (Hq q eq_refl).
  assert (Hwq : may_write V (allowed s net pid) q) by (apply may_write_allowed; by right).
  destruct (bool_decide (b2z b0 = CONTROL_LEAD_DISCO)); [by apply quiet_leadDisco|by apply quiet_relayTo].
Qed.

(** ** The stream of a peer

    The server's end of the byte stream keeps the promises of [FrameReader]. *)

#[export] Instance peer_reader : FrameReader peerConn := {
  fr_pending p := default [] (p_connBuf p) ++ concat (queue (p_connData p));
  fr_size p := (length (queue (p_connData p)) + if p_connBuf p then 1 else 0)%nat;
  fr_push x p p' := exists c, @chan_send Empty_set _ x (p_connData p) = Ok c /\ p' = set_p_connData c p;
  fr_read n p x p' := ((x, None), p') ∈ peer_Read n p
}.

Lemma peer_Read_cases n p x p' :
  ((x, None), p') ∈ peer_Read n p ->
  (exists b, p_connBuf p = Some b /\ x = (copy_out n b).1 /\ p_connBuf p' = (copy_out n b).2 /\ p_connData p' = p_connData p) \/
  (exists b q, p_connBuf p = None /\ queue (p_connData p) = b :: q /\ x = (copy_out n b).1 /\
    p_connBuf p' = (copy_out n b).2 /\ p_connData p' = Chan q (closed (p_connData p))).
Proof.
  unfold peer_Read. destruct (p_connBuf p) as [b|].
  - destruct (copy_out n b) as [y rest] eqn:E. rewrite list_elem_of_singleton. intros [= -> ->].
    left. exists b. by rewrite E.
  - unfold chan_recv. destruct (queue (p_connData p)) as [|b q] eqn:Hq.
    + destruct (closed (p_connData p)); [rewrite list_elem_of_singleton; done|by intros ?%elem_of_nil].
    + destruct (copy_out n b) as [y rest] eqn:E. rewrite list_elem_of_singleton. intros [= -> ->].
      right. exists b, q. by rewrite E.
Qed.

#[export] Instance peer_reader_laws : FrameReaderLaws peerConn.
Proof.
  constructor.
  - intros x p p' (c & Hc & ->). simpl. unfold chan_send in Hc. destruct (closed (p_connData p)); [done|].
    injection Hc as <-. simpl. rewrite concat_app. simpl. by rewrite app_nil_r, app_assoc.
  - intros n p x p' Hn. simpl. intros [(b & Hb & -> & H1 & H2)|(b & q & Hb & Hq & -> & H1 & H2)]%peer_Read_cases;
      rewrite Hb, H1, H2; (split; [|by apply copy_out_le]); simpl.
    + rewrite app_assoc. f_equal. by apply copy_out_split.
    + rewrite Hq. simpl. rewrite app_assoc. f_equal. by apply copy_out_split.
  - intros n p Hn Hne. simpl in *. unfold peer_Read. destruct (p_connBuf p) as [b|] eqn:Hb.
    + pose proof (copy_out_progress n b Hn) as Hp. destruct (copy_out n b) as [y rest]. cbn [fst snd] in *.
      eexists _, _. split; [by left|]. destruct rest as [r|]; simpl; (split; [lia|]); [left|right; lia]. by destruct Hp.
    + destruct (queue (p_connData p)) as [|b q] eqn:Hq; [done|]. unfold chan_recv. rewrite Hq.
      pose proof (copy_out_progress n b Hn) as Hp. destruct (copy_out n b) as [y rest]. cbn [fst snd] in *.
      eexists _, _. split; [by left|]. destruct rest as [r|]; simpl; (split; [lia|]); [left|right; lia]. by destruct Hp.
Qed.

(** ** Properties *)

(** C15. Isolation of networks: whatever bytes a peer sends, the server registers
    and removes nobody because of them, and every message it writes because of
    them goes to the connection of that peer, of a peer of its network, or of a
    peer of a network that its network lists as a neighbour. *)
Theorem messages_stay_in_reach WM jn s pid p now mt b :
  ids_ok (networkMap s) -> conns s !! pid = Some p ->
  let s' := (handleMessage WM jn pid now mt b s).2 in
  networkMap s' = networkMap s /\ peerMap s' = peerMap s /\
  exists log, pm_out s' = pm_out s ++ log /\ Forall (allowed s (js_Network (networkSecret p)) pid) log.
Proof.
  intros Hids Hp s'. destruct (quiet_handleMessage WM jn s pid p now mt b Hids Hp s eq_refl) as (Hv & Hlog & _).
  unfold view in Hv. injection Hv as Hn Hm _ _. done.
Qed.
