(* ===== verification/PeermapInv.v ===== *)
(** * The invariant of the server

    [wf] ties the arena of connections, the networks and the index of identifiers
    together; [server_step] is one operation of the server, run to its end or to
    its panic, and every state that is reached from a new server is well-formed. *)

From S2P Require Import Prelude Text Netip Disco Langs Url GoTime Stream Ws Auth Peermap PeermapFacts.

(** ** The invariant *)

Record registered (s : PeerMap) (n id : bytes) (pid : nat) (p : peerConn) : Prop := {
  reg_lookup : conns s !! pid = Some p;
  reg_id : p_id p = id;
  reg_network : p_network p = n;
  reg_open : p_closed p = false
}.

Record wf (s : PeerMap) : Prop := {
  wf_ids : ids_ok (networkMap s);
  wf_peers n ctx id pid :
    networkMap s !! n = Some ctx -> peers ctx !! id = Some pid -> exists p, registered s n id pid p;
  wf_index id n : peerMap s !! id = Some n -> is_Some (networkMap s !! n);
  wf_conns pid p : conns s !! pid = Some p ->
    js_Network (networkSecret p) = p_network p /\ is_Some (networkMap s !! p_network p)
}.

(** An update of one connection that keeps what the invariant reads. *)
Definition same_place (p q : peerConn) : Prop :=
  p_id q = p_id p /\ p_network q = p_network p /\ p_closed q = p_closed p /\
  js_Network (networkSecret q) = js_Network (networkSecret p).

Lemma wf_alter s pid f :
  (forall p, conns s !! pid = Some p -> same_place p (f p)) -> wf s -> wf (set_conns (alter f pid (conns s)) s).
Proof.
  intros Hf W. destruct W as [Wi Wp Wx Wc]. constructor; simpl; [done| |done|].
  - intros n ctx id pid' Hn Hid. destruct (Wp n ctx id pid' Hn Hid) as [p [Hl Hpid Hnet Ho]].
    destruct (decide (pid' = pid)) as [->|Hne].
    + destruct (Hf p Hl) as (E1 & E2 & E3 & _). exists (f p).
      constructor; simpl; [by rewrite lookup_alter_eq, Hl|congruence..].
    + exists p. constructor; simpl; [by rewrite lookup_alter_ne|done..].
  - intros pid' p Hl. destruct (decide (pid' = pid)) as [->|Hne].
    + rewrite lookup_alter_eq in Hl. apply fmap_Some in Hl as (p0 & Hl & ->).
      destruct (Hf p0 Hl) as (E1 & E2 & E3 & E4). rewrite E2, E4. by apply (Wc pid).
    + rewrite lookup_alter_ne in Hl by done. by apply (Wc pid').
Qed.

Lemma wf_add_pm_out s x : wf s -> wf (add_pm_out x s).
Proof.
  intros [Wi Wp Wx Wc]. constructor; [exact Wi| |exact Wx|exact Wc].
  intros n ctx id pid Hn Hid. destruct (Wp n ctx id pid Hn Hid) as [p [? ? ? ?]]. exists p. by constructor.
Qed.

(** Changes of the networks that keep their members, or lose some. *)
Lemma wf_networks s m :
  ids_ok m ->
  (forall n ctx, m !! n = Some ctx -> exists ctx', networkMap s !! n = Some ctx' /\
     forall id pid, peers ctx !! id = Some pid -> peers ctx' !! id = Some pid) ->
  (forall n, is_Some (networkMap s !! n) -> is_Some (m !! n)) ->
  wf s -> wf (set_networkMap m s).
Proof.
  intros Hi Hsub Hdom [Wi Wp Wx Wc]. constructor; simpl; [done| | |].
  - intros n ctx id pid Hn Hid. destruct (Hsub n ctx Hn) as (ctx' & Hn' & Hs).
    destruct (Wp n ctx' id pid Hn' (Hs _ _ Hid)) as [p [? ? ? ?]]. exists p. by constructor.
  - intros id n Hx. apply Hdom. by eapply Wx.
  - intros pid p Hl. destruct (Wc pid p Hl) as [? ?]. split; [done|]. by apply Hdom.
Qed.

Lemma wf_alter_network s n f :
  (forall ctx, nc_id (f ctx) = nc_id ctx) ->
  (forall ctx id pid, peers (f ctx) !! id = Some pid -> peers ctx !! id = Some pid) ->
  wf s -> wf (set_networkMap (alter f n (networkMap s)) s).
Proof.
  intros Hid Hsub W. apply wf_networks; [| | |done].
  - intros n' ctx Hl. destruct (decide (n' = n)) as [->|Hne].
    + rewrite lookup_alter_eq in Hl. apply fmap_Some in Hl as (ctx0 & Hl & ->). rewrite Hid. by apply (wf_ids s W).
    + rewrite lookup_alter_ne in Hl by done. by apply (wf_ids s W).
  - intros n' ctx Hl. destruct (decide (n' = n)) as [->|Hne].
    + rewrite lookup_alter_eq in Hl. apply fmap_Some in Hl as (ctx0 & Hl & ->). exists ctx0. split; [done|]. apply Hsub.
    + rewrite lookup_alter_ne in Hl by done. by exists ctx.
  - intros n' [ctx Hl]. destruct (decide (n' = n)) as [->|Hne].
    + rewrite lookup_alter_eq, Hl. by eexists.
    + rewrite lookup_alter_ne by done. by exists ctx.
Qed.

Lemma wf_delete_index s id : wf s -> wf (set_peerMap (delete id (peerMap s)) s).
Proof.
  intros [Wi Wp Wx Wc]. constructor; [exact Wi| | |exact Wc].
  - intros n ctx i pid Hn Hid. destruct (Wp n ctx i pid Hn Hid) as [p [? ? ? ?]]. exists p. by constructor.
  - intros i n. simpl. rewrite lookup_delete_Some. intros [_ Hi]. by eapply Wx.
Qed.

(** ** Operations that keep it *)

Definition keeps {A} (m : GoM PeerMap ws_error A) : Prop := forall s, wf s -> wf (m s).2.

Lemma keeps_ret {A} (x : A) : keeps (mret x).
Proof. by intros s W. Qed.
Lemma keeps_panic {A} : keeps (@panic PeerMap ws_error A).
Proof. by intros s W. Qed.
Lemma keeps_lift {A} (r : res ws_error A) : keeps (lift r).
Proof. by intros s W. Qed.
Lemma keeps_gets {A} (f : PeerMap -> A) : keeps (gets f).
Proof. by intros s W. Qed.
Lemma keeps_deref pid : keeps (deref pid).
Proof. intros s W. unfold deref. by destruct (conns s !! pid). Qed.
Lemma keeps_bind {A B} (m : GoM PeerMap ws_error A) (k : A -> GoM PeerMap ws_error B) :
  keeps m -> (forall x, keeps (k x)) -> keeps (m ≫= k).
Proof.
  intros Hm Hk s W. specialize (Hm s W). unfold mbind, gom_bind.
  destruct (m s) as [[x|e|] s1]; [by apply Hk|done|done].
Qed.
Lemma keeps_modify f : (forall s, wf s -> wf (f s)) -> keeps (modify f).
Proof. intros Hf s W. by apply Hf. Qed.
Lemma keeps_ignore {A} (m : GoM PeerMap ws_error A) : keeps m -> keeps (ignore m).
Proof. intros Hm s W. specialize (Hm s W). unfold ignore. by destruct (m s) as [[x|e|] s1]. Qed.
Lemma keeps_for_each {A} (l : list A) f : (forall x, keeps (f x)) -> keeps (for_each l f).
Proof. intros Hf. induction l as [|x l IH]; [apply keeps_ret|]. by apply keeps_bind. Qed.
Lemma keeps_update pid f : (forall p, same_place p (f p)) -> keeps (update pid f).
Proof. intros Hf. apply keeps_modify. intros s W. by apply wf_alter. Qed.
Lemma keeps_log x : keeps (modify (add_pm_out x)).
Proof. apply keeps_modify. intros s. apply wf_add_pm_out. Qed.

#[local] Hint Extern 4 (same_place _ _) => repeat split : keeps.
#[local] Hint Resolve keeps_ret keeps_panic keeps_lift keeps_gets keeps_deref keeps_ignore keeps_for_each
  keeps_update keeps_log : keeps.

(** Walks through the binds and the case analyses of an operation. *)
Ltac keeps :=
  repeat match goal with
  | |- keeps (_ ≫= _) => apply keeps_bind; [|intros ?]
  | |- keeps (if ?b then _ else _) => destruct b
  | |- keeps (match ?o with Some _ => _ | None => _ end) => destruct o
  | |- keeps (match ?o with None => _ | Some _ => _ end) => destruct o
  | |- keeps (for_each _ _) => apply keeps_for_each; intros ?
  | |- keeps (ignore _) => apply keeps_ignore
  | |- keeps _ => solve [auto with keeps]
  end.

Section Ops.
Context (WM : list ws_out -> nat -> Z -> bytes -> option ws_error) (a : codec) (Ha : codec_ok a).
Context (js : NetworkSecret -> bytes) (jn : bytes -> option NATInfo).

Lemma keeps_write pid b : keeps (peer_write WM pid b).
Proof.
  unfold peer_write. keeps. intros s W. unfold peer_writeWS.
  destruct (WM _ _ _ _); simpl; by apply wf_add_pm_out.
Qed.
#[local] Hint Resolve keeps_write : keeps.

Lemma keeps_leadDisco pid t : keeps (leadDisco WM pid t).
Proof. unfold leadDisco. keeps. Qed.
Lemma keeps_relayTo pid t b : keeps (relayTo WM pid t b).
Proof. unfold relayTo. keeps. Qed.
Lemma keeps_broadcast pid b : keeps (broadcast WM pid b).
Proof. unfold broadcast. keeps. Qed.
#[local] Hint Resolve keeps_leadDisco keeps_relayTo keeps_broadcast : keeps.

Lemma keeps_broadcastLeave pid : keeps (broadcastLeave WM pid).
Proof. unfold broadcastLeave. keeps. Qed.
Lemma keeps_close_chan {A} (get : peerConn -> chan A) set pid :
  (forall c p, same_place p (set c p)) -> keeps (close_peer_chan get set pid).
Proof. intros Hs. unfold close_peer_chan. keeps. Qed.
#[local] Hint Resolve keeps_broadcastLeave keeps_close_chan : keeps.

Lemma keeps_updateNATInfo pid b : keeps (updateNATInfo WM jn pid b).
Proof. unfold updateNATInfo, broadcastMeta. keeps. Qed.
Lemma keeps_send_peer_data pid x : keeps (send_peer_data pid x).
Proof. unfold send_peer_data. keeps. Qed.
#[local] Hint Resolve keeps_updateNATInfo keeps_send_peer_data : keeps.

Lemma keeps_handleMessage pid now mt b : keeps (handleMessage WM jn pid now mt b).
Proof. unfold handleMessage. keeps. Qed.

(** Closing marks the connection and takes its identifier out of its network, both
    before anything else can be seen. *)
Lemma wf_close s pid p :
  wf s -> conns s !! pid = Some p ->
  wf (unregister pid p s).
Proof.
  intros W Hp. destruct (wf_conns s W pid p Hp) as [Hnet [ctx0 Hctx0]]. unfold unregister. rewrite Hnet.
  unfold removePeer, getNetwork. change (networkMap (set_conns _ s)) with (networkMap s). rewrite Hctx0.
  apply wf_delete_index. unfold nc_removePeer. simpl.
  destruct W as [Wi Wp Wx Wc]. constructor; simpl.
  - intros n ctx Hl. destruct (decide (n = p_network p)) as [->|Hne].
    + rewrite lookup_alter_eq, Hctx0 in Hl. injection Hl as <-. simpl. by apply Wi.
    + rewrite lookup_alter_ne in Hl by done. by apply Wi.
  - intros n ctx id q Hl Hq.
    assert (Hreg : exists r, registered s n id q r /\ (n = p_network p -> id <> p_id p)).
    { destruct (decide (n = p_network p)) as [->|Hne].
      - rewrite lookup_alter_eq, Hctx0 in Hl. injection Hl as <-. simpl in Hq.
        apply lookup_delete_Some in Hq as [Hne Hq]. destruct (Wp _ _ _ _ Hctx0 Hq) as [r Hr].
        exists r. split; [done|]. by intros _ ->.
      - rewrite lookup_alter_ne in Hl by done. destruct (Wp _ _ _ _ Hl Hq) as [r Hr]. by exists r. }
    destruct Hreg as (r & [Hr Hid Hn Ho] & Hdiff). exists r. constructor; simpl; [|done..].
    rewrite lookup_alter_ne; [done|]. intros <-. rewrite Hp in Hr. injection Hr as <-.
    by apply (Hdiff (eq_sym Hn)).
  - intros id n Hi. apply Wx in Hi as [ctx Hc]. destruct (decide (n = p_network p)) as [->|Hne].
    + rewrite lookup_alter_eq, Hc. by eexists.
    + rewrite lookup_alter_ne by done. by exists ctx.
  - intros q r Hr.
    assert (Hr' : js_Network (networkSecret r) = p_network r /\ is_Some (networkMap s !! p_network r)).
    { destruct (decide (q = pid)) as [->|Hne].
      - rewrite lookup_alter_eq, Hp in Hr. injection Hr as <-. simpl. by apply (Wc pid p).
      - rewrite lookup_alter_ne in Hr by done. by apply (Wc q). }
    destruct Hr' as [E [ctx Hc]]. split; [done|]. destruct (decide (p_network r = p_network p)) as [Heq|Hne].
    + rewrite Heq, lookup_alter_eq. rewrite Heq in Hc. rewrite Hc. by eexists.
    + rewrite lookup_alter_ne by done. by exists ctx.
Qed.

Lemma keeps_shutdown pid p : keeps (shutdown WM pid p).
Proof. unfold shutdown. keeps. Qed.

Lemma keeps_Close pid : keeps (peer_Close WM pid).
Proof.
  intros s W. unfold peer_Close. rewrite deref_bind. destruct (conns s !! pid) as [p|] eqn:Hp; [|done].
  destruct (p_closed p); [done|]. rewrite modify_bind. apply (keeps_shutdown pid p). by apply wf_close.
Qed.
#[local] Hint Resolve keeps_Close : keeps.

Lemma keeps_send_ping pid : keeps (send_ping pid).
Proof. unfold send_ping. keeps. Qed.
#[local] Hint Resolve keeps_send_ping : keeps.

(** A refreshed secret names the same network, since it parses back. *)
Lemma keeps_updateSecret rnd now pid : keeps (updateSecret WM a js rnd now pid).
Proof.
  intros s W. unfold updateSecret. rewrite deref_bind. destruct (conns s !! pid) as [p|] eqn:Hp; [|done].
  rewrite gets_bind. destruct (getNetwork (p_network p) s) as [ctx|]; [|done].
  rewrite gets_bind. set (n := MkNet _ _ _). set (secret := generateSecret a rnd now n false s).
  rewrite gom_bind_run. pose proof (keeps_write pid (z2b CONTROL_UPDATE_NETWORK_SECRET :: js secret) s W) as W1.
  assert (Hc : conns (peer_write WM pid (z2b CONTROL_UPDATE_NETWORK_SECRET :: js secret) s).2 = conns s).
  { unfold peer_write. rewrite deref_bind. destruct (conns s !! pid) as [p0|]; [|done]. destruct (p_conn p0); [|done].
    unfold peer_writeWS. by destruct (WM _ _ _ _). }
  destruct (peer_write _ _ _ s) as [[u|e|] s1]; cbn [fst snd] in *; [|done..].
  unfold update, modify. apply wf_alter; [|done]. rewrite Hc, Hp. intros p' [= <-].
  unfold same_place. split_and!; try done. simpl. unfold secret, generateSecret. cbn [Secret].
  by rewrite ParseSecret_Generate.
Qed.
#[local] Hint Resolve keeps_updateSecret : keeps.

Lemma keeps_updateMeta rnd now n al ns : keeps (updateMeta WM a js rnd now n al ns).
Proof.
  unfold updateMeta. keeps. apply keeps_modify. intros s. by apply wf_alter_network.
Qed.

Lemma keeps_keepalive_tick rnd now pid : keeps (keepalive_tick WM a js rnd now pid).
Proof. unfold keepalive_tick. keeps. Qed.

Lemma keeps_checkAlive now pongs pid : keeps (peer_checkAlive WM now pongs pid).
Proof.
  unfold peer_checkAlive. generalize (Unix now) as t. generalize [pongs.1.1; pongs.1.2; pongs.2] as l.
  induction l as [|o l IH]; intros t; cbn [check_looks]; keeps.
Qed.

Lemma keeps_start now pid : keeps (start WM now pid).
Proof. unfold start. keeps. Qed.
#[local] Hint Resolve keeps_updateMeta keeps_keepalive_tick keeps_checkAlive keeps_start keeps_handleMessage : keeps.

(** ** Connecting *)

Lemma wf_ensureNetwork now n s : wf s -> wf (ensureNetwork now n s).
Proof.
  intros W. unfold ensureNetwork. destruct (networkMap s !! n) as [ctx|] eqn:Hn; [done|].
  destruct W as [Wi Wp Wx Wc]. constructor; simpl.
  - by apply map_Forall_insert_2.
  - intros n' ctx id pid. rewrite lookup_insert_Some. intros [[<- <-]|[Hne Hl]] Hid; [done|].
    destruct (Wp n' ctx id pid Hl Hid) as [p [? ? ? ?]]. exists p. by constructor.
  - intros id n' Hi. rewrite lookup_insert_is_Some. destruct (decide (n = n')); [by left|right; eauto].
  - intros pid p Hl. destruct (Wc pid p Hl) as [? ?]. split; [done|].
    rewrite lookup_insert_is_Some. destruct (decide (n = p_network p)); [by left|by right].
Qed.

Lemma wf_initMeta n al ns t s : wf s -> wf (initMeta n al ns t s).
Proof.
  intros W. apply wf_alter_network; [| |done].
  - intros ctx. by destruct (After _ _).
  - intros ctx id pid. by destruct (After _ _).
Qed.

(** A new connection of a network that exists, before it is registered. *)
Lemma wf_insert_conn s pid p :
  conns s !! pid = None -> js_Network (networkSecret p) = p_network p -> is_Some (networkMap s !! p_network p) ->
  wf s -> wf (set_conns (<[pid := p]> (conns s)) s).
Proof.
  intros Hfresh Hnet Hctx [Wi Wp Wx Wc]. constructor; simpl; [done| |done|].
  - intros n ctx id q Hn Hid. destruct (Wp n ctx id q Hn Hid) as [r [Hr ? ? ?]]. exists r.
    constructor; simpl; [|done..]. rewrite lookup_insert_ne; [done|]. intros ->. by rewrite Hr in Hfresh.
  - intros q r. rewrite lookup_insert_Some. intros [[<- <-]|[_ Hr]]; [done|by apply (Wc q)].
Qed.

(** Registering an open connection under its own identifier in its own network. *)
Lemma wf_register s n id pid p :
  registered s n id pid p -> wf s ->
  wf (set_networkMap (alter (fun ctx => set_peers (<[id := pid]> (peers ctx)) ctx) n (networkMap s)) s).
Proof.
  intros Hreg [Wi Wp Wx Wc]. destruct Hreg as [Hl Hid Hn Ho]. constructor; simpl.
  - intros n' ctx Hc. destruct (decide (n' = n)) as [->|Hne].
    + rewrite lookup_alter_eq in Hc. apply fmap_Some in Hc as (ctx0 & Hc & ->). simpl. by apply Wi.
    + rewrite lookup_alter_ne in Hc by done. by apply Wi.
  - intros n' ctx id' q Hc Hq. destruct (decide (n' = n)) as [->|Hne].
    + rewrite lookup_alter_eq in Hc. apply fmap_Some in Hc as (ctx0 & Hc & ->). simpl in Hq.
      apply lookup_insert_Some in Hq as [[<- <-]|[_ Hq]]; [exists p; by constructor|].
      destruct (Wp n ctx0 id' q Hc Hq) as [r [? ? ? ?]]. exists r. by constructor.
    + rewrite lookup_alter_ne in Hc by done. destruct (Wp n' ctx id' q Hc Hq) as [r [? ? ? ?]]. exists r. by constructor.
  - intros i n' Hi. apply Wx in Hi as [ctx Hc]. destruct (decide (n' = n)) as [->|Hne].
    + rewrite lookup_alter_eq, Hc. by eexists.
    + rewrite lookup_alter_ne by done. by exists ctx.
  - intros q r Hr. destruct (Wc q r Hr) as [E [ctx Hc]]. split; [done|].
    destruct (decide (p_network r = n)) as [Heq|Hne].
    + rewrite Heq, lookup_alter_eq. rewrite Heq in Hc. rewrite Hc. by eexists.
    + rewrite lookup_alter_ne by done. by exists ctx.
Qed.

Lemma wf_set_index s id n : is_Some (networkMap s !! n) -> wf s -> wf (set_peerMap (<[id := n]> (peerMap s)) s).
Proof.
  intros Hn [Wi Wp Wx Wc]. constructor; [exact Wi| | |exact Wc].
  - intros n' ctx i pid Hl Hid. destruct (Wp n' ctx i pid Hl Hid) as [p [? ? ? ?]]. exists p. by constructor.
  - intros i n'. simpl. rewrite lookup_insert_Some. intros [[<- <-]|[_ Hi]]; [done|by eapply Wx].
Qed.

(** ** What closing one connection leaves alone *)

(** The connection [q] is as it was and no network is gone. *)
Definition untouched (q : nat) (s s' : PeerMap) : Prop :=
  conns s' !! q = conns s !! q /\ forall n, is_Some (networkMap s !! n) -> is_Some (networkMap s' !! n).
Definition leaves {A} (q : nat) (m : GoM PeerMap ws_error A) : Prop := forall s, untouched q s (m s).2.

Lemma leaves_ret {A} q (x : A) : leaves q (mret x).
Proof. by intros s. Qed.
Lemma leaves_panic {A} q : leaves q (@panic PeerMap ws_error A).
Proof. by intros s. Qed.
Lemma leaves_lift {A} q (r : res ws_error A) : leaves q (lift r).
Proof. by intros s. Qed.
Lemma leaves_gets {A} q (f : PeerMap -> A) : leaves q (gets f).
Proof. by intros s. Qed.
Lemma leaves_deref q pid : leaves q (deref pid).
Proof. intros s. unfold deref. by destruct (conns s !! pid). Qed.
Lemma leaves_bind {A B} q (m : GoM PeerMap ws_error A) (k : A -> GoM PeerMap ws_error B) :
  leaves q m -> (forall x, leaves q (k x)) -> leaves q (m ≫= k).
Proof.
  intros Hm Hk s. destruct (Hm s) as [H1 H2]. rewrite gom_bind_run.
  destruct (m s) as [[x|e|] s1]; [|done..]. destruct (Hk x s1) as [H3 H4]. split; [by rewrite H3|eauto].
Qed.
Lemma leaves_ignore {A} q (m : GoM PeerMap ws_error A) : leaves q m -> leaves q (ignore m).
Proof. intros Hm s. specialize (Hm s). unfold ignore. by destruct (m s) as [[x|e|] s1]. Qed.
Lemma leaves_for_each {A} q (l : list A) f : (forall x, leaves q (f x)) -> leaves q (for_each l f).
Proof. intros Hf. induction l as [|x l IH]; [apply leaves_ret|]. by apply leaves_bind. Qed.
Lemma leaves_update q pid f : pid <> q -> leaves q (update pid f).
Proof. intros Hne s. split; [|done]. simpl. by rewrite lookup_alter_ne. Qed.
Lemma leaves_log q x : leaves q (modify (add_pm_out x)).
Proof. by intros s. Qed.
Lemma leaves_unregister q pid p : pid <> q -> leaves q (modify (unregister pid p)).
Proof.
  intros Hne s. cbn [snd modify]. unfold modify. cbn [snd]. unfold unregister, removePeer, getNetwork.
  set (s1 := set_conns _ s).
  assert (H1 : conns s1 !! q = conns s !! q) by (simpl; by rewrite lookup_alter_ne).
  destruct (networkMap s1 !! _) as [ctx|] eqn:Hn; [|done]. split; [done|].
  intros n Hs. simpl. destruct (decide (n = js_Network (networkSecret p))) as [->|Hd].
  - rewrite lookup_alter_eq. change (networkMap s1) with (networkMap s) in Hn. rewrite Hn. by eexists.
  - by rewrite lookup_alter_ne.
Qed.

#[local] Hint Resolve leaves_ret leaves_panic leaves_lift leaves_gets leaves_deref leaves_update leaves_log
  leaves_unregister : leaves.
Ltac leaves :=
  repeat match goal with
  | |- leaves _ (_ ≫= _) => apply leaves_bind; [|intros ?]
  | |- leaves _ (if ?b then _ else _) => destruct b
  | |- leaves _ (match ?o with Some _ => _ | None => _ end) => destruct o
  | |- leaves _ (for_each _ _) => apply leaves_for_each; intros ?
  | |- leaves _ (ignore _) => apply leaves_ignore
  | |- leaves _ _ => solve [auto with leaves]
  end.

Lemma leaves_write q pid b : leaves q (peer_write WM pid b).
Proof.
  unfold peer_write. leaves. intros s. unfold peer_writeWS. by destruct (WM _ _ _ _).
Qed.
#[local] Hint Resolve leaves_write : leaves.

Lemma leaves_Close q pid : pid <> q -> leaves q (peer_Close WM pid).
Proof.
  intros Hne. unfold peer_Close, shutdown, close_peer_chan, broadcastLeave, broadcast. leaves.
Qed.
#[local] Hint Resolve leaves_Close : leaves.

Lemma leaves_checkAlive q now pongs pid : pid <> q -> leaves q (peer_checkAlive WM now pongs pid).
Proof.
  intros Hne. unfold peer_checkAlive. generalize (Unix now) as t. generalize [pongs.1.1; pongs.1.2; pongs.2] as l.
  induction l as [|o l IH]; intros t; cbn [check_looks]; unfold send_ping; leaves.
Qed.

(** Registering: the connection is new, so no network knows it yet. *)
Lemma wf_SetIfAbsent now pongs n id pid p s :
  wf s -> registered s n id pid p -> (forall ctx i, networkMap s !! n = Some ctx -> peers ctx !! i <> Some pid) ->
  wf (SetIfAbsent WM now pongs n id pid s).2 /\
  (forall b, (SetIfAbsent WM now pongs n id pid s).1 = Ok b ->
     forall n', is_Some (networkMap s !! n') -> is_Some (networkMap (SetIfAbsent WM now pongs n id pid s).2 !! n')).
Proof.
  intros W Hreg Hnew. unfold SetIfAbsent. rewrite gets_bind.
  destruct (getNetwork n s) as [ctx|] eqn:Hctx; [|done].
  set (m := match peers ctx !! id with Some p1 => peer_checkAlive WM now pongs p1 | None => mret false end).
  assert (Hk : wf (m s).2 /\ untouched pid s (m s).2).
  { unfold m. destruct (peers ctx !! id) as [p1|] eqn:H1; [|done].
    split; [by apply keeps_checkAlive|apply leaves_checkAlive]. intros ->. by apply (Hnew ctx id). }
  rewrite gom_bind_run. destruct Hk as [W1 [Hu1 Hu2]]. destruct (m s) as [[alive|e|] s1]; cbn [fst snd] in *;
    [|done..]. destruct alive; [by split; [|eauto]|].
  rewrite modify_bind. cbn [snd fst mret gom_ret]. split.
  - apply (wf_register s1 n id pid p); [|done]. destruct Hreg. constructor; [by rewrite Hu1|done..].
  - intros b _ n' Hn'. simpl. destruct (decide (n' = n)) as [->|Hne].
    + rewrite lookup_alter_eq. destruct (Hu2 n Hn') as [c ->]. by eexists.
    + rewrite lookup_alter_ne by done. by apply Hu2.
Qed.

Context (qe : bytes -> bytes) (es : list bytes -> bytes).

Lemma keeps_connect now pongs rq : keeps (HandlePeerPacketConnect WM a qe es now pongs rq).
Proof.
  intros s W. unfold HandlePeerPacketConnect. cbv zeta. rewrite gets_bind.
  destruct (authenticate _ _ _ _) as [sec|]; [|done].
  rewrite !modify_bind. set (s1 := initMeta _ _ _ _ _).
  assert (W1 : wf s1) by by apply wf_initMeta, wf_ensureNetwork.
  assert (Hn1 : is_Some (networkMap s1 !! js_Network sec)).
  { unfold s1, initMeta, ensureNetwork. simpl. rewrite lookup_alter_eq.
    destruct (networkMap s !! js_Network sec) as [c|] eqn:Hc; [rewrite Hc; by eexists|].
    simpl. rewrite lookup_insert_eq. by eexists. }
  destruct (if bool_decide _ then _ else _) as [meta [|]]; [done|].
  set (id := hget (rq_header rq) (bs "X-PeerID")). set (p := newPeer sec id _ meta _).
  rewrite gom_bind_run. unfold alloc. set (pid := fresh (dom (conns s1))).
  assert (Hfresh : conns s1 !! pid = None) by (apply not_elem_of_dom, is_fresh).
  set (s2 := set_conns (<[pid := p]> (conns s1)) s1).
  assert (W2 : wf s2) by by apply wf_insert_conn.
  assert (Hreg : registered s2 (js_Network sec) id pid p) by (constructor; [simpl; by rewrite lookup_insert_eq|done..]).
  rewrite gom_bind_run.
  destruct (wf_SetIfAbsent now pongs (js_Network sec) id pid p s2 W2 Hreg) as [W3 Hn3].
  { intros ctx i Hc Hi. destruct (wf_peers s1 W1 _ ctx i pid Hc Hi) as [r [Hr _ _ _]]. by rewrite Hr in Hfresh. }
  destruct (SetIfAbsent _ _ _ _ _ _ s2) as [[ok|e|] s3]; cbn [fst snd] in *; [|done..].
  destruct ok; [|done]. cbn [negb]. rewrite modify_bind.
  assert (W4 : wf (set_peerMap (<[id := js_Network sec]> (peerMap s3)) s3)).
  { apply wf_set_index; [|done]. by apply (Hn3 true). }
  revert W4. generalize (set_peerMap (<[id := js_Network sec]> (peerMap s3)) s3). intros s4 W4.
  revert s4 W4. change (keeps (finish_connect WM es now rq pid)). unfold finish_connect. keeps.
Qed.

(** ** Reachable states *)

Context (escape_host : bytes -> bytes).

(** One operation of the server, run to its end or to its panic, with the request
    to connect that it handles, if it is one. *)
Inductive server_step : list (time * request) -> PeerMap -> PeerMap -> Prop :=
| step_connect now pongs rq s : server_step [(now, rq)] s (HandlePeerPacketConnect WM a qe es now pongs rq s).2
| step_message pid now mt b s : server_step [] s (handleMessage WM jn pid now mt b s).2
| step_close pid s : server_step [] s (peer_Close WM pid s).2
| step_keepalive rnd now pid s : server_step [] s (keepalive_tick WM a js rnd now pid s).2
| step_pong now pid s : server_step [] s (update pid (set_p_activeTime (Unix now)) s).2
| step_put_meta rnd now auth n rq s : server_step [] s (HandlePutNetworkMeta WM a js rnd now auth n rq s).2
| step_query auth s : server_step [] s (HandleQueryNetworkPeers escape_host auth s).2
| step_write pid b s : server_step [] s (peer_Write WM pid b s).2
| step_read pid n p r p' s :
    conns s !! pid = Some p -> (r, p') ∈ peer_Read n p -> server_step [] s (set_conns (<[pid := p']> (conns s)) s).

(** A run of the server from [s0], with the requests to connect that it handled. *)
Inductive server_run (s0 : PeerMap) : list (time * request) -> PeerMap -> Prop :=
| run_start : server_run s0 [] s0
| run_step log l s s' : server_run s0 log s -> server_step l s s' -> server_run s0 (log ++ l) s'.

Lemma peer_Read_same n p r p' : (r, p') ∈ peer_Read n p -> same_place p p'.
Proof.
  unfold peer_Read. destruct (p_connBuf p) as [b|].
  - destruct (copy_out n b). intros [= -> ->]%list_elem_of_singleton. by repeat split.
  - unfold chan_recv. destruct (queue (p_connData p)) as [|b q].
    + destruct (closed (p_connData p)); [|by intros ?%elem_of_nil]. intros [= -> ->]%list_elem_of_singleton. by repeat split.
    + destruct (copy_out n b). intros [= -> ->]%list_elem_of_singleton. by repeat split.
Qed.

Lemma server_step_wf l s s' : server_step l s s' -> wf s -> wf s'.
Proof.
  destruct 1 as [| | | | |rnd now auth n rq s|auth s| |pid n p r p' s Hp Hr]; intros W.
  - by apply keeps_connect.
  - by apply keeps_handleMessage.
  - by apply keeps_Close.
  - by apply keeps_keepalive_tick.
  - by apply keeps_update.
  - unfold HandlePutNetworkMeta. destruct auth; [|done]. cbn [negb]. destruct rq as [[al ns]|]; [|done].
    destruct (getNetwork n s); [|done]. pose proof (keeps_updateMeta rnd now n al ns s W) as W'.
    by destruct (updateMeta _ _ _ _ _ _ _ _ s) as [[u|e|] s1].
  - unfold HandleQueryNetworkPeers. destruct auth; [|done]. cbn [negb snd].
    revert W. generalize (concat ((fun kv : bytes * networkContext => snd <$> map_to_list (peers kv.2)) <$> map_to_list (networkMap s))).
    intros l. revert s. induction l as [|pid l IH]; intros s W; [done|]. cbn [fold_left]. apply IH.
    apply wf_alter; [by repeat split|done].
  - assert (keeps (peer_Write WM pid b)) as Hk by (unfold peer_Write; keeps). by apply Hk.
  - apply peer_Read_same in Hr. replace (<[pid := p']> (conns s)) with (alter (fun _ => p') pid (conns s)).
    + apply wf_alter; [|done]. intros q Hq. congruence.
    + apply map_eq. intros i. destruct (decide (i = pid)) as [->|Hne].
      * by rewrite lookup_alter_eq, Hp, lookup_insert_eq.
      * by rewrite lookup_alter_ne, lookup_insert_ne.
Qed.

Lemma server_run_wf s0 log s : server_run s0 log s -> wf s0 -> wf s.
Proof. induction 1 as [|log l s s' _ IH Hs]; [done|]. intros W. eapply server_step_wf; eauto. Qed.
End Ops.

(** ** Who is admitted *)

(** Only connecting adds connections: any other operation keeps the identifier and
    the network of each, and the configuration. *)
Definition steady (s s' : PeerMap) : Prop :=
  cfg s' = cfg s /\
  forall pid p', conns s' !! pid = Some p' ->
    exists p, conns s !! pid = Some p /\ p_id p' = p_id p /\ p_network p' = p_network p.

#[export] Instance steady_preorder : PreOrder steady.
Proof.
  split; [intros s; split; [done|]; intros pid p' Hp; by exists p'|].
  intros x y z [E1 H1] [E2 H2]. split; [congruence|]. intros pid p' Hp.
  destruct (H2 _ _ Hp) as (q & Hq & ? & ?). destruct (H1 _ _ Hq) as (r & Hr & ? & ?).
  exists r. split_and!; [done|congruence..].
Qed.

Lemma steady_conns s s' : cfg s' = cfg s -> conns s' = conns s -> steady s s'.
Proof. intros Hc Hn. split; [done|]. rewrite Hn. intros pid p' Hp. by exists p'. Qed.

Lemma steady_alter s pid f :
  (forall p, conns s !! pid = Some p -> p_id (f p) = p_id p /\ p_network (f p) = p_network p) ->
  steady s (set_conns (alter f pid (conns s)) s).
Proof.
  intros Hf. split; [done|]. intros q p' Hq. simpl in Hq. destruct (decide (q = pid)) as [->|Hne].
  - rewrite lookup_alter_eq in Hq. apply fmap_Some in Hq as (p & Hp & ->). exists p. split; [done|by apply Hf].
  - rewrite lookup_alter_ne in Hq by done. by exists p'.
Qed.

Definition steadily {A} (m : GoM PeerMap ws_error A) : Prop := forall s, steady s (m s).2.

Lemma steadily_ret {A} (x : A) : steadily (mret x).
Proof. by intros s. Qed.
Lemma steadily_panic {A} : steadily (@panic PeerMap ws_error A).
Proof. by intros s. Qed.
Lemma steadily_lift {A} (r : res ws_error A) : steadily (lift r).
Proof. by intros s. Qed.
Lemma steadily_gets {A} (f : PeerMap -> A) : steadily (gets f).
Proof. by intros s. Qed.
Lemma steadily_deref pid : steadily (deref pid).
Proof. intros s. unfold deref. by destruct (conns s !! pid). Qed.
Lemma steadily_bind {A B} (m : GoM PeerMap ws_error A) (k : A -> GoM PeerMap ws_error B) :
  steadily m -> (forall x, steadily (k x)) -> steadily (m ≫= k).
Proof.
  intros Hm Hk s. rewrite gom_bind_run. specialize (Hm s).
  destruct (m s) as [[x|e|] s1]; [|done..]. etransitivity; [exact Hm|apply Hk].
Qed.
Lemma steadily_modify f : (forall s, cfg (f s) = cfg s /\ conns (f s) = conns s) -> steadily (modify f).
Proof. intros Hf s. destruct (Hf s). by apply steady_conns. Qed.
Lemma steadily_ignore {A} (m : GoM PeerMap ws_error A) : steadily m -> steadily (ignore m).
Proof. intros Hm s. specialize (Hm s). unfold ignore. by destruct (m s) as [[x|e|] s1]. Qed.
Lemma steadily_for_each {A} (l : list A) f : (forall x, steadily (f x)) -> steadily (for_each l f).
Proof. intros Hf. induction l as [|x l IH]; [apply steadily_ret|]. by apply steadily_bind. Qed.
Lemma steadily_update pid f : (forall p, p_id (f p) = p_id p /\ p_network (f p) = p_network p) -> steadily (update pid f).
Proof. intros Hf s. apply steady_alter. intros p _. apply Hf. Qed.
Lemma steadily_log x : steadily (modify (add_pm_out x)).
Proof. by apply steadily_modify. Qed.
Lemma steadily_unregister pid p : steadily (modify (unregister pid p)).
Proof.
  intros s. etransitivity; [by apply (steady_alter s pid set_p_closed)|]. unfold modify. cbn [snd].
  unfold unregister, removePeer. destruct (getNetwork _ _); [|done]. by apply steady_conns.
Qed.

#[local] Hint Extern 4 (_ /\ _) => by split : steadily.
#[local] Hint Resolve steadily_ret steadily_panic steadily_lift steadily_gets steadily_deref steadily_update
  steadily_log steadily_unregister steadily_modify : steadily.

Ltac steadily :=
  repeat match goal with
  | |- steadily (_ ≫= _) => apply steadily_bind; [|intros ?]
  | |- steadily (if ?b then _ else _) => destruct b
  | |- steadily (match ?o with Some _ => _ | None => _ end) => destruct o
  | |- steadily (match ?o with None => _ | Some _ => _ end) => destruct o
  | |- steadily (for_each _ _) => apply steadily_for_each; intros ?
  | |- steadily (ignore _) => apply steadily_ignore
  | |- steadily _ => solve [auto with steadily]
  end.

Section Entitled.
Context (WM : list ws_out -> nat -> Z -> bytes -> option ws_error) (a : codec).
Context (js : NetworkSecret -> bytes) (jn : bytes -> option NATInfo).
Context (qe : bytes -> bytes) (es : list bytes -> bytes) (eh : bytes -> bytes).

Lemma steadily_write pid b : steadily (peer_write WM pid b).
Proof. unfold peer_write. steadily. intros s. unfold peer_writeWS. destruct (WM _ _ _ _); by apply steady_conns. Qed.
#[local] Hint Resolve steadily_write : steadily.

Lemma steadily_chan {A} (get : peerConn -> chan A) set pid :
  (forall c p, p_id (set c p) = p_id p /\ p_network (set c p) = p_network p) ->
  steadily (close_peer_chan get set pid).
Proof. intros Hs. unfold close_peer_chan. steadily. Qed.
#[local] Hint Resolve steadily_chan : steadily.

Lemma steadily_Close pid : steadily (peer_Close WM pid).
Proof. unfold peer_Close, shutdown, broadcastLeave, broadcast. steadily. Qed.
#[local] Hint Resolve steadily_Close : steadily.

Lemma steadily_handleMessage pid now mt b : steadily (handleMessage WM jn pid now mt b).
Proof.
  unfold handleMessage, send_peer_data, updateNATInfo, broadcastMeta, broadcast, leadDisco, relayTo. steadily.
Qed.

Lemma steadily_updateSecret rnd now pid : steadily (updateSecret WM a js rnd now pid).
Proof. unfold updateSecret. steadily. Qed.
#[local] Hint Resolve steadily_updateSecret : steadily.

Lemma steadily_keepalive rnd now pid : steadily (keepalive_tick WM a js rnd now pid).
Proof. unfold keepalive_tick, send_ping. steadily. Qed.

Lemma steadily_checkAlive now pongs pid : steadily (peer_checkAlive WM now pongs pid).
Proof.
  unfold peer_checkAlive. generalize (Unix now) as t. generalize [pongs.1.1; pongs.1.2; pongs.2] as l.
  induction l as [|o l IH]; intros t; cbn [check_looks]; unfold send_ping; steadily.
Qed.
#[local] Hint Resolve steadily_checkAlive : steadily.

Lemma steadily_SetIfAbsent now pongs n id pid : steadily (SetIfAbsent WM now pongs n id pid).
Proof. unfold SetIfAbsent. steadily. Qed.
#[local] Hint Resolve steadily_SetIfAbsent : steadily.

Lemma steadily_finish now rq pid : steadily (finish_connect WM es now rq pid).
Proof. unfold finish_connect, start, leadDisco. steadily. Qed.
#[local] Hint Resolve steadily_finish : steadily.

(** The secret a request presents, and what it takes to be let into [network] with
    it: it is the public network's, or it was issued for the network and is
    neither altered nor expired. *)
Definition presented (rq : request) : bytes :=
  if bool_decide (hget (rq_header rq) (bs "X-Secret") = []) then hget (rq_header rq) (bs "X-Network")
  else hget (rq_header rq) (bs "X-Secret").

Definition admits (c : Config) (now : time) (secret network : bytes) : Prop :=
  (PublicNetwork c <> [] /\ secret = PublicNetwork c /\ network = secret) \/
  exists sec, ParseSecret a now secret = (sec, None) /\ js_Network sec = network.

Definition entitled (c : Config) (log : list (time * request)) (p : peerConn) : Prop :=
  exists now rq, (now, rq) ∈ log /\ admits c now (presented rq) (p_network p) /\
    p_id p = hget (rq_header rq) (bs "X-PeerID").

Lemma authenticate_admits now secret c sec :
  authenticate a now secret c = Some sec -> admits c now secret (js_Network sec).
Proof.
  unfold authenticate. case_bool_decide as Hp.
  - destruct (ParseSecret a now secret) as [x [e|]] eqn:Hs; [done|]. intros [= <-]. right. by exists x.
  - intros [= <-]. left. simpl. split_and!; [|by destruct (decide (PublicNetwork c = secret)); naive_solver|done].
    intros E. apply Hp. by left.
Qed.

(** Connecting adds at most the connection it is about. *)
Lemma connect_adds now pongs rq s :
  let s' := (HandlePeerPacketConnect WM a qe es now pongs rq s).2 in
  cfg s' = cfg s /\
  forall pid p', conns s' !! pid = Some p' ->
    (exists p, conns s !! pid = Some p /\ p_id p' = p_id p /\ p_network p' = p_network p) \/
    (p_id p' = hget (rq_header rq) (bs "X-PeerID") /\ admits (cfg s) now (presented rq) (p_network p')).
Proof.
  unfold HandlePeerPacketConnect. cbv zeta. rewrite gets_bind.
  assert (Hst : forall s', steady s s' -> cfg s' = cfg s /\ forall pid p', conns s' !! pid = Some p' ->
    (exists p, conns s !! pid = Some p /\ p_id p' = p_id p /\ p_network p' = p_network p) \/
    (p_id p' = hget (rq_header rq) (bs "X-PeerID") /\ admits (cfg s) now (presented rq) (p_network p'))).
  { intros s' [E H]. split; [done|]. intros pid p' Hp. left. by apply H. }
  destruct (authenticate _ _ _ _) as [sec|] eqn:Hau; [|by apply Hst].
  apply authenticate_admits in Hau. change (admits (cfg s) now (presented rq) (js_Network sec)) in Hau.
  rewrite !modify_bind. set (s1 := initMeta _ _ _ _ _).
  assert (Hs1 : steady s s1).
  { apply steady_conns; unfold s1, initMeta, ensureNetwork; simpl; by destruct (networkMap s !! _). }
  destruct (if bool_decide _ then _ else _) as [meta [|]]; [by apply Hst|].
  set (p := newPeer _ _ _ _ _). rewrite gom_bind_run. unfold alloc. set (pid := fresh (dom (conns s1))).
  set (s2 := set_conns (<[pid := p]> (conns s1)) s1).
  match goal with |- context [(?m s2).2] => assert (Hm : steady s2 (m s2).2); [|revert Hm; generalize (m s2).2] end.
  { generalize s2. change (forall s, steady s (?m s).2) with (steadily m). steadily. }
  intros s' [E H]. split; [by rewrite E; apply Hs1|]. intros q p' Hq. destruct (H q p' Hq) as (r & Hr & E1 & E2).
  simpl in Hr. apply lookup_insert_Some in Hr as [[<- <-]|[_ Hr]].
  - right. by rewrite E1, E2.
  - left. destruct Hs1 as [_ Hs1]. destruct (Hs1 _ _ Hr) as (x & Hx & ? & ?). exists x. split_and!; [done|congruence..].
Qed.
Lemma steadily_updateMeta rnd now n al ns : steadily (updateMeta WM a js rnd now n al ns).
Proof. unfold updateMeta. steadily. Qed.

(** What a step does to the connections, in one form. *)
Lemma server_step_adds l s s' :
  server_step WM a js jn qe es eh l s s' ->
  cfg s' = cfg s /\ forall pid p', conns s' !! pid = Some p' ->
    (exists p, conns s !! pid = Some p /\ p_id p' = p_id p /\ p_network p' = p_network p) \/
    entitled (cfg s) l p'.
Proof.
  assert (Hst : forall s', steady s s' -> cfg s' = cfg s /\ forall pid p', conns s' !! pid = Some p' ->
    (exists p, conns s !! pid = Some p /\ p_id p' = p_id p /\ p_network p' = p_network p) \/
    entitled (cfg s) l p').
  { intros x [E H]. split; [done|]. intros pid p' Hp. left. by apply H. }
  destruct 1 as [now pongs rq s| | | | |rnd now auth n rq s|auth s|pid b s|pid n p r p' s Hp Hr]; [|apply Hst..].
  - destruct (connect_adds now pongs rq s) as [E H]. split; [done|]. intros pid p' Hp.
    destruct (H _ _ Hp) as [?|[H1 H2]]; [by left|right]. exists now, rq. split_and!; [apply list_elem_of_here|done..].
  - apply steadily_handleMessage.
  - apply steadily_Close.
  - apply steadily_keepalive.
  - by apply steadily_update.
  - unfold HandlePutNetworkMeta. destruct auth; [|done]. cbn [negb]. destruct rq as [[al ns]|]; [|done].
    destruct (getNetwork n s); [|done]. pose proof (steadily_updateMeta rnd now n al ns s) as W'.
    by destruct (updateMeta _ _ _ _ _ _ _ _ s) as [[u|e|] s1].
  - unfold HandleQueryNetworkPeers. destruct auth; [|done]. cbn [negb snd].
    generalize (concat ((fun kv : bytes * networkContext => snd <$> map_to_list (peers kv.2)) <$> map_to_list (networkMap s))).
    intros ps. clear Hst. revert s. induction ps as [|pid ps IH]; intros s; [done|]. cbn [fold_left].
    etransitivity; [|apply IH]. by apply steady_alter.
  - assert (steadily (peer_Write WM pid b)) as Hk by (unfold peer_Write; steadily). apply Hk.
  - apply peer_Read_same in Hr as (E1 & E2 & _).
    replace (<[pid := p']> (conns s)) with (alter (fun _ => p') pid (conns s)).
    + apply steady_alter. intros q Hq. split; congruence.
    + apply map_eq. intros i. destruct (decide (i = pid)) as [->|Hne].
      * by rewrite lookup_alter_eq, Hp, lookup_insert_eq.
      * by rewrite lookup_alter_ne, lookup_insert_ne.
Qed.

Lemma server_run_entitled s0 log s :
  conns s0 = ∅ -> server_run WM a js jn qe es eh s0 log s ->
  cfg s = cfg s0 /\ forall pid p, conns s !! pid = Some p -> entitled (cfg s0) log p.
Proof.
  intros H0. induction 1 as [|log l s s' _ [IH1 IH2] Hs].
  - split; [done|]. intros pid p. by rewrite H0.
  - destruct (server_step_adds _ _ _ Hs) as [E H]. split; [congruence|]. intros pid p' Hp.
    destruct (H _ _ Hp) as [(p & Hp' & E1 & E2)|(now & rq & Hin & Ha & Hid)].
    + destruct (IH2 _ _ Hp') as (now & rq & Hin & Ha & Hid). exists now, rq.
      split_and!; [apply elem_of_app; by left|by rewrite E2|by rewrite E1].
    + exists now, rq. rewrite <- IH1. split_and!; [apply elem_of_app; by right|done..].
Qed.
End Entitled.

Lemma wf_New hex c s : New hex c = Ok s -> wf s.
Proof.
  unfold New. destruct (ApplyDefaults hex c) as [[c' ?]| |]; [|done..]. intros [= <-].
  constructor; simpl; done.
Qed.

(** What [getPeer] finds in a well-formed state. *)
Lemma getPeer_wf s network id pid :
  wf s -> getPeer network id s = Some pid ->
  exists p, registered s (p_network p) id pid p /\
    (p_network p = network \/
     exists ctx, networkMap s !! network = Some ctx /\ p_network p ∈ neighbors ctx).
Proof.
  intros W. unfold getPeer, getNetwork.
  destruct (networkMap s !! network) as [ctx|] eqn:Hn; [|done]. simpl. unfold nc_getPeer.
  destruct (peers ctx !! id) as [q|] eqn:Hq.
  { intros [= <-]. destruct (wf_peers s W _ _ _ _ Hn Hq) as [p Hp]. exists p.
    destruct Hp as [? ? Hnet ?]. rewrite Hnet. split; [by constructor|by left]. }
  destruct (peerMap s !! id) as [nn|]; simpl; [|done].
  destruct (networkMap s !! nn) as [ctx'|] eqn:Hn'; simpl; [|done].
  case_bool_decide as Hin; [|done]. intros Hq'.
  destruct (wf_peers s W _ _ _ _ Hn' Hq') as [p Hp]. exists p.
  destruct Hp as [? ? Hnet ?]. rewrite Hnet. split; [by constructor|]. right. exists ctx.
  by rewrite (wf_ids s W nn ctx' Hn') in Hin.
Qed.

(** ** Properties *)

Lemma New_conns hex c s : New hex c = Ok s -> conns s = ∅.
Proof. unfold New. by destruct (ApplyDefaults hex c) as [[c' ?]| |]; [intros [= <-]|..]. Qed.

(** C13. In every state the server can reach, through connections, messages, leaves,
    keepalives and changes of the networks in any order, its tables agree: a
    network holds only open connections, under their own identifiers, and whom
    [getPeer] finds for a member of a network is such a connection of that network
    or of one of its neighbours.  It is authenticated: among the requests the server
    has handled is one with its identifier, whose secret either is the public
    network's or was parsed without an error, not expired, as a secret of the very
    network the connection is in. *)
Theorem reachable_tables_agree WM a js jn qe es eh hex c s0 log s network id pid :
  codec_ok a -> New hex c = Ok s0 -> server_run WM a js jn qe es eh s0 log s ->
  wf s /\
  (getPeer network id s = Some pid ->
   exists p, registered s (p_network p) id pid p /\ js_Network (networkSecret p) = p_network p /\
    (p_network p = network \/
     exists ctx, networkMap s !! network = Some ctx /\ p_network p ∈ neighbors ctx) /\
    exists now rq, (now, rq) ∈ log /\ hget (rq_header rq) (bs "X-PeerID") = id /\
      admits a (cfg s0) now (presented rq) (p_network p)).
Proof.
  intros Ha HN Hr. assert (W : wf s) by (eapply server_run_wf; [exact Ha|exact Hr|by eapply wf_New]).
  split; [done|]. intros Hg. destruct (getPeer_wf s network id pid W Hg) as (p & Hp & Hor).
  exists p. split; [done|]. split; [by apply (wf_conns s W pid), Hp|]. split; [done|].
  destruct (server_run_entitled WM a js jn qe es eh s0 log s (New_conns _ _ _ HN) Hr) as [_ He].
  destruct (He pid p) as (now & rq & Hin & Had & Hid); [apply Hp|]. exists now, rq.
  split; [done|]. split; [|done]. rewrite <- Hid. apply Hp.
Qed.
