(* ===== verification/Control.v ===== *)
(** * Client and server together

    [Ws.v] and [Peermap.v] composed: what one client writes, the server relays
    and another client turns into an event; what a server tells a client when it
    connects; what messages and requests can do to the server. *)

From S2P Require Import Prelude Text Netip Disco Langs Url GoTime Stream Ws Auth Peermap PeermapFacts PeermapInv.

(** ** Lemmas *)

(** What an operation of a client or a write of the server appends to the log. *)
Lemma client_write WM b c conn :
  rawConn (lnk c) = Some conn ->
  out (write WM b c).2 = out c ++ [OutMessage conn BinaryMessage (xor_all (wnonce c) b)].
Proof.
  intros Hc. unfold write, writeWS. rewrite Hc.
  by destruct (WM _ _ _ _) as [[|]|].
Qed.

Lemma server_write WM pid p conn b s :
  conns s !! pid = Some p -> p_conn p = Some conn ->
  exists r, peer_write WM pid b s = (r, add_pm_out [OutMessage conn BinaryMessage (xor_all (p_nonce p) b)] s) /\ r <> Panic.
Proof.
  intros Hp Hc. unfold peer_write. rewrite deref_bind, Hp, Hc. unfold peer_writeWS.
  destruct (WM _ _ _ _) as [e|]; eexists; (split; [reflexivity|done]).
Qed.

Lemma ignore_write WM pid p conn b s :
  conns s !! pid = Some p -> p_conn p = Some conn ->
  ignore (peer_write WM pid b) s =
    (Ok tt, add_pm_out [OutMessage conn BinaryMessage (xor_all (p_nonce p) b)] s).
Proof.
  intros Hp Hc. destruct (server_write WM pid p conn b s Hp Hc) as (r & Hw & Hr).
  unfold ignore. rewrite Hw. by destruct r.
Qed.

Lemma client_onMessage {E} res js now sp b c :
  @onMessage res js E now BinaryMessage (GSlice (xor_all (wnonce c) b) sp) c =
  handleEvents res js (GSlice b sp) (set_activeTime (Unix now) c).
Proof.
  unfold onMessage. rewrite modify_bind. rewrite bool_decide_false by (by intros H; apply H).
  rewrite gets_bind. change (wnonce (set_activeTime _ c)) with (wnonce c). cbn [vis spare].
  by rewrite xor_all_cancel.
Qed.

Lemma open_active t c : open_channels c -> open_channels (set_activeTime t c).
Proof. done. Qed.

(** The message of a peer, unmasked, up to the dispatch on its code. *)
Lemma handleMessage_unmask WM jn pid p now b sp s b0 rest :
  conns s !! pid = Some p -> b = b0 :: rest ->
  handleMessage WM jn pid now BinaryMessage (GSlice (xor_all (p_nonce p) b) sp) s =
  (let b := GSlice b sp in
   if bool_decide (b2z b0 = CONTROL_CONN) then
     body ← lift (sl_from b 1); send_peer_data pid (vis body)
   else if bool_decide (b2z b0 = CONTROL_UPDATE_NAT_INFO) then updateNATInfo WM jn pid b
   else
     tgtPeerID ← lift (msg_id b);
     tgtPeer ← gets (getPeer (js_Network (networkSecret p)) tgtPeerID);
     match tgtPeer with
     | None => mret tt
     | Some tgtPeer =>
         if bool_decide (b2z b0 = CONTROL_LEAD_DISCO) then leadDisco WM pid tgtPeer
         else relayTo WM pid tgtPeer b
     end) (update pid (set_p_activeTime (Unix now)) s).2.
Proof.
  intros Hp ->. unfold handleMessage. rewrite deref_bind, Hp. unfold update at 1. rewrite modify_bind.
  rewrite bool_decide_false by (by intros H; apply H). cbv zeta. cbn [vis spare].
  rewrite xor_all_cancel.
  pose proof (@sl_get_app ws_error [] b0 rest sp 0 eq_refl) as Hg. cbn [app] in Hg.
  by rewrite Hg, lift_bind.
Qed.

(** Noting the time keeps everything the dispatch looks at. *)
Lemma view_active pid t s : view (update pid (set_p_activeTime t) s).2 = view s.
Proof.
  destruct (quiet_update (view s) (fun _ => True) pid (set_p_activeTime t) ltac:(done) s eq_refl) as (H & _ & _). done.
Qed.

Lemma lookup_active pid t s q p :
  conns s !! q = Some p ->
  exists p', conns (update pid (set_p_activeTime t) s).2 !! q = Some p' /\ ident p' = ident p /\ metadata p' = metadata p.
Proof.
  intros Hq. simpl. destruct (decide (q = pid)) as [->|Hne].
  - rewrite lookup_alter_eq, Hq. by eexists.
  - rewrite lookup_alter_ne by done. by exists p.
Qed.

(** The control codes that the server passes on to their target. *)
Definition relayed (op : Z) : Prop :=
  0 <= op < 256 /\ op ∉ [CONTROL_CONN; CONTROL_UPDATE_NAT_INFO; CONTROL_LEAD_DISCO].

Lemma handleMessage_relay WM jn pid p now op dst data sp s q pq conn :
  conns s !! pid = Some p -> relayed op -> zlen dst <= 253 -> zlen (p_id p) <= 253 ->
  getPeer (js_Network (networkSecret p)) dst s = Some q -> conns s !! q = Some pq -> p_conn pq = Some conn ->
  let s' := handleMessage WM jn pid now BinaryMessage (GSlice (xor_all (p_nonce p) (framed op dst data)) sp) s in
  s'.1 = Ok tt /\
  pm_out s'.2 = pm_out s ++ [OutMessage conn BinaryMessage (xor_all (p_nonce pq) (framed op (p_id p) data))].
Proof.
  intros Hp [Hop Hcodes] Hd Hpi Hg Hq Hc s'. unfold s'.
  rewrite (handleMessage_unmask WM jn pid p now (framed op dst data) sp s (z2b op) (Len dst :: dst ++ data)) by done.
  cbv zeta. rewrite b2z_z2b_small by done. rewrite !not_elem_of_cons in Hcodes. destruct Hcodes as (H1 & H2 & H3 & _).
  rewrite !bool_decide_false by done.
  set (s1 := (update pid (set_p_activeTime (Unix now)) s).2).
  rewrite msg_id_framed, lift_bind by done. rewrite gets_bind.
  rewrite (getPeer_view s s1) by apply view_active. rewrite Hg.
  destruct (lookup_active pid (Unix now) s pid p Hp) as (p1 & Hp1 & Hi1 & _). fold s1 in Hp1.
  destruct (lookup_active pid (Unix now) s q pq Hq) as (q1 & Hq1 & Hj1 & _). fold s1 in Hq1.
  unfold ident in *. injection Hi1 as _ Hid1 _ _ _. injection Hj1 as Hc1 _ Hn1 _ _.
  unfold relayTo. rewrite deref_bind, Hp1, relay_msg_framed, lift_bind by (done || by rewrite Hid1).
  rewrite gom_bind_run, (ignore_write WM q q1 conn) by (done || by rewrite Hc1). rewrite Hid1, Hn1. done.
Qed.

Lemma handleMessage_lead WM jn pid p now dst data sp s q pq conn conn' :
  conns s !! pid = Some p -> p_conn p = Some conn' -> zlen dst <= 253 ->
  getPeer (js_Network (networkSecret p)) dst s = Some q -> conns s !! q = Some pq -> p_conn pq = Some conn ->
  let s' := handleMessage WM jn pid now BinaryMessage
              (GSlice (xor_all (p_nonce p) (framed CONTROL_LEAD_DISCO dst data)) sp) s in
  s'.1 = Ok tt /\
  pm_out s'.2 = pm_out s ++
    [OutMessage conn BinaryMessage (xor_all (p_nonce pq) (peer_msg CONTROL_NEW_PEER p));
     OutMessage conn' BinaryMessage (xor_all (p_nonce p) (peer_msg CONTROL_NEW_PEER pq))].
Proof.
  intros Hp Hc' Hd Hg Hq Hc s'. unfold s'.
  rewrite (handleMessage_unmask WM jn pid p now (framed CONTROL_LEAD_DISCO dst data) sp s
             (z2b CONTROL_LEAD_DISCO) (Len dst :: dst ++ data)) by done.
  cbv zeta. change (b2z (z2b CONTROL_LEAD_DISCO)) with CONTROL_LEAD_DISCO. codes.
  set (s1 := (update pid (set_p_activeTime (Unix now)) s).2).
  rewrite msg_id_framed, lift_bind by done. rewrite gets_bind.
  rewrite (getPeer_view s s1) by apply view_active. rewrite Hg.
  destruct (lookup_active pid (Unix now) s pid p Hp) as (p1 & Hp1 & Hi1 & Hm1). fold s1 in Hp1.
  destruct (lookup_active pid (Unix now) s q pq Hq) as (q1 & Hq1 & Hj1 & Hm2). fold s1 in Hq1.
  unfold ident in *. injection Hi1 as Hc1' Hid1 Hn1' _ _. injection Hj1 as Hc1 Hid2 Hn1 _ _.
  assert (Hmsg : forall x y, p_id x = p_id y -> metadata x = metadata y ->
    peer_msg CONTROL_NEW_PEER x = peer_msg CONTROL_NEW_PEER y) by (intros x y; unfold peer_msg; congruence).
  unfold leadDisco. rewrite deref_bind, Hp1.
  rewrite gom_bind_run, (ignore_write WM q q1 conn) by (done || by rewrite Hc1).
  rewrite deref_bind. cbn [conns add_pm_out]. rewrite Hq1.
  rewrite (ignore_write WM pid p1 conn') by (done || by rewrite Hc1').
  rewrite (Hmsg p1 p), (Hmsg q1 pq), Hn1, Hn1' by done. cbn [fst snd pm_out add_pm_out].
  split; [done|]. by rewrite <- app_assoc.
Qed.

(** ** Properties *)

(** A datagram through the server: what [WriteTo] of one client hands to its
    websocket becomes, at the client that the server has under the addressed
    identifier, one datagram with the same bytes, named after the sender that the
    server authenticated; the masks of both connections cancel. *)
Theorem relay_end_to_end WMa WM jn res js cA cB s pid p q pq kA kB dst data now now' sp sp' :
  rawConn (lnk cA) = Some kA -> conns s !! pid = Some p -> p_nonce p = wnonce cA ->
  getPeer (js_Network (networkSecret p)) dst s = Some q -> conns s !! q = Some pq ->
  p_conn pq = Some kB -> p_nonce pq = wnonce cB -> open_channels cB ->
  zlen dst <= 253 -> zlen (p_id p) <= 253 ->
  exists m1 m2,
    out (WriteTo WMa data dst CONTROL_RELAY cA).2 = out cA ++ [OutMessage kA BinaryMessage m1] /\
    (let s' := handleMessage WM jn pid now BinaryMessage (GSlice m1 sp) s in
     s'.1 = Ok tt /\ pm_out s'.2 = pm_out s ++ [OutMessage kB BinaryMessage m2]) /\
    (let c' := @onMessage res js Empty_set now' BinaryMessage (GSlice m2 sp') cB in
     c'.1 = Ok tt /\ datagrams c'.2 = Chan (queue (datagrams cB) ++ [MkDatagram (p_id p) data]) false).
Proof.
  intros HkA Hp Hn Hg Hq HkB Hn' Hop Hd Hid.
  exists (xor_all (wnonce cA) (framed CONTROL_RELAY dst data)), (xor_all (wnonce cB) (framed CONTROL_RELAY (p_id p) data)).
  split; [|split].
  - unfold WriteTo, Bytes. rewrite <- app_assoc. by apply client_write.
  - rewrite <- Hn, <- Hn'. apply (handleMessage_relay WM jn pid p now CONTROL_RELAY dst data sp s q pq kB); try done.
    split; [done|]. rewrite !not_elem_of_cons. split_and!; [done..|apply not_elem_of_nil].
  - cbv zeta. rewrite client_onMessage, handleEvents_relay, send_datagram_ok by (done || by apply open_active). done.
Qed.

(** C18. Discovery through the server: when a client leads the discovery of a peer,
    the server tells each of the two about the other, and both clients get an
    event with the identifier and the very metadata that the other registered. *)
Theorem lead_end_to_end WMa WM jn res js cA cB s pid p q pq kA kB dst now now' sp sp' :
  rawConn (lnk cA) = Some kA -> conns s !! pid = Some p -> p_conn p = Some kA -> p_nonce p = wnonce cA ->
  getPeer (js_Network (networkSecret p)) dst s = Some q -> conns s !! q = Some pq ->
  p_conn pq = Some kB -> p_nonce pq = wnonce cB -> open_channels cA -> open_channels cB ->
  zlen dst <= 253 -> zlen (p_id p) <= 253 -> zlen (p_id pq) <= 253 ->
  wf_values (metadata p) -> wf_values (metadata pq) ->
  exists m mB mA,
    out (LeadDisco WMa dst cA).2 = out cA ++ [OutMessage kA BinaryMessage m] /\
    (let s' := handleMessage WM jn pid now BinaryMessage (GSlice m sp) s in
     s'.1 = Ok tt /\ pm_out s'.2 = pm_out s ++ [OutMessage kB BinaryMessage mB; OutMessage kA BinaryMessage mA]) /\
    (let c' := @onMessage res js Empty_set now' BinaryMessage (GSlice mB sp') cB in
     c'.1 = Ok tt /\ events c'.2 = Chan (queue (events cB) ++
       [MkEvent CONTROL_NEW_PEER (PeerData (MkPeer (p_id p) (metadata p)))]) false) /\
    (let c' := @onMessage res js Empty_set now' BinaryMessage (GSlice mA sp') cA in
     c'.1 = Ok tt /\ events c'.2 = Chan (queue (events cA) ++
       [MkEvent CONTROL_NEW_PEER (PeerData (MkPeer (p_id pq) (metadata pq)))]) false).
Proof.
  intros HkA Hp HpA Hn Hg Hq HkB Hn' HopA HopB Hd Hid Hid' Hm Hm'.
  assert (Hrecv : forall c x, open_channels c -> zlen (p_id x) <= 253 -> wf_values (metadata x) ->
    let c' := @onMessage res js Empty_set now' BinaryMessage
                (GSlice (xor_all (wnonce c) (peer_msg CONTROL_NEW_PEER x)) sp') c in
    c'.1 = Ok tt /\ events c'.2 = Chan (queue (events c) ++
       [MkEvent CONTROL_NEW_PEER (PeerData (MkPeer (p_id x) (metadata x)))]) false).
  { intros c x Hop Hx Hmx. cbv zeta. rewrite client_onMessage.
    change (peer_msg CONTROL_NEW_PEER x) with (framed CONTROL_NEW_PEER (p_id x) (Encode (metadata x))).
    rewrite handleEvents_peer, send_event_ok by (done || (by left) || by apply open_active).
    by rewrite ParseQuery_Encode. }
  exists (xor_all (wnonce cA) (framed CONTROL_LEAD_DISCO dst [])), (xor_all (wnonce cB) (peer_msg CONTROL_NEW_PEER p)),
    (xor_all (wnonce cA) (peer_msg CONTROL_NEW_PEER pq)).
  split; [|split; [|split; by apply Hrecv]].
  - unfold LeadDisco, WriteTo, Bytes. rewrite <- app_assoc. by apply client_write.
  - rewrite <- Hn, <- Hn'. by apply (handleMessage_lead WM jn pid p now dst [] sp s q pq kB kA).
Qed.

(** *** Malformed messages *)

(** Every connection has been upgraded and has an identifier that fits a message. *)
Definition settled (s : PeerMap) : Prop :=
  forall q pq, conns s !! q = Some pq -> p_conn pq <> None /\ zlen (p_id pq) <= 253.

Lemma settled_upgraded s : settled s -> upgraded (view s).
Proof.
  intros Hs q i Hi. simpl in Hi. rewrite lookup_fmap in Hi.
  destruct (conns s !! q) as [pq|] eqn:Hq; [|done]. injection Hi as <-. by apply (Hs q).
Qed.

Lemma view_some s q pq : conns s !! q = Some pq -> (view s).1.2 !! q = Some (ident pq).
Proof. intros Hq. simpl. by rewrite lookup_fmap, Hq. Qed.

(** Slices panic or succeed. *)
Lemma sl_get_no_err {E} (e : E) s i : sl_get s i <> Err e.
Proof. unfold sl_get. case_bool_decide; [|done]. by destruct (vis s !! _). Qed.
Lemma sl_sub_no_err {E} (e : E) s lo hi : sl_sub s lo hi <> Err e.
Proof. unfold sl_sub. by case_bool_decide. Qed.
Lemma sl_from_no_err {E} (e : E) s lo : sl_from s lo <> Err e.
Proof. unfold sl_from. case_bool_decide; [apply sl_sub_no_err|done]. Qed.
Lemma msg_id_no_err {E} (e : E) b : msg_id b <> Err e.
Proof.
  unfold msg_id. destruct (sl_get b 1) as [n|e'|] eqn:E1; [|by apply sl_get_no_err in E1|done].
  rewrite bind_Ok. destruct (sl_sub b 2 _) as [x|e'|] eqn:E2; [done|by apply sl_sub_no_err in E2|done].
Qed.
Lemma msg_rest_no_err {E} (e : E) b : msg_rest b <> Err e.
Proof.
  unfold msg_rest. destruct (sl_get b 1) as [n|e'|] eqn:E1; [|by apply sl_get_no_err in E1|done].
  rewrite bind_Ok. apply sl_from_no_err.
Qed.

(** A message that has an identifier is relayed unless its rest cannot be taken. *)
Lemma relay_msg_panic p b i : zlen (p_id p) <= 253 -> @msg_id ws_error b = Ok i ->
  (@relay_msg ws_error p b = Panic <-> @msg_rest ws_error b = Panic) /\
  (forall e, @relay_msg ws_error p b <> Err e).
Proof.
  intros Hp Hi. destruct (msg_rest b) as [r|e|] eqn:Er.
  - destruct (msg_parts b i r Hi Er) as (op & Hv & Hl). destruct b as [v sp]. cbn [vis] in Hv. subst v.
    by rewrite relay_msg_framed.
  - by apply msg_rest_no_err in Er.
  - unfold relay_msg. by rewrite Er.
Qed.

(** A report of a registered peer is broadcast without a panic. *)
Lemma safe_report WM s pid p ni :
  wf s -> settled s -> conns s !! pid = Some p ->
  safe (view s) (_ ← update pid (fun p => set_metadata (nat_metadata ni (metadata p)) p); broadcastMeta WM pid).
Proof.
  intros W Hset Hp. destruct (wf_conns s W pid p Hp) as [Hnet [ctx Hctx]].
  apply (safe_bind _ _ _ (fun _ => True)); [apply safe_update|by apply quiet_update|]. intros _ _.
  apply (safe_bind _ _ _ _ (safe_deref _ pid (mk_is_Some _ _ (view_some s pid p Hp))) (quiet_deref _ any pid)).
  intros p' _. apply (safe_broadcast _ WM pid p ctx); [by apply settled_upgraded|by apply view_some| |].
  - simpl. by rewrite Hnet.
  - intros id q Hq. destruct (wf_peers s W _ _ _ _ Hctx Hq) as [r [Hr _ _ _]].
    exists (ident r). by apply view_some.
Qed.

(** C17. What the bytes of a client can do to the server.  A panic in the read loop
    of a connection ends the process.  Once every connection is upgraded, a
    message causes one exactly when it is empty, when it is a NAT report without
    its second byte, or when it is neither a report nor stream data and its target
    cannot be taken from it, or the target is known and the rest cannot. *)
Theorem message_panic_iff WM jn s pid p now b :
  wf s -> settled s -> conns s !! pid = Some p -> closed (p_connData p) = false ->
  let m := GSlice (xor_all (p_nonce p) (vis b)) (spare b) in
  (handleMessage WM jn pid now BinaryMessage b s).1 = Panic <->
  match vis m with
  | [] => True
  | b0 :: rest =>
      if bool_decide (b2z b0 = CONTROL_CONN) then False
      else if bool_decide (b2z b0 = CONTROL_UPDATE_NAT_INFO) then rest = []
      else match @msg_id ws_error m with
           | Ok id => is_Some (getPeer (js_Network (networkSecret p)) id s) /\
                      b2z b0 <> CONTROL_LEAD_DISCO /\ @msg_rest ws_error m = Panic
           | _ => True
           end
  end.
Proof.
  intros W Hset Hp Hopen m. subst m. destruct b as [v sp]. cbn [vis spare].
  set (u := xor_all (p_nonce p) v). replace v with (xor_all (p_nonce p) u) by apply xor_all_cancel.
  pose proof (settled_upgraded s Hset) as Hup. clearbody u.
  destruct u as [|b0 rest].
  { unfold handleMessage. rewrite deref_bind, Hp. unfold update at 1. rewrite modify_bind.
    rewrite bool_decide_false by (by intros H; apply H). done. }
  rewrite (handleMessage_unmask WM jn pid p now (b0 :: rest) sp s b0 rest Hp eq_refl). cbv zeta.
  pose proof (view_active pid (Unix now) s) as Hv.
  destruct (lookup_active pid (Unix now) s pid p Hp) as (p1 & Hp1 & Hi1 & _).
  assert (Hdata : closed (p_connData p1) = false).
  { simpl in Hp1. rewrite lookup_alter_eq, Hp in Hp1. by injection Hp1 as <-. }
  set (s1 := (update pid (set_p_activeTime (Unix now)) s).2) in *. set (bm := GSlice (b0 :: rest) sp).
  destruct (bool_decide_reflect (b2z b0 = CONTROL_CONN)) as [H1|H1].
  { assert (Hf : @sl_from ws_error bm 1 = Ok (GSlice rest sp)) by by apply (sl_from_app [b0]).
    rewrite Hf, lift_bind. unfold send_peer_data. rewrite deref_bind, Hp1.
    unfold chan_send. by rewrite Hdata. }
  destruct (bool_decide_reflect (b2z b0 = CONTROL_UPDATE_NAT_INFO)) as [H2|H2].
  { unfold updateNATInfo. destruct rest as [|b1 rest].
    { by rewrite sl_from_oob by (unfold sl_len; simpl; zlen_lia). }
    assert (Hf : @sl_from ws_error bm 2 = Ok (GSlice rest sp)) by by apply (sl_from_app [b0; b1]).
    rewrite Hf, lift_bind. split; [|done]. destruct (jn _) as [ni|]; [|done].
    intros Hpanic. by apply (safe_report WM s pid p ni W Hset Hp s1 Hv) in Hpanic. }
  rewrite lift_bind. destruct (msg_id bm) as [id|e|] eqn:Ei; [|by apply msg_id_no_err in Ei|done].
  rewrite gets_bind, (getPeer_view s s1) by done.
  destruct (getPeer _ id s) as [q|] eqn:Hg.
  2: { split; [done|]. by intros [[? ?] _]. }
  destruct (getPeer_wf s _ _ q W Hg) as (pq & [Hq _ _ _] & _).
  assert (Hip : is_Some ((view s).1.2 !! pid)) by (exists (ident p); by apply view_some).
  assert (Hiq : is_Some ((view s).1.2 !! q)) by (exists (ident pq); by apply view_some).
  destruct (bool_decide_reflect (b2z b0 = CONTROL_LEAD_DISCO)) as [H3|H3].
  { split; [|by intros (_ & ? & _)]. intros Hpanic.
    by apply (safe_leadDisco (view s) WM pid q Hup Hip Hiq s1 Hv) in Hpanic. }
  unfold relayTo. rewrite deref_bind, Hp1, lift_bind.
  assert (Hlen : zlen (p_id p1) <= 253).
  { unfold ident in Hi1. injection Hi1 as _ -> _ _ _. by apply (Hset pid p). }
  destruct (relay_msg_panic p1 bm id Hlen Ei) as [Hrp Hre].
  destruct (relay_msg p1 bm) as [bb|e|] eqn:Er; [|by destruct (Hre e eq_refl)|].
  - split; [|intros (_ & _ & Hr); by apply Hrp in Hr]. intros Hpanic. exfalso. revert Hpanic.
    apply (safe_bind (view s) (ignore (peer_write WM q bb)) _ (fun _ => True)); [| |intros _ _; apply safe_update|done].
    + by apply safe_ignore, safe_write.
    + by eapply quiet_ignore, quiet_write, any_write.
  - split; [intros _|done]. split; [by exists q|]. split; [done|]. by apply Hrp.
Qed.

(** *** Connecting *)

Section Connect.
Context (WM : list ws_out -> nat -> Z -> bytes -> option ws_error) (a : codec).
Context (qe : bytes -> bytes) (es : list bytes -> bytes).

(** The state in which [HandlePeerPacketConnect] asks for the registration: the
    network exists and has the metadata of the secret. *)
Definition admitted (now : time) (sec : JSONSecret) (s : PeerMap) : PeerMap :=
  initMeta (js_Network sec) (js_Alias sec) (js_Neighbors sec)
    (Add (UnixTime (js_Deadline sec)) (- SecretValidityPeriod (cfg s))) (ensureNetwork now (js_Network sec) s).

Lemma admitted_network now sec s :
  exists ctx, networkMap (admitted now sec s) !! js_Network sec = Some ctx /\
    peers ctx = default ∅ (peers <$> networkMap s !! js_Network sec).
Proof.
  unfold admitted, initMeta. simpl. rewrite lookup_alter_eq. unfold ensureNetwork.
  destruct (networkMap s !! js_Network sec) as [c|] eqn:Hc.
  - rewrite Hc. simpl. eexists. split; [reflexivity|]. by destruct (After _ _).
  - simpl. rewrite lookup_insert_eq. simpl. eexists. split; [reflexivity|]. by destruct (After _ _).
Qed.

Lemma admitted_conns now sec s : conns (admitted now sec s) = conns s.
Proof. unfold admitted, initMeta, ensureNetwork. simpl. by destruct (networkMap s !! _). Qed.

Definition secret_of (rq : request) : bytes :=
  if bool_decide (hget (rq_header rq) (bs "X-Secret") = []) then hget (rq_header rq) (bs "X-Network")
  else hget (rq_header rq) (bs "X-Secret").
Definition meta_of (rq : request) : Values * bool :=
  let md := hget (rq_header rq) (bs "X-Metadata") in
  if bool_decide (md = []) then (∅, false) else ParseQuery md.
Definition id_of (rq : request) : bytes := hget (rq_header rq) (bs "X-PeerID").

(** The handler from the registration on. *)
Lemma connect_run now pongs rq s sec meta :
  authenticate a now (secret_of rq) (cfg s) = Some sec -> meta_of rq = (meta, false) ->
  let s1 := admitted now sec s in
  let pid := fresh (dom (conns s1)) in
  let p := newPeer sec (id_of rq) (MustParseNonce (hget (rq_header rq) (bs "X-Nonce"))) meta (cfg s) in
  HandlePeerPacketConnect WM a qe es now pongs rq s =
  (ok ← SetIfAbsent WM now pongs (js_Network sec) (id_of rq) pid;
   if negb ok then mret (Forbidden ErrAddressAlreadyInuse)
   else
     _ ← modify (fun s => set_peerMap (<[id_of rq := js_Network sec]> (peerMap s)) s);
     finish_connect WM es now rq pid) (set_conns (<[pid := p]> (conns s1)) s1).
Proof.
  intros Ha Hm s1 pid p. unfold HandlePeerPacketConnect. cbv zeta. rewrite gets_bind.
  unfold secret_of in Ha. rewrite Ha. rewrite !modify_bind. unfold meta_of in Hm. cbv zeta in Hm. rewrite Hm.
  done.
Qed.

Lemma connect_refused now pongs rq s sec :
  authenticate a now (secret_of rq) (cfg s) = Some sec -> (meta_of rq).2 = true ->
  exists e, HandlePeerPacketConnect WM a qe es now pongs rq s = (Ok (Forbidden e), admitted now sec s).
Proof.
  intros Ha Hm. unfold HandlePeerPacketConnect. cbv zeta. rewrite gets_bind.
  unfold secret_of in Ha. rewrite Ha. rewrite !modify_bind. unfold meta_of in Hm. cbv zeta in Hm.
  destruct (bool_decide (hget (rq_header rq) (bs "X-Metadata") = [])); [done|].
  destruct (ParseQuery _) as [meta f]. cbn [snd] in Hm. subst f. eexists. reflexivity.
Qed.
End Connect.

(** C19. A live peer keeps its identifier: while the connection registered under an
    identifier was active in the last two seconds, a second connection that
    presents a secret of the network and the same identifier is refused and the
    members of all networks stay as they were. *)
Theorem live_peer_kept WM a qe es now pongs rq s sec meta ctx p1 q1 :
  authenticate a now (secret_of rq) (cfg s) = Some sec -> meta_of rq = (meta, false) ->
  wf s -> networkMap s !! js_Network sec = Some ctx -> peers ctx !! id_of rq = Some p1 ->
  conns s !! p1 = Some q1 -> pongs.1.1 = None -> Unix now - p_activeTime q1 <= 2 ->
  let '(r, s') := HandlePeerPacketConnect WM a qe es now pongs rq s in
  r = Ok (Forbidden ErrAddressAlreadyInuse) /\ peerMap s' = peerMap s /\
  forall n, peers <$> networkMap s' !! n = peers <$> networkMap s !! n.
Proof.
  intros Ha Hm W Hctx Hid Hq Hpong Hact. rewrite (connect_run WM a qe es now pongs rq s sec meta Ha Hm).
  set (s1 := admitted now sec s). set (pid := fresh (dom (conns s1))).
  assert (Hconns : conns s1 = conns s) by apply admitted_conns.
  destruct (admitted_network now sec s) as (ctx1 & Hctx1 & Hp1). rewrite Hctx in Hp1. simpl in Hp1. fold s1 in Hctx1.
  assert (Hfresh : conns s1 !! pid = None) by (apply not_elem_of_dom, is_fresh).
  rewrite gom_bind_run. unfold SetIfAbsent. rewrite gets_bind. unfold getNetwork. cbn [networkMap set_conns].
  rewrite Hctx1, Hp1, Hid. rewrite gom_bind_run. unfold peer_checkAlive. rewrite Hpong. cbn [check_looks].
  rewrite gom_bind_run. cbn [mret gom_ret]. rewrite deref_bind. cbn [conns set_conns].
  rewrite lookup_insert_ne, Hconns, Hq by (intros ->; rewrite Hconns in Hfresh; congruence).
  rewrite bool_decide_true by done. cbn [mret gom_ret negb].
  split; [done|]. cbn [peerMap networkMap set_conns]. unfold s1, admitted, initMeta, ensureNetwork. rewrite Hctx.
  split; [done|]. intros n. cbn [networkMap set_networkMap]. destruct (decide (n = js_Network sec)) as [->|Hne].
  - rewrite lookup_alter_eq, Hctx. simpl. by destruct (After _ _).
  - by rewrite lookup_alter_ne.
Qed.

(** A request that is authenticated but cannot be upgraded: the handler answers
    with an error and leaves a registered peer without a connection behind; from
    then on any member of the network that asks to be led to that identifier
    panics the server. *)
Theorem failed_upgrade_poisons WM a jn qe es now pongs rq s s' sec meta q pq now' sp :
  wf s -> authenticate a now (secret_of rq) (cfg s) = Some sec -> meta_of rq = (meta, false) ->
  HandlePeerPacketConnect WM a qe es now pongs rq s = (Ok ServerError, s') ->
  zlen (id_of rq) <= 253 ->
  conns s' !! q = Some pq -> js_Network (networkSecret pq) = js_Network sec ->
  (exists pid p, getPeer (js_Network sec) (id_of rq) s' = Some pid /\ conns s' !! pid = Some p /\ p_conn p = None) /\
  (handleMessage WM jn q now' BinaryMessage
     (GSlice (xor_all (p_nonce pq) (framed CONTROL_LEAD_DISCO (id_of rq) [])) sp) s').1 = Panic.
Proof.
  intros W Ha Hm Hrun Hlen Hq Hnet.
  assert (Hreg : exists pid p, getPeer (js_Network sec) (id_of rq) s' = Some pid /\ conns s' !! pid = Some p /\ p_conn p = None).
  { rewrite (connect_run WM a qe es now pongs rq s sec meta Ha Hm) in Hrun. revert Hrun.
    set (s1 := admitted now sec s). set (pid := fresh (dom (conns s1))).
    set (p := newPeer _ _ _ _ _). set (s2 := set_conns _ s1).
    assert (Hfresh : conns s1 !! pid = None) by (apply not_elem_of_dom, is_fresh).
    destruct (admitted_network now sec s) as (ctx1 & Hctx1 & Hpeers). fold s1 in Hctx1.
    rewrite gom_bind_run. unfold SetIfAbsent. rewrite gets_bind. unfold getNetwork.
    change (networkMap s2) with (networkMap s1). rewrite Hctx1.
    set (m := match peers ctx1 !! id_of rq with Some p1 => peer_checkAlive WM now pongs p1 | None => mret false end).
    assert (Hu : untouched pid s2 (m s2).2).
    { unfold m. destruct (peers ctx1 !! id_of rq) as [p1|] eqn:H1; [|done]. apply leaves_checkAlive.
      intros ->. rewrite Hpeers in H1. destruct (networkMap s !! js_Network sec) as [c|] eqn:Hc; [|done].
      destruct (wf_peers s W _ c _ pid Hc H1) as [r [Hr _ _ _]].
      unfold s1 in Hfresh. rewrite admitted_conns in Hfresh. congruence. }
    rewrite gom_bind_run. destruct Hu as [Hu1 Hu2]. destruct (m s2) as [[alive|e|] s3]; cbn [fst snd] in *; [|done..].
    destruct alive; [done|]. rewrite modify_bind. cbn [mret gom_ret negb]. rewrite modify_bind.
    unfold finish_connect. destruct (rq_upgrade rq) as [conn|].
    { unfold update. rewrite modify_bind, gom_bind_run. destruct (start _ _ _ _) as [[u|e|] s4]; [|done..].
      rewrite gets_bind. done. }
    intros [= <-]. exists pid, p. cbn [conns set_peerMap set_networkMap]. rewrite Hu1.
    split; [|split; [by simpl; rewrite lookup_insert_eq|done]].
    unfold getPeer, getNetwork. cbn [networkMap set_peerMap set_networkMap]. rewrite lookup_alter_eq.
    destruct (Hu2 (js_Network sec)) as [c3 Hc3]; [by exists ctx1|]. rewrite Hc3. simpl. unfold nc_getPeer. simpl.
    by rewrite lookup_insert_eq. }
  split; [done|]. destruct Hreg as (pid & p & Hg & Hp & Hnone).
  rewrite (handleMessage_unmask WM jn q pq now' (framed CONTROL_LEAD_DISCO (id_of rq) []) sp s'
             (z2b CONTROL_LEAD_DISCO) (Len (id_of rq) :: id_of rq ++ [])) by done.
  cbv zeta. change (b2z (z2b CONTROL_LEAD_DISCO)) with CONTROL_LEAD_DISCO. codes.
  rewrite msg_id_framed, lift_bind, gets_bind by done. rewrite (getPeer_view s'), Hnet, Hg by apply view_active.
  destruct (lookup_active q (Unix now') s' q pq Hq) as (q1 & Hq1 & _ & _).
  destruct (lookup_active q (Unix now') s' pid p Hp) as (p1 & Hp1 & Hi & _).
  unfold leadDisco. rewrite deref_bind, Hq1, gom_bind_run. unfold ignore, peer_write. rewrite deref_bind, Hp1.
  unfold ident in Hi. injection Hi as -> _ _ _ _. by rewrite Hnone.
Qed.

(** *** What the server announces *)

Lemma limiter_of_pos r c l : limiter_of r c = Some l -> 0 < lim_Limit l.
Proof.
  unfold limiter_of. destruct (RateLimits c) as [rl|]; [|done]. case_bool_decide; [|done]. intros [= <-]. simpl. lia.
Qed.

Lemma Itoa_nonempty n : 0 <= n -> Itoa n <> [].
Proof. intros Hn. unfold Itoa. rewrite bool_decide_false by lia. apply itoa_nonempty. Qed.

(** Looks up a key in a header made of insertions. *)
Ltac header :=
  unfold hget; repeat first
    [ rewrite lookup_insert_eq | rewrite lookup_singleton_eq
    | rewrite lookup_insert_ne by (intros HH; vm_compute in HH; discriminate HH)
    | rewrite lookup_singleton_ne by (intros HH; vm_compute in HH; discriminate HH) ];
  cbn [default from_option id]; unfold id.

(** The limits of the server at the client: with a limit for relayed data and
    one for streams the client takes both as they are configured, with none for
    relayed data it takes none; but a limit for relayed data alone, which the
    configuration allows, is refused by the client, so that no connection comes
    about. *)
Theorem announced_limits es nonce c l :
  (forall lim, limiter_of Relay c = Some lim \/ limiter_of StreamR c = Some lim -> lim_Limit lim < 2 ^ 63 /\ 0 <= lim_Burst lim < 2 ^ 63) ->
  configureRatelimiter (upgradeHeader es nonce c) l =
  match limiter_of Relay c, limiter_of StreamR c with
  | None, _ => (Ok tt, l)
  | Some r, Some sr => (Ok tt, set_streamRateLimiter (Some sr) (set_rateLimiter (Some r) l))
  | Some r, None => (Err BadStreamLimit, set_rateLimiter (Some r) l)
  end.
Proof.
  intros Hb. unfold configureRatelimiter, upgradeHeader. cbv zeta.
  destruct (limiter_of Relay c) as [r|] eqn:Hr.
  - destruct (Hb _ (or_introl eq_refl)) as [Hl1 Hb1]. pose proof (limiter_of_pos _ _ _ Hr) as Hp1.
    destruct (limiter_of StreamR c) as [sr|] eqn:Hs.
    + destruct (Hb _ (or_intror eq_refl)) as [Hl2 Hb2]. pose proof (limiter_of_pos _ _ _ Hs) as Hp2. header.
      rewrite !(bool_decide_false (Itoa _ = [])) by (apply Itoa_nonempty; lia).
      rewrite !ParseInt_Itoa by lia. cbv beta iota.
      rewrite !(bool_decide_true (lim_Limit r > 0)) by lia. by destruct r, sr.
    + header. rewrite !(bool_decide_false (Itoa _ = [])) by (apply Itoa_nonempty; lia).
      rewrite !ParseInt_Itoa by lia. cbv beta iota.
      rewrite !(bool_decide_true (lim_Limit r > 0)) by lia. by destruct r.
  - destruct (limiter_of StreamR c) as [sr|]; header; by rewrite bool_decide_true.
Qed.

(** *** Public networks *)

(** The deadline of a public secret, [math.MaxInt64] seconds, wraps around. *)
Lemma public_deadline_past now : sane now -> Until (UnixTime MaxInt64) now = minDuration.
Proof.
  intros [Hs Hn]. unfold Until, Sub. set (t := UnixTime MaxInt64).
  assert (Ht : t = Time (-9223372036854775808 + 62135596799) 0) by (vm_compute; reflexivity).
  assert (Hb : Before t now = true).
  { unfold Before. rewrite Ht. cbn [t_sec]. rewrite bool_decide_true; [done|]. lia. }
  rewrite Hb. rewrite bool_decide_false; [done|]. intros Hadd.
  set (d := i64 _) in Hadd. assert (Hr : - 2 ^ 63 <= d < 2 ^ 63) by apply i64_range. clearbody d. destruct (Add_sane now d (conj Hs Hn) Hr) as [Ha _].
  rewrite Hadd, Ht in Ha. unfold nanos, Second in *. cbn [t_sec t_nsec] in Ha.
  lia.
Qed.

(** A public network keeps no secret, yet the first tick of the keepalive of any
    of its peers sends the peer a freshly issued one: the deadline that stands for
    "never" lies in the past once it is a [time.Time]. *)
Theorem public_peer_gets_secret WM a js rnd now pid p conn ctx s :
  conns s !! pid = Some p -> p_conn p = Some conn -> closed (closeChan p) = false ->
  js_Deadline (networkSecret p) = MaxInt64 -> networkMap s !! p_network p = Some ctx ->
  sane now -> Unix now - p_activeTime p <= 25 -> minDuration < SecretValidityPeriod (cfg s) - SecretRotationPeriod (cfg s) ->
  exists secret, Network secret = js_Network (networkSecret p) /\
    pm_out (keepalive_tick WM a js rnd now pid s).2 =
      pm_out s ++ [OutPing conn; OutMessage conn BinaryMessage
                     (xor_all (p_nonce p) (z2b CONTROL_UPDATE_NETWORK_SECRET :: js secret))].
Proof.
  intros Hp Hc Ho Hd Hctx Hn Hact Hv.
  unfold keepalive_tick. rewrite deref_bind, Hp, Ho. rewrite bool_decide_false by lia.
  rewrite gom_bind_run. unfold send_ping. rewrite deref_bind, Hp, Hc. unfold modify at 1.
  rewrite gets_bind. cbn [cfg add_pm_out]. rewrite Hd, public_deadline_past by done. rewrite bool_decide_true by done.
  set (s1 := add_pm_out [OutPing conn] s).
  exists (generateSecret a rnd now (MkNet (js_Network (networkSecret p)) (alias ctx) (neighbors ctx)) false s1).
  split; [done|]. rewrite gom_bind_run.
  assert (Hu : forall m : GoM PeerMap ws_error unit, pm_out (ignore m s1).2 = pm_out (m s1).2).
  { intros m. unfold ignore. by destruct (m s1) as [[u|e|] s2]. }
  assert (Hlog : pm_out (updateSecret WM a js rnd now pid s1).2 = pm_out s ++ [OutPing conn; OutMessage conn BinaryMessage
     (xor_all (p_nonce p) (z2b CONTROL_UPDATE_NETWORK_SECRET ::
        js (generateSecret a rnd now (MkNet (js_Network (networkSecret p)) (alias ctx) (neighbors ctx)) false s1)))]).
  { unfold updateSecret. rewrite deref_bind. change (conns s1) with (conns s). rewrite Hp, gets_bind.
    unfold getNetwork. change (networkMap s1) with (networkMap s). rewrite Hctx, gets_bind, gom_bind_run.
    destruct (server_write WM pid p conn (z2b CONTROL_UPDATE_NETWORK_SECRET ::
        js (generateSecret a rnd now (MkNet (js_Network (networkSecret p)) (alias ctx) (neighbors ctx)) false s1)) s1 Hp Hc)
      as (r & -> & Hr). destruct r as [u|e|]; [|cbn [snd]..|done];
      unfold update, modify; cbn [snd pm_out add_pm_out set_conns s1]; by rewrite <- app_assoc. }
  rewrite <- Hlog, <- Hu. destruct (ignore _ s1) as [[u|e|] s2]; done.
Qed.

(** ** Witnesses *)

Module Examples.
Import Auth.Examples.

Definition quiet_ws (_ : list ws_out) (_ : nat) (_ : Z) (_ : bytes) : option ws_error := None.
Definition no_text (_ : bytes) : bytes := [].
Definition no_stuns (_ : list bytes) : bytes := [].
Definition no_report (_ : bytes) : option NATInfo := None.
Definition no_json (_ : NetworkSecret) : bytes := [].
Definition no_addr (_ : bytes) : option UDPAddr := None.
Definition no_secret (_ : bytes) : option NetworkSecret := None.

Definition ex_config : Config :=
  MkConfig [] (bs "key") [] (bs "pub") [] None 0 0.
Definition ex0 : PeerMap := match New [] ex_config with Ok s => s | _ => MkPeerMap ∅ ∅ ∅ ex_config [] end.

Definition ex_request (id nonce meta : bytes) (conn : option nat) : request :=
  MkRequest {[bs "X-Secret" := bs "pub"; bs "X-PeerID" := id; bs "X-Nonce" := nonce; bs "X-Metadata" := meta]} conn.
Abbreviation ex_connect rq s :=
  (HandlePeerPacketConnect quiet_ws toy_codec no_text no_stuns y2025 (None, None, None) rq s).

Definition alice : request := ex_request (bs "alice") (bs "7") (bs "name=a") (Some 10%nat).
Definition bob : request := ex_request (bs "bob") (bs "9") (bs "name=b") (Some 20%nat).
Definition ex1 : PeerMap := (ex_connect alice ex0).2.
Definition ex2 : PeerMap := (ex_connect bob ex1).2.
Definition no_peer : peerConn := newPeer zero_secret [] (z2b 0) ∅ ex_config.
Definition pA : peerConn := default no_peer (conns ex2 !! 0%nat).
Definition pB : peerConn := default no_peer (conns ex2 !! 1%nat).

Definition client (conn : nat) (k : Z) : WSConn :=
  set_lnk (MkLink (Some conn) [] (z2b k) [] 0 None None) new_WSConn.
Definition cA : WSConn := client 10 7.
Definition cB : WSConn := client 20 9.

Lemma ex_A : conns ex2 !! 0%nat = Some pA.
Proof. vm_compute. reflexivity. Qed.
Lemma ex_B : conns ex2 !! 1%nat = Some pB.
Proof. vm_compute. reflexivity. Qed.

Lemma ex0_new : New [] ex_config = Ok ex0.
Proof. vm_compute. reflexivity. Qed.
Lemma wf0 : wf ex0.
Proof. exact (wf_New [] ex_config ex0 ex0_new). Qed.
Lemma wf2 : wf ex2.
Proof.
  apply keeps_connect, keeps_connect. exact wf0.
Qed.

Definition ex_ctx : networkContext :=
  default (newNetworkContext [] zero_time zero_time [] []) (networkMap ex2 !! bs "pub").
Lemma is_default {A} (o : option A) d : is_Some o -> o = Some (default d o).
Proof. by intros [x ->]. Qed.
Lemma ex_ctx_eq : networkMap ex2 !! bs "pub" = Some ex_ctx.
Proof.
  apply is_default. destruct (networkMap ex2 !! bs "pub") eqn:H; [by eexists|].
  apply (f_equal (fun o => match o with None => true | _ => false end)) in H. vm_compute in H. discriminate H.
Qed.

Lemma settled2 : settled ex2.
Proof.
  intros q pq Hq.
  assert (Hall : map_Forall (fun _ p => p_conn p <> None /\ zlen (p_id p) <= 253) (conns ex2)).
  { apply map_Forall_to_list. vm_compute. repeat constructor; done. }
  exact (Hall q pq Hq).
Qed.

Lemma relay_end_to_end_witness :
  exists m1 m2,
    out (WriteTo quiet_ws (bs "hello") (bs "bob") CONTROL_RELAY cA).2 = out cA ++ [OutMessage 10 BinaryMessage m1] /\
    (let s' := handleMessage quiet_ws no_report 0 y2025 BinaryMessage (GSlice m1 []) ex2 in
     s'.1 = Ok tt /\ pm_out s'.2 = pm_out ex2 ++ [OutMessage 20 BinaryMessage m2]) /\
    (let c' := @onMessage no_addr no_secret Empty_set y2025 BinaryMessage (GSlice m2 []) cB in
     c'.1 = Ok tt /\ datagrams c'.2 = Chan (queue (datagrams cB) ++ [MkDatagram (p_id pA) (bs "hello")]) false).
Proof.
  refine (relay_end_to_end quiet_ws quiet_ws no_report no_addr no_secret cA cB ex2 0 pA 1 pB 10 20 (bs "bob") (bs "hello")
           y2025 y2025 [] [] eq_refl ex_A _ _ ex_B _ _ _ _ _); vm_compute; first [reflexivity|discriminate|repeat split].
Defined.

Lemma lead_end_to_end_witness :
  exists m mB mA,
    out (LeadDisco quiet_ws (bs "bob") cA).2 = out cA ++ [OutMessage 10 BinaryMessage m] /\
    (let s' := handleMessage quiet_ws no_report 0 y2025 BinaryMessage (GSlice m []) ex2 in
     s'.1 = Ok tt /\ pm_out s'.2 = pm_out ex2 ++ [OutMessage 20 BinaryMessage mB; OutMessage 10 BinaryMessage mA]) /\
    (let c' := @onMessage no_addr no_secret Empty_set y2025 BinaryMessage (GSlice mB []) cB in
     c'.1 = Ok tt /\ events c'.2 = Chan (queue (events cB) ++
       [MkEvent CONTROL_NEW_PEER (PeerData (MkPeer (p_id pA) (metadata pA)))]) false) /\
    (let c' := @onMessage no_addr no_secret Empty_set y2025 BinaryMessage (GSlice mA []) cA in
     c'.1 = Ok tt /\ events c'.2 = Chan (queue (events cA) ++
       [MkEvent CONTROL_NEW_PEER (PeerData (MkPeer (p_id pB) (metadata pB)))]) false).
Proof.
  refine (lead_end_to_end quiet_ws quiet_ws no_report no_addr no_secret cA cB ex2 0 pA 1 pB 10 20 (bs "bob")
           y2025 y2025 [] [] eq_refl ex_A _ _ _ ex_B _ _ (conj eq_refl (conj eq_refl eq_refl))
           (conj eq_refl (conj eq_refl eq_refl)) _ _ _ (ParseQuery_wf (bs "name=a")) (ParseQuery_wf (bs "name=b")));
    vm_compute; first [reflexivity|discriminate].
Defined.

(** An empty message. *)
Lemma message_panic_iff_witness :
  (handleMessage quiet_ws no_report 0 y2025 BinaryMessage (GSlice [] []) ex2).1 = Panic <-> True.
Proof.
  exact (message_panic_iff quiet_ws no_report ex2 0 pA y2025 (GSlice [] []) wf2 settled2 ex_A eq_refl).
Defined.

Lemma messages_stay_in_reach_witness :
  let s' := (handleMessage quiet_ws no_report 0 y2025 BinaryMessage (GSlice (bs "any bytes") []) ex2).2 in
  networkMap s' = networkMap ex2 /\ peerMap s' = peerMap ex2 /\
  exists log, pm_out s' = pm_out ex2 ++ log /\ Forall (allowed ex2 (js_Network (networkSecret pA)) 0) log.
Proof.
  exact (messages_stay_in_reach quiet_ws no_report ex2 0 pA y2025 BinaryMessage (GSlice (bs "any bytes") [])
           (wf_ids ex2 wf2) ex_A).
Defined.

Lemma reachable_tables_agree_witness :
  getPeer (bs "pub") (bs "alice") ex1 = Some 0%nat /\ wf ex1 /\
  exists p, registered ex1 (p_network p) (bs "alice") 0 p /\ js_Network (networkSecret p) = p_network p /\
    (p_network p = bs "pub" \/
     exists ctx, networkMap ex1 !! bs "pub" = Some ctx /\ p_network p ∈ neighbors ctx) /\
    exists now rq, (now, rq) ∈ [(y2025, alice)] /\ hget (rq_header rq) (bs "X-PeerID") = bs "alice" /\
      admits toy_codec (cfg ex0) now (presented rq) (p_network p).
Proof.
  assert (Hg : getPeer (bs "pub") (bs "alice") ex1 = Some 0%nat) by (vm_compute; reflexivity).
  split; [exact Hg|].
  destruct (reachable_tables_agree quiet_ws toy_codec no_json no_report no_text no_stuns no_text [] ex_config ex0
           [(y2025, alice)] ex1 (bs "pub") (bs "alice") 0 toy_codec_ok ex0_new) as [H1 H2].
  - exact (run_step _ _ _ _ _ _ _ _ [] _ _ _ (run_start _ _ _ _ _ _ _ _) (step_connect _ _ _ _ _ _ _ _ _ _ _)).
  - exact (conj H1 (H2 Hg)).
Defined.

Lemma meta_ok rq : (meta_of rq).2 = false -> meta_of rq = ((meta_of rq).1, false).
Proof. destruct (meta_of rq). simpl. by intros ->. Qed.

Definition pub_secret : JSONSecret := MkJSONSecret (bs "pub") false [] [] MaxInt64.

(** A second connection as alice while the first one is active. *)
Lemma live_peer_kept_witness :
  let '(r, s') := ex_connect alice ex2 in
  r = Ok (Forbidden ErrAddressAlreadyInuse) /\ peerMap s' = peerMap ex2 /\
  forall n, peers <$> networkMap s' !! n = peers <$> networkMap ex2 !! n.
Proof.
  refine (live_peer_kept quiet_ws toy_codec no_text no_stuns y2025 (None, None, None) alice ex2 pub_secret
           (meta_of alice).1 ex_ctx 0 pA _ _ wf2 ex_ctx_eq _ ex_A eq_refl _).
  - vm_compute. reflexivity.
  - by apply meta_ok; vm_compute.
  - vm_compute. reflexivity.
  - vm_compute. discriminate.
Defined.

Definition carol : request := ex_request (bs "carol") (bs "5") (bs "name=c") None.
Abbreviation ex3 := (ex_connect carol ex2).2.

Lemma ex3_A : conns ex3 !! 0%nat = Some pA.
Proof. vm_compute. reflexivity. Qed.

Lemma pair_eq {A B} (x : A * B) (r : A) : x.1 = r -> x = (r, x.2).
Proof. destruct x. simpl. by intros ->. Qed.
Lemma ex3_run : ex_connect carol ex2 = (Ok ServerError, ex3).
Proof.
  refine (pair_eq (ex_connect carol ex2) (Ok ServerError) _). vm_compute. reflexivity.
Qed.

Lemma failed_upgrade_poisons_witness :
  (exists pid p, getPeer (bs "pub") (bs "carol") ex3 = Some pid /\ conns ex3 !! pid = Some p /\ p_conn p = None) /\
  (handleMessage quiet_ws no_report 0 y2025 BinaryMessage
     (GSlice (xor_all (p_nonce pA) (framed CONTROL_LEAD_DISCO (bs "carol") [])) []) ex3).1 = Panic.
Proof.
  refine (failed_upgrade_poisons quiet_ws toy_codec no_report no_text no_stuns y2025 (None, None, None) carol ex2 ex3
           pub_secret (meta_of carol).1 0 pA y2025 [] wf2 eq_refl (meta_ok carol eq_refl) _ _ ex3_A eq_refl).
  - exact ex3_run.
  - vm_compute. discriminate.
Defined.

Definition limited : Config :=
  MkConfig [] [] [] [] [] (Some (MkRateLimiterConfig 0 0 (MkRateLimiter 100 200) (MkRateLimiter 0 0) (MkRateLimiter 0 0))) 0 0.

(** The configuration is accepted; the client refuses its header. *)
Lemma announced_limits_witness :
  (exists cfg, ApplyDefaults [] limited = Ok cfg) /\
  (configureRatelimiter (upgradeHeader no_stuns (bs "1") limited) (lnk new_WSConn)).1 = Err BadStreamLimit.
Proof.
  split; [eexists; vm_compute; reflexivity|].
  rewrite (announced_limits no_stuns (bs "1") limited (lnk new_WSConn)); [vm_compute; reflexivity|].
  intros lim [[= <-]|H]; [vm_compute; repeat split; discriminate|discriminate H].
Defined.

Lemma public_peer_gets_secret_witness :
  exists secret, Network secret = js_Network (networkSecret pA) /\
    pm_out (keepalive_tick quiet_ws toy_codec no_json [] y2025 0 ex2).2 =
      pm_out ex2 ++ [OutPing 10; OutMessage 10 BinaryMessage
                     (xor_all (p_nonce pA) (z2b CONTROL_UPDATE_NETWORK_SECRET :: no_json secret))].
Proof.
  refine (public_peer_gets_secret quiet_ws toy_codec no_json [] y2025 0 pA 10 ex_ctx ex2 ex_A _ _ _ _ _ _ _).
  - vm_compute. reflexivity.
  - vm_compute. reflexivity.
  - vm_compute. reflexivity.
  - exact ex_ctx_eq.
  - vm_compute. repeat split; discriminate.
  - vm_compute. discriminate.
  - vm_compute. reflexivity.
Defined.
End Examples.
