(* ===== verification/Api.v ===== *)
(** * Api: the administration interface of the server ([peermap/api/api_v1.go])

    A request carries a network secret as its token.  The answer is a list of
    documents, in the order in which the handlers write them, and the secret of
    the X-Set-Token header when the token is renewed.  JSON is not written out:
    a document is its value. *)

From S2P Require Import Prelude Text Langs GoTime Url Disco Secure Auth Peermap.

(** ** Build information *)

Record buildInfo := MkBuildInfo { GoVersion : bytes; VCSRevision : bytes; VCSTime : bytes }.
Definition no_info : buildInfo := MkBuildInfo [] [] [].
Definition ErrUnsupported : bytes := bs "unsupported operation".

(** One setting of [debug.ReadBuildInfo]. *)
Definition read_setting (b : buildInfo) (s : bytes * bytes) : buildInfo :=
  if bool_decide (s.1 = bs "vcs.revision") then MkBuildInfo (GoVersion b) s.2 (VCSTime b)
  else if bool_decide (s.1 = bs "vcs.time") then MkBuildInfo (GoVersion b) (VCSRevision b) s.2
  else b.

(** [readBuildInfo]; [info] is what the runtime gives. *)
Definition readBuildInfo (info : option (bytes * list (bytes * bytes))) : buildInfo * option bytes :=
  match info with
  | None => (no_info, Some ErrUnsupported)
  | Some (v, settings) => (fold_left read_setting settings (MkBuildInfo v [] []), None)
  end.

(** ** Requests and answers *)

Definition ErrForbidden : Error := MkError 10000 (bs "forbidden").

Record api_request := MkApiRequest { ar_Method : bytes; ar_Path : bytes; ar_Token : bytes }.

Inductive document :=
| DocError (e : Error)
| DocSTUNs (stuns : list bytes)
| DocPeers (peers : list bytes)
| DocSecret (filename : bytes) (secret : NetworkSecret)
| DocServerInfo (version : bytes) (info : buildInfo)
| NotFound
| MethodNotAllowed.

Record response := MkResponse { set_token : option NetworkSecret; documents : list document }.

Section Api.
Context (a : codec) (raw_query : bytes -> option bytes).
Context (Version : bytes) (build : option (bytes * list (bytes * bytes))).

(** ** Handlers *)

Definition stun_url (stun : bytes) : bytes := if str_Contains stun (bs "://") then stun else bs "udp://" ++ stun.
Definition handleQuerySTUNs (s : PeerMap) : list document := [DocSTUNs (stun_url <$> STUNs (cfg s))].

Definition handleQueryPeers (secret : JSONSecret) (s : PeerMap) : res Empty_set (list document) :=
  peers ← Peers raw_query (js_Network secret) s; Ok [DocPeers peers].

Definition handleDownloadSecret (rnd : bytes) (now : time) (secret : JSONSecret) (s : PeerMap) : list document :=
  [DocSecret (js_Network secret ++ bs "_psns.json") (Grant a rnd now (js_Network secret) [] s)].

(** An error does not return. *)
Definition handleQueryServerInfo : list document :=
  let r := readBuildInfo build in
  (match r.2 with Some e => [DocError (Err_of (Langs.Other e))] | None => [] end) ++ [DocServerInfo Version r.1].

(** The routes of [init]: GET also serves HEAD. *)
Definition route (rnd : bytes) (now : time) (r : api_request) (secret : JSONSecret) (s : PeerMap) :
    res Empty_set (list document) :=
  let known := [bs "/api/v1/r8/stuns"; bs "/api/v1/r5/peers"; bs "/api/v1/r5/psns.json"; bs "/api/v1/r5/server_info"] in
  if bool_decide (ar_Path r ∉ known) then Ok [NotFound]
  else if bool_decide (ar_Method r <> bs "GET" /\ ar_Method r <> bs "HEAD") then Ok [MethodNotAllowed]
  else if bool_decide (ar_Path r = bs "/api/v1/r8/stuns") then Ok (handleQuerySTUNs s)
  else if bool_decide (ar_Path r = bs "/api/v1/r5/peers") then handleQueryPeers secret s
  else if bool_decide (ar_Path r = bs "/api/v1/r5/psns.json") then Ok (handleDownloadSecret rnd now secret s)
  else Ok handleQueryServerInfo.

(** The secret is renewed in the last part of its life. *)
Definition renews (now : time) (secret : JSONSecret) (c : Config) : bool :=
  bool_decide (Until (UnixTime (js_Deadline secret)) now < SecretValidityPeriod c - SecretRotationPeriod c).

(** [ServeHTTP]; [rnd] and [rnd'] are what the random reader gives for the
    renewed secret and for a downloaded one. *)
Definition ServeHTTP (rnd rnd' : bytes) (now : time) (r : api_request) (s : PeerMap) : res Empty_set response :=
  let '(secret, err) := ParseSecret a now (ar_Token r) in
  match err with
  | Some e => Ok (MkResponse None [DocError e])
  | None =>
      if HasPrefix (ar_Path r) (bs "/api/v1/r5/") && negb (js_Admin secret) then
        Ok (MkResponse None [DocError ErrForbidden])
      else
        let renewed :=
          if renews now secret (cfg s) then
            Some (Grant a rnd now (js_Network secret) (IfElse (js_Admin secret) (bs "PG_ADM") []) s)
          else None in
        docs ← route rnd' now r secret s;
        Ok (MkResponse renewed docs)
  end.

(** ** Who sees what *)

(** What only an administrator of the network may see. *)
Definition confidential (d : document) : Prop :=
  match d with DocPeers _ | DocSecret _ _ | DocServerInfo _ _ => True | _ => False end.

(** What each document holds. *)
Definition of_network (rnd : bytes) (now : time) (secret : JSONSecret) (s : PeerMap) (d : document) : Prop :=
  match d with
  | DocPeers l => Peers raw_query (js_Network secret) s = Ok l
  | DocSecret _ n => n = Grant a rnd now (js_Network secret) [] s
  | _ => True
  end.

Lemma route_confidential rnd now r secret s docs d :
  route rnd now r secret s = Ok docs -> d ∈ docs -> confidential d ->
  HasPrefix (ar_Path r) (bs "/api/v1/r5/") = true /\ of_network rnd now secret s d.
Proof.
  unfold route. intros Hr Hd Hc.
  case_bool_decide; [injection Hr as <-; by apply list_elem_of_singleton in Hd as ->|].
  case_bool_decide; [injection Hr as <-; by apply list_elem_of_singleton in Hd as ->|].
  case_bool_decide as H8; [injection Hr as <-; by apply list_elem_of_singleton in Hd as ->|].
  case_bool_decide as Hp.
  { rewrite Hp. split; [done|]. unfold handleQueryPeers in Hr.
    apply res_bind_Ok in Hr as (l & Hl & Hr). injection Hr as <-. by apply list_elem_of_singleton in Hd as ->. }
  case_bool_decide as Hs.
  { rewrite Hs. split; [done|]. injection Hr as <-. by apply list_elem_of_singleton in Hd as ->. }
  assert (Hi : ar_Path r = bs "/api/v1/r5/server_info") by set_solver.
  rewrite Hi. split; [done|]. injection Hr as <-. unfold handleQueryServerInfo in Hd.
  apply elem_of_app in Hd as [Hd|Hd%list_elem_of_singleton]; [|by subst].
  destruct (readBuildInfo build).2; [by apply list_elem_of_singleton in Hd as ->|by apply elem_of_nil in Hd].
Qed.

(** The documents of an answer. *)
Lemma documents_confined rnd rnd' now r s resp d :
  ServeHTTP rnd rnd' now r s = Ok resp -> d ∈ documents resp -> confidential d ->
  exists secret, ParseSecret a now (ar_Token r) = (secret, None) /\ js_Admin secret = true /\
    of_network rnd' now secret s d.
Proof.
  unfold ServeHTTP. destruct (ParseSecret a now (ar_Token r)) as [secret [e|]] eqn:Ep.
  { intros H Hd Hc. injection H as <-. simpl in Hd. by apply list_elem_of_singleton in Hd as ->. }
  destruct (HasPrefix (ar_Path r) (bs "/api/v1/r5/") && negb (js_Admin secret)) eqn:Eforb.
  { intros H Hd Hc. injection H as <-. simpl in Hd. by apply list_elem_of_singleton in Hd as ->. }
  intros (docs & Hr & H)%res_bind_Ok Hd Hc. injection H as <-. simpl in Hd.
  destruct (route_confidential _ _ _ _ _ _ _ Hr Hd Hc) as [Hpre Hof]. rewrite Hpre in Eforb. simpl in Eforb.
  exists secret. split; [done|]. split; [by destruct (js_Admin secret)|done].
Qed.

(** What the secret of the X-Set-Token header grants, to whoever sent a live token
    in the last part of its life: the network and the administrator flag of that
    token, the alias and the neighbours that the network has now, for as long as the
    server grants secrets. *)
Definition renews_same (now now' : time) (token : bytes) (s : PeerMap) (ns : NetworkSecret) : Prop :=
  exists secret, ParseSecret a now token = (secret, None) /\ renews now secret (cfg s) = true /\
    Network ns = js_Network secret /\
    let secret' := (ParseSecret a now' (Secret ns)).1 in
    js_Network secret' = js_Network secret /\ js_Admin secret' = js_Admin secret /\
    (forall ctx, getNetwork (js_Network secret) s = Some ctx ->
       js_Alias secret' = alias ctx /\ js_Neighbors secret' = neighbors ctx) /\
    js_Deadline secret' = Unix (Add now (SecretValidityPeriod (cfg s))).

Lemma renewal_same rnd rnd' now now' r s resp ns :
  codec_ok a ->
  ServeHTTP rnd rnd' now r s = Ok resp -> set_token resp = Some ns -> renews_same now now' (ar_Token r) s ns.
Proof.
  intros Ha. unfold ServeHTTP. destruct (ParseSecret a now (ar_Token r)) as [secret [e|]] eqn:Ep.
  { intros H. by injection H as <-. }
  destruct (HasPrefix (ar_Path r) (bs "/api/v1/r5/") && negb (js_Admin secret)).
  { intros H. by injection H as <-. }
  intros (docs & Hr & H)%res_bind_Ok. injection H as <-. cbn [set_token].
  destruct (renews now secret (cfg s)) eqn:Er; [|done]. intros Hns. injection Hns as <-.
  exists secret. split; [done|]. split; [done|]. unfold Grant, generateSecret.
  assert (Hadm : HasPrefix (IfElse (js_Admin secret) (bs "PG_ADM") []) (bs "PG_ADM") = js_Admin secret)
    by (by destruct (js_Admin secret)).
  rewrite Hadm. cbn [Network Secret]. rewrite ParseSecret_Generate by done. cbn [fst].
  cbn [js_Network js_Admin js_Alias js_Neighbors js_Deadline].
  destruct (getNetwork (js_Network secret) s) as [ctx|] eqn:Ec; cbn [net_ID net_Alias net_Neighbors];
    (split; [done|]); (split; [done|]); (split; [done|]); (split; [|done]); intros ctx' Hctx; [|done].
  by injection Hctx as <-.
Qed.

(** C20. What an answer of the interface gives away.  The documents with the peers,
    with a secret or with the facts of the server go only to a live token of an
    administrator, and only for its own network; a secret that is downloaded is one
    of a plain member.  Besides the documents there is the X-Set-Token header, on
    every route a live token may ask for: a token in the last part of its life, of
    a plain member as well, is answered with a fresh secret, of the same network
    and with the same rights.  A token that is refused gets the error alone, and a
    plain member that asks for an administrator's route gets neither a document nor
    a secret. *)
Theorem api_confined rnd rnd' now now' r s resp :
  codec_ok a -> ServeHTTP rnd rnd' now r s = Ok resp ->
  (forall d, d ∈ documents resp -> confidential d ->
     exists secret, ParseSecret a now (ar_Token r) = (secret, None) /\ js_Admin secret = true /\
       of_network rnd' now secret s d) /\
  (forall ns, set_token resp = Some ns -> renews_same now now' (ar_Token r) s ns) /\
  (forall secret e, ParseSecret a now (ar_Token r) = (secret, Some e) ->
     resp = MkResponse None [DocError e]) /\
  (forall secret, ParseSecret a now (ar_Token r) = (secret, None) -> js_Admin secret = false ->
     HasPrefix (ar_Path r) (bs "/api/v1/r5/") = true -> resp = MkResponse None [DocError ErrForbidden]).
Proof.
  intros Ha H. split_and!.
  - intros d. by apply (documents_confined rnd).
  - intros ns. by apply (renewal_same rnd rnd').
  - intros secret e He. unfold ServeHTTP in H. rewrite He in H. by injection H as <-.
  - intros secret Hp Hadm Hpre. unfold ServeHTTP in H. rewrite Hp, Hpre, Hadm in H. by injection H as <-.
Qed.
End Api.

(** ** Witnesses *)

Module Examples.
Import Auth.Examples.

Definition server : PeerMap :=
  MkPeerMap ∅ ∅ ∅ (MkConfig (bs "127.0.0.1:9987") (bs "key") [bs "stun.example.org:3478"] [] [] None (2 * 3600 * Second) (4 * 3600 * Second)) [].
Definition admin_token : bytes := GenerateSecretAdmin toy_codec [] y2025 true (MkNet (bs "home") [] []) (1800 * Second).
Definition download : api_request := MkApiRequest (bs "GET") (bs "/api/v1/r5/psns.json") admin_token.
Definition no_query (_ : bytes) : option bytes := None.
Definition answer : res Empty_set response := ServeHTTP toy_codec no_query [] None [] [] y2025 download server.
Definition answered : response := match answer with Ok r => r | _ => MkResponse None [] end.
Definition downloaded : document := DocSecret (bs "home_psns.json") (Grant toy_codec [] y2025 (bs "home") [] server).

Definition renewed : NetworkSecret := Grant toy_codec [] y2025 (bs "home") (bs "PG_ADM") server.

Lemma api_confined_witness :
  (exists secret, ParseSecret toy_codec y2025 admin_token = (secret, None) /\ js_Admin secret = true /\
    of_network toy_codec no_query [] y2025 secret server downloaded) /\
  renews_same toy_codec y2025 y2025 admin_token server renewed.
Proof.
  destruct (api_confined toy_codec no_query [] None [] [] y2025 y2025 download server answered toy_codec_ok)
    as (H1 & H2 & _); [vm_compute; reflexivity|]. split.
  - apply H1; [|exact I].
    assert (Hd : documents answered = [downloaded]) by (vm_compute; reflexivity).
    rewrite Hd. apply list_elem_of_singleton. reflexivity.
  - apply H2. vm_compute. reflexivity.
Defined.

(** A plain member whose token is in the last part of its life. *)
Definition member_token : bytes := GenerateSecretAdmin toy_codec [] y2025 false (MkNet (bs "home") [] []) (1800 * Second).
Definition ask_stuns : api_request := MkApiRequest (bs "GET") (bs "/api/v1/r8/stuns") member_token.

Example member_renewed :
  ServeHTTP toy_codec no_query [] None [] [] y2025 ask_stuns server =
  Ok (MkResponse (Some (Grant toy_codec [] y2025 (bs "home") [] server)) [DocSTUNs [bs "udp://stun.example.org:3478"]]).
Proof. vm_compute. reflexivity. Qed.
End Examples.
