(* ===== verification/Login.v ===== *)
(** * Login: how a client waits for its secret ([peermap/oidc], [peermap/network])

    A client opens GET /oidc/secret and waits; the callback of the provider, on
    another connection, hands the granted secret over through a channel that a
    table, under a reader-writer lock, finds by the state of the login.  The
    requests are processes whose steps interleave: [OIDCSecret] holds the lock
    only for a moment, [NotifyToken] holds it for reading while it sends. *)

From S2P Require Import Prelude Text Url Disco.

(** ** Providers *)

Record OIDCProviderConfig := MkProviderConfig {
  pc_Name : bytes;
  Issuer : bytes;
  ClientID : bytes;
  ClientSecret : bytes;
  RedirectURL : bytes;
  Scopes : list bytes;
  AuthURL : bytes;
  TokenURL : bytes;
  UserInfoURL : bytes
}.

Definition or_else {A} (l d : list A) : list A := match l with [] => d | _ => l end.

(** [usingWellKnownConfig] *)
Definition usingWellKnownConfig (c : OIDCProviderConfig) : OIDCProviderConfig :=
  let '(MkProviderConfig name issuer id sec redirect scopes au tu ui) := c in
  if bool_decide (name = bs "google") then
    MkProviderConfig name (or_else issuer (bs "https://accounts.google.com")) id sec redirect
      (or_else scopes [bs "openid"; bs "email"; bs "profile"]) au tu ui
  else if bool_decide (name = bs "github") then
    MkProviderConfig name issuer id sec redirect (or_else scopes [bs "read:user"; bs "user:email"])
      (or_else au (bs "https://github.com/login/oauth/authorize"))
      (or_else tu (bs "https://github.com/login/oauth/access_token"))
      (or_else ui (bs "https://api.github.com/user"))
  else c.

(** ** Paths and pages *)

(** [path.Clean] of a path that begins with a slash. *)
Definition clean_step (stack : list bytes) (elem : bytes) : list bytes :=
  if bool_decide (elem = [] \/ elem = bs ".") then stack
  else if bool_decide (elem = bs "..") then removelast stack
  else stack ++ [elem].
Definition Clean (p : bytes) : bytes := bs "/" ++ join (bs "/") (fold_left clean_step (Split (z2b 47) p) []).

(** [JoinOIDC] and the URLs of [JoinIntent]: [host] is the host of the server's
    URL, [state] the text of the random bytes; the scheme is always https. *)
Definition join_path (oidcProvider : bytes) : bytes :=
  if bool_decide (oidcProvider = []) then bs "/oidc" else Clean (bs "/oidc/" ++ oidcProvider).
Definition auth_url (host oidcProvider state : bytes) : bytes :=
  bs "https://" ++ host ++ join_path oidcProvider ++ bs "?state=" ++ state.
Definition token_url (host state : bytes) : bytes := bs "https://" ++ host ++ bs "/oidc/secret?state=" ++ state.

(** [OIDCSelector]; [names] are the providers in the order of the map's iteration,
    and the state is written as it came. *)
Definition quote : bytes := [z2b 34].
Definition selector_link (host urlpath state name : bytes) : bytes :=
  bs "<a href=" ++ quote ++ bs "//" ++ host ++ Clean (urlpath ++ bs "/" ++ name) ++ bs "?state=" ++ state ++
  quote ++ bs ">" ++ name ++ bs "</a><br />".
Definition OIDCSelector (host urlpath state : bytes) (names : list bytes) : bytes :=
  bs "<meta name=" ++ quote ++ bs "viewport" ++ quote ++ bs " content=" ++ quote ++
  bs "width=device-width, initial-scale=1.0" ++ quote ++ bs ">" ++
  bs "<style>body{font-size: 18px;line-height: 26px;margin: 0;padding: 10px}</style>" ++
  match names with
  | [] => bs "OIDC not configured yet"
  | _ => bs "<b>Select an account to authenticate: </b><br />" ++ concat (selector_link host urlpath state <$> names)
  end.

(** The page of one provider leads to the address that its client opens. *)
Example selector_leads : selector_link (bs "example.org") (bs "/oidc") (bs "Xy1") (bs "github") =
  bs "<a href=" ++ quote ++ drop 6 (auth_url (bs "example.org") (bs "github") (bs "Xy1")) ++ quote ++ bs ">github</a><br />".
Proof. reflexivity. Qed.
Example clean_dots : join_path (bs "a/../../x//y/.") = bs "/x/y".
Proof. reflexivity. Qed.

(** ** The callback *)

(** What the provider says of a user. *)
Record user_info := MkUserInfo { Email : bytes; EmailVerified : bool; claims_ok : bool }.

(** What [AddProvider] keeps for OAuth. *)
Record oauth_config (E : Type) := MkOAuth {
  oc_ClientID : bytes; oc_ClientSecret : bytes; oc_RedirectURL : bytes; oc_Endpoint : E; oc_Scopes : list bytes
}.
Arguments MkOAuth {E}.

Record OIDCProvider (E : Type) := MkProvider { standardOIDC : bool; provider : E; oAuthConfig : oauth_config E }.
Arguments MkProvider {E}.
Arguments standardOIDC {E}.
Arguments provider {E}.
Arguments oAuthConfig {E}.

Section Providers.
(** The OIDC library: a provider that the issuer publishes, if it can be reached,
    or one of three URLs; the exchange of a code for a token, and the user
    information of a token.  [None] is an error. *)
Context {E : Type} (discover : bytes -> option E) (of_urls : bytes -> bytes -> bytes -> E).
Context (Exchange : oauth_config E -> bytes -> option bytes) (query_user : E -> bytes -> option user_info).

Definition AddProvider (cfg : OIDCProviderConfig) (providers : gmap bytes (OIDCProvider E)) :
    option (gmap bytes (OIDCProvider E)) :=
  let c := usingWellKnownConfig cfg in
  let add p std := <[pc_Name c := MkProvider std p
    (MkOAuth (ClientID c) (ClientSecret c) (RedirectURL c) p (Scopes c))]> providers in
  if bool_decide (Issuer c <> []) then p ← discover (Issuer c); Some (add p true)
  else Some (add (of_urls (AuthURL c) (TokenURL c) (UserInfoURL c)) false).

(** [UserInfo]: the email of the user who brought the code, or an error. *)
Definition UserInfo (p : OIDCProvider E) (code : bytes) : option bytes :=
  token ← Exchange (oAuthConfig p) code;
  info ← query_user (provider p) token;
  if standardOIDC p && negb (EmailVerified info) then None
  else if claims_ok info then Some (Email info) else None.

(** What [Authority.ServeHTTP] does before it notifies. *)
Inductive callback :=
| Refused (code : Z)
| Notify (state : bytes) (secret : NetworkSecret).

Definition authorize (providers : gmap bytes (OIDCProvider E)) (grant : bytes -> bytes -> option NetworkSecret)
    (name code state : bytes) : callback :=
  match providers !! name with
  | None => Refused 400
  | Some p =>
      match UserInfo p code with
      | None => Refused 502
      | Some email =>
          if bool_decide (email = []) then Refused 502
          else match grant email state with
               | None => Refused 500
               | Some secret => Notify state secret
               end
      end
  end.

(** A secret is granted to the email of a user whom a configured provider knows
    by the code; a provider with an issuer has verified the email. *)
Lemma authorized_user providers grant name code state st secret :
  authorize providers grant name code state = Notify st secret ->
  st = state /\ exists p token info, providers !! name = Some p /\ Exchange (oAuthConfig p) code = Some token /\
    query_user (provider p) token = Some info /\ Email info <> [] /\
    (standardOIDC p = true -> EmailVerified info = true) /\ grant (Email info) state = Some secret.
Proof.
  unfold authorize, UserInfo. destruct (providers !! name) as [p|]; [|done].
  destruct (Exchange (oAuthConfig p) code) as [token|] eqn:Et; simpl; [|done].
  destruct (query_user (provider p) token) as [info|] eqn:Ei; simpl; [|done].
  destruct (standardOIDC p && negb (EmailVerified info)) eqn:Ev; [done|].
  destruct (claims_ok info); [|done]. case_bool_decide as He; [done|].
  destruct (grant (Email info) state) as [s|] eqn:Eg; [|done]. intros H. injection H as <- <-. split; [done|].
  exists p, token, info. repeat split; try done. intros Hs. rewrite Hs in Ev. by destruct (EmailVerified info).
Qed.

(** Only a provider whose configuration names no issuer, nor google, is trusted
    without a verified email. *)
Lemma added_provider_standard cfg providers m p :
  AddProvider cfg providers = Some m -> m !! pc_Name (usingWellKnownConfig cfg) = Some p ->
  standardOIDC p = bool_decide (Issuer cfg <> [] \/ pc_Name cfg = bs "google").
Proof.
  unfold AddProvider. intros Hm Hp.
  assert (Hi : Issuer (usingWellKnownConfig cfg) <> [] <-> Issuer cfg <> [] \/ pc_Name cfg = bs "google").
  { destruct cfg as [n i id sec re sc au tu ui]. unfold usingWellKnownConfig.
    destruct (decide (n = bs "google")) as [->|Hg].
    - rewrite bool_decide_true by done. cbn. split; [by right|]. intros _. by destruct i.
    - rewrite (bool_decide_false (n = bs "google")) by done.
      assert (Hor : i <> [] \/ n = bs "google" <-> i <> []) by (split; [intros [?|?]; [done|by destruct Hg]|by left]).
      destruct (decide (n = bs "github")) as [Hh|Hh]; [rewrite (bool_decide_true _ Hh)|rewrite (bool_decide_false _ Hh)]; cbn; tauto. }
  case_bool_decide as Hd.
  - destruct (discover _) as [q|]; simpl in Hm; [|done]. injection Hm as <-. rewrite lookup_insert_eq in Hp.
    injection Hp as <-. symmetry. apply bool_decide_eq_true. by apply Hi.
  - injection Hm as <-. rewrite lookup_insert_eq in Hp. injection Hp as <-. symmetry.
    apply bool_decide_eq_false. intros Hor. by apply Hi in Hor.
Qed.
End Providers.

(** ** Processes *)

(** One call of [OIDCSecret]; its channel has its number. *)
Inductive waiter_phase :=
| Starting
| Waiting
| TimedOut
| Got (secret : NetworkSecret)
| Closed (answer : option NetworkSecret).
Record waiter := MkWaiter { w_state : bytes; w_phase : waiter_phase }.

(** One call of [NotifyToken]: [Sending] holds the lock for reading. *)
Inductive notifier_phase :=
| Called
| Sending (ch : nat)
| Notified
| StateNotFound
| SentOnClosed.
Record notifier := MkNotifier { n_state : bytes; n_secret : NetworkSecret; n_phase : notifier_phase }.

Record sys := MkSys {
  notifyContext : gmap bytes nat;
  waiters : gmap nat waiter;
  notifiers : gmap nat notifier
}.
Definition init : sys := MkSys ∅ ∅ ∅.

Definition set_waiter (i : nat) (w : waiter) (c : sys) : sys := MkSys (notifyContext c) (<[i := w]> (waiters c)) (notifiers c).
Definition set_notifier (j : nat) (n : notifier) (c : sys) : sys := MkSys (notifyContext c) (waiters c) (<[j := n]> (notifiers c)).
Definition set_context (m : gmap bytes nat) (c : sys) : sys := MkSys m (waiters c) (notifiers c).
Definition to_phase (p : notifier_phase) (n : notifier) : notifier := MkNotifier (n_state n) (n_secret n) p.

(** Nobody holds the lock for reading. *)
Definition lock_free (c : sys) : Prop := forall j n ch, notifiers c !! j = Some n -> n_phase n <> Sending ch.

Definition unregistered (p : waiter_phase) : option (option NetworkSecret) :=
  match p with TimedOut => Some None | Got s => Some (Some s) | _ => None end.

Inductive step : sys -> sys -> Prop :=
(** OIDCSecret *)
| step_request c i st : st <> [] -> waiters c !! i = None -> step c (set_waiter i (MkWaiter st Starting) c)
| step_register c i st :
    waiters c !! i = Some (MkWaiter st Starting) -> lock_free c ->
    step c (set_context (<[st := i]> (notifyContext c)) (set_waiter i (MkWaiter st Waiting) c))
| step_timeout c i st :
    waiters c !! i = Some (MkWaiter st Waiting) -> step c (set_waiter i (MkWaiter st TimedOut) c)
| step_unregister c i st p ans :
    waiters c !! i = Some (MkWaiter st p) -> unregistered p = Some ans -> lock_free c ->
    step c (set_context (delete st (notifyContext c)) (set_waiter i (MkWaiter st (Closed ans)) c))
(** NotifyToken *)
| step_callback c j st secret : notifiers c !! j = None -> step c (set_notifier j (MkNotifier st secret Called) c)
| step_missing c j n :
    notifiers c !! j = Some n -> n_phase n = Called -> notifyContext c !! n_state n = None ->
    step c (set_notifier j (to_phase StateNotFound n) c)
| step_lock c j n ch :
    notifiers c !! j = Some n -> n_phase n = Called -> notifyContext c !! n_state n = Some ch ->
    step c (set_notifier j (to_phase (Sending ch) n) c)
(** the two meet on the channel *)
| step_hand_over c i st j n :
    waiters c !! i = Some (MkWaiter st Waiting) -> notifiers c !! j = Some n -> n_phase n = Sending i ->
    step c (set_waiter i (MkWaiter st (Got (n_secret n))) (set_notifier j (to_phase Notified n) c))
| step_closed c i st ans j n :
    waiters c !! i = Some (MkWaiter st (Closed ans)) -> notifiers c !! j = Some n -> n_phase n = Sending i ->
    step c (set_notifier j (to_phase SentOnClosed n) c).

(** ** Invariant *)

(** A waiter that is not yet, or no longer, in the table. *)
Definition holds_channel (p : waiter_phase) : Prop :=
  match p with Waiting | TimedOut | Got _ => True | _ => False end.

(** The secret that a waiter has. *)
Definition has_secret (p : waiter_phase) : option NetworkSecret :=
  match p with Got s | Closed (Some s) => Some s | _ => None end.

Record inv (c : sys) : Prop := {
  inv_table st i : notifyContext c !! st = Some i ->
    exists p, waiters c !! i = Some (MkWaiter st p) /\ holds_channel p;
  inv_sending j n i : notifiers c !! j = Some n -> n_phase n = Sending i ->
    exists p, waiters c !! i = Some (MkWaiter (n_state n) p) /\ holds_channel p;
  inv_no_panic j n : notifiers c !! j = Some n -> n_phase n <> SentOnClosed;
  inv_secret i w s : waiters c !! i = Some w -> has_secret (w_phase w) = Some s ->
    exists j n, notifiers c !! j = Some n /\ n_phase n = Notified /\ n_state n = w_state w /\ n_secret n = s
}.

Lemma inv_init : inv init.
Proof. split; intros *; simpl; by rewrite ?lookup_empty. Qed.

(** The witness of a secret stays when a call that is not yet done moves on. *)
Lemma notified_stays c j0 n0 p' (st : bytes) (s : NetworkSecret) :
  notifiers c !! j0 = Some n0 -> n_phase n0 <> Notified ->
  (exists j n, notifiers c !! j = Some n /\ n_phase n = Notified /\ n_state n = st /\ n_secret n = s) ->
  exists j n, <[j0 := to_phase p' n0]> (notifiers c) !! j = Some n /\ n_phase n = Notified /\ n_state n = st /\ n_secret n = s.
Proof.
  intros H0 Hp (j & n & Hj & Hn & Hrest). exists j, n. rewrite lookup_insert_ne; [done|]. intros ->. congruence.
Qed.

(** Moving a waiter on changes no call. *)
Lemma inv_move_waiter c i st p p' m :
  inv c -> waiters c !! i = Some (MkWaiter st p) ->
  (forall s, has_secret p' = Some s -> exists j n, notifiers c !! j = Some n /\ n_phase n = Notified /\ n_state n = st /\ n_secret n = s) ->
  (forall st' i', m !! st' = Some i' -> (i' = i /\ st' = st /\ holds_channel p') \/ (i' <> i /\ notifyContext c !! st' = Some i')) ->
  (holds_channel p' \/ lock_free c) ->
  inv (set_context m (set_waiter i (MkWaiter st p') c)).
Proof.
  intros [Ht Hsd Hnp Hse] Hi Hsec Hm Hch. split; simpl.
  - intros st' i' Hl. destruct (Hm st' i' Hl) as [(-> & -> & Hp)|[Hne Hold]].
    + exists p'. by rewrite lookup_insert_eq.
    + destruct (Ht st' i' Hold) as (q & Hw & Hq). exists q. by rewrite lookup_insert_ne by congruence.
  - intros j n i' Hj Hn. destruct Hch as [Hp|Hfree]; [|by destruct (Hfree j n i' Hj)].
    destruct (Hsd j n i' Hj Hn) as (q & Hw & Hq). destruct (decide (i' = i)) as [->|Hne].
    + exists p'. rewrite lookup_insert_eq. rewrite Hi in Hw. injection Hw as -> _. done.
    + exists q. by rewrite lookup_insert_ne by congruence.
  - exact Hnp.
  - intros i' w s Hw Hs. destruct (decide (i' = i)) as [->|Hne].
    + rewrite lookup_insert_eq in Hw. injection Hw as <-. by apply Hsec.
    + rewrite lookup_insert_ne in Hw by congruence. by apply (Hse i' w s).
Qed.

(** Moving a call on that is not done changes no waiter. *)
Lemma inv_move_notifier c j n p' :
  inv c -> notifiers c !! j = Some n -> n_phase n <> Notified -> p' <> SentOnClosed ->
  (forall i, p' = Sending i -> exists p, waiters c !! i = Some (MkWaiter (n_state n) p) /\ holds_channel p) ->
  inv (set_notifier j (to_phase p' n) c).
Proof.
  intros [Ht Hsd Hnp Hse] Hj Hn Hp Hsend. split; simpl; [done| | |].
  - intros j' n' i Hl Hs. destruct (decide (j' = j)) as [->|Hne].
    + rewrite lookup_insert_eq in Hl. injection Hl as <-. by apply Hsend.
    + rewrite lookup_insert_ne in Hl by congruence. by apply (Hsd j').
  - intros j' n' Hl. destruct (decide (j' = j)) as [->|Hne].
    + rewrite lookup_insert_eq in Hl. by injection Hl as <-.
    + rewrite lookup_insert_ne in Hl by congruence. by apply (Hnp j').
  - intros i w s Hw Hs. apply notified_stays; [done|done|]. by apply (Hse i).
Qed.

Lemma set_context_same c : set_context (notifyContext c) c = c.
Proof. by destruct c. Qed.

Lemma inv_step c c' : step c c' -> inv c -> inv c'.
Proof.
  intros Hs Hinv. pose proof Hinv as [Ht Hsd Hnp Hse]. destruct Hs as
    [c i st Hst Hi|c i st Hi Hl|c i st Hi|c i st p ans Hi Hp Hl|c j st sec Hj|c j n Hj Hp Hc|c j n ch Hj Hp Hc
    |c i st j n Hi Hj Hp|c i st ans j n Hi Hj Hp].
  - split; simpl.
    + intros st' i' Hl. destruct (Ht st' i' Hl) as (q & Hw & Hq). exists q. by rewrite lookup_insert_ne by congruence.
    + intros j n i' Hj Hn. destruct (Hsd j n i' Hj Hn) as (q & Hw & Hq). exists q. by rewrite lookup_insert_ne by congruence.
    + exact Hnp.
    + intros i' w s Hw Hs. destruct (decide (i' = i)) as [->|Hne].
      * rewrite lookup_insert_eq in Hw. by injection Hw as <-.
      * rewrite lookup_insert_ne in Hw by congruence. by apply (Hse i').
  - apply (inv_move_waiter c i st Starting); [done|done|done| |by left].
    intros st' i' Hm. destruct (decide (st' = st)) as [->|Hne].
    + rewrite lookup_insert_eq in Hm. injection Hm as <-. by left.
    + rewrite lookup_insert_ne in Hm by congruence. right. split; [|done]. intros ->.
      destruct (Ht st' i Hm) as (q & Hw & Hq). rewrite Hi in Hw. by injection Hw as _ <-.
  - rewrite <- (set_context_same (set_waiter _ _ _)). apply (inv_move_waiter c i st Waiting); [done|done|done| |by left].
    simpl. intros st' i' Hm. destruct (decide (i' = i)) as [->|Hne]; [left|by right].
    destruct (Ht st' i Hm) as (q & Hw & Hq). rewrite Hi in Hw. by injection Hw as -> _.
  - apply (inv_move_waiter c i st p); [done|done| | |by right].
    + intros s Hs. apply (Hse i (MkWaiter st p) s Hi). simpl. destruct p; simpl in Hp; try done; injection Hp as <-; done.
    + intros st' i' Hm. apply lookup_delete_Some in Hm as [Hne Hm]. right. split; [|done]. intros ->.
      destruct (Ht st' i Hm) as (q & Hw & Hq). rewrite Hi in Hw. by injection Hw as -> _.
  - split; simpl; [done| | |].
    + intros j' n' i Hl Hs. destruct (decide (j' = j)) as [->|Hne].
      * rewrite lookup_insert_eq in Hl. by injection Hl as <-.
      * rewrite lookup_insert_ne in Hl by congruence. by apply (Hsd j').
    + intros j' n' Hl. destruct (decide (j' = j)) as [->|Hne].
      * rewrite lookup_insert_eq in Hl. by injection Hl as <-.
      * rewrite lookup_insert_ne in Hl by congruence. by apply (Hnp j').
    + intros i w s Hw Hs. destruct (Hse i w s Hw Hs) as (j' & n' & Hj' & Hrest).
      exists j', n'. by rewrite lookup_insert_ne by congruence.
  - apply inv_move_notifier; by rewrite ?Hp.
  - apply inv_move_notifier; [done|done|by rewrite Hp|done|]. intros i Heq. injection Heq as <-. by apply Ht.
  - assert (Hmid : inv (set_notifier j (to_phase Notified n) c)) by (apply inv_move_notifier; by rewrite ?Hp).
    rewrite <- (set_context_same (set_waiter _ _ _)).
    apply (inv_move_waiter _ i st Waiting); [done|done| | |by left].
    + intros s Hs. injection Hs as <-. exists j, (to_phase Notified n). simpl. rewrite lookup_insert_eq.
      destruct (Hsd j n i Hj Hp) as (q & Hw & _). rewrite Hi in Hw. by injection Hw as -> _.
    + simpl. intros st' i' Hm. destruct (decide (i' = i)) as [->|Hne]; [left|by right].
      destruct (Ht st' i Hm) as (q & Hw & Hq). rewrite Hi in Hw. by injection Hw as -> _.
  - destruct (Hsd j n i Hj Hp) as (p & Hw & Hh). rewrite Hi in Hw. by injection Hw as _ <-.
Qed.

Lemma login_reachable_inv c : rtc step init c -> inv c.
Proof. intros H. apply (rtc_invariant step inv init c); [intros a b; apply inv_step|done|apply inv_init]. Qed.

(** ** Theorems *)

(** A client that gets a secret gets the one that was granted to a callback
    with its own state; nothing is ever sent on a closed channel, so the server
    does not panic; and every state in the table leads to a call that still
    listens. *)
Theorem login_invariant c :
  rtc step init c ->
  (forall i st s, waiters c !! i = Some (MkWaiter st (Closed (Some s))) ->
     exists j, notifiers c !! j = Some (MkNotifier st s Notified)) /\
  (forall j n, notifiers c !! j = Some n -> n_phase n <> SentOnClosed) /\
  (forall st i, notifyContext c !! st = Some i -> exists p, waiters c !! i = Some (MkWaiter st p) /\ holds_channel p).
Proof.
  intros [Ht Hsd Hnp Hse]%login_reachable_inv. split; [|by split].
  intros i st s Hi. destruct (Hse i _ s Hi eq_refl) as (j & n & Hj & Hp & Hs & Hx). exists j.
  rewrite Hj. f_equal. destruct n; simpl in *; congruence.
Qed.

(** A callback that sends to a call that no longer receives. *)
Definition wedged (c : sys) : Prop :=
  exists j n i st p, notifiers c !! j = Some n /\ n_phase n = Sending i /\
    waiters c !! i = Some (MkWaiter st p) /\ (p = TimedOut \/ exists s, p = Got s).

Lemma wedged_not_free c : wedged c -> ~ lock_free c.
Proof. intros (j & n & i & st & p & Hj & Hn & _) Hf. by destruct (Hf j n i Hj). Qed.

(** What a wedged server still does: nothing to its table, nothing to a call that
    waits for the lock, and no call ends. *)
Definition frozen (c c' : sys) : Prop :=
  notifyContext c' = notifyContext c /\
  (forall i w, waiters c !! i = Some w -> w_phase w = Starting \/ is_Some (unregistered (w_phase w)) -> waiters c' !! i = Some w) /\
  (forall i st ans, waiters c' !! i = Some (MkWaiter st (Closed ans)) -> waiters c !! i = Some (MkWaiter st (Closed ans))) /\
  (forall i w, waiters c' !! i = Some w -> waiters c !! i = None -> w_phase w = Starting).

Lemma frozen_refl c : frozen c c.
Proof. split; [done|]. split; [done|]. split; [done|]. congruence. Qed.

Lemma frozen_trans c c1 c2 : frozen c c1 -> frozen c1 c2 -> frozen c c2.
Proof.
  intros (E1 & K1 & C1 & N1) (E2 & K2 & C2 & N2). split; [congruence|]. split; [auto|]. split; [auto|].
  intros i w Hw Hn. destruct (waiters c1 !! i) as [w1|] eqn:E; [|by apply (N2 i)].
  assert (H1 : waiters c2 !! i = Some w1) by (apply K2; [done|left; by apply (N1 i)]).
  rewrite Hw in H1. injection H1 as ->. by apply (N1 i).
Qed.

(** A step that changes one waiter, which keeps off the lock. *)
Lemma frozen_waiter c i w' nf :
  (forall w, waiters c !! i = Some w -> w_phase w = Waiting) -> (forall ans, w_phase w' <> Closed ans) ->
  (waiters c !! i = None -> w_phase w' = Starting) ->
  frozen c (MkSys (notifyContext c) (<[i := w']> (waiters c)) nf).
Proof.
  intros Hold Hw' Hnew. split; [done|]. simpl. split; [|split].
  - intros i' w Hw Hp. destruct (decide (i' = i)) as [->|Hne]; [|by rewrite lookup_insert_ne by congruence].
    rewrite (Hold w Hw) in Hp. by destruct Hp as [?|[? ?]].
  - intros i' st ans Hl. destruct (decide (i' = i)) as [->|Hne]; [|by rewrite lookup_insert_ne in Hl by congruence].
    rewrite lookup_insert_eq in Hl. injection Hl as ->. by destruct (Hw' ans).
  - intros i' w Hl Hn. destruct (decide (i' = i)) as [->|Hne].
    + rewrite lookup_insert_eq in Hl. injection Hl as <-. by apply Hnew.
    + rewrite lookup_insert_ne in Hl by congruence. congruence.
Qed.

Lemma frozen_notifier c nf : frozen c (MkSys (notifyContext c) (waiters c) nf).
Proof. split; [done|]. simpl. split; [done|]. split; [done|]. congruence. Qed.

Lemma wedged_step c c' : wedged c -> step c c' -> wedged c' /\ frozen c c'.
Proof.
  intros Hw Hs. pose proof (wedged_not_free c Hw) as Hnf. destruct Hw as (j0 & n0 & i0 & st0 & p0 & Hj0 & Hn0 & Hi0 & Hp0).
  assert (Hwed : forall wt nf, wt !! i0 = Some (MkWaiter st0 p0) -> nf !! j0 = Some n0 -> wedged (MkSys (notifyContext c) wt nf)).
  { intros wt nf H1 H2. exists j0, n0, i0, st0, p0. done. }
  destruct Hs as
    [c i st Hst Hi|c i st Hi Hl|c i st Hi|c i st p ans Hi Hp Hl|c j st sec Hj|c j n Hj Hp Hc|c j n ch Hj Hp Hc
    |c i st j n Hi Hj Hp|c i st ans j n Hi Hj Hp]; try done.
  - split; [apply Hwed; [by rewrite lookup_insert_ne by congruence|done]|].
    apply frozen_waiter; [congruence|done|done].
  - assert (i0 <> i) by (intros ->; rewrite Hi in Hi0; injection Hi0 as -> <-; by destruct Hp0 as [?|[? ?]]).
    split; [apply Hwed; [by rewrite lookup_insert_ne by congruence|done]|].
    apply frozen_waiter; [|done|congruence]. intros w Hw. rewrite Hi in Hw. by injection Hw as <-.
  - split; [apply Hwed; [done|]; by rewrite lookup_insert_ne by congruence|]. apply frozen_notifier.
  - split; [apply Hwed; [done|]; rewrite lookup_insert_ne; [done|congruence]|]. apply frozen_notifier.
  - split; [apply Hwed; [done|]; rewrite lookup_insert_ne; [done|congruence]|]. apply frozen_notifier.
  - assert (Hne : i0 <> i) by (intros ->; rewrite Hi in Hi0; injection Hi0 as -> <-; by destruct Hp0 as [?|[? ?]]).
    split.
    + apply (Hwed (<[i := _]> (waiters c)) (<[j := _]> (notifiers c))); [by rewrite lookup_insert_ne by congruence|].
      rewrite lookup_insert_ne; [done|congruence].
    + apply (frozen_waiter c i (MkWaiter st (Got (n_secret n))) (<[j := to_phase Notified n]> (notifiers c)));
        [|done|congruence]. intros w Hw. rewrite Hi in Hw. by injection Hw as <-.
  - split; [apply Hwed; [done|]; rewrite lookup_insert_ne; [done|]|apply frozen_notifier].
    intros ->. rewrite Hj0 in Hj. injection Hj as ->. rewrite Hn0 in Hp. injection Hp as ->.
    rewrite Hi0 in Hi. injection Hi as _ ->. by destruct Hp0 as [?|[? ?]].
Qed.

(** C23. A callback that comes while the call it is for has just given up, or a
    second callback for one state, ends all logins: it sends, under the lock, to a
    call that no longer receives, and from then on no call is entered in the
    table, none leaves it and none ends.  Such a state is reached from the start
    with one login and one callback. *)
Theorem login_wedges :
  (forall c c', wedged c -> rtc step c c' -> wedged c' /\ frozen c c') /\
  (exists c, rtc step init c /\ wedged c /\ size (waiters c) = 1%nat /\ size (notifiers c) = 1%nat).
Proof.
  split.
  - intros c c' Hw Hr. induction Hr as [c|c c1 c' Hs _ IH]; [by split; [|apply frozen_refl]|].
    destruct (wedged_step c c1 Hw Hs) as [Hw1 Hf1]. destruct (IH Hw1) as [Hw' Hf'].
    split; [done|]. by apply (frozen_trans c c1).
  - set (st := bs "s"). set (sec := MkNetworkSecret [] [] 0).
    eexists. split; [|split].
    + eapply rtc_l; [by apply (step_request init 0%nat st)|].
      eapply rtc_l; [apply (step_register _ 0%nat st); [done|intros j n ch H; simpl in H; by rewrite lookup_empty in H]|].
      eapply rtc_l; [by apply (step_callback _ 0%nat st sec)|].
      eapply rtc_l; [by eapply (step_lock _ 0%nat)|].
      eapply rtc_l; [by apply (step_timeout _ 0%nat st)|]. apply rtc_refl.
    + exists 0%nat, (MkNotifier st sec (Sending 0%nat)), 0%nat, st, TimedOut. split; [done|]. split; [done|]. split; [done|by left].
    + done.
Qed.

(** A login whose callback comes in time is answered: from any state in which
    nobody holds the lock. *)
Theorem login_completes c i j st sec :
  waiters c !! i = Some (MkWaiter st Waiting) -> notifyContext c !! st = Some i ->
  notifiers c !! j = Some (MkNotifier st sec Called) -> lock_free c ->
  exists c', rtc step c c' /\ waiters c' !! i = Some (MkWaiter st (Closed (Some sec))) /\ lock_free c'.
Proof.
  intros Hi Ht Hj Hf. eexists. split; [|split].
  - eapply rtc_l; [by apply (step_lock c j (MkNotifier st sec Called) i)|].
    eapply rtc_l; [eapply (step_hand_over _ i st j); [done|apply lookup_insert_eq|done]|].
    eapply rtc_l; [|apply rtc_refl]. eapply (step_unregister _ i st (Got sec)); [apply lookup_insert_eq|done|].
    intros j' n ch Hl. simpl in Hl. destruct (decide (j' = j)) as [->|Hne].
    + rewrite lookup_insert_eq in Hl. by injection Hl as <-.
    + rewrite !lookup_insert_ne in Hl by congruence. by apply (Hf j').
  - apply lookup_insert_eq.
  - intros j' n ch Hl. simpl in Hl. destruct (decide (j' = j)) as [->|Hne].
    + rewrite lookup_insert_eq in Hl. by injection Hl as <-.
    + rewrite !lookup_insert_ne in Hl by congruence. by apply (Hf j').
Qed.

(** ** Witness *)

(** One login, step by step. *)
Module Examples.
Definition st : bytes := bs "s".
Definition sec : NetworkSecret := MkNetworkSecret (bs "token") (bs "home") 1.
Definition called : notifier := MkNotifier st sec Called.
Definition c1 : sys := set_waiter 0%nat (MkWaiter st Starting) init.
Definition c2 : sys := set_context (<[st := 0%nat]> (notifyContext c1)) (set_waiter 0%nat (MkWaiter st Waiting) c1).
Definition c3 : sys := set_notifier 0%nat called c2.
Definition c4 : sys := set_notifier 0%nat (to_phase (Sending 0%nat) called) c3.
Definition c5 : sys :=
  set_waiter 0%nat (MkWaiter st (Got sec)) (set_notifier 0%nat (to_phase Notified (to_phase (Sending 0%nat) called)) c4).
Definition c6 : sys := set_context (delete st (notifyContext c5)) (set_waiter 0%nat (MkWaiter st (Closed (Some sec))) c5).

Lemma run_c6 : rtc step init c6.
Proof.
  apply (rtc_l _ _ c1); [by apply (step_request init 0%nat st)|].
  apply (rtc_l _ _ c2); [apply (step_register c1 0%nat st); [done|intros j n ch H; simpl in H; by rewrite lookup_empty in H]|].
  apply (rtc_l _ _ c3); [by apply (step_callback c2 0%nat st sec)|].
  apply (rtc_l _ _ c4); [by apply (step_lock c3 0%nat called 0%nat)|].
  apply (rtc_l _ _ c5); [by apply (step_hand_over c4 0%nat st 0%nat (to_phase (Sending 0%nat) called))|].
  apply (rtc_l _ _ c6); [|apply rtc_refl].
  apply (step_unregister c5 0%nat st (Got sec)); [done|done|].
  intros [|j] n ch H; [|exfalso].
  - assert (H0 : notifiers c5 !! 0%nat = Some (to_phase Notified (to_phase (Sending 0%nat) called))) by done.
    rewrite H0 in H. by injection H as <-.
  - assert (H0 : notifiers c5 !! S j = None).
    { unfold c5, c4, c3, c2, c1, set_waiter, set_notifier, set_context, init. simpl.
      rewrite !lookup_insert_ne by done. apply lookup_empty. }
    congruence.
Qed.

Lemma login_invariant_witness :
  (forall i st s, waiters c6 !! i = Some (MkWaiter st (Closed (Some s))) ->
     exists j, notifiers c6 !! j = Some (MkNotifier st s Notified)) /\
  (forall j n, notifiers c6 !! j = Some n -> n_phase n <> SentOnClosed) /\
  (forall st i, notifyContext c6 !! st = Some i -> exists p, waiters c6 !! i = Some (MkWaiter st p) /\ holds_channel p).
Proof. exact (login_invariant c6 run_c6). Defined.
End Examples.
