(* ===== verification/P2p.v ===== *)
(** * Packet connections between peers ([p2p/conn.go], [p2p/config.go])

    A [PacketConn] sits on top of a [UDPConn] and of the websocket to the server: a
    datagram goes straight to the peer, through another peer or through the
    server, encrypted when the connection has a key.  Its event loop turns what the
    server tells into metadata, endpoints and discovery.

    The encryption is used through [SymmAlgo], the LRU caches through [CacheLaws]
    and [ClearLaws].  Elliptic curves and base58 are outside of the sources. *)

From S2P Require Import Prelude Text GoTime Url Lru CacheTTL Netip Stun Disco DiscoUdp NetUdp Langs Stream Secure Ws.

(** ** Configuration ([config.go]) *)

Inductive cfg_error := ErrOptionConflict | ErrRepeatSecure | ErrBadPrivateKey | ErrKeyGeneration.

Section Config_.
Context {S : Type}.

Record Config := MkConfig {
  UDPPort : Z; cfg_DisableIPv6 : bool; cfg_DisableIPv4 : bool; PeerInfo : Peer; cfg_SymmAlgo : option S;
  has_OnPeer : bool; has_OnPeerLeave : bool; KeepAlivePeriod : Z; MinDiscoPeriod : Z
}.

Definition set_UDPPort (x : Z) (c : Config) : Config :=
  MkConfig x (cfg_DisableIPv6 c) (cfg_DisableIPv4 c) (PeerInfo c) (cfg_SymmAlgo c) (has_OnPeer c) (has_OnPeerLeave c)
    (KeepAlivePeriod c) (MinDiscoPeriod c).
Definition set_PeerInfo (x : Peer) (c : Config) : Config :=
  MkConfig (UDPPort c) (cfg_DisableIPv6 c) (cfg_DisableIPv4 c) x (cfg_SymmAlgo c) (has_OnPeer c) (has_OnPeerLeave c)
    (KeepAlivePeriod c) (MinDiscoPeriod c).
Definition set_ID (id : bytes) (c : Config) : Config := set_PeerInfo (MkPeer id (Metadata (PeerInfo c))) c.
Definition set_SymmAlgo (x : option S) (c : Config) : Config :=
  MkConfig (UDPPort c) (cfg_DisableIPv6 c) (cfg_DisableIPv4 c) (PeerInfo c) x (has_OnPeer c) (has_OnPeerLeave c)
    (KeepAlivePeriod c) (MinDiscoPeriod c).
Definition set_families (no6 no4 : bool) (c : Config) : Config :=
  MkConfig (UDPPort c) no6 no4 (PeerInfo c) (cfg_SymmAlgo c) (has_OnPeer c) (has_OnPeerLeave c)
    (KeepAlivePeriod c) (MinDiscoPeriod c).
Definition set_callbacks (up leave : bool) (c : Config) : Config :=
  MkConfig (UDPPort c) (cfg_DisableIPv6 c) (cfg_DisableIPv4 c) (PeerInfo c) (cfg_SymmAlgo c) up leave
    (KeepAlivePeriod c) (MinDiscoPeriod c).
Definition set_periods (ka md : Z) (c : Config) : Config :=
  MkConfig (UDPPort c) (cfg_DisableIPv6 c) (cfg_DisableIPv4 c) (PeerInfo c) (cfg_SymmAlgo c) (has_OnPeer c)
    (has_OnPeerLeave c) ka md.

(** An option changes the configuration or fails. *)
Definition Option_ : Type := Config -> res cfg_error Config.

Definition WithMeta (key value : bytes) (p : Peer) : Peer := MkPeer (peer_ID p) (vals_Add (Metadata p) key value).
Definition WithSilenceMode (p : Peer) : Peer := WithMeta (bs "silenceMode") [] p.

Definition OptionNoOp : Option_ := Ok.
Definition ListenUDPPort (port : Z) : Option_ := fun c => Ok (set_UDPPort port c).
Definition ListenPeerID (id : bytes) : Option_ := fun c =>
  match cfg_SymmAlgo c with
  | Some _ => Err ErrOptionConflict
  | None => Ok (if bool_decide (b2z (Len id) > 0) then set_ID id c else c)
  end.
Definition ListenIPv6Only : Option_ := fun c => Ok (set_families false true c).
Definition ListenIPv4Only : Option_ := fun c => Ok (set_families true false c).
Definition ListenPeerUp (onPeer : bool) : Option_ := fun c => Ok (set_callbacks onPeer (has_OnPeerLeave c) c).
Definition ListenPeerLeave (onPeerLeave : bool) : Option_ := fun c => Ok (set_callbacks (has_OnPeer c) onPeerLeave c).
Definition PeerSilenceMode : Option_ := fun c => Ok (set_PeerInfo (WithSilenceMode (PeerInfo c)) c).
Definition PeerMeta_ (key value : bytes) : Option_ := fun c => Ok (set_PeerInfo (WithMeta key value (PeerInfo c)) c).
Definition PeerAlias1 (alias : bytes) : Option_ := PeerMeta_ (bs "alias1") alias.
Definition PeerAlias2 (alias : bytes) : Option_ := PeerMeta_ (bs "alias2") alias.
Definition KeepAlivePeriod_ (period : Z) : Option_ := fun c => Ok (set_periods period (MinDiscoPeriod c) c).
Definition MinDiscoPeriod_ (period : Z) : Option_ := fun c => Ok (set_periods (KeepAlivePeriod c) period c).

(** Keys: base58, the private keys of X25519, their public keys and the shared
    secret with a public key; [newAlgo] is [defaultSymmAlgo]. *)
Context {Priv : Type}.
Context (b58_Encode b58_Decode : bytes -> bytes).
Context (NewPrivateKey : bytes -> option Priv) (PublicKey : Priv -> bytes) (ECDH : Priv -> bytes -> option bytes).
Context (newAlgo : (bytes -> option bytes) -> S).

Definition ListenPeerCurve25519 (privateKey : bytes) : Option_ := fun c =>
  match cfg_SymmAlgo c with
  | Some _ => Err ErrRepeatSecure
  | None =>
      match NewPrivateKey (b58_Decode privateKey) with
      | None => Err ErrBadPrivateKey
      | Some priv =>
          Ok (set_ID (b58_Encode (PublicKey priv))
                (set_SymmAlgo (Some (newAlgo (fun pubKey => ECDH priv (b58_Decode pubKey)))) c))
      end
  end.

(** [key] is the key that the generator gives. *)
Definition ListenPeerSecure (key : option bytes) : Option_ := fun c =>
  match key with
  | None => Err ErrKeyGeneration
  | Some key => ListenPeerCurve25519 (b58_Encode key) c
  end.

(** The configuration of [ListenPacketContext]: [rnd] is its random identifier. *)
Definition default_config (rnd : bytes) : Config :=
  MkConfig 29877 false false (MkPeer (b58_Encode rnd) ∅) None false false (10 * Second) (2 * Minute).

Definition configure (opts : list Option_) (c : Config) : res cfg_error Config :=
  foldl (fun r opt => c ← r; opt c) (Ok c) opts.

(** The options of the package. *)
Inductive provided : Option_ -> Prop :=
| PNoOp : provided OptionNoOp
| PPort port : provided (ListenUDPPort port)
| PID id : provided (ListenPeerID id)
| PSecure key : provided (ListenPeerSecure key)
| PCurve key : provided (ListenPeerCurve25519 key)
| PIPv6 : provided ListenIPv6Only
| PIPv4 : provided ListenIPv4Only
| PUp f : provided (ListenPeerUp f)
| PLeave f : provided (ListenPeerLeave f)
| PSilence : provided PeerSilenceMode
| PAlias1 a : provided (PeerAlias1 a)
| PAlias2 a : provided (PeerAlias2 a)
| PMeta k v : provided (PeerMeta_ k v)
| PKeepAlive p : provided (KeepAlivePeriod_ p)
| PMinDisco p : provided (MinDiscoPeriod_ p).
End Config_.
Arguments Config : clear implicits.
Arguments Option_ : clear implicits.

(** Transport modes. *)
Definition MODE_DEFAULT : bytes := [].
Definition MODE_FORCE_PEER_RELAY : bytes := bs "PEER_RELAY".
Definition MODE_FORCE_RELAY : bytes := bs "RELAY".
Definition mode_String (mode : bytes) : bytes := if bool_decide (mode = []) then bs "DEFAULT" else mode.

Inductive p2p_error :=
| ErrNotPeerAddr
| ErrConnClosed
| ErrReadDeadline
| ErrNoRelayPeer
| ErrUdp (e : udp_error)
| ErrServer (e : conn_error)
| ErrUnsupportedDeadline.

(** ** The connection *)

Section PacketConn_.
Context {S E : Type} `{!SymmAlgo S E}.
Context {CM CD CP : Type} `{!CacheLaws CM bytes Values} `{!CacheLaws CD bytes time} `{!ClearLaws CD bytes time}
  `{!CacheLaws CP bytes nat}.

(** [udp_closed] is whether [UDPConn.Close] has closed its channels; [relayPool] is
    the cache of [LoadTTL], which the whole process shares. *)
Record PacketConn := MkPacketConn {
  cfg : Config S; closeChan : bool; udpConn : UDPConn; udp_closed : bool; wsConn : WSConn; peerMap : CM;
  discoCooling : CD; transportMode : bytes; deadlineRead : Deadline.Deadline; relayPeerIndex : Z;
  relayPool : @pool bytes CP
}.

Definition set_cfg (x : Config S) (c : PacketConn) : PacketConn :=
  MkPacketConn x (closeChan c) (udpConn c) (udp_closed c) (wsConn c) (peerMap c) (discoCooling c) (transportMode c)
    (deadlineRead c) (relayPeerIndex c) (relayPool c).
Definition set_udpConn (x : UDPConn) (c : PacketConn) : PacketConn :=
  MkPacketConn (cfg c) (closeChan c) x (udp_closed c) (wsConn c) (peerMap c) (discoCooling c) (transportMode c)
    (deadlineRead c) (relayPeerIndex c) (relayPool c).
Definition set_wsConn (x : WSConn) (c : PacketConn) : PacketConn :=
  MkPacketConn (cfg c) (closeChan c) (udpConn c) (udp_closed c) x (peerMap c) (discoCooling c) (transportMode c)
    (deadlineRead c) (relayPeerIndex c) (relayPool c).
Definition set_peerMap (x : CM) (c : PacketConn) : PacketConn :=
  MkPacketConn (cfg c) (closeChan c) (udpConn c) (udp_closed c) (wsConn c) x (discoCooling c) (transportMode c)
    (deadlineRead c) (relayPeerIndex c) (relayPool c).
Definition set_discoCooling (x : CD) (c : PacketConn) : PacketConn :=
  MkPacketConn (cfg c) (closeChan c) (udpConn c) (udp_closed c) (wsConn c) (peerMap c) x (transportMode c)
    (deadlineRead c) (relayPeerIndex c) (relayPool c).
Definition SetTransportMode (x : bytes) (c : PacketConn) : PacketConn :=
  MkPacketConn (cfg c) (closeChan c) (udpConn c) (udp_closed c) (wsConn c) (peerMap c) (discoCooling c) x
    (deadlineRead c) (relayPeerIndex c) (relayPool c).
Definition set_deadlineRead (x : Deadline.Deadline) (c : PacketConn) : PacketConn :=
  MkPacketConn (cfg c) (closeChan c) (udpConn c) (udp_closed c) (wsConn c) (peerMap c) (discoCooling c)
    (transportMode c) x (relayPeerIndex c) (relayPool c).
Definition set_relayPeerIndex (x : Z) (c : PacketConn) : PacketConn :=
  MkPacketConn (cfg c) (closeChan c) (udpConn c) (udp_closed c) (wsConn c) (peerMap c) (discoCooling c)
    (transportMode c) (deadlineRead c) x (relayPool c).
Definition set_relayPool (x : @pool bytes CP) (c : PacketConn) : PacketConn :=
  MkPacketConn (cfg c) (closeChan c) (udpConn c) (udp_closed c) (wsConn c) (peerMap c) (discoCooling c)
    (transportMode c) (deadlineRead c) (relayPeerIndex c) x.
Definition set_closed (x y : bool) (c : PacketConn) : PacketConn :=
  MkPacketConn (cfg c) x (udpConn c) y (wsConn c) (peerMap c) (discoCooling c) (transportMode c)
    (deadlineRead c) (relayPeerIndex c) (relayPool c).

Context (WM : list ws_out -> nat -> Z -> bytes -> option ws_error).

Abbreviation PM := (GoM PacketConn Empty_set).

(** An operation of the websocket; its error is a result. *)
Definition on_ws {F A} (m : GoM WSConn F A) : PM (A + F) := fun c =>
  match m (wsConn c) with
  | (Ok a, w) => (Ok (inl a), set_wsConn w c)
  | (Err e, w) => (Ok (inr e), set_wsConn w c)
  | (Panic, w) => (Panic, set_wsConn w c)
  end.

(** ** Encryption: a failure leaves the data as they are *)

Definition crypt (r : res crypt_error bytes * S) (data : option bytes) (c : PacketConn) :
    res Empty_set (option bytes) * PacketConn :=
  let c := set_cfg (set_SymmAlgo (Some r.2) (cfg c)) c in
  match r.1 with
  | Ok b => (Ok (Some b), c)
  | Err _ => (Ok data, c)
  | Panic => (Panic, c)
  end.

Definition TryEncrypt (e : E) (peerID : bytes) (data : option bytes) : PM (option bytes) := fun c =>
  match cfg_SymmAlgo (cfg c) with
  | None => (Ok data, c)
  | Some s => crypt (Encrypt e (default [] data) peerID s) data c
  end.

Definition TryDecrypt (e : E) (peerID : bytes) (data : option bytes) : PM (option bytes) := fun c =>
  match cfg_SymmAlgo (cfg c) with
  | None => (Ok data, c)
  | Some s => crypt (Decrypt e (default [] data) peerID s) data c
  end.

(** ** Peers and relays *)

(** [PeerMeta]; [None] is the nil map. *)
Definition PeerMeta (peerID : bytes) : PM (option Values) := fun c =>
  let '(m, cache) := cget peerID (peerMap c) in (Ok m, set_peerMap cache c).

(** Whether a peer with these metadata can relay. *)
Definition can_relay (meta : Values) : bool :=
  negb (Labels_Get (default [] (meta !! bs "label")) (bs "node.nr")).2 &&
  (nat_Easy (vals_Get meta (bs "nat")) || nat_IP4 (vals_Get meta (bs "nat"))).

(** The loop of [selectRelayPeer] over the peers, round robin from the shared
    index; [n] turns are left. *)
Fixpoint selectRelay (n : nat) (peers : list PeerState) (peerID : bytes) : PM bytes :=
  match n with
  | O => mret []
  | Datatypes.S n =>
      _ ← modify (fun c => set_relayPeerIndex (u64 (relayPeerIndex c + 1)) c);
      index ← gets (fun c => relayPeerIndex c mod zlen peers);
      p ← lift (match peers !! Z.to_nat index with Some p => Ok p | None => Panic end);
      if bool_decide (ps_PeerID p = peerID) then selectRelay n peers peerID
      else
        meta ← PeerMeta (ps_PeerID p);
        match meta with
        | None => selectRelay n peers peerID
        | Some meta => if can_relay meta then mret (ps_PeerID p) else selectRelay n peers peerID
        end
  end.

Definition selectRelayPeer (peerID : bytes) : PM bytes :=
  peers ← gets (fun c => Peers (udpConn c));
  selectRelay (length peers) peers peerID.

(** [relayPeer]: the selection is kept for a millisecond; it runs, with its effects
    on the index and the cache, only when nothing fresh is kept. *)
Definition relayPeer (now : Z) (peerID : bytes) : PM bytes := fun c =>
  let '(r, pool) := find_cell peerID (relayPool c) in
  match cells pool !! r with
  | None => (Panic, set_relayPool pool c)
  | Some v =>
      let c := set_relayPool pool c in
      if expired now millisecond v then
        match selectRelayPeer peerID c with
        | (Ok x, c) =>
            (Ok x, set_relayPool (Pool (<[r := MkCacheValue (Some now) (Some x)]> (cells pool)) (defaultCache pool)) c)
        | (Err e, c) => (Err e, c)
        | (Panic, c) => (Panic, c)
        end
      else (match value v with Some x => Ok x | None => Panic end, c)
  end.

(** [UDPConn.findPeerID]: what the search gives for an address is kept for a
    millisecond in the same cache, under the text of the address. *)
Definition findPeerID_kept (now now' : Z) (addr : option UDPAddr) (u : UDPConn) (p : @pool bytes CP) :
    res Empty_set bytes * @pool bytes CP :=
  match addr with
  | None => (Ok [], p)
  | Some addr => LoadTTL now now' millisecond (addr_String addr) (fun _ => findPeerID now addr u) p
  end.

(** It is the answer of a search that is at most a millisecond old, and of one of
    this moment when nothing that recent is kept. *)
Lemma findPeerID_kept_fresh now now' addr u p :
  wf p -> now - now' <= maxDuration ->
  let old := cell p (addr_String addr) in
  let age := since now (old ≫= updateTime) in
  (findPeerID_kept now now' (Some addr) u p).1 =
    if bool_decide (age > millisecond) then Ok (findPeerID now addr u)
    else match old ≫= value with Some v => Ok v | None => Panic end.
Proof.
  intros Hw Hn old age. unfold findPeerID_kept.
  pose proof (LoadTTL_fresh now now' millisecond (addr_String addr) (fun _ => findPeerID now addr u) p Hw Hn ltac:(unfold millisecond, maxDuration; lia)) as H.
  cbv zeta in H. destruct (LoadTTL _ _ _ _ _ _) as [r p']. destruct H as (_ & H1 & H2 & _). cbn [fst].
  fold old in H1, H2. fold age in H1, H2. change (ttl_or_default millisecond) with millisecond in H1, H2.
  case_bool_decide as Ha; [by destruct (H2 Ha) as [-> _]|].
  destruct (H1 ltac:(lia)) as (v & -> & -> & _). done.
Qed.

(** [TryLeadDisco]: [locked] is whether [TryLock] succeeds. *)
Definition TryLeadDisco (locked : bool) (now : time) (peerID : bytes) : PM unit :=
  if negb locked then mret tt
  else
    lastTime ← (fun c => let '(t, cache) := cget peerID (discoCooling c) in (Ok t, set_discoCooling cache c));
    period ← gets (fun c => MinDiscoPeriod (cfg c));
    if match lastTime with None => true | Some t => bool_decide (Sub now t > period) end then
      _ ← on_ws (LeadDisco WM peerID);
      modify (fun c => set_discoCooling (cput peerID now (discoCooling c)) c)
    else mret tt.

(** ** Writing *)

(** A write on the UDP connection; its error is a result. *)
Definition on_udp (m : UDPConn -> res udp_error Z * UDPConn) : PM (Z + udp_error) := fun c =>
  match m (udpConn c) with
  | (Ok n, u) => (Ok (inl n), set_udpConn u c)
  | (Err e, u) => (Ok (inr e), set_udpConn u c)
  | (Panic, u) => (Panic, set_udpConn u c)
  end.

Definition server_relay (p : option bytes) (peerID : bytes) : PM (Z * option p2p_error) :=
  r ← on_ws (Ws.WriteTo WM (default [] p) peerID CONTROL_RELAY);
  mret (zlen (default [] p), match r with inl _ => None | inr e => Some (ErrServer e) end).

(** [WriteTo]: the count and the error; [addr] is [None] when it is not that of a
    peer and [p] is [None] when it is nil. *)
Definition WriteTo (e : E) (locked : bool) (now : time) (p : option bytes) (addr : option bytes) :
    PM (Z * option p2p_error) :=
  match addr with
  | None => mret (0, Some ErrNotPeerAddr)
  | Some peerID =>
      done ← gets closeChan;
      if (done : bool) then mret (0, Some ErrConnClosed)
      else
        p ← TryEncrypt e peerID p;
        mode ← gets transportMode;
        if bool_decide (mode = MODE_FORCE_RELAY) then server_relay p peerID
        else if bool_decide (mode = MODE_FORCE_PEER_RELAY) then
          relay ← relayPeer (nanos now) peerID;
          if bool_decide (relay = []) then mret (0, Some ErrNoRelayPeer)
          else
            r ← on_udp (RelayTo (nanos now) relay (default [] p) peerID);
            mret (match r with inl n => (n, None) | inr e => (0, Some (ErrUdp e)) end)
        else
          r ← on_udp (DiscoUdp.WriteTo (nanos now) p peerID);
          match r with
          | inl n => mret (n, None)
          | inr err =>
              _ ← (match err with ErrUDPConnInactive => mret tt | _ => TryLeadDisco locked now peerID end);
              relay ← relayPeer (nanos now) peerID;
              if bool_decide (relay = []) then server_relay p peerID
              else
                r ← on_udp (RelayTo (nanos now) relay (default [] p) peerID);
                match r with
                | inl n => mret (n, None)
                | inr _ => server_relay p peerID
                end
          end
  end.

(** ** Reading *)

(** A datagram that [ReadFrom] hands out: the bytes copied, from whom. *)
Definition hand_out (e : E) (n : Z) (d : Datagram) (c : PacketConn) :
    res Empty_set (bytes * option bytes * option p2p_error) * PacketConn :=
  match TryDecrypt e (dg_PeerID d) (Some (dg_Data d)) c with
  | (Ok b, c) => (Ok ((copy_out n (default [] b)).1, Some (dg_PeerID d), None), c)
  | (Err e, c) => (Err e, c)
  | (Panic, c) => (Panic, c)
  end.

Definition pop_udp (u : UDPConn) (q : list (bytes * bytes)) : UDPConn :=
  MkUDPConn (udpConns u) (DiscoUdp.cfg u) q (natEvents u) (DiscoUdp.endpoints u) (relay_errors u) (natInfo u)
    (peersIndex u) (sent u) (stunResponses u).

(** The outcomes a [ReadFrom] of [n] bytes can have; none when it waits.  Of the
    ready channels the [select] takes any. *)
Definition ReadFrom (e : E) (n : Z) (c : PacketConn) :
    list (res Empty_set (bytes * option bytes * option p2p_error) * PacketConn) :=
  (if closeChan c then [(Ok ([], None, Some ErrConnClosed), c)] else []) ++
  (match Deadline.receive (deadlineRead c) with
   | Some (ok, d) =>
       [(Ok ([], None, Some (if ok : bool then ErrReadDeadline else ErrConnClosed)), set_deadlineRead d c)]
   | None => []
   end) ++
  (match chan_recv (Ws.datagrams (wsConn c)) with
   | Some (Some d, q) => [hand_out e n d (set_wsConn (set_datagrams q (wsConn c)) c)]
   | Some (None, _) => [(Ok ([], None, Some ErrConnClosed), c)]
   | None => []
   end) ++
  match DiscoUdp.datagrams (udpConn c) with
  | d :: q => [hand_out e n (MkDatagram d.1 d.2) (set_udpConn (pop_udp (udpConn c) q) c)]
  | [] => if udp_closed c then [(Ok ([], None, Some ErrConnClosed), c)] else []
  end.

(** [Close] with its [closeOnce]. *)
Definition Close : PM unit := fun c =>
  if closeChan c then (Ok tt, c)
  else
    let c := set_closed true (udp_closed c) c in
    match Deadline.Close (deadlineRead c) with
    | Ok d =>
        let c := set_closed true true (set_deadlineRead d c) in
        match @Ws.Close Empty_set (wsConn c) with
        | (Ok _, w) => (Ok tt, set_wsConn w c)
        | (Err e, w) => (Err e, set_wsConn w c)
        | (Panic, w) => (Panic, set_wsConn w c)
        end
    | _ => (Panic, c)
    end.

(** [SetReadDeadline]; [None] when it waits for the mutex. *)
Definition SetReadDeadline (now t : time) (c : PacketConn) : option (res Empty_set PacketConn) :=
  r ← Deadline.SetDeadline now t (deadlineRead c);
  Some (d ← r; Ok (set_deadlineRead d c)).
Definition SetDeadline := SetReadDeadline.
Definition SetWriteDeadline : option p2p_error := Some ErrUnsupportedDeadline.

Definition SharedKey (peerID : bytes) (c : PacketConn) : option bytes :=
  s ← cfg_SymmAlgo (cfg c); SecretKey s peerID.
Definition LocalAddr (c : PacketConn) : bytes := peer_ID (PeerInfo (cfg c)).
Definition ServerURL (c : PacketConn) : bytes := connectedServer (lnk (wsConn c)).

(** ** The event loop *)

(** [handleEvent]: [ips] are the local addresses and [env] what the challenge loops
    see; the callbacks are recorded by the caller.  An event whose data have another
    type than its code says panics. *)
Definition put_meta (p : Peer) (c : PacketConn) : PacketConn := set_peerMap (cput (peer_ID p) (Metadata p) (peerMap c)) c.

Definition handleEvent (ips : option (list bytes)) (env : challenge_env) (disco : DiscoConfig) (ev : Event) : PM unit :=
  if bool_decide (ControlCode ev = CONTROL_NEW_PEER) then
    match Data ev with
    | PeerData p =>
        _ ← modify (fun c => set_udpConn (lanAddrsGenerate ips (peer_ID p) (udpConn c)) c);
        modify (put_meta p)
    | _ => panic
    end
  else if bool_decide (ControlCode ev = CONTROL_PEER_LEAVE) then
    leave ← gets (fun c => has_OnPeerLeave (cfg c));
    match Data ev, leave with
    | PeerIDData _, _ => mret tt
    | _, true => panic
    | _, false => mret tt
    end
  else if bool_decide (ControlCode ev = CONTROL_UPDATE_META) then
    match Data ev with
    | PeerData p => modify (put_meta p)
    | _ => panic
    end
  else if bool_decide (ControlCode ev = CONTROL_NEW_PEER_UDP_ADDR) then
    match Data ev with
    | EndpointData ep => fun c =>
        let '(r, u) := RunDiscoMessageSendLoop env (ChallengesRetry disco) (PortScanOffset disco)
                         (PortScanCount disco) (ep_Addr ep) (ep_Type ep) (udpConn c) in
        (r, set_udpConn u c)
    | _ => panic
    end
  else mret tt.

(** [sendEndpoint]: an address of this node for a peer; the error is only logged. *)
Definition endpoint_msg (ep : bytes * UDPAddr * bytes) : bytes :=
  let '(_, a, ty) := ep in
  let addr := addr_String a in
  [z2b 97] ++ [z2b (zlen addr)] ++ addr ++ ty.
Definition sendEndpoint (ep : bytes * UDPAddr * bytes) : PM unit :=
  r ← on_ws (Ws.WriteTo WM (endpoint_msg ep) ep.1.1 CONTROL_NEW_PEER_UDP_ADDR);
  match r with
  | inl _ => _ ← PeerMeta ep.1.1; mret tt
  | inr _ => mret tt
  end.

(** An error that [udpRead] reports: the destination of a relayed packet is looked
    for unless it is known and inactive. *)
Definition relay_failed (locked : bool) (now : time) (inactive : bool) (peerID : bytes) : PM unit :=
  if inactive then mret tt else TryLeadDisco locked now peerID.

(** One turn of the loop of [eventsHandle]: the tasks it can start, each in a
    goroutine of its own, and [None] when it ends. *)
Inductive task :=
| HandleEvent (e : Event)
| UpdateNAT (i : NATInfo)
| SendEndpoint (ep : bytes * UDPAddr * bytes)
| RelayError (peerID : bytes).

Definition pop_outputs (nat : list NATInfo) (eps : list (bytes * UDPAddr * bytes)) (errs : list bytes) (u : UDPConn) : UDPConn :=
  MkUDPConn (udpConns u) (DiscoUdp.cfg u) (DiscoUdp.datagrams u) nat eps errs (natInfo u) (peersIndex u) (sent u)
    (stunResponses u).

Definition eventsHandle (c : PacketConn) : list (option task * PacketConn) :=
  let u := udpConn c in
  let ended : list (option task * PacketConn) := if udp_closed c then [(None, c)] else [] in
  (if closeChan c then [(None, c)] else []) ++
  (match chan_recv (Ws.events (wsConn c)) with
   | Some (Some e, q) => [(Some (HandleEvent e), set_wsConn (set_events q (wsConn c)) c)]
   | Some (None, _) => [(None, c)]
   | None => []
   end) ++
  (match natEvents u with
   | i :: q => [(Some (UpdateNAT i), set_udpConn (pop_outputs q (DiscoUdp.endpoints u) (relay_errors u) u) c)]
   | [] => ended
   end) ++
  (match DiscoUdp.endpoints u with
   | ep :: q => [(Some (SendEndpoint ep), set_udpConn (pop_outputs (natEvents u) q (relay_errors u) u) c)]
   | [] => ended
   end) ++
  match relay_errors u with
  | id :: q => [(Some (RelayError id), set_udpConn (pop_outputs (natEvents u) (DiscoUdp.endpoints u) q u) c)]
  | [] => ended
  end.

Definition run_task (json_natinfo : NATInfo -> option bytes) (ips : option (list bytes)) (env : challenge_env)
    (disco : DiscoConfig) (locked inactive : bool) (now : time) (t : task) : PM unit :=
  match t with
  | HandleEvent e => handleEvent ips env disco e
  | UpdateNAT i => _ ← on_ws (UpdateNATInfo WM json_natinfo i); mret tt
  | SendEndpoint ep => sendEndpoint ep
  | RelayError id => relay_failed locked now inactive id
  end.

(** [networkChangeDetect]: an address of a link came or went; [found] are the
    addresses known and [usable] whether the new one is not ignored. *)
Definition addr_update (listen : Z -> option nat) (usable : bool) (ips : option (list bytes)) (answers : list UDPAddr)
    (reader : bool) (isNew : bool) (ip : IP) (found : gset bytes) (c : PacketConn) :
    res Empty_set (gset bytes) * PacketConn :=
  if IsLinkLocalUnicast ip then (Ok found, c)
  else if negb isNew then (Ok (found ∖ {[ip_String ip]}), c)
  else if negb usable then (Ok found, c)
  else if bool_decide (ip_String ip ∈ found) then (Ok found, c)
  else
    let found := found ∪ {[ip_String ip]} in
    let c := set_udpConn (DiscoUdp.RestartListener listen (udpConn c)).2 c in
    match DetectNAT listen ips answers (udpConn c) with
    | (Panic, u) => (Panic, set_udpConn u c)
    | (_, u) =>
        let c := set_udpConn u c in
        match @Ws.RestartListener Empty_set reader (wsConn c) with
        | (Ok _, w) => (Ok found, set_discoCooling (cclear (discoCooling c)) (set_wsConn w c))
        | (_, w) => (Panic, set_wsConn w c)
        end
    end.

(** The updates in turn, each with what the system answers at the time. *)
Record change := MkChange {
  ch_new : bool; ch_ip : IP; ch_usable : bool; ch_listen : Z -> option nat; ch_ips : option (list bytes);
  ch_answers : list UDPAddr; ch_reader : bool
}.
Fixpoint network_changes (us : list change) (found : gset bytes) (c : PacketConn) : res Empty_set (gset bytes) * PacketConn :=
  match us with
  | [] => (Ok found, c)
  | u :: us =>
      match addr_update (ch_listen u) (ch_usable u) (ch_ips u) (ch_answers u) (ch_reader u) (ch_new u) (ch_ip u) found c with
      | (Ok found, c) => network_changes us found c
      | r => r
      end
  end.
(** The addresses of the links are known at first; [None] for the updates is a
    subscription that fails. *)
Definition networkChangeDetect (localIPs : list IP) (us : option (list change)) (c : PacketConn) : res Empty_set unit * PacketConn :=
  match us with
  | None => (Ok tt, c)
  | Some us => match network_changes us (list_to_set (ip_String <$> localIPs)) c with
               | (Ok _, c) => (Ok tt, c)
               | (_, c) => (Panic, c)
               end
  end.

(** [ListenPacketContext]: [listen] opens sockets and [dial] connects to the server
    for a peer. *)
Inductive listen_error := ErrConfig (e : cfg_error) | ErrListenUDP (e : udp_error) | ErrDial.

Definition ListenPacketContext (listen : Z -> option nat) (dial : Peer -> option WSConn) (empty_meta : CM)
    (empty_cooling : CD) (pool0 : @pool bytes CP) (b58_Encode : bytes -> bytes) (rnd : bytes) (opts : list (Option_ S)) :
    res listen_error PacketConn :=
  match configure opts (default_config b58_Encode rnd) with
  | Ok cfg =>
      match ListenUDP listen (MkUDPConfig (UDPPort cfg) (cfg_DisableIPv4 cfg) (cfg_DisableIPv6 cfg)
                                (peer_ID (PeerInfo cfg)) (KeepAlivePeriod cfg) None) with
      | Ok udp =>
          match dial (PeerInfo cfg) with
          | Some ws =>
              Ok (MkPacketConn cfg false udp false ws empty_meta empty_cooling MODE_DEFAULT Deadline.init 0 pool0)
          | None => Err ErrDial
          end
      | Err e => Err (ErrListenUDP e)
      | Panic => Panic
      end
  | Err e => Err (ErrConfig e)
  | Panic => Panic
  end.
End PacketConn_.

(** ** Lemmas: configuration *)

Section Identity.
Context {S Priv : Type} (b58_Encode b58_Decode : bytes -> bytes) (NewPrivateKey : bytes -> option Priv)
  (PublicKey : Priv -> bytes) (ECDH : Priv -> bytes -> option bytes) (newAlgo : (bytes -> option bytes) -> S).

(** A connection that encrypts has the public key of its private key as identifier. *)
Definition secured (c : Config S) : Prop :=
  match cfg_SymmAlgo c with
  | None => True
  | Some s => exists priv, s = newAlgo (fun pubKey => ECDH priv (b58_Decode pubKey)) /\
      peer_ID (PeerInfo c) = b58_Encode (PublicKey priv)
  end.

Lemma curve_secured key c c' :
  ListenPeerCurve25519 b58_Encode b58_Decode NewPrivateKey PublicKey ECDH newAlgo key c = Ok c' -> secured c'.
Proof.
  unfold ListenPeerCurve25519. destruct (cfg_SymmAlgo c); [done|]. destruct (NewPrivateKey _) as [priv|]; [|done].
  intros [= <-]. by exists priv.
Qed.

Lemma provided_secured opt c c' :
  provided b58_Encode b58_Decode NewPrivateKey PublicKey ECDH newAlgo opt -> secured c -> opt c = Ok c' -> secured c'.
Proof.
  destruct 1; intros Hs H; try (injection H as <-; exact Hs).
  - unfold ListenPeerID in H. unfold secured in *. destruct (cfg_SymmAlgo c) eqn:Ec; [done|].
    injection H as <-. case_bool_decide; simpl; by rewrite Ec.
  - destruct key as [key|]; [|done]. by eapply curve_secured.
  - by eapply curve_secured.
Qed.

Lemma configure_cons opt opts (c : Config S) :
  configure (opt :: opts) c = match opt c with Ok c' => configure opts c' | Err e => Err e | Panic => Panic end.
Proof.
  unfold configure. cbn [foldl mbind res_bind]. destruct (opt c) as [c'|e|]; [done|..];
    induction opts as [|o opts IH]; try done; exact IH.
Qed.

Lemma configure_secured opts c c' :
  Forall (provided b58_Encode b58_Decode NewPrivateKey PublicKey ECDH newAlgo) opts ->
  secured c -> configure opts c = Ok c' -> secured c'.
Proof.
  intros Ho. revert c. induction Ho as [|opt opts Hopt _ IH]; intros c Hs.
  - intros [= <-]. done.
  - rewrite configure_cons. destruct (opt c) as [c1|e|] eqn:E1; [|done..]. intros H. eapply IH; [|exact H].
    by eapply provided_secured.
Qed.
End Identity.

(** ** Lemmas: relays *)

Section Relay.
Context {S E : Type} `{!SymmAlgo S E}.
Context {CM CD CP : Type} `{!CacheLaws CM bytes Values} `{!CacheLaws CD bytes time} `{!ClearLaws CD bytes time}
  `{!CacheLaws CP bytes nat}.
Abbreviation conn := (@PacketConn S CM CD CP).

(** The metadata a connection has for a peer. *)
Definition meta_view (c : conn) (id : bytes) : option Values := cview (peerMap c) id.

(** Whether a state is that of a peer that can relay to [peerID]. *)
Definition suits (peerID : bytes) (c : conn) (p : PeerState) : Prop :=
  ps_PeerID p <> peerID /\ match meta_view c (ps_PeerID p) with Some m => can_relay m = true | None => False end.
#[export] Instance suits_dec peerID c p : Decision (suits peerID c p).
Proof. unfold suits. destruct (meta_view c (ps_PeerID p)); apply _. Defined.

(** The relay by definition: the first suitable peer, beginning after the one that
    was looked at last. *)
Definition relay_spec (peerID : bytes) (c : conn) : bytes :=
  let peers := Peers (udpConn c) in
  default [] (ps_PeerID <$> head (filter (suits peerID c) (rotate (Z.to_nat (relayPeerIndex c + 1)) peers))).

(** What a selection leaves as it is. *)
Definition same_but_index (c c' : conn) : Prop :=
  cok (peerMap c') /\ (forall id, meta_view c' id = meta_view c id) /\ udpConn c' = udpConn c /\ wsConn c' = wsConn c.

Lemma selectRelay_spec peerID peers k :
  peers <> [] -> forall c : conn,
  cok (peerMap c) -> (k <= length peers)%nat -> 0 <= relayPeerIndex c -> relayPeerIndex c + Z.of_nat k < 2 ^ 64 ->
  exists c', selectRelay k peers peerID c =
      (Ok (default [] (ps_PeerID <$> head (filter (suits peerID c)
         (take k (rotate (Z.to_nat (relayPeerIndex c + 1)) peers))))), c') /\ same_but_index c c'.
Proof.
  intros Hne. induction k as [|k IH]; intros c Hok Hk Hi Hw.
  - exists c. done.
  - set (i := relayPeerIndex c) in *.
    assert (Hlen : (0 < length peers)%nat) by (destruct peers; simpl; [done|lia]).
    cbn [selectRelay]. rewrite modify_bind, gets_bind. cbn [relayPeerIndex set_relayPeerIndex].
    change (relayPeerIndex c) with i. unfold u64. rewrite (Z.mod_small (i + 1)) by lia.
    assert (Hj : Z.to_nat ((i + 1) mod zlen peers) = (Z.to_nat (i + 1) mod length peers)%nat).
    { unfold zlen. rewrite Z2Nat.inj_mod by lia. by rewrite Nat2Z.id. }
    rewrite Hj. destruct (lookup_lt_is_Some_2 peers (Z.to_nat (i + 1) mod length peers)) as [p Hp].
    { apply Nat.mod_upper_bound. lia. }
    rewrite Hp, lift_bind, (take_rotate_S (Z.to_nat (i + 1)) k peers p) by (done || lia).
    replace (Datatypes.S (Z.to_nat (i + 1))) with (Z.to_nat (i + 1 + 1)) by lia.
    set (c1 := set_relayPeerIndex (i + 1) c).
    assert (Hskip : forall c2, same_but_index c c2 -> relayPeerIndex c2 = i + 1 -> ~ suits peerID c p ->
      exists c', selectRelay k peers peerID c2 =
        (Ok (default [] (ps_PeerID <$> head (filter (suits peerID c)
           (p :: take k (rotate (Z.to_nat (i + 1 + 1)) peers))))), c') /\ same_but_index c c').
    { intros c2 (Hok2 & Hv2 & Hu2 & Hws2) Hi2 Hns.
      destruct (IH c2 Hok2 ltac:(lia) ltac:(lia) ltac:(lia)) as (c' & Hrun & Hok' & Hv' & Hu' & Hws').
      exists c'. rewrite Hrun, filter_cons_False, Hi2 by done. split; [|split_and!; [done|congruence..]].
      do 4 f_equal. f_equal. apply list_filter_iff. intros q. unfold suits. by rewrite Hv2. }
    case_bool_decide as Hself.
    { apply Hskip; [done..|]. by intros [? _]. }
    unfold PeerMeta. rewrite gom_bind_run. pose proof (cget_view (ps_PeerID p) (peerMap c) Hok) as Hget.
    pose proof (cget_ok (ps_PeerID p) (peerMap c) Hok) as Hok1.
    pose proof (fun k' => cget_keeps (ps_PeerID p) (peerMap c) k' Hok) as Hkeep.
    change (peerMap c1) with (peerMap c).
    destruct (cget (ps_PeerID p) (peerMap c)) as [m cache]. cbn [fst snd] in *. subst m.
    assert (Hsame : same_but_index c (set_peerMap cache c1)) by done.
    fold (meta_view c (ps_PeerID p)). destruct (meta_view c (ps_PeerID p)) as [m|] eqn:Em.
    + destruct (can_relay m) eqn:Er.
      * exists (set_peerMap cache c1). split; [|done]. rewrite filter_cons_True; [done|].
        split; [done|]. by rewrite Em.
      * apply Hskip; [done..|]. intros [_ H]. rewrite Em in H. congruence.
    + apply Hskip; [done..|]. intros [_ H]. by rewrite Em in H.
Qed.
End Relay.

(** ** Lemmas: events *)

Section Events.
Context {S E : Type} `{!SymmAlgo S E}.
Context {CM CD CP : Type} `{!CacheLaws CM bytes Values} `{!CacheLaws CD bytes time} `{!ClearLaws CD bytes time}
  `{!CacheLaws CP bytes nat}.
Abbreviation conn := (@PacketConn S CM CD CP).
Context (ips : option (list bytes)) (env : challenge_env) (disco : DiscoConfig).

(** The metadata of a peer in an event. *)
Definition event_meta (id : bytes) (ev : Event) : option Values :=
  match Data ev with
  | PeerData p =>
      if bool_decide (ControlCode ev = CONTROL_NEW_PEER \/ ControlCode ev = CONTROL_UPDATE_META) &&
         bool_decide (peer_ID p = id) then Some (Metadata p) else None
  | _ => None
  end.

(** The handlers of events, one after the other: each runs in a goroutine of its
    own, so any order of the events is possible. *)
Fixpoint handle_all (evs : list Event) : GoM conn Empty_set unit :=
  match evs with
  | [] => mret tt
  | ev :: evs => _ ← handleEvent ips env disco ev; handle_all evs
  end.

Lemma put_meta_view p id m (c : conn) :
  cok (peerMap c) -> meta_view (put_meta p c) id = Some m ->
  (if bool_decide (peer_ID p = id) then Some (Metadata p) = Some m else meta_view c id = Some m).
Proof.
  intros Hok. unfold meta_view, put_meta. simpl. case_bool_decide as Heq.
  - subst id. by rewrite cput_view.
  - intros H. apply cput_other in H; [done|done|congruence].
Qed.

(** One handler: what a peer's metadata are afterwards. *)
Lemma handleEvent_meta ev (c c' : conn) id m :
  cok (peerMap c) -> handleEvent ips env disco ev c = (Ok tt, c') ->
  cok (peerMap c') /\
  (meta_view c' id = Some m ->
   match event_meta id ev with Some m' => m' = m | None => meta_view c id = Some m end).
Proof.
  intros Hok H. unfold event_meta, handleEvent in *.
  assert (Hput : forall p (c1 : conn), cok (peerMap c1) -> meta_view c1 = meta_view c -> c' = put_meta p c1 ->
            cok (peerMap c') /\ (meta_view c' id = Some m ->
              match (if bool_decide (peer_ID p = id) then Some (Metadata p) else None) with
              | Some m' => m' = m | None => meta_view c id = Some m end)).
  { intros p c1 Hok1 Hv ->. split; [by apply cput_ok|]. intros Hm. apply put_meta_view in Hm; [|done].
    case_bool_decide; [by injection Hm as ->|]. by rewrite <- Hv. }
  destruct (bool_decide_reflect (ControlCode ev = CONTROL_NEW_PEER)) as [Hc|Hc].
  { destruct (Data ev) as [|p|i|ep]; try done. rewrite (bool_decide_true (_ \/ _)) by (by left).
    rewrite modify_bind in H. injection H as H. eapply Hput; [..|by rewrite <- H]; done. }
  destruct (bool_decide_reflect (ControlCode ev = CONTROL_PEER_LEAVE)) as [Hc2|Hc2].
  { rewrite gets_bind in H. destruct (Data ev) as [|p|i|ep], (has_OnPeerLeave (cfg c)); try done;
      injection H as <-; rewrite ?(bool_decide_false (_ \/ _)) by (rewrite Hc2; intros [?|?]; done); done. }
  destruct (bool_decide_reflect (ControlCode ev = CONTROL_UPDATE_META)) as [Hc3|Hc3].
  { destruct (Data ev) as [|p|i|ep]; try done. rewrite (bool_decide_true (_ \/ _)) by (by right).
    injection H as H. eapply Hput; [..|by rewrite <- H]; done. }
  assert (Hkeep : cok (peerMap c') /\ (meta_view c' id = Some m -> meta_view c id = Some m)).
  { destruct (bool_decide (ControlCode ev = CONTROL_NEW_PEER_UDP_ADDR)).
    - destruct (Data ev) as [|p|i|ep]; try done. destruct (RunDiscoMessageSendLoop _ _ _ _ _ _ _) as [r u].
      by injection H as _ <-.
    - by injection H as <-. }
  destruct (Data ev) as [|p|i|ep]; [exact Hkeep| |exact Hkeep..].
  rewrite (bool_decide_false (_ \/ _)) by (intros [?|?]; done). exact Hkeep.
Qed.
End Events.

(** ** Properties *)

(** C9. Two peers that were configured with key options, whatever other options came
    before and after, hold the same key for each other: each one's identifier is
    the public key of the private key it encrypts with. *)
Theorem secure_peers_agree {S E} `{!SymmAlgo S E} {Priv} b58_Encode b58_Decode NewPrivateKey (PublicKey : Priv -> bytes)
    ECDH newAlgo opts opts' rnd rnd' (cA cB : Config S) sA sB :
  (forall x, b58_Decode (b58_Encode x) = x) ->
  (forall p q, ECDH p (PublicKey q) = ECDH q (PublicKey p)) ->
  (forall f, SecretKey (newAlgo f) = f) ->
  Forall (provided b58_Encode b58_Decode NewPrivateKey PublicKey ECDH newAlgo) opts ->
  Forall (provided b58_Encode b58_Decode NewPrivateKey PublicKey ECDH newAlgo) opts' ->
  configure opts (default_config b58_Encode rnd) = Ok cA ->
  configure opts' (default_config b58_Encode rnd') = Ok cB ->
  cfg_SymmAlgo cA = Some sA -> cfg_SymmAlgo cB = Some sB ->
  SecretKey sA (peer_ID (PeerInfo cB)) = SecretKey sB (peer_ID (PeerInfo cA)).
Proof.
  intros Hb Hdh Hnew Ho Ho' HA HB HsA HsB.
  assert (Hsec : forall opts rnd c s, Forall (provided b58_Encode b58_Decode NewPrivateKey PublicKey ECDH newAlgo) opts ->
    configure opts (default_config b58_Encode rnd) = Ok c -> cfg_SymmAlgo c = Some s ->
    exists priv, s = newAlgo (fun pubKey => ECDH priv (b58_Decode pubKey)) /\
      peer_ID (PeerInfo c) = b58_Encode (PublicKey priv)).
  { intros os r c s Hos Hc Hs. pose proof (configure_secured b58_Encode b58_Decode NewPrivateKey PublicKey ECDH newAlgo
      os (default_config b58_Encode r) c Hos I Hc) as H. unfold secured in H. by rewrite Hs in H. }
  destruct (Hsec _ _ _ _ Ho HA HsA) as (privA & -> & ->). destruct (Hsec _ _ _ _ Ho' HB HsB) as (privB & -> & ->).
  rewrite !Hnew, !Hb. apply Hdh.
Qed.

(** C8. The relay of [relayPeer] is the one of the definition: the first of the known
    peers, round robin from the one after the last that was looked at, that is not
    the addressee, whose metadata are known, that did not refuse with the label
    [node.nr] and whose NAT is easy or public; none exactly when there is none. *)
Theorem relay_round_robin {S E} `{!SymmAlgo S E} {CM CD CP : Type} `{!CacheLaws CM bytes Values} `{!CacheLaws CD bytes time}
    `{!ClearLaws CD bytes time} `{!CacheLaws CP bytes nat} peerID (c : @PacketConn S CM CD CP) :
  cok (peerMap c) -> 0 <= relayPeerIndex c ->
  relayPeerIndex c + zlen (Peers (udpConn c)) < 2 ^ 64 ->
  exists c', selectRelayPeer peerID c = (Ok (relay_spec peerID c), c') /\ same_but_index c c'.
Proof.
  intros Hok Hi Hw. unfold selectRelayPeer. rewrite gets_bind. set (peers := Peers (udpConn c)) in *.
  destruct (decide (peers = [])) as [He|Hne].
  - exists c. unfold relay_spec, rotate. fold peers. by rewrite He, drop_nil, take_nil.
  - destruct (selectRelay_spec peerID peers (length peers) Hne c Hok ltac:(lia) Hi Hw) as (c' & Hrun & Hsame).
    exists c'. split; [|done]. rewrite Hrun. unfold relay_spec. fold peers.
    by rewrite firstn_all2 by (rewrite length_rotate; lia).
Qed.

(** The metadata kept for a peer are those of the event that was handled last, not
    of the one that was received last: handlers run concurrently and nothing orders
    them. *)
Theorem meta_of_last_handled {S E} `{!SymmAlgo S E} {CM CD CP : Type} `{!CacheLaws CM bytes Values} `{!CacheLaws CD bytes time}
    `{!ClearLaws CD bytes time} `{!CacheLaws CP bytes nat} ips env disco evs evs' (c c' : @PacketConn S CM CD CP) id m :
  cok (peerMap c) -> Permutation evs evs' -> handle_all ips env disco evs' c = (Ok tt, c') ->
  meta_view c' id = Some m ->
  match last (omap (event_meta id) evs') with Some m' => m = m' | None => meta_view c id = Some m end /\
  (Some m = meta_view c id \/ m ∈ omap (event_meta id) evs).
Proof.
  intros Hok Hp Hrun Hm.
  assert (Hlast : match last (omap (event_meta id) evs') with Some m' => m = m' | None => meta_view c id = Some m end).
  { clear Hp evs. revert c Hok Hrun. induction evs' as [|ev evs IH]; intros c Hok Hrun.
    - by injection Hrun as <-.
    - cbn [handle_all] in Hrun. rewrite gom_bind_run in Hrun.
      destruct (handleEvent ips env disco ev c) as [[[]|e|] c1] eqn:E1; [|done..].
      destruct (handleEvent_meta ips env disco ev c c1 id m Hok E1) as [Hok1 Hv1].
      specialize (IH c1 Hok1 Hrun). cbn [omap list_omap].
      destruct (event_meta id ev) as [m0|]; [rewrite last_cons|]; revert IH;
        destruct (last (omap (event_meta id) evs)); naive_solver. }
  split; [done|]. destruct (last (omap (event_meta id) evs')) as [m'|] eqn:El; [|by left].
  right. subst m'. rewrite (omap_Permutation _ evs evs') by done. apply last_Some in El as [l ->]. set_solver.
Qed.

(** ** Witnesses *)

Module Examples.
Import LruCache.

Definition empty_cache {V} : Cache bytes V :=
  {| capacity := 1024; cache := ∅; elems := []; entries := ∅; fresh := 0%nat |}.
Lemma empty_ok {V} : cok (@empty_cache V).
Proof. exists []. apply (repr_New 1024). reflexivity. Qed.

Abbreviation toy_algo := (option (algo (Cache (list Byte.byte) AesCbc.block))) (only parsing).
#[export] Instance ex_algo : SymmAlgo toy_algo bytes := AesCbc.aes_algo Secure.Examples.toy_cipher.
#[export] Instance ex_laws : SymmLaws toy_algo bytes :=
  AesCbc.aes_laws Secure.Examples.toy_cipher Secure.Examples.toy_ok.
Definition toy_new (f : bytes -> option bytes) : toy_algo := Some (MkAlgo empty_cache f).

(** A commutative group in place of the curve. *)
Definition toy_ecdh (p q : bytes) : option bytes := Some (AesCbc.xor_bytes p q).
Lemma toy_ecdh_comm p q : toy_ecdh p q = toy_ecdh q p.
Proof.
  unfold toy_ecdh. f_equal. revert q. induction p as [|x p IH]; intros [|y q]; try done.
  unfold AesCbc.xor_bytes in *. simpl. rewrite IH. f_equal. apply b2z_inj. by rewrite !b2z_bxor, Z.lxor_comm.
Qed.

Definition toy_opts (key : bytes) : list (Option_ toy_algo) :=
  [PeerAlias1 (bs "x"); ListenPeerCurve25519 id id (fun b : bytes => Some b) id toy_ecdh toy_new key].
Definition toy_end (key : bytes) : Config toy_algo :=
  match configure (toy_opts key) (default_config id []) with Ok c => c | _ => default_config id [] end.
Definition toy_key (key : bytes) : toy_algo := toy_new (fun pubKey => toy_ecdh key (id pubKey)).

Lemma toy_provided key : Forall (provided id id (fun b : bytes => Some b) id toy_ecdh toy_new) (toy_opts key).
Proof.
  apply Forall_cons; split; [apply PAlias1|]. apply Forall_cons; split; [apply PCurve|apply Forall_nil; exact I].
Qed.

Lemma secure_peers_agree_witness :
  SecretKey (toy_key (bs "key a")) (peer_ID (PeerInfo (toy_end (bs "key b")))) =
  SecretKey (toy_key (bs "key b")) (peer_ID (PeerInfo (toy_end (bs "key a")))).
Proof.
  exact (secure_peers_agree id id (fun b : bytes => Some b) id toy_ecdh toy_new (toy_opts (bs "key a"))
           (toy_opts (bs "key b")) [] [] (toy_end (bs "key a")) (toy_end (bs "key b")) (toy_key (bs "key a"))
           (toy_key (bs "key b")) (fun _ => eq_refl) toy_ecdh_comm (fun _ => eq_refl) (toy_provided _) (toy_provided _)
           eq_refl eq_refl eq_refl eq_refl).
Defined.

(** A connection of [self] with a peer known by UDP and its metadata. *)
Definition ex_udp (self : bytes) (peers : gmap bytes peerkeeper) (socks : list nat) : UDPConn :=
  MkUDPConn (Some socks) (MkUDPConfig 29877 false false self (10 * second) None) [] [] [] [] None peers [] [].
Definition ex_addr (x : Z) : UDPAddr := MkUDPAddr [z2b 192; z2b 0; z2b 2; z2b x] 4000.
Definition ex_keeper (id : bytes) (x : Z) (now : Z) : peerkeeper :=
  Keeper 5 id {[addr_String (ex_addr x) := MkPeerState id (ex_addr x) now]} now false (10 * second) empty_value.
Definition ex_conn (self mode : bytes) (s : option toy_algo) (u : UDPConn) (w : WSConn) :
    @PacketConn toy_algo (Cache bytes Values) (Cache bytes time) (Cache bytes nat) :=
  MkPacketConn (MkConfig 29877 false false (MkPeer self ∅) s false false (10 * Second) (2 * Minute)) false u false w
    empty_cache empty_cache mode Deadline.init 0 (Pool [] empty_cache).

Definition relay_meta : Values := {[bs "nat" := [bs "easy"]]}.
Definition ex_relay : @PacketConn toy_algo (Cache bytes Values) (Cache bytes time) (Cache bytes nat) :=
  put_meta (MkPeer (bs "r") relay_meta)
    (ex_conn (bs "a") MODE_DEFAULT None (ex_udp (bs "a") {[bs "r" := ex_keeper (bs "r") 7 0]} [1%nat]) new_WSConn).

Lemma relay_round_robin_witness :
  exists c', selectRelayPeer (bs "b") ex_relay = (Ok (relay_spec (bs "b") ex_relay), c') /\ same_but_index ex_relay c'.
Proof.
  refine (relay_round_robin (bs "b") ex_relay _ _ _).
  - apply cput_ok, empty_ok.
  - vm_compute. discriminate.
  - vm_compute. reflexivity.
Defined.

Lemma ex_relay_found : relay_spec (bs "b") ex_relay = bs "r".
Proof. vm_compute. reflexivity. Qed.

Definition no_challenges : challenge_env :=
  MkChallengeEnv (fun _ _ => true) (fun _ => true) [] true (fun _ => true).
Definition ex_events : list Event :=
  [MkEvent CONTROL_NEW_PEER (PeerData (MkPeer (bs "p") relay_meta));
   MkEvent CONTROL_UPDATE_META (PeerData (MkPeer (bs "p") ∅))].

(** The handlers in the other order: the older metadata stay. *)
Lemma meta_of_last_handled_witness :
  exists c', handle_all None no_challenges defaultDiscoConfig (rev ex_events) ex_relay = (Ok tt, c') /\
    match last (omap (event_meta (bs "p")) (rev ex_events)) with
    | Some m' => relay_meta = m' | None => meta_view ex_relay (bs "p") = Some relay_meta end /\
    (Some relay_meta = meta_view ex_relay (bs "p") \/ relay_meta ∈ omap (event_meta (bs "p")) ex_events).
Proof.
  eexists. split; [reflexivity|].
  refine (meta_of_last_handled None no_challenges defaultDiscoConfig ex_events (rev ex_events) ex_relay _ (bs "p")
           relay_meta _ _ eq_refl _).
  - apply cput_ok, empty_ok.
  - apply Permutation_rev.
  - reflexivity.
Defined.
End Examples.
