(* ===== verification/Overlay.v ===== *)
(** * The overlay: packet connections over the server, over UDP and over relays

    [P2p.v], [DiscoUdp.v], [Ws.v] and [Peermap.v] composed: what one node writes
    with [WriteTo] is what another node's [ReadFrom] can return, on each of the
    three paths, and an address that a node announces is pinged by its peer. *)

From S2P Require Import Prelude Text GoTime Url Lru CacheTTL Netip Stun Disco DiscoUdp NetUdp Langs Stream Secure Ws.
From S2P Require Import Auth Peermap PeermapFacts PeermapInv Control P2p.

Section Overlay.
Context {S E : Type} `{!SymmAlgo S E} `{!SymmLaws S E}.
Context {CM CD CP : Type} `{!CacheLaws CM bytes Values} `{!CacheLaws CD bytes time} `{!ClearLaws CD bytes time}
  `{!CacheLaws CP bytes nat}.
Abbreviation conn := (@PacketConn S CM CD CP).

(** The two ends of a connection agree on the encryption: both have none, or both
    providers answer the same usable key and the environments are in step. *)
Definition crypt_agree (eA eB : E) (sA sB : option S) (idA idB : bytes) : Prop :=
  match sA, sB with
  | None, None => True
  | Some sA, Some sB =>
      sound sA /\ sound sB /\ in_step eA eB /\
      exists k, usable k /\ Secure.SecretKey sA idB = Some k /\ Secure.SecretKey sB idA = Some k
  | _, _ => False
  end.

(** A packet that [udpRead] takes for data of its sender. *)
Definition opaque (M : option bytes) (b sp : bytes) : Prop :=
  b2z (Len (ParsePing M b)) = 0 /\ Is b = false /\ 4 <= zlen (b ++ sp) /\
  take 4 (b ++ sp) <> MAGIC_TO_RELAY /\ take 4 (b ++ sp) <> MAGIC_FROM_RELAY.

(** What a [ReadFrom] of [n] bytes can hand out. *)
Definition can_read (eB : E) (n : Z) (c : conn) (data from : bytes) : Prop :=
  exists c', (Ok (data, Some from, None), c') ∈ ReadFrom eB n c.

(** ** Lemmas *)

(** Encrypted at one end, decrypted at the other. *)
Lemma crypt_wire eA eB idA idB data (cA : conn) sB :
  crypt_agree eA eB (cfg_SymmAlgo (cfg cA)) sB idA idB ->
  exists b x, TryEncrypt eA idB (Some data) cA = (Ok (Some b), set_cfg x cA) /\
    forall c : conn, cfg_SymmAlgo (cfg c) = sB -> exists c', TryDecrypt eB idA (Some b) c = (Ok (Some data), c').
Proof.
  unfold crypt_agree, TryEncrypt, TryDecrypt. destruct (cfg_SymmAlgo (cfg cA)) as [sA|] eqn:EA, sB as [sB|]; try done.
  - intros (H1 & H2 & H3 & k & Hk & HkA & HkB).
    destruct (roundtrip eA eB data idA idB k sA sB H1 H2 Hk HkA HkB H3) as (b & Hb & Hd).
    exists b. eexists. unfold crypt. change (default [] (Some data)) with data. rewrite Hb. split; [done|].
    intros c Hc. rewrite Hc. change (default [] (Some b)) with b. rewrite Hd. by eexists.
  - intros _. exists data, (cfg cA). split; [by destruct cA|]. intros c Hc. rewrite Hc. by exists c.
Qed.

Lemma copy_out_all n b : zlen b <= n -> (copy_out n b).1 = b.
Proof. intros Hn. unfold copy_out. cbn [fst]. apply firstn_all2. unfold zlen in Hn. lia. Qed.

(** A queued datagram that decrypts is what a read can hand out. *)
Lemma hand_out_ok eB n d from data (c : conn) c' :
  TryDecrypt eB from (Some d) c = (Ok (Some data), c') -> zlen data <= n ->
  hand_out eB n (MkDatagram from d) c = (Ok (data, Some from, None), c').
Proof. intros H Hn. unfold hand_out. cbn [dg_PeerID dg_Data]. rewrite H. change (default [] (Some data)) with data. by rewrite copy_out_all. Qed.

Lemma can_read_ws eB n from d data (c : conn) q cl :
  Ws.datagrams (wsConn c) = Chan (MkDatagram from d :: q) cl ->
  (forall c1 : conn, cfg_SymmAlgo (cfg c1) = cfg_SymmAlgo (cfg c) ->
     exists c', TryDecrypt eB from (Some d) c1 = (Ok (Some data), c')) ->
  zlen data <= n -> can_read eB n c data from.
Proof.
  intros Hq Hd Hn. unfold can_read, ReadFrom. rewrite Hq. cbn [chan_recv queue closed].
  destruct (Hd (set_wsConn (set_datagrams (Chan q cl) (wsConn c)) c) eq_refl) as (c' & Hc').
  exists c'. rewrite !elem_of_app. right. right. left. apply list_elem_of_singleton. by rewrite (hand_out_ok _ _ _ _ data _ c').
Qed.

Lemma can_read_udp eB n from d data (c : conn) q :
  DiscoUdp.datagrams (udpConn c) = (from, d) :: q ->
  (forall c1 : conn, cfg_SymmAlgo (cfg c1) = cfg_SymmAlgo (cfg c) ->
     exists c', TryDecrypt eB from (Some d) c1 = (Ok (Some data), c')) ->
  zlen data <= n -> can_read eB n c data from.
Proof.
  intros Hq Hd Hn. unfold can_read, ReadFrom. rewrite Hq.
  destruct (Hd (set_udpConn (pop_udp (udpConn c) q) c) eq_refl) as (c' & Hc').
  exists c'. rewrite !elem_of_app. right. right. right. apply list_elem_of_singleton. by rewrite (hand_out_ok _ _ _ _ data _ c').
Qed.

(** A heartbeat leaves the queue and the configuration. *)
Lemma beat_keeps l l' now sock id addr u :
  DiscoUdp.datagrams (beat l l' now sock id addr u) = DiscoUdp.datagrams u /\
  DiscoUdp.cfg (beat l l' now sock id addr u) = DiscoUdp.cfg u /\
  exists more, sent (beat l l' now sock id addr u) = sent u ++ more.
Proof.
  unfold beat, tryGetPeerkeeper. destruct l; simpl; [|by split_and!; [..|exists []; rewrite app_nil_r]].
  destruct (peersIndex u !! id); simpl; destruct (heartbeat _ _ _ _) as [[] k]; simpl;
    (split_and!; [done..|]); (by eexists) || (exists []; by rewrite app_nil_r).
Qed.

Lemma findPeer_keeps now id u r u' :
  findPeer now id u = (r, u') -> sent u' = sent u /\ DiscoUdp.datagrams u' = DiscoUdp.datagrams u.
Proof.
  unfold findPeer. destruct (peersIndex u !! id); [|by intros [= <- <-]].
  destruct (ready now p) as [x k]. by intros [= <- <-].
Qed.

(** A write to a peer with a fresh address. *)
Lemma udp_write now b id u k u' st :
  findPeer now id u = (Ok (Some k), u') -> selectPeerUDP now k = Some st ->
  now - LastActiveTime st <= keepaliveInterval k + second ->
  DiscoUdp.WriteTo now (Some b) id u = (Ok (zlen b), add_sent [(k_udpConn k, ps_Addr st, b)] u').
Proof.
  intros Hf Hs Hl. unfold DiscoUdp.WriteTo, writeUDP, writeUDP_to. rewrite Hf, Hs. by rewrite bool_decide_false by lia.
Qed.

Lemma udpRead_known ignored locks now sock addr b sp u :
  b2z (Len (ParsePing (DiscoMagic (DiscoUdp.cfg u)) b)) = 0 -> Is b = false ->
  0 < zlen (findPeerID now addr u) <= 255 ->
  udpRead ignored locks now sock addr (GSlice b sp) u =
  (let peerID := findPeerID now addr u in
   let c := beat locks.1 locks.2 now sock peerID addr u in
   match tryToDst (GSlice b sp) peerID with
   | Ok (Some (pkt, dst)) =>
       match DiscoUdp.WriteTo now (Some pkt) dst c with
       | (Ok _, c) => (Ok tt, c)
       | (Err _, c) => (Ok tt, add_relay_error dst c)
       | (Panic, c) => (Panic, c)
       end
   | Ok None =>
       match tryRecv (GSlice b sp) with
       | Ok (Some ((_ :: _) as pkt, src)) => (Ok tt, add_datagram (src, pkt) c)
       | Ok _ => (Ok tt, add_datagram (peerID, b) c)
       | _ => (Panic, c)
       end
   | _ => (Panic, c)
   end).
Proof.
  intros H1 H2 H3. unfold udpRead. cbn [vis]. rewrite H1, H2.
  rewrite (bool_decide_false (b2z (Len (findPeerID now addr u)) = 0)); [done|].
  rewrite b2z_Len by lia. lia.
Qed.

Lemma opaque_tries M b sp src :
  opaque M b sp -> tryToDst (GSlice b sp) src = Ok None /\ tryRecv (GSlice b sp) = Ok None.
Proof.
  intros (_ & _ & Hlen & Hto & Hfrom). unfold tryToDst, tryRecv, sl_sub, sl_cap. cbn [vis spare].
  rewrite zlen_app in Hlen. rewrite bool_decide_true by lia. rewrite !bind_Ok. cbn [vis].
  change (Z.to_nat (4 - 0)) with 4%nat. rewrite !drop_0. by rewrite !bool_decide_true by done.
Qed.

(** Relay packets are neither pings nor STUN messages. *)
Lemma relay_not_ping mg id p :
  mg = MAGIC_TO_RELAY \/ mg = MAGIC_FROM_RELAY ->
  b2z (Len (ParsePing None (mg ++ [Len id] ++ id ++ p))) = 0 /\ Is (mg ++ [Len id] ++ id ++ p) = false.
Proof.
  intros Hm. split.
  - unfold ParsePing. case_bool_decide; [done|]. rewrite bool_decide_false; [done|].
    by destruct Hm as [->| ->].
  - unfold Is. rewrite (bool_decide_false (Z.land _ 192 = 0)) by (destruct Hm as [->| ->]; discriminate).
    by rewrite andb_false_r.
Qed.

Lemma toRelay_parts p dst : toRelay p dst = MAGIC_TO_RELAY ++ [Len dst] ++ dst ++ p.
Proof. unfold toRelay, Bytes. by rewrite <- !app_assoc. Qed.
Lemma toDst_parts p src : toDst p src = MAGIC_FROM_RELAY ++ [Len src] ++ src ++ p.
Proof. unfold toDst, Bytes. by rewrite <- !app_assoc. Qed.

(** A relay forwards what it is asked to. *)
Lemma udpRead_relay ignored locks now sock addr b dst sp u idA k u' st :
  DiscoMagic (DiscoUdp.cfg u) = None -> findPeerID now addr u = idA -> 0 < zlen idA <= 250 -> zlen dst <= 250 ->
  findPeer now dst (beat locks.1 locks.2 now sock idA addr u) = (Ok (Some k), u') ->
  selectPeerUDP now k = Some st -> now - LastActiveTime st <= keepaliveInterval k + second ->
  udpRead ignored locks now sock addr (GSlice (toRelay b dst) sp) u =
    (Ok tt, add_sent [(k_udpConn k, ps_Addr st, toDst b idA)] u').
Proof.
  intros HM Hid Hlen Hdst Hf Hs Hl. destruct (relay_not_ping MAGIC_TO_RELAY dst b ltac:(by left)) as [Hp Hi].
  rewrite <- toRelay_parts in Hp, Hi.
  rewrite udpRead_known by (done || rewrite ?HM, ?Hid; done || lia). cbv zeta. rewrite Hid.
  rewrite tryToDst_toRelay by done. by rewrite (udp_write now _ _ _ k u' st).
Qed.

(** And its peer takes the forwarded packet for a datagram of the sender. *)
Lemma udpRead_forwarded ignored locks now sock addr x b src sp u :
  DiscoMagic (DiscoUdp.cfg u) = None -> 0 < zlen (findPeerID now addr u) <= 255 -> zlen src <= 250 ->
  udpRead ignored locks now sock addr (GSlice (toDst (x :: b) src) sp) u =
    (Ok tt, add_datagram (src, x :: b) (beat locks.1 locks.2 now sock (findPeerID now addr u) addr u)).
Proof.
  intros HM Hid Hsrc. destruct (relay_not_ping MAGIC_FROM_RELAY src (x :: b) ltac:(by right)) as [Hp Hi].
  rewrite <- toDst_parts in Hp, Hi. rewrite udpRead_known by (done || by rewrite HM). cbv zeta.
  assert (Hto : tryToDst (GSlice (toDst (x :: b) src) sp) (findPeerID now addr u) = Ok None).
  { rewrite toDst_parts. unfold tryToDst. rewrite (sl_sub_0 MAGIC_FROM_RELAY) by done. by rewrite bind_Ok. }
  by rewrite Hto, tryRecv_toDst.
Qed.

(** A ping from a new address registers its sender there. *)
Lemma udpRead_ping ignored now sock addr id sp u :
  DiscoMagic (DiscoUdp.cfg u) = None -> 0 < zlen id <= 255 -> ignored (addr_IP addr) = false ->
  peersIndex u !! id = None ->
  let r := udpRead ignored (true, true) now sock addr (GSlice (NewPing None id) sp) u in
  r.1 = Ok tt /\ exists k, peersIndex r.2 !! id = Some k /\ states k !! addr_String addr = Some (MkPeerState id addr now).
Proof.
  intros HM Hid Hig Hnew. cbv zeta. assert (Hparse : ParsePing None (NewPing None id) = id).
  { apply (ParsePing_exact None (NewPing None id) id); [intros ->; by destruct Hid|split; [done|lia]]. }
  unfold udpRead. cbn [vis]. rewrite HM, Hparse, b2z_Len by lia. rewrite bool_decide_true by lia. rewrite Hig.
  split; [done|]. unfold beat, tryGetPeerkeeper. cbn [negb fst snd]. rewrite Hnew. unfold heartbeat. cbn [negb states].
  rewrite map_to_list_empty. cbn [List.find]. eexists. cbn [snd fst peersIndex set_peersIndex add_sent].
  rewrite lookup_insert_eq. split; [reflexivity|]. cbn [states set_states k_peerID]. by rewrite lookup_insert_eq.
Qed.

(** The first socket of a connection pings an announced address. *)
Lemma easy_sent env retry addr sock c :
  exists more, sent (easyChallenges env retry addr sock c) = sent c ++ ping_to c addr sock :: more /\
    udpConns (easyChallenges env retry addr sock c) = udpConns c /\ DiscoUdp.cfg (easyChallenges env retry addr sock c) = DiscoUdp.cfg c.
Proof. eexists. split; [reflexivity|done]. Qed.

Lemma easy_all_sent env retry addr socks c :
  exists more, sent (fold_left (fun c sock => easyChallenges env retry addr sock c) socks c) = sent c ++ more /\
    udpConns (fold_left (fun c sock => easyChallenges env retry addr sock c) socks c) = udpConns c.
Proof.
  revert c. induction socks as [|k socks IH]; intros c; [exists []; by rewrite app_nil_r|]. cbn [fold_left].
  destruct (IH (easyChallenges env retry addr k c)) as (more & Hs & Hu).
  destruct (easy_sent env retry addr k c) as (more' & Hs' & Hu' & _).
  exists ((ping_to c addr k :: more') ++ more). rewrite Hs, Hs', Hu, Hu'. by rewrite <- app_assoc.
Qed.

Lemma challenges_ping env retry offset count addr ty u sock socks :
  udpConns u = Some (sock :: socks) -> ty <> Hard ->
  let r := RunDiscoMessageSendLoop env retry offset count addr ty u in
  r.1 = Ok tt /\ exists more, sent r.2 = sent u ++ ping_to u addr sock :: more.
Proof.
  intros Hs Hty. cbv zeta. unfold RunDiscoMessageSendLoop. cbv zeta. rewrite bool_decide_false by done. rewrite Hs.
  change (default [] (Some (sock :: socks))) with (sock :: socks).
  set (l := if IsPrivate (addr_IP addr) then take 1 (sock :: socks) else sock :: socks).
  assert (Hl : exists rest, l = sock :: rest) by (unfold l; destruct (IsPrivate _); by eexists).
  destruct Hl as [rest ->]. cbn [fold_left].
  destruct (easy_sent env retry addr sock u) as (m1 & H1 & Hu1 & _).
  destruct (easy_all_sent env retry addr rest (easyChallenges env retry addr sock u)) as (m2 & H2 & Hu2).
  set (u2 := fold_left _ rest _) in *. rewrite H1, <- app_assoc in H2. rewrite Hu1, Hs in Hu2.
  destruct (peer_ready env || _ || _); [split; [done|]; by eexists|].
  unfold mainUDP. rewrite Hu2. split; [done|]. cbn [snd]. unfold port_scan. cbn [sent add_sent].
  eexists. rewrite H2, <- app_assoc. reflexivity.
Qed.

Context (WM : list ws_out -> nat -> Z -> bytes -> option ws_error).

Lemma on_ws_out {A} (m : GoM WSConn conn_error A) (c : conn) :
  (m (wsConn c)).1 <> Panic -> exists r, on_ws m c = (Ok r, set_wsConn (m (wsConn c)).2 c).
Proof. unfold on_ws. destruct (m (wsConn c)) as [[a|e|] w]; [by eexists..|done]. Qed.

Lemma ws_WriteTo_total b id op w : (Ws.WriteTo WM b id op w).1 <> Panic.
Proof.
  unfold Ws.WriteTo, write, writeWS. destruct (rawConn (lnk w)); [|done]. by destruct (WM _ _ _ _) as [[|]|].
Qed.

(** [WriteTo] up to the encrypted packet. *)
Lemma WriteTo_encrypted eA locked now data id (c : conn) b x :
  closeChan c = false -> TryEncrypt eA id (Some data) c = (Ok (Some b), set_cfg x c) ->
  WriteTo WM eA locked now (Some data) (Some id) c =
  (let c := set_cfg x c in
   if bool_decide (transportMode c = MODE_FORCE_RELAY) then server_relay WM (Some b) id c
   else if bool_decide (transportMode c = MODE_FORCE_PEER_RELAY) then
     (relay ← relayPeer (nanos now) id;
      if bool_decide (relay = []) then mret (0, Some ErrNoRelayPeer)
      else
        r ← on_udp (RelayTo (nanos now) relay b id);
        mret (match r with inl n => (n, None) | inr e => (0, Some (ErrUdp e)) end)) c
   else
     (r ← on_udp (DiscoUdp.WriteTo (nanos now) (Some b) id);
      match r with
      | inl n => mret (n, None)
      | inr err =>
          _ ← (match err with ErrUDPConnInactive => mret tt | _ => TryLeadDisco WM locked now id end);
          relay ← relayPeer (nanos now) id;
          if bool_decide (relay = []) then server_relay WM (Some b) id
          else
            r ← on_udp (RelayTo (nanos now) relay b id);
            match r with
            | inl n => mret (n, None)
            | inr _ => server_relay WM (Some b) id
            end
      end) c).
Proof.
  intros Hc He. unfold WriteTo. rewrite gets_bind, Hc. rewrite gom_bind_run, He, gets_bind. cbv zeta.
  change (default [] (Some b)) with b. change (transportMode (set_cfg x c)) with (transportMode c).
  destruct (bool_decide (transportMode c = MODE_FORCE_RELAY)); [done|].
  by destruct (bool_decide (transportMode c = MODE_FORCE_PEER_RELAY)).
Qed.
End Overlay.

Section Paths.
Context {S E : Type} `{!SymmAlgo S E} `{!SymmLaws S E}.
Context {CM CD CP : Type} `{!CacheLaws CM bytes Values} `{!CacheLaws CD bytes time} `{!ClearLaws CD bytes time}
  `{!CacheLaws CP bytes nat}.
Abbreviation conn := (@PacketConn S CM CD CP).

(** Both ends of the path through the server. *)
Lemma relay_mode_sends WM (eA : E) locked now data dst (cA : conn) b x kA :
  closeChan cA = false -> transportMode cA = MODE_FORCE_RELAY -> TryEncrypt eA dst (Some data) cA = (Ok (Some b), set_cfg x cA) ->
  rawConn (lnk (wsConn cA)) = Some kA -> zlen dst <= 253 ->
  let r := WriteTo WM eA locked now (Some data) (Some dst) cA in
  r.1 <> Panic /\
  out (wsConn r.2) = out (wsConn cA) ++ [OutMessage kA BinaryMessage (xor_all (wnonce (wsConn cA)) (framed CONTROL_RELAY dst b))].
Proof.
  intros Hopen Hmode Henc HkA Hd. cbv zeta. rewrite (WriteTo_encrypted WM eA locked now data dst cA b x Hopen Henc). cbv zeta.
  rewrite bool_decide_true by done. unfold server_relay. rewrite gom_bind_run.
  destruct (on_ws_out (Ws.WriteTo WM (default [] (Some b)) dst CONTROL_RELAY) (set_cfg x cA)) as [r Hr].
  { apply ws_WriteTo_total. }
  rewrite Hr. split; [by destruct r|]. cbn [fst snd mret gom_ret]. cbn [wsConn set_wsConn set_cfg].
  change (default [] (Some b)) with b. unfold Ws.WriteTo, Bytes. rewrite <- app_assoc. by apply client_write.
Qed.

Lemma relayed_is_read res js (eB : E) now n src b data sp (cB : conn) :
  open_channels (wsConn cB) -> queue (Ws.datagrams (wsConn cB)) = [] -> zlen src <= 253 -> zlen data <= n ->
  (forall c : conn, cfg_SymmAlgo (cfg c) = cfg_SymmAlgo (cfg cB) -> exists c', TryDecrypt eB src (Some b) c = (Ok (Some data), c')) ->
  let w := @onMessage res js Empty_set now BinaryMessage (GSlice (xor_all (wnonce (wsConn cB)) (framed CONTROL_RELAY src b)) sp) (wsConn cB) in
  w.1 = Ok tt /\ can_read eB n (set_wsConn w.2 cB) data src.
Proof.
  intros Hop Hempty Hs Hlen Hdec. cbv zeta.
  rewrite client_onMessage, handleEvents_relay, send_datagram_ok by (done || by apply open_active).
  split; [done|]. cbn [snd]. eapply (can_read_ws eB n src b data _ []); [|exact Hdec|done].
  cbn [wsConn set_wsConn]. change (Ws.datagrams (set_activeTime _ (wsConn cB))) with (Ws.datagrams (wsConn cB)).
  cbn [Ws.datagrams set_datagrams]. by rewrite Hempty.
Qed.

(** ** Properties *)

(** C6. The path through the server: what a node writes to a peer in relay mode becomes
    a message to the server, which the server turns into a message to the peer,
    after which a [ReadFrom] of the peer can return the very data, from the node
    that the server authenticated; encrypted, when they are, with whatever
    algorithm keeps the promise of [SymmLaws]. *)
Theorem datagram_via_server WMa WM jn res js eA eB locked now now' now'' data dst (cA cB : conn) s pid p q pq kA kB sp sp' n :
  closeChan cA = false -> transportMode cA = MODE_FORCE_RELAY ->
  crypt_agree eA eB (cfg_SymmAlgo (cfg cA)) (cfg_SymmAlgo (cfg cB)) (p_id p) dst ->
  rawConn (lnk (wsConn cA)) = Some kA -> conns s !! pid = Some p -> p_nonce p = wnonce (wsConn cA) ->
  getPeer (js_Network (networkSecret p)) dst s = Some q -> conns s !! q = Some pq ->
  p_conn pq = Some kB -> p_nonce pq = wnonce (wsConn cB) -> open_channels (wsConn cB) ->
  zlen dst <= 253 -> zlen (p_id p) <= 253 -> queue (Ws.datagrams (wsConn cB)) = [] -> zlen data <= n ->
  exists m1 m2,
    (let r := WriteTo WMa eA locked now (Some data) (Some dst) cA in
     r.1 <> Panic /\ out (wsConn r.2) = out (wsConn cA) ++ [OutMessage kA BinaryMessage m1]) /\
    (let s' := handleMessage WM jn pid now' BinaryMessage (GSlice m1 sp) s in
     s'.1 = Ok tt /\ pm_out s'.2 = pm_out s ++ [OutMessage kB BinaryMessage m2]) /\
    (let w := @onMessage res js Empty_set now'' BinaryMessage (GSlice m2 sp') (wsConn cB) in
     w.1 = Ok tt /\ can_read eB n (set_wsConn w.2 cB) data (p_id p)).
Proof.
  intros Hopen Hmode Hagree HkA Hp Hn Hg Hq HkB Hn' Hop Hd Hid Hempty Hlen.
  destruct (crypt_wire eA eB (p_id p) dst data cA _ Hagree) as (b & x & Henc & Hdec).
  exists (xor_all (wnonce (wsConn cA)) (framed CONTROL_RELAY dst b)),
         (xor_all (wnonce (wsConn cB)) (framed CONTROL_RELAY (p_id p) b)).
  split; [by apply (relay_mode_sends WMa eA locked now data dst cA b x kA); (done || lia)|].
  split; [|by apply relayed_is_read; (done || lia)].
  rewrite <- Hn, <- Hn'. apply (handleMessage_relay WM jn pid p now' CONTROL_RELAY dst b sp s q pq kB); try done.
  split; [done|]. rewrite !not_elem_of_cons. split_and!; [done..|apply not_elem_of_nil].
Qed.

(** The straight path: a write to a peer with a fresh address sends one packet to
    that address; the peer, receiving it from an address it knows the node by, can
    read the very data from that node, unless the packet looks like a ping, a STUN
    message or a relayed packet. *)
Theorem datagram_direct WM eA eB locked now now' data idA idB (cA cB : conn) k u st ignored locks sock addr sp n :
  closeChan cA = false -> transportMode cA ∉ [MODE_FORCE_RELAY; MODE_FORCE_PEER_RELAY] ->
  crypt_agree eA eB (cfg_SymmAlgo (cfg cA)) (cfg_SymmAlgo (cfg cB)) idA idB ->
  findPeer (nanos now) idB (udpConn cA) = (Ok (Some k), u) -> selectPeerUDP (nanos now) k = Some st ->
  nanos now - LastActiveTime st <= keepaliveInterval k + second ->
  findPeerID (nanos now') addr (udpConn cB) = idA -> 0 < zlen idA <= 255 ->
  DiscoUdp.datagrams (udpConn cB) = [] -> zlen data <= n ->
  exists b,
    (let r := WriteTo WM eA locked now (Some data) (Some idB) cA in
     r.1 = Ok (zlen b, None) /\ sent (udpConn r.2) = sent (udpConn cA) ++ [(k_udpConn k, ps_Addr st, b)]) /\
    (opaque (DiscoMagic (DiscoUdp.cfg (udpConn cB))) b sp ->
     let r := udpRead ignored locks (nanos now') sock addr (GSlice b sp) (udpConn cB) in
     r.1 = Ok tt /\ can_read eB n (set_udpConn r.2 cB) data idA).
Proof.
  intros Hopen Hmode Hagree Hf Hs Hl Hid Hlen Hempty Hn. rewrite !not_elem_of_cons in Hmode.
  destruct (crypt_wire eA eB idA idB data cA _ Hagree) as (b & x & Henc & Hdec). exists b. split.
  - assert (Hrun : WriteTo WM eA locked now (Some data) (Some idB) cA =
      (Ok (zlen b, None), set_udpConn (add_sent [(k_udpConn k, ps_Addr st, b)] u) (set_cfg x cA))).
    { rewrite (WriteTo_encrypted WM eA locked now data idB cA b x Hopen Henc). cbv zeta.
      rewrite (bool_decide_false (transportMode (set_cfg x cA) = MODE_FORCE_RELAY)) by apply Hmode.
      rewrite (bool_decide_false (transportMode (set_cfg x cA) = MODE_FORCE_PEER_RELAY)) by apply Hmode.
      rewrite gom_bind_run. unfold on_udp at 1. cbn [udpConn set_cfg].
      by rewrite (udp_write (nanos now) b idB (udpConn cA) k u st Hf Hs Hl). }
    rewrite Hrun. destruct (findPeer_keeps _ _ _ _ _ Hf) as [Hsent _]. split; [done|]. by rewrite <- Hsent.
  - intros Hopq. cbv zeta. destruct (opaque_tries _ b sp idA Hopq) as [Hto Hrecv].
    rewrite udpRead_known by (apply Hopq || by rewrite Hid). cbv zeta. rewrite Hid, Hto, Hrecv.
    split; [done|]. cbn [snd]. destruct (beat_keeps locks.1 locks.2 (nanos now') sock idA addr (udpConn cB)) as (Hdg & _).
    eapply (can_read_udp eB n idA b data _ []); [|exact Hdec|done].
    cbn [udpConn set_udpConn DiscoUdp.datagrams add_datagram]. by rewrite Hdg, Hempty.
Qed.

(** C7. The path through another peer: the node hands the relay a packet for the peer,
    the relay passes it on under the name by which it knows the node, and the peer
    can read the very data from that node; only when nothing is left to carry, a
    payload that is empty and not encrypted, does the last step fail. *)
Theorem datagram_via_peer WM eA eB locked now now1 now2 data idA idB idR (cA c2 cB : conn) uA kR stR
    uR addrA k u st addrR ign1 ign2 locks1 locks2 sock1 sock2 sp1 sp2 n :
  closeChan cA = false -> transportMode cA = MODE_FORCE_PEER_RELAY ->
  crypt_agree eA eB (cfg_SymmAlgo (cfg cA)) (cfg_SymmAlgo (cfg cB)) idA idB ->
  relayPeer (nanos now) idB (TryEncrypt eA idB (Some data) cA).2 = (Ok idR, c2) -> idR <> [] ->
  findPeer (nanos now) idR (udpConn c2) = (Ok (Some kR), uA) -> selectPeerUDP (nanos now) kR = Some stR ->
  nanos now - LastActiveTime stR <= keepaliveInterval kR + second ->
  DiscoMagic (DiscoUdp.cfg uR) = None -> findPeerID now1 addrA uR = idA -> 0 < zlen idA <= 250 -> zlen idB <= 250 ->
  findPeer now1 idB (beat locks1.1 locks1.2 now1 sock1 idA addrA uR) = (Ok (Some k), u) ->
  selectPeerUDP now1 k = Some st -> now1 - LastActiveTime st <= keepaliveInterval k + second ->
  DiscoMagic (DiscoUdp.cfg (udpConn cB)) = None -> 0 < zlen (findPeerID now2 addrR (udpConn cB)) <= 255 ->
  DiscoUdp.datagrams (udpConn cB) = [] -> zlen data <= n ->
  exists b,
    (let r := WriteTo WM eA locked now (Some data) (Some idB) cA in
     r.1 = Ok (zlen (toRelay b idB), None) /\
     sent (udpConn r.2) = sent (udpConn c2) ++ [(k_udpConn kR, ps_Addr stR, toRelay b idB)]) /\
    (let r := udpRead ign1 locks1 now1 sock1 addrA (GSlice (toRelay b idB) sp1) uR in
     r.1 = Ok tt /\ exists before, sent r.2 = before ++ [(k_udpConn k, ps_Addr st, toDst b idA)]) /\
    (b <> [] ->
     let r := udpRead ign2 locks2 now2 sock2 addrR (GSlice (toDst b idA) sp2) (udpConn cB) in
     r.1 = Ok tt /\ can_read eB n (set_udpConn r.2 cB) data idA).
Proof.
  intros Hopen Hmode Hagree Hrel HidR HfR HsR HlR HMR HidA HlenA HlenB Hf Hs Hl HMB HidB Hempty Hn.
  destruct (crypt_wire eA eB idA idB data cA _ Hagree) as (b & x & Henc & Hdec). exists b. split; [|split].
  - rewrite Henc in Hrel. cbn [snd] in Hrel.
    assert (Hrun : WriteTo WM eA locked now (Some data) (Some idB) cA =
      (Ok (zlen (toRelay b idB), None), set_udpConn (add_sent [(k_udpConn kR, ps_Addr stR, toRelay b idB)] uA) c2)).
    { rewrite (WriteTo_encrypted WM eA locked now data idB cA b x Hopen Henc). cbv zeta.
      rewrite (bool_decide_false (transportMode (set_cfg x cA) = MODE_FORCE_RELAY)) by (cbn; by rewrite Hmode).
      rewrite (bool_decide_true (transportMode (set_cfg x cA) = MODE_FORCE_PEER_RELAY)) by done.
      rewrite gom_bind_run, Hrel, bool_decide_false by done. rewrite gom_bind_run. unfold on_udp at 1, RelayTo.
      by rewrite (udp_write (nanos now) (toRelay b idB) idR (udpConn c2) kR uA stR HfR HsR HlR). }
    rewrite Hrun. destruct (findPeer_keeps _ _ _ _ _ HfR) as [Hsent _]. split; [done|]. by rewrite <- Hsent.
  - cbv zeta. rewrite (udpRead_relay ign1 locks1 now1 sock1 addrA b idB sp1 uR idA k u st) by done.
    split; [done|]. by exists (sent u).
  - intros Hb. destruct b as [|x0 b]; [done|]. cbv zeta. rewrite udpRead_forwarded by (done || lia).
    split; [done|]. cbn [snd].
    destruct (beat_keeps locks2.1 locks2.2 now2 sock2 (findPeerID now2 addrR (udpConn cB)) addrR (udpConn cB)) as (Hdg & _).
    eapply (can_read_udp eB n idA (x0 :: b) data _ []); [|exact Hdec|done].
    cbn [udpConn set_udpConn DiscoUdp.datagrams add_datagram]. by rewrite Hdg, Hempty.
Qed.

(** Finding each other: an address that a node announces for a peer reaches the peer
    through the server as an event with the same address and type, whose handler
    pings the address; and the ping, when it comes through, makes the node know the
    peer by the address it came from. *)
Theorem endpoint_to_ping WMa WM jn res js (cA cB : conn) s pid p q pq kA kB addr ty dst now now' sp sp' ips env disco
    sock socks uA sock' from ignored sp'' :
  rawConn (lnk (wsConn cA)) = Some kA -> conns s !! pid = Some p -> p_nonce p = wnonce (wsConn cA) ->
  getPeer (js_Network (networkSecret p)) dst s = Some q -> conns s !! q = Some pq ->
  p_conn pq = Some kB -> p_nonce pq = wnonce (wsConn cB) -> open_channels (wsConn cB) ->
  zlen dst <= 253 -> zlen (p_id p) + zlen (addr_String addr) <= 251 -> res (addr_String addr) = Some addr ->
  ty <> Hard -> udpConns (udpConn cB) = Some (sock :: socks) ->
  DiscoMagic (DiscoUdp.cfg (udpConn cB)) = None -> DiscoMagic (DiscoUdp.cfg uA) = None ->
  0 < zlen (ID (DiscoUdp.cfg (udpConn cB))) <= 255 -> peersIndex uA !! ID (DiscoUdp.cfg (udpConn cB)) = None ->
  ignored (addr_IP from) = false ->
  exists m1 m2 ev,
    out (wsConn (sendEndpoint WMa (dst, addr, ty) cA).2) = out (wsConn cA) ++ [OutMessage kA BinaryMessage m1] /\
    (let s' := handleMessage WM jn pid now BinaryMessage (GSlice m1 sp) s in
     s'.1 = Ok tt /\ pm_out s'.2 = pm_out s ++ [OutMessage kB BinaryMessage m2]) /\
    (let w := @onMessage res js Empty_set now' BinaryMessage (GSlice m2 sp') (wsConn cB) in
     w.1 = Ok tt /\ Ws.events w.2 = Chan (queue (Ws.events (wsConn cB)) ++ [ev]) false) /\
    (let r := handleEvent ips env disco ev cB in
     r.1 = Ok tt /\ exists more, sent (udpConn r.2) = sent (udpConn cB) ++ ping_to (udpConn cB) addr sock :: more) /\
    (let a := udpRead ignored (true, true) (nanos now') sock' from
                (GSlice (ping_to (udpConn cB) addr sock).2 sp'') uA in
     a.1 = Ok tt /\ exists k, peersIndex a.2 !! ID (DiscoUdp.cfg (udpConn cB)) = Some k /\
       states k !! addr_String from = Some (MkPeerState (ID (DiscoUdp.cfg (udpConn cB))) from (nanos now'))).
Proof.
  intros HkA Hp Hn Hg Hq HkB Hn' Hop Hd Hid Hres Hty Hsock HMB HMA HidB Hnew Hig.
  pose proof (zlen_nonneg (addr_String addr)) as Hpos.
  set (msg := z2b 97 :: z2b (zlen (addr_String addr)) :: addr_String addr ++ ty).
  set (ev := MkEvent CONTROL_NEW_PEER_UDP_ADDR (EndpointData (MkEndpoint (p_id p) addr ty))).
  exists (xor_all (wnonce (wsConn cA)) (framed CONTROL_NEW_PEER_UDP_ADDR dst msg)),
         (xor_all (wnonce (wsConn cB)) (framed CONTROL_NEW_PEER_UDP_ADDR (p_id p) msg)), ev.
  split; [|split; [|split; [|split]]].
  - unfold sendEndpoint. rewrite gom_bind_run.
    destruct (on_ws_out (Ws.WriteTo WMa (endpoint_msg (dst, addr, ty)) dst CONTROL_NEW_PEER_UDP_ADDR) cA) as [r Hr].
    { apply ws_WriteTo_total. }
    cbn [fst]. rewrite Hr.
    assert (Hout : out (wsConn (set_wsConn (Ws.WriteTo WMa (endpoint_msg (dst, addr, ty)) dst CONTROL_NEW_PEER_UDP_ADDR (wsConn cA)).2 cA)) =
                   out (wsConn cA) ++ [OutMessage kA BinaryMessage (xor_all (wnonce (wsConn cA)) (framed CONTROL_NEW_PEER_UDP_ADDR dst msg))]).
    { cbn [wsConn set_wsConn]. unfold Ws.WriteTo, Bytes. rewrite <- app_assoc. by apply client_write. }
    rewrite <- Hout. destruct r as [|]; [|done]. unfold PeerMeta. rewrite gom_bind_run. by destruct (cget _ _).
  - rewrite <- Hn, <- Hn'.
    apply (handleMessage_relay WM jn pid p now CONTROL_NEW_PEER_UDP_ADDR dst msg sp s q pq kB); try (done || lia).
    split; [done|]. rewrite !not_elem_of_cons. split_and!; [done..|apply not_elem_of_nil].
  - cbv zeta. rewrite client_onMessage.
    rewrite (handleEvents_endpoint res js (p_id p) (addr_String addr) ty addr), send_event_ok by (done || by apply open_active).
    done.
  - destruct (challenges_ping env (ChallengesRetry disco) (PortScanOffset disco) (PortScanCount disco) addr ty
                (udpConn cB) sock socks Hsock Hty) as [H1 [more Hmore]].
    cbv zeta. unfold handleEvent, ev. cbn [ControlCode Data]. codes. cbn [ep_Addr ep_Type].
    destruct (RunDiscoMessageSendLoop _ _ _ _ _ _ _) as [r u]. cbn [fst snd] in *. split; [done|]. by exists more.
  - cbn [ping_to snd]. unfold ping_packet. rewrite HMB. by apply udpRead_ping.
Qed.
End Paths.

(** ** Witnesses *)

Module Examples.
Import Auth.Examples Control.Examples P2p.Examples.

Definition shared : toy_algo := toy_new (fun _ => Some Secure.Examples.key16).
Lemma shared_sound : sound shared.
Proof. exact (Secure.Examples.new_sound Secure.Examples.toy_cipher 1024 empty_cache _ eq_refl). Qed.

Lemma ex_agree idA idB :
  crypt_agree Secure.Examples.iv16 Secure.Examples.iv16 (Some shared) (Some shared) idA idB.
Proof.
  split; [exact shared_sound|]. split; [exact shared_sound|]. split; [reflexivity|].
  exists Secure.Examples.key16. split; [by exists Secure.Examples.toy_block|done].
Qed.

Abbreviation toy_conn := (@PacketConn toy_algo (LruCache.Cache bytes Values) (LruCache.Cache bytes time)
                            (LruCache.Cache bytes nat)).
Abbreviation iv := Secure.Examples.iv16.

(** Encrypted, through the server of [Control.Examples]. *)
Definition relay_A : toy_conn := ex_conn (bs "alice") MODE_FORCE_RELAY (Some shared) (ex_udp (bs "alice") ∅ [1%nat]) cA.
Definition relay_B : toy_conn := ex_conn (bs "bob") MODE_DEFAULT (Some shared) (ex_udp (bs "bob") ∅ [2%nat]) cB.

Lemma datagram_via_server_witness :
  exists m1 m2,
    (let r := P2p.WriteTo quiet_ws iv true y2025 (Some (bs "hello")) (Some (bs "bob")) relay_A in
     r.1 <> Panic /\ out (wsConn r.2) = out (wsConn relay_A) ++ [OutMessage 10 BinaryMessage m1]) /\
    (let s' := handleMessage quiet_ws no_report 0 y2025 BinaryMessage (GSlice m1 []) ex2 in
     s'.1 = Ok tt /\ pm_out s'.2 = pm_out ex2 ++ [OutMessage 20 BinaryMessage m2]) /\
    (let w := @onMessage no_addr no_secret Empty_set y2025 BinaryMessage (GSlice m2 []) (wsConn relay_B) in
     w.1 = Ok tt /\ can_read iv 1500 (set_wsConn w.2 relay_B) (bs "hello") (p_id pA)).
Proof.
  refine (datagram_via_server quiet_ws quiet_ws no_report no_addr no_secret iv iv true y2025 y2025 y2025 (bs "hello")
           (bs "bob") relay_A relay_B ex2 0 pA 1 pB 10 20 [] [] 1500 eq_refl eq_refl (ex_agree _ _) eq_refl ex_A
           _ _ ex_B _ _ _ _ _ _ _); vm_compute; first [reflexivity|discriminate|repeat split].
Defined.

(** Encrypted, straight to the address the peer was heard from. *)
Definition direct_A : toy_conn :=
  ex_conn (bs "alice") MODE_DEFAULT (Some shared)
    (ex_udp (bs "alice") {[bs "bob" := ex_keeper (bs "bob") 2 (nanos y2025)]} [1%nat]) new_WSConn.
Definition direct_B : toy_conn :=
  ex_conn (bs "bob") MODE_DEFAULT (Some shared)
    (ex_udp (bs "bob") {[bs "alice" := ex_keeper (bs "alice") 1 (nanos y2025)]} [2%nat]) new_WSConn.
Definition bob_state : PeerState := MkPeerState (bs "bob") (ex_addr 2) (nanos y2025).

Lemma datagram_direct_witness :
  exists b,
    (let r := P2p.WriteTo quiet_ws iv true y2025 (Some (bs "hello")) (Some (bs "bob")) direct_A in
     r.1 = Ok (zlen b, None) /\ sent (udpConn r.2) = sent (udpConn direct_A) ++ [(5%nat, ex_addr 2, b)]) /\
    (opaque None b [] ->
     let r := udpRead (fun _ => false) (true, true) (nanos y2025) 2 (ex_addr 1) (GSlice b []) (udpConn direct_B) in
     r.1 = Ok tt /\ can_read iv 1500 (set_udpConn r.2 direct_B) (bs "hello") (bs "alice")).
Proof.
  refine (datagram_direct quiet_ws iv iv true y2025 y2025 (bs "hello") (bs "alice") (bs "bob") direct_A direct_B
           (ex_keeper (bs "bob") 2 (nanos y2025)) (udpConn direct_A) bob_state (fun _ => false) (true, true) 2 (ex_addr 1)
           [] 1500 eq_refl _ (ex_agree _ _) _ _ _ _ _ eq_refl _).
  - rewrite !not_elem_of_cons. split_and!; [discriminate..|apply not_elem_of_nil].
  - vm_compute. reflexivity.
  - vm_compute. reflexivity.
  - vm_compute. discriminate.
  - vm_compute. reflexivity.
  - vm_compute. split; [reflexivity|discriminate].
  - vm_compute. discriminate.
Defined.

(** Encrypted, through the peer [r]. *)
Definition peer_A : toy_conn :=
  put_meta (MkPeer (bs "r") relay_meta)
    (ex_conn (bs "alice") MODE_FORCE_PEER_RELAY (Some shared)
       (ex_udp (bs "alice") {[bs "r" := ex_keeper (bs "r") 7 (nanos y2025)]} [1%nat]) new_WSConn).
Definition udp_R : UDPConn :=
  ex_udp (bs "r") {[bs "alice" := ex_keeper (bs "alice") 1 (nanos y2025); bs "bob" := ex_keeper (bs "bob") 2 (nanos y2025)]}
    [3%nat].
Definition peer_B : toy_conn :=
  ex_conn (bs "bob") MODE_DEFAULT (Some shared)
    (ex_udp (bs "bob") {[bs "r" := ex_keeper (bs "r") 7 (nanos y2025)]} [2%nat]) new_WSConn.
Definition r_state : PeerState := MkPeerState (bs "r") (ex_addr 7) (nanos y2025).
Definition peer_A2 : toy_conn :=
  (relayPeer (nanos y2025) (bs "bob") (TryEncrypt iv (bs "bob") (Some (bs "hello")) peer_A).2).2.

Lemma run_eq {X Y} (p : X * Y) x : p.1 = x -> p = (x, p.2).
Proof. destruct p. by intros <-. Qed.

Lemma datagram_via_peer_witness :
  exists b,
    (let r := P2p.WriteTo quiet_ws iv true y2025 (Some (bs "hello")) (Some (bs "bob")) peer_A in
     r.1 = Ok (zlen (toRelay b (bs "bob")), None) /\
     sent (udpConn r.2) = sent (udpConn peer_A2) ++ [(5%nat, ex_addr 7, toRelay b (bs "bob"))]) /\
    (let r := udpRead (fun _ => false) (true, true) (nanos y2025) 3 (ex_addr 1) (GSlice (toRelay b (bs "bob")) []) udp_R in
     r.1 = Ok tt /\ exists before, sent r.2 = before ++ [(5%nat, ex_addr 2, toDst b (bs "alice"))]) /\
    (b <> [] ->
     let r := udpRead (fun _ => false) (true, true) (nanos y2025) 2 (ex_addr 7) (GSlice (toDst b (bs "alice")) [])
                (udpConn peer_B) in
     r.1 = Ok tt /\ can_read iv 1500 (set_udpConn r.2 peer_B) (bs "hello") (bs "alice")).
Proof.
  refine (datagram_via_peer quiet_ws iv iv true y2025 (nanos y2025) (nanos y2025) (bs "hello") (bs "alice") (bs "bob")
           (bs "r") peer_A peer_A2 peer_B (udpConn peer_A) (ex_keeper (bs "r") 7 (nanos y2025)) r_state udp_R (ex_addr 1)
           (set_k_udpConn 5 (ex_keeper (bs "bob") 2 (nanos y2025))) _ bob_state (ex_addr 7) (fun _ => false)
           (fun _ => false) (true, true) (true, true) 3 2 [] [] 1500 eq_refl eq_refl (ex_agree _ _) _ _ _ _ _ eq_refl _ _ _
           _ _ _ eq_refl _ eq_refl _).
  - apply run_eq. vm_compute. reflexivity.
  - discriminate.
  - vm_compute. reflexivity.
  - vm_compute. reflexivity.
  - vm_compute. discriminate.
  - vm_compute. reflexivity.
  - vm_compute. split; [reflexivity|discriminate].
  - vm_compute. discriminate.
  - apply run_eq. vm_compute. reflexivity.
  - vm_compute. reflexivity.
  - vm_compute. discriminate.
  - vm_compute. split; [reflexivity|discriminate].
  - vm_compute. discriminate.
Defined.

(** Alice announces an address to Bob, whose ping arrives from another one. *)
Definition known_addr (t : bytes) : option UDPAddr :=
  if bool_decide (t = addr_String (ex_addr 9)) then Some (ex_addr 9) else None.

Lemma endpoint_to_ping_witness :
  exists m1 m2 ev,
    out (wsConn (sendEndpoint quiet_ws (bs "bob", ex_addr 9, Easy) relay_A).2) =
      out (wsConn relay_A) ++ [OutMessage 10 BinaryMessage m1] /\
    (let s' := handleMessage quiet_ws no_report 0 y2025 BinaryMessage (GSlice m1 []) ex2 in
     s'.1 = Ok tt /\ pm_out s'.2 = pm_out ex2 ++ [OutMessage 20 BinaryMessage m2]) /\
    (let w := @onMessage known_addr no_secret Empty_set y2025 BinaryMessage (GSlice m2 []) (wsConn relay_B) in
     w.1 = Ok tt /\ Ws.events w.2 = Chan (queue (Ws.events (wsConn relay_B)) ++ [ev]) false) /\
    (let r := handleEvent None no_challenges defaultDiscoConfig ev relay_B in
     r.1 = Ok tt /\ exists more, sent (udpConn r.2) =
       sent (udpConn relay_B) ++ ping_to (udpConn relay_B) (ex_addr 9) 2 :: more) /\
    (let a := udpRead (fun _ => false) (true, true) (nanos y2025) 1 (ex_addr 8)
                (GSlice (ping_to (udpConn relay_B) (ex_addr 9) 2).2 []) (udpConn relay_A) in
     a.1 = Ok tt /\ exists k, peersIndex a.2 !! bs "bob" = Some k /\
       states k !! addr_String (ex_addr 8) = Some (MkPeerState (bs "bob") (ex_addr 8) (nanos y2025))).
Proof.
  refine (endpoint_to_ping quiet_ws quiet_ws no_report known_addr no_secret relay_A relay_B ex2 0 pA 1 pB 10 20 (ex_addr 9)
           Easy (bs "bob") y2025 y2025 [] [] None no_challenges defaultDiscoConfig 2 [] (udpConn relay_A) 1 (ex_addr 8)
           (fun _ => false) [] eq_refl ex_A _ _ ex_B _ _ _ _ _ _ _ eq_refl eq_refl eq_refl _ _ eq_refl);
    vm_compute; first [reflexivity|discriminate|repeat split; discriminate].
Defined.
End Examples.
