(* ===== verification/Rootless.v ===== *)
(** * Rootless: listening and forwarding without a device ([vpn/nic/gvisor], [rootless/forward.go])

    [combinedListeners] joins a listener per address family: a goroutine per
    listener accepts and passes what it got to [Accept] over one of two unbuffered
    channels, and [Close] closes all three channels.  The goroutines, the caller of
    [Accept] and the caller of [Close] are processes whose steps interleave.
    [Listen] and the start of the forwards are functions over what the network
    stack answers. *)

From S2P Require Import Prelude Text Netip Socks5.

(** ** Combined listeners *)

Section Combined.
Context {C E : Type}.

Inductive chan_state := Nil | Open | Shut.

(** The goroutine of one listener. *)
Inductive accept_phase :=
| InAccept
| Failed (e : E)
| SendErr (e : E)
| SendConn (c : C)
| Finished
| SentOnShut (c : option C).

(** What a call of [Accept] returns: a connection of a listener, the error of a
    listener, [net.ErrClosed], or nothing and no error. *)
Inductive accept_result :=
| Conn (i : nat) (c : C)
| ListenerError (i : nat) (e : E)
| ErrClosed
| NilNil.

(** How far [Close] is. *)
Inductive closing := NotClosed | CloseConn | CloseErr | CloseListeners (k : nat) | ClosedAll.

Record combined := MkCombined {
  closeChan : chan_state;
  connChan : chan_state;
  errChan : chan_state;
  loops : option (list accept_phase);
  closer : closing;
  selecting : bool;
  listeners : list bool;
  accepted : gmap nat (list C);
  returned : list accept_result
}.

(** [n] listeners, all open; nothing is made before the first [Accept]. *)
Definition fresh (n : nat) : combined :=
  MkCombined Nil Nil Nil None NotClosed false (replicate n true) ∅ [].

Definition set_chans (c e : chan_state) (x : combined) : combined :=
  MkCombined (closeChan x) c e (loops x) (closer x) (selecting x) (listeners x) (accepted x) (returned x).
Definition set_closer (p : closing) (x : combined) : combined :=
  MkCombined (closeChan x) (connChan x) (errChan x) (loops x) p (selecting x) (listeners x) (accepted x) (returned x).
Definition set_loop (i : nat) (p : accept_phase) (x : combined) : combined :=
  MkCombined (closeChan x) (connChan x) (errChan x) (<[i := p]> <$> loops x) (closer x) (selecting x) (listeners x)
    (accepted x) (returned x).
Definition log_accepted (i : nat) (c : C) (x : combined) : combined :=
  MkCombined (closeChan x) (connChan x) (errChan x) (loops x) (closer x) (selecting x) (listeners x)
    (<[i := default [] (accepted x !! i) ++ [c]]> (accepted x)) (returned x).
Definition return_ (r : accept_result) (x : combined) : combined :=
  MkCombined (closeChan x) (connChan x) (errChan x) (loops x) (closer x) false (listeners x) (accepted x)
    (returned x ++ [r]).
Definition close_listener (k : nat) (x : combined) : combined :=
  MkCombined (closeChan x) (connChan x) (errChan x) (loops x) (CloseListeners (S k)) (selecting x)
    (<[k := false]> (listeners x)) (accepted x) (returned x).

(** [init], which [Accept] does first, and the entry of its select. *)
Definition init (x : combined) : combined :=
  match loops x with
  | Some _ => x
  | None => MkCombined Open Open Open (Some (replicate (length (listeners x)) InAccept)) (closer x) (selecting x)
              (listeners x) (accepted x) (returned x)
  end.
Definition enter (x : combined) : combined :=
  let x := init x in
  MkCombined (closeChan x) (connChan x) (errChan x) (loops x) (closer x) true (listeners x) (accepted x) (returned x).

(** A channel that was never made is left alone. *)
Definition shut (s : chan_state) : chan_state := match s with Nil => Nil | _ => Shut end.
Definition start_close (x : combined) : combined :=
  MkCombined (shut (closeChan x)) (connChan x) (errChan x) (loops x) CloseConn (selecting x) (listeners x)
    (accepted x) (returned x).

Definition loop_at (x : combined) (i : nat) : option accept_phase := loops x ≫= (.!! i).

Inductive comb_step : combined -> combined -> Prop :=
(** Accept *)
| comb_call x : selecting x = false -> comb_step x (enter x)
| comb_closed x : selecting x = true -> closeChan x = Shut -> comb_step x (return_ ErrClosed x)
| comb_conn_shut x : selecting x = true -> connChan x = Shut -> comb_step x (return_ NilNil x)
| comb_err_shut x : selecting x = true -> errChan x = Shut -> comb_step x (return_ NilNil x)
| comb_take_conn x i c :
    selecting x = true -> connChan x = Open -> loop_at x i = Some (SendConn c) ->
    comb_step x (return_ (Conn i c) (set_loop i InAccept x))
| comb_take_err x i e :
    selecting x = true -> errChan x = Open -> loop_at x i = Some (SendErr e) ->
    comb_step x (return_ (ListenerError i e) (set_loop i Finished x))
(** accept *)
| comb_accept x i c : loop_at x i = Some InAccept -> comb_step x (log_accepted i c (set_loop i (SendConn c) x))
| comb_fail x i e : loop_at x i = Some InAccept -> comb_step x (set_loop i (Failed e) x)
| comb_check_closed x i e : loop_at x i = Some (Failed e) -> closeChan x = Shut -> comb_step x (set_loop i Finished x)
| comb_check x i e : loop_at x i = Some (Failed e) -> closeChan x <> Shut -> comb_step x (set_loop i (SendErr e) x)
| comb_conn_panic x i c :
    loop_at x i = Some (SendConn c) -> connChan x = Shut -> comb_step x (set_loop i (SentOnShut (Some c)) x)
| comb_err_panic x i e :
    loop_at x i = Some (SendErr e) -> errChan x = Shut -> comb_step x (set_loop i (SentOnShut None) x)
(** Close *)
| comb_close x : closer x = NotClosed -> comb_step x (start_close x)
| comb_close_conn x : closer x = CloseConn -> comb_step x (set_closer CloseErr (set_chans (shut (connChan x)) (errChan x) x))
| comb_close_err x :
    closer x = CloseErr -> comb_step x (set_closer (CloseListeners 0) (set_chans (connChan x) (shut (errChan x)) x))
| comb_close_listener x k :
    closer x = CloseListeners k -> (k < length (listeners x))%nat -> comb_step x (close_listener k x)
| comb_close_done x k :
    closer x = CloseListeners k -> (length (listeners x) <= k)%nat -> comb_step x (set_closer ClosedAll x).

(** ** What is accepted is returned *)

(** The connection that a goroutine holds, and the ones of listener [i] that have been returned. *)
Definition holding (p : accept_phase) : list C :=
  match p with SendConn c | SentOnShut (Some c) => [c] | _ => [] end.
Definition held (x : combined) (i : nat) : list C := match loop_at x i with Some p => holding p | None => [] end.
Definition conn_of (i : nat) (r : accept_result) : list C :=
  match r with Conn j c => if bool_decide (j = i) then [c] else [] | _ => [] end.
Definition returned_of (x : combined) (i : nat) : list C := r ← returned x; conn_of i r.

Record comb_inv (x : combined) : Prop := {
  ci_flow i : default [] (accepted x !! i) = returned_of x i ++ held x i;
  ci_open : closer x = NotClosed -> closeChan x <> Shut /\ connChan x <> Shut /\ errChan x <> Shut;
  ci_clean : closer x = NotClosed -> (ErrClosed ∉ returned x) /\ (NilNil ∉ returned x) /\
    forall i c, loop_at x i <> Some (SentOnShut c)
}.

Lemma loop_at_set i j p x q :
  loop_at x i = Some q ->
  loop_at (set_loop i p x) j = if bool_decide (j = i) then Some p else loop_at x j.
Proof.
  unfold loop_at, set_loop. simpl. destruct (loops x) as [l|]; [|done]. simpl. intros Hi.
  case_bool_decide as Hj; [subst j|].
  - apply list_lookup_insert_eq. by apply lookup_lt_Some in Hi.
  - by apply list_lookup_insert_ne.
Qed.

Lemma returned_of_snoc x i r : (rs ← returned x ++ [r]; conn_of i rs) = returned_of x i ++ conn_of i r.
Proof. unfold returned_of. rewrite bind_app. simpl. by rewrite app_nil_r. Qed.
Lemma held_set i j p q x :
  loop_at x i = Some q -> held (set_loop i p x) j = if bool_decide (j = i) then holding p else held x j.
Proof. intros Hi. unfold held. rewrite (loop_at_set i j p x q Hi). by case_bool_decide. Qed.

(** A goroutine that keeps what it holds. *)
Lemma comb_inv_move i p q x :
  comb_inv x -> loop_at x i = Some q -> holding p = holding q ->
  (closer x = NotClosed -> forall c, p <> SentOnShut c) -> comb_inv (set_loop i p x).
Proof.
  intros [Hf Ho Hc] Hi Hh Hp. split; simpl; [|done|].
  - intros j. rewrite (held_set i j p q x Hi). rewrite (Hf j). f_equal. case_bool_decide as Hj; [subst j|done].
    unfold held. by rewrite Hi, Hh.
  - intros Hn. destruct (Hc Hn) as (H1 & H2 & H3). split; [done|]. split; [done|]. intros j c.
    rewrite (loop_at_set i j p x q Hi). case_bool_decide; [|apply H3]. intros Heq. apply (Hp Hn c). by injection Heq.
Qed.

(** What the caller sees next. *)
Lemma comb_inv_return r x :
  comb_inv x -> (forall i, conn_of i r = []) -> (closer x = NotClosed -> r <> ErrClosed /\ r <> NilNil) ->
  comb_inv (return_ r x).
Proof.
  intros [Hf Ho Hc] Hr Hn. split; simpl; [|done|].
  - intros i. unfold returned_of. simpl. rewrite returned_of_snoc, Hr, app_nil_r. apply Hf.
  - intros Hcl. destruct (Hc Hcl) as (H1 & H2 & H3), (Hn Hcl) as (N1 & N2).
    split; [|split; [|done]]; intros [Hin|Hin%list_elem_of_singleton]%elem_of_app; congruence.
Qed.

(** The channels and the progress of [Close] are not part of the flow. *)
Lemma comb_inv_close x y :
  comb_inv x -> closer x <> NotClosed \/ closer y <> NotClosed ->
  closer y <> NotClosed -> loops y = loops x -> accepted y = accepted x -> returned y = returned x -> comb_inv y.
Proof.
  intros [Hf _ _] _ Hy Hl Ha Hr. split; [|done|done]. intros i.
  unfold returned_of, held, loop_at. rewrite Ha, Hl, Hr. apply Hf.
Qed.

Lemma loop_at_enter x i :
  loop_at (enter x) i = match loops x with Some l => l !! i | None => replicate (length (listeners x)) InAccept !! i end.
Proof. unfold enter, init, loop_at. destruct (loops x) as [l|] eqn:El; simpl; [by rewrite El|done]. Qed.

Lemma comb_inv_enter x : comb_inv x -> comb_inv (enter x).
Proof.
  intros [Hf Ho Hc]. split.
  - intros i. unfold held. rewrite loop_at_enter. replace (returned_of (enter x) i) with (returned_of x i)
      by (unfold returned_of, enter, init; by destruct (loops x)).
    replace (accepted (enter x)) with (accepted x) by (unfold enter, init; by destruct (loops x)).
    rewrite (Hf i). f_equal. unfold held, loop_at. destruct (loops x) as [l|]; simpl; [done|].
    destruct (replicate _ _ !! i) eqn:El; [|done]. by apply lookup_replicate in El as [-> _].
  - intros Hn. replace (closer (enter x)) with (closer x) in Hn by (unfold enter, init; by destruct (loops x)).
    destruct (Ho Hn) as (H1 & H2 & H3). unfold enter, init. by destruct (loops x).
  - intros Hn. replace (closer (enter x)) with (closer x) in Hn by (unfold enter, init; by destruct (loops x)).
    destruct (Hc Hn) as (H1 & H2 & H3).
    replace (returned (enter x)) with (returned x) by (unfold enter, init; by destruct (loops x)).
    split; [done|]. split; [done|]. intros i c. rewrite loop_at_enter. specialize (H3 i c).
    unfold loop_at in H3. destruct (loops x) as [l|]; simpl in H3; [done|].
    intros [Hbad _]%lookup_replicate. done.
Qed.

Lemma comb_inv_fresh n : comb_inv (fresh n).
Proof.
  split; simpl; [|done|].
  - intros i. by rewrite lookup_empty.
  - intros _. split; [apply not_elem_of_nil|]. split; [apply not_elem_of_nil|done].
Qed.

Lemma comb_inv_step x y : comb_step x y -> comb_inv x -> comb_inv y.
Proof.
  intros Hs Hinv. pose proof Hinv as [Hf Ho Hc].
  destruct Hs as [x Hsel|x Hsel Hch|x Hsel Hch|x Hsel Hch|x i c Hsel Hch Hi|x i e Hsel Hch Hi|x i c Hi|x i e Hi
    |x i e Hi Hch|x i e Hi Hch|x i c Hi Hch|x i e Hi Hch|x Hcl|x Hcl|x Hcl|x k Hcl Hk|x k Hcl Hk].
  - by apply comb_inv_enter.
  - apply comb_inv_return; [done|done|]. intros Hn. by destruct (Ho Hn).
  - apply comb_inv_return; [done|done|]. intros Hn. by destruct (Ho Hn) as (_ & ? & _).
  - apply comb_inv_return; [done|done|]. intros Hn. by destruct (Ho Hn) as (_ & _ & ?).
  - split; simpl; [|done|].
    + intros j. unfold returned_of. simpl. rewrite returned_of_snoc. simpl.
      change (held (return_ (Conn i c) (set_loop i InAccept x)) j) with (held (set_loop i InAccept x) j).
      rewrite (held_set i j InAccept _ x Hi). rewrite (Hf j). unfold returned_of.
      destruct (decide (j = i)) as [->|Hj].
      * rewrite !bool_decide_true by done. unfold held. rewrite Hi. simpl. by rewrite app_nil_r.
      * rewrite !bool_decide_false by done. by rewrite app_nil_r.
    + intros Hn. destruct (Hc Hn) as (H1 & H2 & H3).
      split; [intros [?|?%list_elem_of_singleton]%elem_of_app; done|].
      split; [intros [?|?%list_elem_of_singleton]%elem_of_app; done|].
      intros j c'. change (loop_at (return_ (Conn i c) (set_loop i InAccept x)) j) with (loop_at (set_loop i InAccept x) j).
      rewrite (loop_at_set i j InAccept x _ Hi). case_bool_decide; [done|apply H3].
  - apply comb_inv_return; [|done|done]. by eapply comb_inv_move.
  - split; simpl; [|done|].
    + intros j. change (held (log_accepted i c (set_loop i (SendConn c) x)) j) with (held (set_loop i (SendConn c) x) j).
      rewrite (held_set i j (SendConn c) _ x Hi). unfold returned_of. simpl. destruct (decide (j = i)) as [->|Hj].
      * rewrite lookup_insert_eq, bool_decide_true by done. simpl. rewrite (Hf i). unfold held. rewrite Hi. simpl.
        by rewrite app_nil_r.
      * rewrite lookup_insert_ne, bool_decide_false by done. apply Hf.
    + intros Hn. destruct (Hc Hn) as (H1 & H2 & H3). split; [done|]. split; [done|]. intros j c'.
      change (loop_at (log_accepted i c (set_loop i (SendConn c) x)) j) with (loop_at (set_loop i (SendConn c) x) j).
      rewrite (loop_at_set i j (SendConn c) x _ Hi). case_bool_decide; [done|apply H3].
  - by eapply comb_inv_move.
  - by eapply comb_inv_move.
  - by eapply comb_inv_move.
  - eapply comb_inv_move; [done|done|done|]. intros Hn. by destruct (Ho Hn) as (_ & ? & _).
  - eapply comb_inv_move; [done|done|done|]. intros Hn. by destruct (Ho Hn) as (_ & _ & ?).
  - apply (comb_inv_close x); try done. by right.
  - apply (comb_inv_close x); try done. by right.
  - apply (comb_inv_close x); try done. by right.
  - apply (comb_inv_close x); try done. by right.
  - apply (comb_inv_close x); try done. by right.
Qed.
Lemma reachable_comb n x : rtc comb_step (fresh n) x -> comb_inv x.
Proof. intros H. apply (rtc_invariant comb_step comb_inv (fresh n) x); [apply comb_inv_step|done|apply comb_inv_fresh]. Qed.

(** C31. Until it is closed, a combined listener passes on what its listeners
    accept: of every listener the connections come out of [Accept] in order and
    once, but for the one that its goroutine holds, and [Accept] returns only
    connections and errors of the listeners.  Nothing is duplicated or reordered
    by [Close] either. *)
Theorem combined_exact n x :
  rtc comb_step (fresh n) x ->
  (forall i, default [] (accepted x !! i) = returned_of x i ++ held x i) /\
  (closer x = NotClosed -> forall r, r ∈ returned x -> exists i, (exists c, r = Conn i c) \/ (exists e, r = ListenerError i e)).
Proof.
  intros [Hf _ Hc]%reachable_comb. split; [done|]. intros Hn r Hr. destruct (Hc Hn) as (H1 & H2 & _).
  destruct r as [i c|i e| |]; [by exists i; left; exists c|by exists i; right; exists e| |]; done.
Qed.

(** A goroutine that holds a connection when the channel is closed. *)
Definition doomed (i : nat) (c : C) (x : combined) : Prop :=
  connChan x = Shut /\ (loop_at x i = Some (SendConn c) \/ loop_at x i = Some (SentOnShut (Some c))).

Lemma doomed_move i c j p q x :
  doomed i c x -> loop_at x j = Some q -> (forall c', q <> SendConn c') -> (forall c', q <> SentOnShut c') ->
  doomed i c (set_loop j p x).
Proof.
  intros [Hch Hi] Hj H1 H2. split; [done|]. rewrite (loop_at_set j i p x q Hj).
  rewrite bool_decide_false; [done|]. intros ->. rewrite Hj in Hi. destruct Hi as [Hi|Hi]; injection Hi as ->.
  - by apply (H1 c).
  - by apply (H2 (Some c)).
Qed.

Lemma doomed_step i c x y : comb_step x y -> doomed i c x -> doomed i c y.
Proof.
  intros Hs Hd. pose proof Hd as [Hch Hi].
  destruct Hs as [x Hsel|x Hsel Hc|x Hsel Hc|x Hsel Hc|x j c' Hsel Hc Hj|x j e Hsel Hc Hj|x j c' Hj|x j e Hj
    |x j e Hj Hc|x j e Hj Hc|x j c' Hj Hc|x j e Hj Hc|x Hcl|x Hcl|x Hcl|x k Hcl Hk|x k Hcl Hk];
    try done; try (eapply doomed_move; done).
  - assert (He : exists l, loops x = Some l) by (unfold loop_at in Hi; destruct (loops x); [by eexists|by destruct Hi]).
    destruct He as [l Hl]. unfold doomed, loop_at, enter, init in *. rewrite Hl in *. simpl. by rewrite Hl.
  - congruence.
  - destruct (decide (i = j)) as [->|Hne].
    + split; [done|]. right. rewrite (loop_at_set j j _ x _ Hj), bool_decide_true by done.
      rewrite Hj in Hi. destruct Hi as [Hi|Hi]; [by injection Hi as ->|done].
    + split; [done|]. rewrite (loop_at_set j i _ x _ Hj). by rewrite bool_decide_false.
  - split; [|done]. simpl. by rewrite Hch.
Qed.

(** Closing: once the channels are closed, a waiting [Accept] can return
    [net.ErrClosed], and just as well neither a connection nor an error, and
    nothing else; and a goroutine that then holds a connection never passes it on,
    its only step being the panic of a send on a closed channel. *)
Theorem close_results x i c :
  connChan x = Shut -> errChan x = Shut -> closeChan x = Shut -> selecting x = true ->
  (forall y, comb_step x y -> returned y = returned x \/ y = return_ ErrClosed x \/ y = return_ NilNil x) /\
  comb_step x (return_ ErrClosed x) /\ comb_step x (return_ NilNil x) /\
  (loop_at x i = Some (SendConn c) ->
     (forall y, rtc comb_step x y -> loop_at y i = Some (SendConn c) \/ loop_at y i = Some (SentOnShut (Some c))) /\
     comb_step x (set_loop i (SentOnShut (Some c)) x)).
Proof.
  intros H1 H2 H3 Hsel. split; [|split; [by apply comb_closed|split; [by apply comb_conn_shut|]]].
  - intros y Hs. destruct Hs; try (by left); try (by right; left); try (by right; right); congruence.
  - intros Hi. split; [|by apply comb_conn_panic]. intros y Hr.
    assert (Hd : doomed i c y) by (apply (rtc_invariant comb_step (doomed i c) x y);
      [intros a b; apply doomed_step|done|by split; [|left]]). apply Hd.
Qed.

(** A listener that is closed before its first [Accept] never says so. *)
Lemma late_accept_step x y :
  comb_step x y -> closer x = ClosedAll /\ closeChan x <> Shut /\ ErrClosed ∉ returned x ->
  closer y = ClosedAll /\ closeChan y <> Shut /\ ErrClosed ∉ returned y.
Proof.
  intros Hs (H1 & H2 & H3). destruct Hs; simpl; try done;
    try (split; [done|]; split; [done|]; intros [?|?%list_elem_of_singleton]%elem_of_app; done); try congruence.
  unfold enter, init. by destruct (loops x).
Qed.

Theorem late_accept_open n x y :
  closer x = ClosedAll -> loops x = None -> closeChan x = Nil -> returned x = [] ->
  rtc comb_step (fresh n) x -> rtc comb_step x y -> ErrClosed ∉ returned y.
Proof.
  intros H1 H2 H3 H4 _ Hr.
  apply (rtc_invariant comb_step (fun x => closer x = ClosedAll /\ closeChan x <> Shut /\ ErrClosed ∉ returned x) x y);
    [apply late_accept_step|done|]. rewrite H1, H3, H4. split; [done|]. split; [done|apply not_elem_of_nil].
Qed.
End Combined.

(** ** Listening *)

(** The addresses of the card, empty when it has none of the family, and what the
    network stack answers when it is asked to listen on one. *)
Section Listen.
Context {L : Type} (addr4 addr6 : bytes).
Context (ListenTCP listenUDP : bytes -> Z -> option L).

(** A listener of one address or the listeners that are combined; an error comes
    with the listeners that [Listen] closes again. *)
Inductive listening := One (l : L) | Combined (ls : list L) | ListenError (closed : list L).

(** One listener for each address that the card has, in order. *)
Fixpoint listen_all (listen : bytes -> Z -> option L) (addrs : list bytes) (port : Z) (listeners : list L) : listening :=
  match addrs with
  | [] => Combined listeners
  | addr :: addrs =>
      if bool_decide (addr = []) then listen_all listen addrs port listeners
      else match listen addr port with
           | None => ListenError listeners
           | Some l => listen_all listen addrs port (listeners ++ [l])
           end
  end.

Definition listen_one (l : option L) : listening := match l with Some l => One l | None => ListenError [] end.

(** [Listen] *)
Definition Listen (network : bytes) (port : Z) : listening :=
  if negb (HasPrefix network (bs "tcp")) && negb (HasPrefix network (bs "udp")) then ListenError []
  else if bool_decide (network = bs "tcp4") then listen_one (ListenTCP addr4 port)
  else if bool_decide (network = bs "tcp6") then listen_one (ListenTCP addr6 port)
  else if bool_decide (network = bs "udp4") then listen_one (listenUDP addr4 port)
  else if bool_decide (network = bs "udp6") then listen_one (listenUDP addr6 port)
  else if bool_decide (network = bs "udp") then listen_all listenUDP [addr4; addr6] port []
  else listen_all ListenTCP [addr4; addr6] port [].

(** Everything that was opened is either part of the answer or closed again, and
    an error is the answer exactly when an address of the card cannot be listened on. *)
Lemma listen_all_spec listen addrs port ls :
  match listen_all listen addrs port ls with
  | Combined out => exists new, out = ls ++ new /\ Forall2 (fun a l => listen a port = Some l) (filter (.≠ []) addrs) new
  | ListenError closed => exists new a, closed = ls ++ new /\ a ∈ addrs /\ a <> [] /\ listen a port = None
  | One _ => False
  end.
Proof.
  revert ls. induction addrs as [|a addrs IH]; intros ls; simpl.
  { exists []. split; [by rewrite app_nil_r|constructor]. }
  case_bool_decide as Ha.
  - rewrite filter_cons_False by (intros H; by apply H). specialize (IH ls).
    destruct (listen_all _ _ _ ls) as [l|out|closed]; [done|done|]. destruct IH as (new & b & H1 & H2 & H3).
    exists new, b. split; [done|]. split; [by right|done].
  - destruct (listen a port) as [l|] eqn:El; [|exists [], a; split; [by rewrite app_nil_r|split; [by left|done]]].
    rewrite filter_cons_True by done. specialize (IH (ls ++ [l])).
    destruct (listen_all _ _ _ _) as [l'|out|closed]; [done| |].
    + destruct IH as (new & -> & H). exists (l :: new). rewrite <- app_assoc. split; [done|by constructor].
    + destruct IH as (new & b & -> & H2 & H3). exists (l :: new), b. rewrite <- app_assoc. split; [done|]. split; [by right|done].
Qed.
End Listen.
Arguments listening : clear implicits.

(** ** Dialling *)

(** What [DialContext] asks the network stack for: the transport, whether the
    address is IPv4, its bytes and its port. *)
Inductive dialling := DialTCP (v4 : bool) (ip : bytes) (port : Z) | DialUDP (v4 : bool) (ip : bytes) (port : Z) | DialError.

(** [resolve] is [net.ResolveTCPAddr] and [net.ResolveUDPAddr]. *)
Definition DialContext (resolve : bytes -> bytes -> option (bytes * Z)) (network address : bytes) : dialling :=
  let v4 ip := bool_decide (is_Some (To4 ip)) in
  let bytes_of ip := if bool_decide (ip = []) then replicate 16 (z2b 0) else default ip (To4 ip) in
  if negb (HasPrefix network (bs "tcp")) && negb (HasPrefix network (bs "udp")) then DialError
  else match resolve network address with
       | None => DialError
       | Some (ip, port) =>
           if HasPrefix network (bs "tcp") then DialTCP (v4 ip) (bytes_of ip) port
           else DialUDP (v4 ip) (bytes_of ip) port
       end.

(** ** Forwards *)

(** The unsigned number of [strconv.ParseUint], at most [2^64 - 1]: the digits are
    read until the number is too large. *)
Fixpoint parse_digits (acc : Z) (s : bytes) : option Z :=
  match s with
  | [] => Some acc
  | c :: s =>
      d ← digit_val c;
      let n := acc * 10 + d in
      if bool_decide (2 ^ 64 <= n) then Some (2 ^ 64 - 1) else parse_digits n s
  end.

(** The number of [strconv.ParseInt(s, 10, 64)] when its error is ignored. *)
Definition ParseInt_value (s : bytes) : Z :=
  let neg := bool_decide (head s = Some (z2b 45)) in
  let digits := if bool_decide (head s = Some (z2b 45) \/ head s = Some (z2b 43)) then tail s else s in
  if bool_decide (digits = []) then 0
  else match parse_digits 0 digits with
       | None => 0
       | Some un => if neg then - Z.min un (2 ^ 63) else Z.min un (2 ^ 63 - 1)
       end.

(** The port that a forward listens on. *)
Definition forward_port (port : bytes) : Z := u16 (ParseInt_value port).

Section Forwards.
Context {L : Type}.

(** The scheme and the host of a URL, by [url.Parse]. *)
Context (url_Parse : bytes -> option (bytes * bytes)).

(** What listening gives when these listeners are open already. *)
Context (listen : list L -> bytes -> Z -> option L).

(** A listener with where its connections go. *)
Record forward_job := MkJob { job_listener : L; job_scheme : bytes; job_host : bytes }.

(** [Start] runs the jobs, or closes all that it has opened and the card. *)
Inductive started := Running (jobs : list forward_job) | NotStarted (closed : list L).

Fixpoint start_forwards (forwards : list bytes) (jobs : list forward_job) : started :=
  match forwards with
  | [] => Running jobs
  | f :: forwards =>
      match url_Parse f with
      | None => start_forwards forwards jobs
      | Some (scheme, host) =>
          match SplitHostPort host with
          | None => NotStarted (job_listener <$> jobs)
          | Some (_, port) =>
              match listen (job_listener <$> jobs) scheme (forward_port port) with
              | None => NotStarted (job_listener <$> jobs)
              | Some l => start_forwards forwards (jobs ++ [MkJob l scheme host])
              end
          end
      end
  end.
Definition Start (forwards : list bytes) : started := start_forwards forwards [].

(** One round of a job: the backend is dialled for a connection. *)
Inductive job_outcome {C B : Type} := Relay (c : C) (backend : B) | Retry (left_open : C) | Ended | NilDereference.
#[global] Arguments job_outcome : clear implicits.
Definition job_round {C E B} (r : accept_result (C := C) (E := E)) (dial : option B) : job_outcome C B :=
  match r with
  | Conn _ c => match dial with Some b => Relay c b | None => Retry c end
  | ListenerError _ _ | ErrClosed => Ended
  | NilNil => NilDereference
  end.

(** A forward that [Start] serves: its URL parses and its listener listens on its port. *)
Definition served (f : bytes) (j : forward_job) (opened : list L) : Prop :=
  exists h port, url_Parse f = Some (job_scheme j, job_host j) /\ SplitHostPort (job_host j) = Some (h, port) /\
    listen opened (job_scheme j) (forward_port port) = Some (job_listener j).

(** The jobs of the forwards in order, each over the listeners of the ones before. *)
Inductive serves : list L -> list bytes -> list forward_job -> Prop :=
| serves_nil opened : serves opened [] []
| serves_skip opened f fs js : url_Parse f = None -> serves opened fs js -> serves opened (f :: fs) js
| serves_job opened f fs j js :
    served f j opened -> serves (opened ++ [job_listener j]) fs js -> serves opened (f :: fs) (j :: js).

Lemma start_forwards_iff fs jobs all :
  start_forwards fs jobs = Running all <-> exists new, all = jobs ++ new /\ serves (job_listener <$> jobs) fs new.
Proof.
  revert jobs. induction fs as [|f fs IH]; intros jobs; simpl.
  { split; [intros [= <-]; exists []; rewrite app_nil_r; split; [done|constructor]|].
    intros (new & -> & H). inversion H; subst. by rewrite app_nil_r. }
  destruct (url_Parse f) as [[scheme host]|] eqn:Eu.
  2:{ rewrite IH. split; intros (new & -> & H); exists new; (split; [done|]); [by constructor|].
      inversion H; subst; [done|]. match goal with X : served _ _ _ |- _ => destruct X as (? & ? & ? & _) end. congruence. }
  destruct (SplitHostPort host) as [[h port]|] eqn:Es.
  2:{ split; [done|]. intros (new & -> & H). inversion H; subst; [congruence|].
      match goal with X : served _ _ _ |- _ => destruct X as (? & ? & X1 & X2 & _) end. rewrite Eu in X1. injection X1 as -> ->. congruence. }
  destruct (listen (job_listener <$> jobs) scheme (forward_port port)) as [l|] eqn:El.
  - rewrite IH. rewrite fmap_app. simpl. split.
    + intros (new & -> & H). exists (MkJob l scheme host :: new). rewrite <- app_assoc. split; [done|].
      constructor; [|done]. by exists h, port.
    + intros (new & -> & H). inversion H as [|? ? ? ? Hn|? ? ? j js Hj Hr]; subst; [congruence|].
      destruct Hj as (h' & port' & X1 & X2 & X3). rewrite Eu in X1. injection X1 as -> ->.
      rewrite Es in X2. injection X2 as <- <-. rewrite El in X3. injection X3 as ->.
      exists js. rewrite <- app_assoc. split; [by destruct j|done].
  - split; [done|]. intros (new & -> & H). inversion H as [|? ? ? ? Hn|? ? ? j js Hj Hr]; subst; [congruence|].
    destruct Hj as (h' & port' & X1 & X2 & X3). rewrite Eu in X1. injection X1 as -> ->.
    rewrite Es in X2. injection X2 as <- <-. congruence.
Qed.
End Forwards.
Arguments forward_job : clear implicits.
Arguments started : clear implicits.

Lemma parse_digits_dec a s v : fold_left dec_step s (Some a) = Some v -> 0 <= a -> v < 2 ^ 64 -> parse_digits a s = Some v.
Proof.
  revert a. induction s as [|c s IH]; intros a Hv Ha Hlt; simpl in *; [congruence|].
  destruct (digit_val c) as [d|] eqn:Ed; simpl in *.
  - assert (Hd : 0 <= d <= 9) by (unfold digit_val in Ed; case_bool_decide; [injection Ed as <-; lia|done]).
    rewrite bool_decide_false; [apply IH; [done|lia|done]|]. intros Hge.
    assert (Hmono : forall s b w, fold_left dec_step s (Some b) = Some w -> 0 <= b -> b <= w).
    { clear. induction s as [|c s IH]; intros b w Hw Hb; simpl in *; [injection Hw as ->; lia|].
      destruct (digit_val c) as [e|] eqn:Ee; simpl in Hw.
      - assert (0 <= e) by (unfold digit_val in Ee; case_bool_decide; [injection Ee as <-; lia|done]).
        apply IH in Hw; lia.
      - exfalso. clear IH. induction s; simpl in Hw; [done|]. by apply IHs. }
    apply Hmono in Hv; lia.
  - exfalso. clear IH. induction s; simpl in Hv; [done|]. by apply IHs.
Qed.

Lemma forward_port_Itoa n : 0 <= n < 2 ^ 63 -> forward_port (Itoa n) = n mod 65536.
Proof.
  intros Hn. unfold Itoa. rewrite bool_decide_false by lia.
  destruct (itoa_head n) as (d & s & Hs & Hd); [lia|]. pose proof (dec_val_itoa n ltac:(lia)) as Hv.
  rewrite Hs in *. unfold forward_port, ParseInt_value. cbn [head tail].
  assert (Hne : forall k, ~ 48 <= k < 58 -> 0 <= k < 256 -> Some (digit d) <> Some (z2b k)).
  { intros k Hk Hr Heq. injection Heq as Heq. apply (f_equal b2z) in Heq. unfold digit in Heq.
    rewrite !b2z_z2b_small in Heq by lia. lia. }
  rewrite (bool_decide_false (Some (digit d) = Some (z2b 45) \/ _)) by (intros [H|H]; revert H; apply Hne; lia).
  rewrite (bool_decide_false (digit d :: s = [])) by done.
  rewrite (bool_decide_false (Some (digit d) = Some (z2b 45))) by (apply Hne; lia).
  rewrite (parse_digits_dec 0 _ n Hv) by lia. unfold u16. f_equal. lia.
Qed.

(** The forwards: the engine starts exactly when every forward whose URL
    parses names a host with a port and gets its listener, and then it has one job
    for each of them, in order, on the port of the URL modulo 65536. *)
Theorem forwards_started {L : Type} (url_Parse : bytes -> option (bytes * bytes))
    (listen : list L -> bytes -> Z -> option L) fs jobs :
  (Start url_Parse listen fs = Running jobs <-> serves url_Parse listen [] fs jobs) /\
  (forall n, 0 <= n < 2 ^ 63 -> forward_port (Itoa n) = n mod 65536).
Proof.
  split; [|apply forward_port_Itoa]. unfold Start. rewrite start_forwards_iff.
  split; [by intros (new & -> & H)|]. intros H. by exists jobs.
Qed.

(** ** Witnesses *)

Module Examples.
(** One listener, a connection that is accepted while the listener is closed. *)
Definition x1 : combined := enter (fresh (C := nat) (E := nat) 1).
Definition x2 : combined := log_accepted 0 7%nat (set_loop 0 (SendConn 7%nat) x1).
Definition x3 : combined := start_close x2.
Definition x4 : combined := set_closer CloseErr (set_chans (shut (connChan x3)) (errChan x3) x3).
Definition x5 : combined := set_closer (CloseListeners 0) (set_chans (connChan x4) (shut (errChan x4)) x4).

Lemma reach_x5 : rtc comb_step (fresh (C := nat) (E := nat) 1) x5.
Proof.
  apply (rtc_l _ _ x1); [by apply comb_call|].
  apply (rtc_l _ _ x2); [by apply comb_accept|].
  apply (rtc_l _ _ x3); [by apply comb_close|].
  apply (rtc_l _ _ x4); [by apply comb_close_conn|].
  apply (rtc_l _ _ x5); [by apply comb_close_err|]. apply rtc_refl.
Qed.

Lemma combined_exact_witness :
  (forall i, default [] (accepted x5 !! i) = returned_of x5 i ++ held x5 i) /\
  (closer x5 = NotClosed -> forall r, r ∈ returned x5 -> exists i, (exists c, r = Conn i c) \/ (exists e, r = ListenerError i e)).
Proof. exact (combined_exact 1 x5 reach_x5). Defined.

Lemma close_results_witness :
  rtc comb_step (fresh (C := nat) (E := nat) 1) x5 /\
  (forall y, comb_step x5 y -> returned y = returned x5 \/ y = return_ ErrClosed x5 \/ y = return_ NilNil x5) /\
  comb_step x5 (return_ ErrClosed x5) /\ comb_step x5 (return_ NilNil x5) /\
  (loop_at x5 0 = Some (SendConn 7%nat) ->
     (forall y, rtc comb_step x5 y -> loop_at y 0 = Some (SendConn 7%nat) \/ loop_at y 0 = Some (SentOnShut (Some 7%nat))) /\
     comb_step x5 (set_loop 0 (SentOnShut (Some 7%nat)) x5)).
Proof. split; [exact reach_x5|]. exact (close_results x5 0 7%nat eq_refl eq_refl eq_refl eq_refl). Defined.

Example port_wraps : forward_port (bs "70000") = 4464 /\ forward_port (bs "http") = 0 /\
  forward_port (bs "99999999999999999999x") = 65535.
Proof. done. Qed.
Example held_is_lost : loop_at x5 0 = Some (SendConn 7%nat) /\ accepted x5 !! 0%nat = Some [7%nat].
Proof. done. Qed.
End Examples.
