(* ===== verification/Upnp.v ===== *)
(** * Upnp: mapping a port on the router ([upnp/upnp.go], [disco/udp/upnp.go])

    The search for a gateway over its answers, the choice of the service in the
    device tree, the SOAP requests as text, and the mapping of one of twenty ports
    with its removal.  HTTP and XML are outside: a fetch gives a status and a
    device tree, a post gives a status and the fields of the reply. *)

From S2P Require Import Prelude Text Netip.

(** ** Text *)

(** [strings.Index] *)
Fixpoint str_Index (s sub : bytes) : option nat :=
  if HasPrefix s sub then Some O
  else match s with [] => None | _ :: s => S <$> str_Index s sub end.

Definition crlf : bytes := [z2b 13; z2b 10].
Definition qt : bytes := [z2b 34].

(** ** The device tree *)

Record Service := MkService { ServiceType : bytes; ControlURL : bytes }.

Inductive Device := MkDevice (deviceType : bytes) (deviceList : list Device) (serviceList : list Service).
Definition DeviceType (d : Device) : bytes := let '(MkDevice t _ _) := d in t.
Definition DeviceList (d : Device) : list Device := let '(MkDevice _ l _) := d in l.
Definition ServiceList (d : Device) : list Service := let '(MkDevice _ _ l) := d in l.

(** The first element whose type contains a text. *)
Fixpoint first_of {A} (type_of : A -> bytes) (t : bytes) (l : list A) : option A :=
  match l with
  | [] => None
  | x :: l => if str_Contains (type_of x) t then Some x else first_of type_of t l
  end.
Definition getChildDevice (d : Device) (deviceType : bytes) : option Device := first_of DeviceType deviceType (DeviceList d).
Definition getChildService (d : Device) (serviceType : bytes) : option Service :=
  first_of ServiceType serviceType (ServiceList d).

(** [combineURL]; an index of -1 is taken as it is, and a slice that ends before
    its beginning or outside panics. *)
Definition index_or_minus (s sub : bytes) : Z := match str_Index s sub with Some i => Z.of_nat i | None => -1 end.
Definition combineURL (rootURL subURL : bytes) : res bytes bytes :=
  let protoEnd := index_or_minus rootURL (bs "://") + 3 in
  if bool_decide (zlen rootURL < protoEnd) then Panic
  else
    let rootIndex := index_or_minus (drop (Z.to_nat protoEnd) rootURL) (bs "/") in
    Ok (take (Z.to_nat (protoEnd + rootIndex)) rootURL ++ subURL).

(** The service of a gateway, by its device tree. *)
Definition find_service (root : Device) : res bytes Service :=
  if negb (str_Contains (DeviceType root) (bs "InternetGatewayDevice:1")) then Err (bs "no InternetGatewayDevice")
  else match getChildDevice root (bs "WANDevice:1") with
  | None => Err (bs "no WANDevice")
  | Some b =>
      match getChildDevice b (bs "WANConnectionDevice:1") with
      | None => Err (bs "no WANConnectionDevice")
      | Some c =>
          match getChildService c (bs "WANIPConnection:1") with
          | Some d => Ok d
          | None =>
              match getChildService b (bs "WANIPConnection:1") with
              | Some d => Ok d
              | None => Err (bs "no WANIPConnection")
              end
          end
      end
  end.

(** [strings.Split(serviceType, ":")[1]] *)
Definition urn_domain (serviceType : bytes) : res bytes bytes :=
  match Split (z2b 58) serviceType !! 1%nat with Some d => Ok d | None => Panic end.

(** What an HTTP GET of a device description gives: an error, or a status with the
    tree if it decodes. *)
Record fetched := MkFetched { StatusCode : Z; Status : bytes; tree : bytes + Device }.

(** [getServiceURL] *)
Definition getServiceURL (fetch : bytes -> bytes + fetched) (rootURL : bytes) : res bytes (bytes * bytes) :=
  match fetch rootURL with
  | inl e => Err e
  | inr r =>
      if bool_decide (400 <= StatusCode r) then Err (Status r)
      else match tree r with
           | inl e => Err e
           | inr root =>
               d ← find_service root;
               domain ← urn_domain (ServiceType d);
               url ← combineURL rootURL (ControlURL d);
               Ok (url, domain)
           end
  end.

(** ** Our own address *)

(** An address of an interface: a network or something else. *)
Definition first_ipv4 (addrs : list (option IP)) : option bytes :=
  head (omap (fun a => ip ← a; v4 ← To4 ip; if bool_decide (head v4 = Some (z2b 127)) then None else Some v4) addrs).

(** [localIPv4]; [None] is an error of the system. *)
Fixpoint local_of (interfaces : list (option (list (option IP)))) : res bytes bytes :=
  match interfaces with
  | [] => Err (bs "cannot find local IP address")
  | None :: _ => Err (bs "interface addresses")
  | Some addrs :: rest => match first_ipv4 addrs with Some v4 => Ok v4 | None => local_of rest end
  end.
Definition localIPv4 (interfaces : option (list (option (list (option IP))))) : res bytes bytes :=
  match interfaces with None => Err (bs "interfaces") | Some l => local_of l end.

(** ** Discovery *)

Record UPnPNAT := MkNAT { serviceURL : bytes; ourIP : bytes; urnDomain : bytes }.

Definition search_message : bytes :=
  bs "M-SEARCH * HTTP/1.1" ++ crlf ++ bs "HOST: 239.255.255.250:1900" ++ crlf ++ bs "ST: ssdp:all" ++ crlf ++
  bs "MAN: " ++ qt ++ bs "ssdp:discover" ++ qt ++ crlf ++ bs "MX: 2" ++ crlf ++ crlf.

Section Discover.
(** [strings.ToLower] and [strings.TrimSpace] of text that is not ASCII. *)
Context (lower_unicode trim_unicode : bytes -> bytes).

Definition ascii (s : bytes) : bool := forallb (fun c => bool_decide (b2z c < 128)) s.
Definition ToLower (s : bytes) : bytes := if ascii s then to_lower <$> s else lower_unicode s.
Definition is_space (c : byte) : bool := bool_decide (9 <= b2z c <= 13 \/ b2z c = 32).
Fixpoint trim_left (s : bytes) : bytes :=
  match s with c :: s' => if is_space c then trim_left s' else s | [] => [] end.
Definition TrimSpace (s : bytes) : bytes :=
  if ascii s then rev (trim_left (rev (trim_left s))) else trim_unicode s.

(** The location that an answer to the search gives, if it is a gateway's. *)
Definition location (answer : bytes) : option bytes :=
  if negb (str_Contains answer (bs "InternetGatewayDevice:1")) then None
  else
    let locString := crlf ++ bs "location:" in
    let answer := ToLower answer in
    i ← str_Index answer locString;
    let loc := drop (i + length locString) answer in
    e ← str_Index loc crlf;
    Some (TrimSpace (take e loc)).

Context (fetch : bytes -> bytes + fetched) (interfaces : option (list (option (list (option IP))))).

(** What the gateway at a location gives. *)
Definition gateway (locURL : bytes) : res bytes UPnPNAT :=
  ud ← getServiceURL fetch locURL;
  ip ← localIPv4 interfaces;
  Ok (MkNAT ud.1 (ip_String ip) ud.2).

(** The reads of one round, up to the first error: the result if an answer
    decides the search, and the reads that are left. *)
Fixpoint read_answers (reads : list (option bytes)) : option (res bytes UPnPNAT) * list (option bytes) :=
  match reads with
  | [] => (None, [])
  | None :: reads => (None, reads)
  | Some answer :: reads =>
      match location (take 1024 answer) with
      | None => read_answers reads
      | Some locURL => (Some (gateway locURL), reads)
      end
  end.

(** [Discover] with a socket: [writes] says which of the rounds' writes fail. *)
Fixpoint search_rounds (writes : list (option bytes)) (reads : list (option bytes)) : res bytes UPnPNAT :=
  match writes with
  | [] => Err (bs "upnp port discovery failed")
  | Some e :: _ => Err e
  | None :: writes =>
      match read_answers reads with
      | (Some r, _) => r
      | (None, reads) => search_rounds writes reads
      end
  end.
Definition Discover (writes : list (option bytes)) (reads : list (option bytes)) : res bytes UPnPNAT :=
  search_rounds (take 3 writes) reads.
End Discover.

(** ** Requests *)

Record soap := MkSoap { so_url : bytes; SOAPAction : bytes; so_body : bytes }.

Definition soap_request (url function message domain : bytes) : soap :=
  MkSoap url
    (qt ++ bs "urn:" ++ domain ++ bs ":service:WANIPConnection:1#" ++ function ++ qt)
    (bs "<?xml version=" ++ qt ++ bs "1.0" ++ qt ++ bs " ?>" ++
     bs "<s:Envelope xmlns:s=" ++ qt ++ bs "http://schemas.xmlsoap.org/soap/envelope/" ++ qt ++
     bs " s:encodingStyle=" ++ qt ++ bs "http://schemas.xmlsoap.org/soap/encoding/" ++ qt ++ bs ">" ++ crlf ++
     bs "<s:Body>" ++ message ++ bs "</s:Body></s:Envelope>").

Definition external_message (n : UPnPNAT) : bytes :=
  bs "<u:GetExternalIPAddress xmlns:u=" ++ qt ++ bs "urn:" ++ urnDomain n ++ bs ":service:WANIPConnection:1" ++ qt ++
  bs ">" ++ crlf ++ bs "</u:GetExternalIPAddress>".

Definition add_message (n : UPnPNAT) (protocol : bytes) (externalPort internalPort : Z) (description : bytes) (timeout : Z) : bytes :=
  bs "<u:AddPortMapping xmlns:u=" ++ qt ++ bs "urn:" ++ urnDomain n ++ bs ":service:WANIPConnection:1" ++ qt ++ bs ">" ++
  crlf ++ bs "<NewRemoteHost></NewRemoteHost><NewExternalPort>" ++ Itoa externalPort ++
  bs "</NewExternalPort><NewProtocol>" ++ protocol ++ bs "</NewProtocol>" ++
  bs "<NewInternalPort>" ++ Itoa internalPort ++ bs "</NewInternalPort>" ++
  bs "<NewInternalClient>" ++ ourIP n ++ bs "</NewInternalClient>" ++
  bs "<NewEnabled>1</NewEnabled><NewPortMappingDescription>" ++ description ++
  bs "</NewPortMappingDescription><NewLeaseDuration>" ++ Itoa timeout ++
  bs "</NewLeaseDuration></u:AddPortMapping>".

Definition delete_message (n : UPnPNAT) (protocol : bytes) (externalPort : Z) : bytes :=
  bs "<u:DeletePortMapping xmlns:u=" ++ qt ++ bs "urn:" ++ urnDomain n ++ bs ":service:WANIPConnection:1" ++ qt ++ bs ">" ++
  crlf ++ bs "<NewRemoteHost></NewRemoteHost><NewExternalPort>" ++ Itoa externalPort ++
  bs "</NewExternalPort><NewProtocol>" ++ protocol ++ bs "</NewProtocol>" ++ bs "</u:DeletePortMapping>".

(** ** Talking to the router *)

(** A reply: its status, the envelope (without a body, or without an address in
    it), and the error of reading it. *)
Record reply := MkReply { rp_status : Z; rp_Soap : option (option bytes); rp_err : option bytes }.

(** The removal that [mappingAddress] keeps for [close]. *)
Definition upnpPortMapping : Type := option (UPnPNAT * Z * Z).

Section Router.
(** The router, a state machine that answers requests. *)
Context {R : Type} (post : soap -> R -> (bytes + reply) * R).

Definition soapRequest (url function message domain : bytes) (r : R) : res bytes reply * R :=
  match post (soap_request url function message domain) r with
  | (inl e, r) => (Err e, r)
  | (inr p, r) =>
      if bool_decide (400 <= rp_status p) then (Err (bs "Error " ++ Itoa (rp_status p) ++ bs " for " ++ function), r)
      else (Ok p, r)
  end.

(** The fields of the envelope are used before the error of reading it is. *)
Definition getExternalIPAddress (n : UPnPNAT) (r : R) : res bytes bytes * R :=
  let '(a, r) := soapRequest (serviceURL n) (bs "GetExternalIPAddress") (external_message n) (urnDomain n) r in
  (p ← a;
   match rp_Soap p with
   | Some (Some ip) => match rp_err p with None => Ok ip | Some e => Err e end
   | _ => Panic
   end, r).

Definition GetExternalAddress (n : UPnPNAT) (r : R) : res bytes IP * R :=
  let '(a, r) := getExternalIPAddress n r in (ip ← a; Ok (ParseIP ip), r).

Definition AddPortMapping (n : UPnPNAT) (protocol : bytes) (externalPort internalPort : Z) (description : bytes)
    (timeout : Z) (r : R) : res bytes Z * R :=
  let '(a, r) := soapRequest (serviceURL n) (bs "AddPortMapping")
                   (add_message n protocol externalPort internalPort description timeout) (urnDomain n) r in
  (p ← a; Ok externalPort, r).

Definition DeletePortMapping (n : UPnPNAT) (protocol : bytes) (externalPort internalPort : Z) (r : R) : res bytes unit * R :=
  let '(a, r) := soapRequest (serviceURL n) (bs "DeletePortMapping") (delete_message n protocol externalPort) (urnDomain n) r in
  (p ← a; Ok tt, r).

(** The tries of [mappingAddress], from number [i] on. *)
Fixpoint try_ports (tries : nat) (i : Z) (nat_ : UPnPNAT) (externalIP : IP) (udpPort : Z) (m : upnpPortMapping) (r : R) :
    res bytes UDPAddr * upnpPortMapping * R :=
  match tries with
  | O => (Err (bs "add port mapping failed"), m, r)
  | S tries =>
      match AddPortMapping nat_ (bs "udp") (udpPort + i) udpPort (bs "peerguard") (24 * 3600) r with
      | (Ok mappedPort, r) => (Ok (MkUDPAddr externalIP mappedPort), Some (nat_, mappedPort, udpPort), r)
      | (Err _, r) => try_ports tries (i + 1) nat_ externalIP udpPort m r
      | (Panic, r) => (Panic, m, r)
      end
  end.

(** [mappingAddress]; [discovered] is the result of [Discover]. *)
Definition mappingAddress (discovered : res bytes UPnPNAT) (udpPort : Z) (m : upnpPortMapping) (r : R) :
    res bytes UDPAddr * upnpPortMapping * R :=
  match discovered with
  | Err e => (Err e, m, r)
  | Panic => (Panic, m, r)
  | Ok nat_ =>
      match GetExternalAddress nat_ r with
      | (Err e, r) => (Err e, m, r)
      | (Panic, r) => (Panic, m, r)
      | (Ok externalIP, r) =>
          if IsUnspecified externalIP then (Err (bs "invalid external ip"), m, r)
          else try_ports 20 0 nat_ externalIP udpPort m r
      end
  end.

(** [close] drops the error of the removal. *)
Definition close (m : upnpPortMapping) (r : R) : R :=
  match m with
  | Some (nat_, mappedPort, udpPort) => (DeletePortMapping nat_ (bs "udp") mappedPort udpPort r).2
  | None => r
  end.
End Router.

(** ** The service of a gateway *)

Lemma HasPrefix_app s t : HasPrefix (s ++ t) s = true.
Proof. unfold HasPrefix. rewrite take_app_length. by apply bool_decide_eq_true. Qed.

Lemma HasPrefix_head c p x s : c <> x -> HasPrefix (x :: s) (c :: p) = false.
Proof. intros Hne. apply bool_decide_eq_false. simpl. congruence. Qed.

(** A text is found at its first place if its first byte comes no earlier. *)
Lemma str_Index_app c p a b : c ∉ a -> str_Index (a ++ c :: p ++ b) (c :: p) = Some (length a).
Proof.
  induction a as [|x a IH]; intros Hc.
  - cbn [app length]. pose proof (HasPrefix_app (c :: p) b) as H. cbn [app] in H. cbn [str_Index]. by rewrite H.
  - apply not_elem_of_cons in Hc as [Hne Hc]. cbn [app str_Index]. rewrite HasPrefix_head by done. by rewrite IH.
Qed.

Lemma str_Index_none c p a : c ∉ a -> str_Index a (c :: p) = None.
Proof.
  induction a as [|x a IH]; intros Hc; [done|]. apply not_elem_of_cons in Hc as [Hne Hc].
  cbn [str_Index]. rewrite HasPrefix_head by done. by rewrite IH.
Qed.

(** A root URL: scheme, host, and a path that is empty or begins with a slash. *)
Definition root_url (scheme host path : bytes) : bytes := scheme ++ bs "://" ++ host ++ path.

Lemma combineURL_root scheme host path sub :
  z2b 58 ∉ scheme -> z2b 47 ∉ host -> path = [] \/ head path = Some (z2b 47) ->
  combineURL (root_url scheme host path) sub =
    Ok (scheme ++ (if bool_decide (path = []) then bs ":/" else bs "://" ++ host) ++ sub).
Proof.
  intros Hs Hh Hp. unfold combineURL, index_or_minus, root_url.
  assert (Hi : str_Index (scheme ++ bs "://" ++ host ++ path) (bs "://") = Some (length scheme))
    by (exact (str_Index_app (z2b 58) (bs "//") scheme (host ++ path) Hs)).
  rewrite Hi.
  rewrite bool_decide_false by (unfold zlen; rewrite !length_app; simpl; lia).
  assert (Hd : drop (Z.to_nat (Z.of_nat (length scheme) + 3)) (scheme ++ bs "://" ++ host ++ path) = host ++ path).
  { replace (Z.to_nat _) with (length (scheme ++ bs "://")) by (rewrite length_app; simpl; lia).
    rewrite app_assoc. apply drop_app_length. }
  rewrite Hd. destruct Hp as [->|Hp].
  - rewrite app_nil_r. change (bs "/") with [z2b 47]. rewrite str_Index_none by done.
    rewrite bool_decide_true by done. f_equal. rewrite (app_assoc scheme (bs ":/")). f_equal.
    replace (Z.to_nat _) with (length (scheme ++ bs ":/")) by (rewrite length_app; simpl; lia).
    replace (scheme ++ bs "://" ++ host) with ((scheme ++ bs ":/") ++ bs "/" ++ host) by (by rewrite <- app_assoc).
    apply take_app_length.
  - destruct path as [|x path]; [done|]. injection Hp as ->.
    assert (Hr : str_Index (host ++ z2b 47 :: path) (bs "/") = Some (length host))
      by (exact (str_Index_app (z2b 47) [] host path Hh)).
    rewrite Hr. rewrite bool_decide_false by done. f_equal. rewrite !app_assoc. f_equal.
    replace (Z.to_nat _) with (length ((scheme ++ bs "://") ++ host)) by (rewrite !length_app; simpl; lia).
    apply take_app_length.
Qed.

Lemma Split_cons_ge sep s : exists x l, Split sep s = x :: l.
Proof. induction s as [|c s (x & l & IH)]; simpl; [by eexists _, _|]. case_bool_decide; [by eexists _, _|]. rewrite IH. by eexists _, _. Qed.

Lemma Split_second sep s : sep ∈ s -> is_Some (Split sep s !! 1%nat).
Proof.
  induction s as [|c s IH]; intros Hin; [by apply elem_of_nil in Hin|]. simpl. case_bool_decide as Hc.
  - destruct (Split_cons_ge sep s) as (x & l & ->). by eexists.
  - apply elem_of_cons in Hin as [->|Hin]; [done|]. destruct (IH Hin) as [y Hy].
    destruct (Split_cons_ge sep s) as (x & l & Hs). rewrite Hs in *. by eexists.
Qed.

Lemma HasPrefix_in s p c : HasPrefix s p = true -> c ∈ p -> c ∈ s.
Proof. intros H%bool_decide_eq_true Hc. rewrite <- H in Hc. eapply elem_of_submseteq; [done|]. apply sublist_submseteq, sublist_take. Qed.

Lemma str_Contains_in s p c : str_Contains s p = true -> c ∈ p -> c ∈ s.
Proof.
  induction s as [|x s IH]; intros H Hc; simpl in H; apply orb_true_iff in H as [H|H];
    try (by eapply HasPrefix_in); try done. right. by apply IH.
Qed.

Lemma first_of_contains {A} (f : A -> bytes) t l x : first_of f t l = Some x -> x ∈ l /\ str_Contains (f x) t = true.
Proof.
  induction l as [|y l IH]; simpl; [done|]. destruct (str_Contains (f y) t) eqn:E; intros H.
  - injection H as ->. by split; [left|].
  - destruct (IH H). by split; [right|].
Qed.

Lemma find_service_type root d : find_service root = Ok d -> str_Contains (ServiceType d) (bs "WANIPConnection:1") = true.
Proof.
  unfold find_service. destruct (negb _); [done|]. destruct (getChildDevice root _) as [b|]; [|done].
  destruct (getChildDevice b _) as [c|]; [|done]. unfold getChildService.
  destruct (first_of _ _ (ServiceList c)) as [d1|] eqn:E1.
  { intros H. injection H as <-. by apply first_of_contains in E1 as [_ ?]. }
  destruct (first_of _ _ (ServiceList b)) as [d2|] eqn:E2; [|done].
  intros H. injection H as <-. by apply first_of_contains in E2 as [_ ?].
Qed.

Lemma urn_domain_service root d : find_service root = Ok d -> exists domain, urn_domain (ServiceType d) = Ok domain.
Proof.
  intros H%find_service_type. unfold urn_domain.
  destruct (Split_second (z2b 58) (ServiceType d)) as [x Hx]; [|rewrite Hx; by exists x].
  apply (str_Contains_in _ _ _ H). apply (bool_decide_eq_true (_ ∈ _)). vm_compute. reflexivity.
Qed.

(** The URL of the control service, on every branch: a failed fetch, a status
    of 400 or more and a description that does not decode or names no service are
    errors; otherwise the control URL is put after the scheme and the host of the
    root URL, and the domain is the second field of the service's type, which is
    always there, so that nothing panics.  A root URL without a path loses its
    host. *)
Theorem service_url fetch scheme host path :
  z2b 58 ∉ scheme -> z2b 47 ∉ host -> path = [] \/ head path = Some (z2b 47) ->
  match getServiceURL fetch (root_url scheme host path) with
  | Ok (url, domain) => exists r root d, fetch (root_url scheme host path) = inr r /\ StatusCode r < 400 /\
      tree r = inr root /\ find_service root = Ok d /\ urn_domain (ServiceType d) = Ok domain /\
      url = scheme ++ (if bool_decide (path = []) then bs ":/" else bs "://" ++ host) ++ ControlURL d
  | Err e => fetch (root_url scheme host path) = inl e \/
      exists r, fetch (root_url scheme host path) = inr r /\
        (400 <= StatusCode r \/ tree r = inl e \/ exists root, tree r = inr root /\ find_service root = Err e)
  | Panic => False
  end.
Proof.
  intros Hs Hh Hp. unfold getServiceURL. destruct (fetch _) as [e|r] eqn:Ef; [by left|].
  case_bool_decide as Hst; [right; exists r; by split; [|left]|].
  destruct (tree r) as [e|root] eqn:Et; [right; exists r; split; [done|]; by right; left|].
  destruct (find_service root) as [d|e|] eqn:Ed; cbn [mbind res_bind].
  - destruct (urn_domain_service root d Ed) as [domain Hdom]. rewrite Hdom. cbn [mbind res_bind].
    rewrite combineURL_root by done. cbn [mbind res_bind]. exists r, root, d. repeat split; try done; lia.
  - right. exists r. split; [done|]. right. right. by exists root.
  - unfold find_service in Ed. repeat (case_match; try done).
Qed.

(** ** A mapping and its removal *)

Section Mapping.
Context {R : Type} (post : soap -> R -> (bytes + reply) * R).

(** What a router promises to a client that has found it: [view] is its table of
    UDP mappings, from an external port to an internal address. *)
Record router_ok (view : R -> gmap Z (bytes * Z)) (n : UPnPNAT) (address : bytes) : Prop := {
  ro_external r : exists p r',
    post (soap_request (serviceURL n) (bs "GetExternalIPAddress") (external_message n) (urnDomain n)) r = (inr p, r') /\
    rp_status p < 400 /\ rp_Soap p = Some (Some address) /\ rp_err p = None /\ view r' = view r;
  ro_add r e i : 0 <= e < 2 ^ 32 -> 0 <= i < 2 ^ 32 -> exists p r',
    post (soap_request (serviceURL n) (bs "AddPortMapping")
            (add_message n (bs "udp") e i (bs "peerguard") (24 * 3600)) (urnDomain n)) r = (inr p, r') /\
    match view r !! e with
    | None => rp_status p < 400 /\ view r' = <[e := (ourIP n, i)]> (view r)
    | Some _ => 400 <= rp_status p /\ view r' = view r
    end;
  ro_delete r e : 0 <= e < 2 ^ 32 -> exists a r',
    post (soap_request (serviceURL n) (bs "DeletePortMapping") (delete_message n (bs "udp") e) (urnDomain n)) r = (a, r') /\
    view r' = delete e (view r)
}.

(** The first port that is free, of so many from [p] on. *)
Fixpoint first_free (tries : nat) (p : Z) (t : gmap Z (bytes * Z)) : option Z :=
  match tries with
  | O => None
  | S tries => match t !! p with None => Some p | Some _ => first_free tries (p + 1) t end
  end.

Lemma first_free_spec tries p t q : first_free tries p t = Some q -> p <= q < p + Z.of_nat tries /\ t !! q = None.
Proof.
  revert p. induction tries as [|tries IH]; intros p H; simpl in H; [done|].
  destruct (t !! p) eqn:E; [apply IH in H; split; [lia|apply H]|]. injection H as ->. by split; [lia|].
Qed.

Context (view : R -> gmap Z (bytes * Z)) (n : UPnPNAT) (address : bytes).
Hypothesis Hr : router_ok view n address.

Lemma try_ports_first tries i ip udpPort m r :
  0 <= udpPort < 2 ^ 16 -> 0 <= i -> i + Z.of_nat tries < 2 ^ 16 ->
  match first_free tries (udpPort + i) (view r) with
  | Some p => exists r', try_ports post tries i n ip udpPort m r = (Ok (MkUDPAddr ip p), Some (n, p, udpPort), r') /\
      view r' = <[p := (ourIP n, udpPort)]> (view r)
  | None => exists e r', try_ports post tries i n ip udpPort m r = (Err e, m, r') /\ view r' = view r
  end.
Proof.
  intros Hu. revert i r. induction tries as [|tries IH]; intros i r Hi Hlt; simpl; [by eexists _, r|].
  destruct (ro_add view n address Hr r (udpPort + i) udpPort) as (p & r' & Hp & Hv); [lia|lia|].
  unfold AddPortMapping, soapRequest. rewrite Hp. destruct (view r !! (udpPort + i)) as [taken|] eqn:Et.
  - destruct Hv as [Hst Hv]. rewrite bool_decide_true by lia. cbn [mbind res_bind].
    specialize (IH (i + 1) r' ltac:(lia) ltac:(lia)). rewrite Hv in IH.
    by replace (udpPort + i + 1) with (udpPort + (i + 1)) by lia.
  - destruct Hv as [Hst Hv]. rewrite bool_decide_false by lia. cbn [mbind res_bind]. by exists r'.
Qed.

(** With a router that keeps its word, the first free of the twenty external
    ports from our own on is mapped to us, and closing takes exactly this mapping
    away; if all of them are taken, the table stays as it is and nothing is left to
    close. *)
Theorem mapped_until_closed udpPort r :
  0 <= udpPort < 2 ^ 16 - 20 -> IsUnspecified (ParseIP address) = false ->
  match first_free 20 udpPort (view r) with
  | Some p => exists m r', mappingAddress post (Ok n) udpPort None r = (Ok (MkUDPAddr (ParseIP address) p), m, r') /\
      view r' = <[p := (ourIP n, udpPort)]> (view r) /\ view (close post m r') = view r
  | None => exists e r', mappingAddress post (Ok n) udpPort None r = (Err e, None, r') /\ view r' = view r /\
      close post None r' = r'
  end.
Proof.
  intros Hu Hip. destruct (ro_external view n address Hr r) as (p & r1 & Hp & Hst & Hsoap & Herr & Hv).
  assert (Hm : mappingAddress post (Ok n) udpPort None r = try_ports post 20 0 n (ParseIP address) udpPort None r1).
  { unfold mappingAddress, GetExternalAddress, getExternalIPAddress, soapRequest.
    rewrite Hp. rewrite (bool_decide_false (400 <= rp_status p)) by lia. cbn [mbind res_bind].
    rewrite Hsoap, Herr. cbn [mbind res_bind]. by rewrite Hip. }
  rewrite Hm. pose proof (try_ports_first 20 0 (ParseIP address) udpPort None r1 ltac:(lia) ltac:(lia) ltac:(lia)) as H.
  rewrite Z.add_0_r, Hv in H. destruct (first_free 20 udpPort (view r)) as [q|] eqn:Ef.
  - destruct H as (r' & Ht & Hv'). exists (Some (n, q, udpPort)), r'. split; [done|]. split; [done|].
    apply first_free_spec in Ef as [Hq Hnone].
    destruct (ro_delete view n address Hr r' q) as (a & r2 & Hd & Hv2); [lia|].
    unfold close, DeletePortMapping, soapRequest. rewrite Hd.
    assert (Hres : view r2 = view r) by (by rewrite Hv2, Hv', delete_insert_id).
    destruct a as [e|p2]; [done|]. by case_bool_decide.
  - destruct H as (e & r' & Ht & Hv'). by exists e, r'.
Qed.
End Mapping.

(** ** Witnesses *)

Module Examples.
Definition gw : UPnPNAT := MkNAT (bs "http://10.0.0.1:5000/ctl") (bs "10.0.0.2") (bs "schemas-upnp-org").

(** A router that reads the requests of one client. *)
Definition action (f : bytes) : bytes := SOAPAction (soap_request [] f [] (bs "schemas-upnp-org")).
Definition envelope_head : bytes :=
  bs "<?xml version=" ++ qt ++ bs "1.0" ++ qt ++ bs " ?>" ++
  bs "<s:Envelope xmlns:s=" ++ qt ++ bs "http://schemas.xmlsoap.org/soap/envelope/" ++ qt ++
  bs " s:encodingStyle=" ++ qt ++ bs "http://schemas.xmlsoap.org/soap/encoding/" ++ qt ++ bs ">" ++ crlf ++ bs "<s:Body>".
Definition port_head (f : bytes) : bytes :=
  envelope_head ++ bs "<u:" ++ f ++ bs " xmlns:u=" ++ qt ++ bs "urn:schemas-upnp-org:service:WANIPConnection:1" ++ qt ++
  bs ">" ++ crlf ++ bs "<NewRemoteHost></NewRemoteHost><NewExternalPort>".
Definition between : bytes := bs "/NewExternalPort><NewProtocol>udp</NewProtocol><NewInternalPort>".

(** The text before a '<' and what follows it. *)
Fixpoint until_lt (s : bytes) : bytes * bytes :=
  match s with
  | [] => ([], [])
  | c :: s => if bool_decide (c = z2b 60) then ([], s) else let '(a, b) := until_lt s in (c :: a, b)
  end.
Definition port_at_head (f s : bytes) : option Z * bytes :=
  let '(e, s) := until_lt (drop (length (port_head f)) s) in (ParseInt 64 e, s).

Definition table : Type := gmap Z (bytes * Z).
Definition ok_reply : reply := MkReply 200 None None.
Definition toy_add (s : bytes) (t : table) : (bytes + reply) * table :=
  match port_at_head (bs "AddPortMapping") s with
  | (Some e, s) =>
      match ParseInt 64 (until_lt (drop (length between) s)).1 with
      | Some i => match t !! e with
                  | None => (inr ok_reply, <[e := (bs "10.0.0.2", i)]> t)
                  | Some _ => (inr (MkReply 500 None None), t)
                  end
      | None => (inr (MkReply 400 None None), t)
      end
  | (None, _) => (inr (MkReply 400 None None), t)
  end.
Definition toy_post (q : soap) (t : table) : (bytes + reply) * table :=
  if bool_decide (SOAPAction q = action (bs "GetExternalIPAddress")) then
    (inr (MkReply 200 (Some (Some (bs "203.0.113.7"))) None), t)
  else if bool_decide (SOAPAction q = action (bs "AddPortMapping")) then toy_add (so_body q) t
  else match port_at_head (bs "DeletePortMapping") (so_body q) with
       | (Some e, _) => (inr ok_reply, delete e t)
       | (None, _) => (inr (MkReply 400 None None), t)
       end.

Lemma until_lt_app a b : z2b 60 ∉ a -> until_lt (a ++ z2b 60 :: b) = (a, b).
Proof.
  induction a as [|c a IH]; intros H; cbn [app until_lt]; [by rewrite bool_decide_true|].
  apply not_elem_of_cons in H as [H1 H2]. rewrite bool_decide_false by done. by rewrite IH.
Qed.

Lemma until_lt_Itoa e s : 0 <= e < 2 ^ 32 -> until_lt (Itoa e ++ z2b 60 :: s) = (Itoa e, s).
Proof. intros He. apply until_lt_app, not_in_Itoa; [lia|]. rewrite b2z_z2b_small by lia. lia. Qed.

Lemma port_at_head_app f e s :
  0 <= e < 2 ^ 32 -> port_at_head f (port_head f ++ Itoa e ++ z2b 60 :: s) = (Some e, s).
Proof.
  intros He. unfold port_at_head. rewrite drop_app_length, until_lt_Itoa by done. by rewrite ParseInt_Itoa by lia.
Qed.

Lemma add_body e i : exists rest, so_body (soap_request (serviceURL gw) (bs "AddPortMapping")
    (add_message gw (bs "udp") e i (bs "peerguard") (24 * 3600)) (urnDomain gw)) =
  port_head (bs "AddPortMapping") ++ Itoa e ++ z2b 60 :: between ++ Itoa i ++ z2b 60 :: rest.
Proof.
  eexists. unfold soap_request, add_message, port_head, envelope_head. cbn [so_body]. rewrite <- !app_assoc. reflexivity.
Qed.

Lemma delete_body e : exists rest, so_body (soap_request (serviceURL gw) (bs "DeletePortMapping")
    (delete_message gw (bs "udp") e) (urnDomain gw)) = port_head (bs "DeletePortMapping") ++ Itoa e ++ z2b 60 :: rest.
Proof.
  eexists. unfold soap_request, delete_message, port_head, envelope_head. cbn [so_body]. rewrite <- !app_assoc. reflexivity.
Qed.

Lemma actions_differ :
  bool_decide (action (bs "AddPortMapping") = action (bs "GetExternalIPAddress")) = false /\
  bool_decide (action (bs "DeletePortMapping") = action (bs "GetExternalIPAddress")) = false /\
  bool_decide (action (bs "DeletePortMapping") = action (bs "AddPortMapping")) = false.
Proof. vm_compute. done. Qed.

Lemma toy_post_add q t : SOAPAction q = action (bs "AddPortMapping") -> toy_post q t = toy_add (so_body q) t.
Proof.
  intros H. destruct actions_differ as (H1 & _ & _). unfold toy_post. rewrite H, H1. by rewrite bool_decide_true.
Qed.

Lemma toy_router_ok : router_ok toy_post (fun t => t) gw (bs "203.0.113.7").
Proof.
  split.
  - intros t. eexists _, t. split; [reflexivity|]. cbn [rp_status]. by split; [lia|].
  - intros t e i He Hi. rewrite toy_post_add by done. destruct (add_body e i) as [rest ->].
    unfold toy_add. rewrite port_at_head_app by done. rewrite drop_app_length, until_lt_Itoa by done.
    cbn [fst]. rewrite ParseInt_Itoa by lia. cbv beta.
    destruct (t !! e) eqn:Et; eexists _, _; (split; [reflexivity|]); cbv zeta; unfold table in *; rewrite Et;
      cbn [rp_status ok_reply]; (split; [lia|done]).
  - intros t e He. destruct actions_differ as (_ & H2 & H3). unfold toy_post.
    change (SOAPAction _) with (action (bs "DeletePortMapping")). rewrite H2, H3.
    destruct (delete_body e) as [rest ->]. rewrite port_at_head_app by done. by eexists _, _.
Qed.

(** Our port and the next are taken. *)
Definition busy : table := {[ 29877 := (bs "10.0.0.3", 29877); 29878 := (bs "10.0.0.4", 29877) ]}.

Lemma mapped_until_closed_witness :
  exists m r', mappingAddress toy_post (Ok gw) 29877 None busy = (Ok (MkUDPAddr (ParseIP (bs "203.0.113.7")) 29879), m, r') /\
    r' = <[29879 := (bs "10.0.0.2", 29877)]> busy /\ close toy_post m r' = busy.
Proof.
  assert (Hf : first_free 20 29877 busy = Some 29879) by (vm_compute; reflexivity).
  assert (Hu : 0 <= 29877 < 2 ^ 16 - 20) by lia.
  assert (Hi : IsUnspecified (ParseIP (bs "203.0.113.7")) = false) by (vm_compute; reflexivity).
  pose proof (mapped_until_closed toy_post (fun t => t) gw (bs "203.0.113.7") toy_router_ok 29877 busy Hu Hi) as H.
  cbv beta in H. rewrite Hf in H. exact H.
Defined.

(** A gateway with its service under the connection device. *)
Definition tree1 : Device :=
  MkDevice (bs "urn:schemas-upnp-org:device:InternetGatewayDevice:1")
    [MkDevice (bs "urn:schemas-upnp-org:device:WANDevice:1")
       [MkDevice (bs "urn:schemas-upnp-org:device:WANConnectionDevice:1") []
          [MkService (bs "urn:schemas-upnp-org:service:WANIPConnection:1") (bs "/ctl")]] []] [].
Definition fetch1 (_ : bytes) : bytes + fetched := inr (MkFetched 200 (bs "200 OK") (inr tree1)).
Definition answer1 : bytes :=
  bs "HTTP/1.1 200 OK" ++ crlf ++ bs "ST: urn:schemas-upnp-org:device:InternetGatewayDevice:1" ++ crlf ++
  bs "LOCATION: http://10.0.0.1:5000/rootDesc.xml" ++ crlf ++ crlf.

Example discovered : Discover (fun s => s) (fun s => s) fetch1 (Some [Some [Some [z2b 127; z2b 0; z2b 0; z2b 1]]; Some [Some [z2b 10; z2b 0; z2b 0; z2b 2]]])
  [None; None; None] [Some (bs "noise"); None; Some answer1] = Ok gw.
Proof. vm_compute. reflexivity. Qed.

Lemma service_url_witness :
  match getServiceURL fetch1 (root_url (bs "http") (bs "10.0.0.1:5000") (bs "/rootDesc.xml")) with
  | Ok (url, domain) => exists r root d, fetch1 (root_url (bs "http") (bs "10.0.0.1:5000") (bs "/rootDesc.xml")) = inr r /\
      StatusCode r < 400 /\ tree r = inr root /\ find_service root = Ok d /\ urn_domain (ServiceType d) = Ok domain /\
      url = bs "http" ++ (if bool_decide (bs "/rootDesc.xml" = []) then bs ":/" else bs "://" ++ bs "10.0.0.1:5000") ++ ControlURL d
  | Err e => fetch1 (root_url (bs "http") (bs "10.0.0.1:5000") (bs "/rootDesc.xml")) = inl e \/
      exists r, fetch1 (root_url (bs "http") (bs "10.0.0.1:5000") (bs "/rootDesc.xml")) = inr r /\
        (400 <= StatusCode r \/ tree r = inl e \/ exists root, tree r = inr root /\ find_service root = Err e)
  | Panic => False
  end.
Proof.
  refine (service_url fetch1 (bs "http") (bs "10.0.0.1:5000") (bs "/rootDesc.xml") _ _ _).
  - apply (bool_decide_eq_false (_ ∈ _)). vm_compute. reflexivity.
  - apply (bool_decide_eq_false (_ ∈ _)). vm_compute. reflexivity.
  - right. reflexivity.
Defined.
End Examples.
