(* ===== verification/VpnRun.v ===== *)
(** * VpnRun: the device, the routes and the end of a VPN ([vpn/vpn.go], [vpn/nic/tun])

    [TUNIC.Read] hands out the packets of a batch one by one; the route updates of
    the system change the routes of the virtual NIC and the addresses that
    discovery ignores; and [Run] ends by closing the connection, the device and
    both channels while the five loops still run. *)

From S2P Require Import Prelude Text Netip Lru Disco Vpn.

(** ** The device ([tun.go]) *)

Module Tun.

(** The buffers, the sizes being those of their contents. *)
Record TUNIC := MkTUN { readBufs : list bytes; tun_read : Z; readTotal : Z }.

(** [BatchSize] buffers, once the first read has made them. *)
Definition init (batchSize : nat) : TUNIC := MkTUN (replicate batchSize []) 0 0.

(** The device fills the first buffers with a batch. *)
Definition fill (batch : list bytes) (t : TUNIC) : list bytes := batch ++ drop (length batch) (readBufs t).

(** [Read]: the packets left in the batch, or the next batch of the device, which
    is [None] on an error; the result is a packet and whether a batch was taken. *)
Definition Read (next : option (list bytes)) (t : TUNIC) : res unit bytes * TUNIC * bool :=
  if bool_decide (tun_read t < readTotal t) then
    let i := tun_read t + 1 in
    (match readBufs t !! Z.to_nat i with Some p => Ok p | None => Panic end, MkTUN (readBufs t) i (readTotal t), false)
  else
    match next with
    | None => (Err tt, t, true)
    | Some batch =>
        let bufs := fill batch t in
        (match bufs !! 0%nat with Some p => Ok p | None => Panic end, MkTUN bufs 0 (Z.of_nat (length batch) - 1), true)
    end.

(** So many reads of a device that gives these batches and then an error. *)
Fixpoint reads (n : nat) (batches : list (list bytes)) (t : TUNIC) : list (res unit bytes) :=
  match n with
  | O => []
  | S n =>
      let '(r, t', taken) := Read (head batches) t in
      r :: reads n (if taken : bool then tail batches else batches) t'
  end.

(** What is left of the batch at hand. *)
Definition pending (t : TUNIC) : list bytes :=
  drop (Z.to_nat (tun_read t + 1)) (take (Z.to_nat (readTotal t + 1)) (readBufs t)).
Definition wf (t : TUNIC) : Prop := 0 <= tun_read t /\ tun_read t <= readTotal t /\ readTotal t < zlen (readBufs t).

Lemma tun_wf_init k : (0 < k)%nat -> wf (init k).
Proof. intros Hk. unfold wf, init, zlen. simpl. rewrite length_replicate. lia. Qed.

Lemma pending_init k : pending (init k) = [].
Proof. unfold pending, init. simpl. apply drop_ge. rewrite length_take. lia. Qed.

Lemma Read_pending next t p rest :
  wf t -> pending t = p :: rest ->
  exists t', Read next t = (Ok p, t', false) /\ wf t' /\ pending t' = rest /\ length (readBufs t') = length (readBufs t).
Proof.
  intros (H0 & H1 & H2) Hp. unfold zlen in H2.
  assert (Hlt : tun_read t < readTotal t).
  { apply (f_equal length) in Hp. unfold pending in Hp. rewrite length_drop, length_take in Hp. simpl in Hp. lia. }
  unfold Read. rewrite bool_decide_true by done.
  assert (Hl : readBufs t !! Z.to_nat (tun_read t + 1) = Some p).
  { assert (Hq : pending t !! 0%nat = Some p) by (by rewrite Hp). unfold pending in Hq.
    rewrite lookup_drop, lookup_take_Some in Hq. destruct Hq as [Hq _]. by rewrite Nat.add_0_r in Hq. }
  rewrite Hl. eexists. split; [done|]. split; [unfold wf, zlen; simpl; lia|]. split; [|done].
  unfold pending in *. simpl. replace (Z.to_nat (tun_read t + 1 + 1)) with (S (Z.to_nat (tun_read t + 1))) by lia.
  replace (S _) with (Z.to_nat (tun_read t + 1) + 1)%nat by lia. by rewrite <- drop_drop, Hp.
Qed.

Lemma Read_batch p batch t :
  wf t -> pending t = [] -> (length (p :: batch) <= length (readBufs t))%nat ->
  exists t', Read (Some (p :: batch)) t = (Ok p, t', true) /\ wf t' /\ pending t' = batch /\
    length (readBufs t') = length (readBufs t).
Proof.
  intros (H0 & H1 & H2) Hp Hlen. unfold zlen in H2.
  assert (Hge : ~ tun_read t < readTotal t).
  { intros Hlt. apply (f_equal length) in Hp. unfold pending in Hp. rewrite length_drop, length_take in Hp. simpl in Hp. lia. }
  unfold Read. rewrite bool_decide_false by done. unfold fill.
  eexists. split; [reflexivity|]. simpl in Hlen. unfold wf, pending, zlen. cbn [readBufs tun_read readTotal].
  assert (Hbl : length ((p :: batch) ++ drop (length (p :: batch)) (readBufs t)) = length (readBufs t))
    by (rewrite length_app, length_drop; simpl; lia).
  split; [rewrite Hbl; cbn [length]; lia|]. split; [|exact Hbl].
  replace (Z.to_nat (Z.of_nat (length (p :: batch)) - 1 + 1)) with (length (p :: batch)) by lia.
  by rewrite take_app_length.
Qed.

Lemma reads_exact batches t :
  wf t -> Forall (fun b => b <> [] /\ (length b <= length (readBufs t))%nat) batches ->
  reads (length (pending t ++ concat batches)) batches t = Ok <$> (pending t ++ concat batches).
Proof.
  intros Hw Hb. remember (pending t ++ concat batches) as all eqn:Hall.
  revert batches t Hw Hb Hall. induction all as [|p all IH]; intros batches t Hw Hb Hall; [done|].
  cbn [length reads]. destruct (pending t) as [|q rest] eqn:Hp.
  - destruct batches as [|b batches]; [done|]. apply Forall_cons in Hb as [[Hne Hlen] Hb].
    destruct b as [|x b]; [done|]. cbn [concat app] in Hall. injection Hall as -> Hall.
    destruct (Read_batch x b t Hw Hp Hlen) as (t' & Hr & Hw' & Hp' & Hl'). cbn [head tail]. rewrite Hr.
    rewrite (IH batches t'); [done|done| |by rewrite Hp'].
    eapply Forall_impl; [done|]. by intros b' [? ?]; rewrite Hl'.
  - cbn [app] in Hall. injection Hall as -> Hall.
    destruct (Read_pending (head batches) t q rest Hw Hp) as (t' & Hr & Hw' & Hp' & Hl'). rewrite Hr.
    rewrite (IH batches t'); [done|done| |by rewrite Hp'].
    eapply Forall_impl; [done|]. by intros b' [? ?]; rewrite Hl'.
Qed.

(** The device's batches come out as their packets, one by one and in order,
    as long as every batch has a packet and fits the buffers. *)
Theorem tun_reads_exact batchSize batches :
  (0 < batchSize)%nat -> Forall (fun b => b <> [] /\ (length b <= batchSize)%nat) batches ->
  reads (length (concat batches)) batches (init batchSize) = Ok <$> concat batches.
Proof.
  intros Hk Hb. pose proof (reads_exact batches (init batchSize) (tun_wf_init _ Hk)) as H.
  rewrite pending_init in H. apply H. cbn [readBufs init]. by rewrite length_replicate.
Qed.

(** An empty batch gives the packet of the buffer once more. *)
Example empty_batch : reads 2 [[bs "a"]; []] (init 4) = [Ok (bs "a"); Ok (bs "a")].
Proof. reflexivity. Qed.

Lemma tun_reads_exact_witness : reads 3 [[bs "a"; bs "b"]; [bs "c"]] (init 2) = [Ok (bs "a"); Ok (bs "b"); Ok (bs "c")].
Proof.
  refine (tun_reads_exact 2 [[bs "a"; bs "b"]; [bs "c"]] _ _).
  - lia.
  - repeat constructor; simpl; try done; lia.
Defined.
End Tun.

(** ** Rejected packets ([icmp.go]) *)

Module Icmp.

(** The layers that [gopacket] serialises; the lengths and checksums are its own. *)
Inductive layer :=
| LayerIPv4 (Version IHL : Z) (SrcIP DstIP : IP) (TTL Protocol : Z)
| LayerICMPv4 (type code : Z)
| LayerIPv6 (Version : Z) (SrcIP DstIP : IP) (HopLimit NextHeader : Z)
| LayerICMPv6 (type code : Z)
| Payload (data : bytes).

Definition unreachable_layers (srcIP dstIP : IP) (data : bytes) : list layer :=
  (if To4 srcIP then [LayerIPv4 4 5 srcIP dstIP 64 1; LayerICMPv4 3 1]
   else [LayerIPv6 6 srcIP dstIP 64 58; LayerICMPv6 1 3; Payload (repeat (z2b 0) 4)]) ++ [Payload data].

(** [ICMPHostUnreachable]: nil when the layers do not serialise. *)
Definition ICMPHostUnreachable (SerializeLayers : list layer -> option bytes) (srcIP dstIP : IP) (data : bytes) : bytes :=
  default [] (SerializeLayers (unreachable_layers srcIP dstIP data)).

(** The packet is the last of the layers, so that the sender finds its own in the
    answer. *)
Lemma unreachable_quotes srcIP dstIP data : last (unreachable_layers srcIP dstIP data) = Some (Payload data).
Proof. unfold unreachable_layers. apply last_snoc. Qed.
End Icmp.

(** ** Routes ([routingTableUpdate] and the callbacks of the daemon) *)

Module Routes.
Import Nic.

Record RouteUpdate := MkUpdate { New : bool; Dst : IPNet; Via : IP }.

(** [netlink.RouteSubscribe] passes on the events of types 24 and 25 that have a
    destination and a gateway. *)
Definition to_update (dst : option IPNet) (gw : option IP) (type : Z) : option RouteUpdate :=
  d ← dst; g ← gw;
  if bool_decide (type = 24 \/ type = 25) then Some (MkUpdate (bool_decide (type = 24)) d g) else None.

(** One round of [routingTableUpdate], with the callbacks that keep the addresses
    of routed networks out of discovery. *)
Definition on_update (st : VirtualNIC * ignore_state) (u : RouteUpdate) : VirtualNIC * ignore_state :=
  let '(n, ig) := st in
  if New u then
    let '(ok, n) := AddRoute (Dst u) (Via u) n in
    (n, if ok then AddIgnoredLocalCIDRs [net_String (Dst u)] ig else ig)
  else
    let '(ok, n) := DelRoute (Dst u) (Via u) n in
    (n, if ok then RemoveIgnoredLocalCIDRs [net_String (Dst u)] ig else ig).
Definition routingTableUpdate (us : list RouteUpdate) (st : VirtualNIC * ignore_state) : VirtualNIC * ignore_state :=
  fold_left on_update us st.

(** An update that changes something about the network with a text. *)
Definition about (t : bytes) (u : RouteUpdate) : Prop := IsUnspecified (Via u) = false /\ net_String (Dst u) = t.

(** A text whose network has it as its text. *)
Definition canonical (t : bytes) : Prop := forall ip n, ParseCIDR t = Some (ip, n) -> net_String n = t.

Lemma on_update_ignored st u n :
  n ∈ ignoredLocalCIDRs (on_update st u).2 <->
  (n ∈ ignoredLocalCIDRs st.2 /\ ~ (New u = false /\ about (net_String n) u)) \/
  (New u = true /\ IsUnspecified (Via u) = false /\ exists ip, ParseCIDR (net_String (Dst u)) = Some (ip, n) /\
     IsUnspecified (net_IP n) = false).
Proof.
  destruct st as [nc ig]. unfold on_update, AddRoute, DelRoute, about. destruct (New u).
  - destruct (IsUnspecified (Via u)) eqn:Ev; cbn [snd].
    + split; [by left; split; [|intros [? _]]|]. intros [[? _]|(_ & ? & _)]; done.
    + unfold AddIgnoredLocalCIDRs. cbn [fold_left]. destruct (ParseCIDR _) as [[ip m]|]; cbn [ignoredLocalCIDRs].
      2:{ split; [by left; split; [|intros [? _]]|]. intros [[? _]|(_ & _ & ? & ? & _)]; done. }
      destruct (IsUnspecified (net_IP m)) eqn:Em; cbn [ignoredLocalCIDRs].
      * split; [by left; split; [|intros [? _]]|]. intros [[? _]|(_ & _ & ip' & Heq & Hu)]; [done|]. injection Heq as <- <-. congruence.
      * rewrite elem_of_app, list_elem_of_singleton. split.
        -- intros [?| ->]; [by left; split; [|intros [? _]]|]. right. split; [done|]. split; [done|]. by exists ip.
        -- intros [[? _]|(_ & _ & ip' & Heq & Hu)]; [by left|]. injection Heq as <- <-. by right.
  - destruct (IsUnspecified (Via u)) eqn:Ev; cbn [snd].
    + split; [|intros [[? _]|(? & _)]; done]. left. split; [done|]. by intros (_ & ? & _).
    + unfold RemoveIgnoredLocalCIDRs. cbn [ignoredLocalCIDRs]. rewrite list_elem_of_filter, list_elem_of_singleton.
      split; [|intros [[? Hn]|(? & _)]; [|done]].
      * intros [Hne ?]. left. split; [done|]. intros (_ & _ & Heq). by apply Hne.
      * split; [|done]. intros Heq. apply Hn. done.
Qed.

(** Updates about other networks change nothing about this one. *)
Lemma others_keep us st t n :
  Forall (fun u => ~ about t u) us -> net_String n = t -> n ∈ ignoredLocalCIDRs st.2 ->
  n ∈ ignoredLocalCIDRs (routingTableUpdate us st).2.
Proof.
  intros Hus Ht. revert st. induction Hus as [|u us Hu _ IH]; intros st Hin; [done|]. apply IH.
  apply on_update_ignored. left. split; [done|]. rewrite Ht. by intros [_ ?].
Qed.

Lemma others_add_none us st t :
  Forall (fun u => ~ about t u) us -> Forall (fun u => canonical (net_String (Dst u))) us ->
  (forall n, n ∈ ignoredLocalCIDRs st.2 -> net_String n <> t) ->
  forall n, n ∈ ignoredLocalCIDRs (routingTableUpdate us st).2 -> net_String n <> t.
Proof.
  intros Hus Hc. revert st. induction Hus as [|u us Hu _ IH]; intros st Hst; [done|].
  apply Forall_cons in Hc as [Hcu Hc]. apply IH; [done|].
  intros n [[Hin _]|(_ & Hv & ip & Hp & _)]%on_update_ignored Heq; [by apply (Hst n)|].
  apply Hu. split; [done|]. rewrite <- Heq. symmetry. by eapply Hcu.
Qed.

(** Discovery ignores a network exactly while the last update about it was a
    new route: then its addresses are ignored, and after its removal nothing of
    that name is. *)
Theorem ignored_follow_routes pre u post st t ip n :
  about t u -> Forall (fun u => ~ about t u) post ->
  ParseCIDR t = Some (ip, n) -> IsUnspecified (net_IP n) = false -> canonical t ->
  Forall (fun u => canonical (net_String (Dst u))) post ->
  let ig := (routingTableUpdate (pre ++ u :: post) st).2 in
  (New u = true -> n ∈ ignoredLocalCIDRs ig /\ forall x, Contains n x = true -> IsIgnoredLocalIP x ig = true) /\
  (New u = false -> forall m, m ∈ ignoredLocalCIDRs ig -> net_String m <> t).
Proof.
  intros [Hv Ht] Hpost Hp Hu Hcan Hall ig. unfold ig, routingTableUpdate. rewrite fold_left_app. cbn [fold_left].
  set (st1 := on_update (fold_left on_update pre st) u).
  change (fold_left on_update post st1) with (routingTableUpdate post st1). split; intros Hnew.
  - assert (Hin : n ∈ ignoredLocalCIDRs (routingTableUpdate post st1).2).
    { apply (others_keep post st1 t n Hpost); [by eapply Hcan|]. apply on_update_ignored. right.
      split; [done|]. split; [done|]. exists ip. by rewrite Ht. }
    split; [done|]. intros x Hx. unfold IsIgnoredLocalIP, cidrs_Contains. apply existsb_exists. exists n.
    split; [by apply list_elem_of_In|done].
  - apply others_add_none; [done|done|]. intros m [[_ Hn]|(? & _)]%on_update_ignored Heq; [|congruence].
    apply Hn. split; [done|]. split; [done|]. congruence.
Qed.
End Routes.

(** ** The end of [Run] *)

Module Shutdown.

(** A loop that reads and then sends or writes what it has. *)
Inductive reader := Reading | Holding | Returned | Panicked.
#[export] Instance reader_eq_dec : EqDecision reader.
Proof. solve_decision. Defined.

(** The subscription to the routes has a goroutine that watches the system and
    sends the updates on an unbuffered channel, over which the fifth loop ranges.
    On Linux that goroutine closes the channel itself when it sees the end of the
    context; on macOS another one does, whatever the first is at.  On Windows it is
    the library that waits for the callbacks before the close; that is not
    modelled. *)
Inductive system := Linux | Darwin.
Inductive watcher := Watching | Sending | Gone | Crashed.
Inductive range := Ranging | Handling | Ended.

(** [events]: the route messages that still come before [select] picks the end of
    the context. *)
Record routes := MkRoutes { watch : watcher; events : nat; ch_closed : bool; route_loop : range }.

Inductive route_step (os : system) : routes -> routes -> Prop :=
| route_event n z r : route_step os (MkRoutes Watching (S n) z r) (MkRoutes Sending n z r)
| route_drop n z r : route_step os (MkRoutes Watching (S n) z r) (MkRoutes Watching n z r)
| route_take n : route_step os (MkRoutes Sending n false Ranging) (MkRoutes Watching n false Handling)
| route_handled w n z : route_step os (MkRoutes w n z Handling) (MkRoutes w n z Ranging)
| route_ended w n : route_step os (MkRoutes w n true Ranging) (MkRoutes w n true Ended)
| linux_done n z r : os = Linux -> route_step os (MkRoutes Watching n z r) (MkRoutes Gone n true r)
| darwin_close w n r : os = Darwin -> r <> Ended -> route_step os (MkRoutes w n false r) (MkRoutes w n true r)
| darwin_read_fails n z r : os = Darwin -> route_step os (MkRoutes Watching n z r) (MkRoutes Gone n z r)
| darwin_send_closed n r : os = Darwin -> route_step os (MkRoutes Sending n true r) (MkRoutes Crashed n true r).

(** The five loops after [Run] has closed the connection, the device and both
    channels: the two readers, what is left in the channels, the two writers, the
    route loop with its subscription. *)
Record loops := MkLoops {
  nic_reader : reader; conn_reader : reader;
  inbound_left : nat; outbound_left : nat;
  nic_writer : bool; conn_writer : reader;
  routing : routes
}.
Definition set_readers (a b : reader) (l : loops) : loops :=
  MkLoops a b (inbound_left l) (outbound_left l) (nic_writer l) (conn_writer l) (routing l).
Definition set_routing (r : routes) (l : loops) : loops :=
  MkLoops (nic_reader l) (conn_reader l) (inbound_left l) (outbound_left l) (nic_writer l) (conn_writer l) r.

(** A read of something closed returns [net.ErrClosed] or [os.ErrClosed], unless
    a packet that came before is still given out ([late]) or there is another
    error, on which the loop panics ([other]). *)
Inductive end_read (late other : bool) : reader -> reader -> Prop :=
| read_closed : end_read late other Reading Returned
| read_late : late = true -> end_read late other Reading Holding
| read_error : other = true -> end_read late other Reading Panicked
| send_closed : end_read late other Holding Panicked.

Section End.
Context (os : system) (late other : bool).

Inductive end_step : loops -> loops -> Prop :=
| end_nic_read l r : end_read late other (nic_reader l) r -> end_step l (set_readers r (conn_reader l) l)
| end_conn_read l r : end_read late other (conn_reader l) r -> end_step l (set_readers (nic_reader l) r l)
(** nicWrite drains the channel and returns. *)
| end_nic_write a b i o c r : end_step (MkLoops a b (S i) o true c r) (MkLoops a b i o true c r)
| end_nic_done a b o c r : end_step (MkLoops a b 0 o true c r) (MkLoops a b 0 o false c r)
(** packetConnWrite drains its channel too: a packet for a peer goes to the closed
    connection, one for ourselves or for nobody to the inbound channel, which is
    closed. *)
| end_conn_take a b i o w r : end_step (MkLoops a b i (S o) w Reading r) (MkLoops a b i o w Holding r)
| end_conn_write a b i o w r : end_step (MkLoops a b i o w Holding r) (MkLoops a b i o w Reading r)
| end_conn_reject a b i o w r : end_step (MkLoops a b i o w Holding r) (MkLoops a b i o w Panicked r)
| end_conn_done a b i w r : end_step (MkLoops a b i 0 w Reading r) (MkLoops a b i 0 w Returned r)
| end_routes l r : route_step os (routing l) r -> end_step l (set_routing r l).

(** [wg.Wait] returns, or the process has died. *)
Definition all_done (l : loops) : Prop :=
  nic_reader l = Returned /\ conn_reader l = Returned /\ nic_writer l = false /\ conn_writer l = Returned /\
  route_loop (routing l) = Ended.
Definition panicked (l : loops) : Prop :=
  nic_reader l = Panicked \/ conn_reader l = Panicked \/ conn_writer l = Panicked \/ watch (routing l) = Crashed.

(** What can still panic: a reader with a packet in hand, or one whose read does
    not just fail; the writer to the connection with a packet; on macOS the
    watcher with a route message. *)
Definition reader_risk (r : reader) : Prop := r = Holding \/ r = Reading /\ (late = true \/ other = true).
Definition writer_risk (l : loops) : Prop := conn_writer l = Holding \/ conn_writer l = Reading /\ outbound_left l <> 0%nat.
Definition route_risk (r : routes) : Prop :=
  os = Darwin /\ (watch r = Sending /\ (ch_closed r = true \/ route_loop r <> Ended) \/
                  watch r = Watching /\ events r <> 0%nat /\ (ch_closed r = true \/ route_loop r <> Ended)).
Definition risk (l : loops) : Prop :=
  reader_risk (nic_reader l) \/ reader_risk (conn_reader l) \/ writer_risk l \/ route_risk (routing l).

(** On Linux the watcher has gone when the channel is closed or the loop has ended,
    as it has from the beginning when the subscription fails, and only then. *)
Definition routes_ok (r : routes) : Prop :=
  os = Linux -> (watch r = Gone <-> ch_closed r = true \/ route_loop r = Ended) /\ watch r <> Crashed.

(** *** Bounds *)

Definition rank (r : reader) : nat := match r with Reading => 2 | Holding => 1 | _ => 0 end.
Definition writer_rank (r : reader) : nat := match r with Reading => 1 | Holding => 2 | _ => 0 end.
Definition route_rank (r : routes) : nat :=
  4 * events r + match watch r with Watching => 1 | Sending => 4 | _ => 0 end + Nat.b2n (negb (ch_closed r)) +
  match route_loop r with Ranging => 1 | Handling => 2 | Ended => 0 end.
Definition measure (l : loops) : nat :=
  rank (nic_reader l) + rank (conn_reader l) + inbound_left l + 2 * outbound_left l + Nat.b2n (nic_writer l) +
  writer_rank (conn_writer l) + route_rank (routing l).

Lemma end_read_rank r r' : end_read late other r r' -> (rank r' < rank r)%nat.
Proof. destruct 1; simpl; lia. Qed.

Lemma route_step_rank r r' : route_step os r r' -> (route_rank r' < route_rank r)%nat.
Proof. destruct 1; unfold route_rank; simpl; try lia; destruct z; simpl; lia. Qed.

Lemma end_step_measure l l' : end_step l l' -> (measure l' < measure l)%nat.
Proof.
  destruct 1 as [l r H|l r H| | | | | | |l r H]; unfold measure; simpl; try lia;
    first [apply end_read_rank in H|apply route_step_rank in H]; lia.
Qed.
Lemma steps_bound n l l' : nsteps end_step n l l' -> (n + measure l' <= measure l)%nat.
Proof. induction 1 as [|n l l1 l' Hs _ IH]; [lia|]. apply end_step_measure in Hs. lia. Qed.

(** *** Progress *)

Lemma routes_ok_step r r' : route_step os r r' -> routes_ok r -> routes_ok r'.
Proof.
  intros Hs Hi Hos. destruct (Hi Hos) as [Hg Hc]. destruct Hs; cbn in *; try congruence;
    (split; [|done]); try (split; [done|]); naive_solver.
Qed.

Lemma end_step_routes_ok l l' : end_step l l' -> routes_ok (routing l) -> routes_ok (routing l').
Proof. destruct 1 as [| | | | | | | |l r H]; simpl; try done. by apply routes_ok_step. Qed.

Lemma route_progress r : routes_ok r -> route_loop r = Ended \/ watch r = Crashed \/ exists r', route_step os r r'.
Proof.
  intros Hi. destruct r as [w n z []]; cbn; [| |by left]; [|right; right; by eexists; constructor].
  right. destruct z; [right; by eexists; constructor|]. destruct os eqn:Hos.
  - destruct (Hi Hos) as [Hg Hc]. cbn in *. destruct w; [|right; by eexists; constructor| |done].
    + right. exists (MkRoutes Gone n true Ranging). by constructor.
    + destruct (proj1 Hg eq_refl); done.
  - right. exists (MkRoutes w n true Ranging). by constructor.
Qed.

Lemma reader_progress r : r <> Returned -> r <> Panicked -> exists r', end_read late other r r'.
Proof. destruct r; intros ? ?; try done; [exists Returned|exists Panicked]; constructor. Qed.

(** Something moves until the loops are done or one has panicked. *)
Lemma end_progress l : routes_ok (routing l) -> all_done l \/ panicked l \/ exists l', end_step l l'.
Proof.
  intros Hr. destruct (decide (nic_reader l = Panicked)) as [Ha|Ha]; [by right; left; left|].
  destruct (decide (conn_reader l = Panicked)) as [Hb|Hb]; [by right; left; right; left|].
  destruct (decide (nic_reader l = Returned)) as [Ha'|Ha'].
  2: { destruct (reader_progress _ Ha' Ha) as [x Hx]. right; right. eexists. by apply end_nic_read. }
  destruct (decide (conn_reader l = Returned)) as [Hb'|Hb'].
  2: { destruct (reader_progress _ Hb' Hb) as [x Hx]. right; right. eexists. by apply end_conn_read. }
  destruct (route_progress _ Hr) as [He|[He|[x Hx]]]; [|by right; left; right; right; right|].
  2: { right; right. eexists. by apply end_routes. }
  destruct l as [a b i o w c r]; cbn in *. subst a b.
  destruct w; [right; right; destruct i; by eexists; constructor|].
  destruct c; [right; right; destruct o; by eexists; constructor|right; right; by eexists; apply end_conn_write| |by right; left; right; right; left].
  left. by split_and!.
Qed.

(** *** Panics *)

Lemma reader_risk_back r r' : end_read late other r r' -> r' = Panicked \/ reader_risk r' -> reader_risk r.
Proof.
  unfold reader_risk. destruct 1 as [|Hl|Ho|]; intros Hr; [naive_solver| | |by left]; right; (split; [done|]); auto.
Qed.

Lemma route_risk_back r r' : route_step os r r' -> watch r' = Crashed \/ route_risk r' -> watch r = Crashed \/ route_risk r.
Proof.
  unfold route_risk. destruct 1; cbn; intros Hr; naive_solver lia.
Qed.

Lemma risk_back l l' : end_step l l' -> panicked l' \/ risk l' -> panicked l \/ risk l.
Proof.
  unfold panicked, risk.
  destruct 1 as [l r H|l r H| | | | | | |l r H]; cbn; unfold writer_risk; cbn; intros Hp.
  - pose proof (reader_risk_back _ _ H). naive_solver.
  - pose proof (reader_risk_back _ _ H). naive_solver.
  - naive_solver.
  - naive_solver.
  - naive_solver.
  - naive_solver.
  - naive_solver.
  - naive_solver.
  - pose proof (route_risk_back _ _ H). naive_solver.
Qed.

Lemma reader_risk_fires r : reader_risk r -> rtc (end_read late other) r Panicked.
Proof.
  intros [->|[-> [H|H]]].
  - apply rtc_once, send_closed.
  - eapply rtc_l; [by apply read_late|]. apply rtc_once, send_closed.
  - apply rtc_once. by apply read_error.
Qed.

Lemma nic_runs l r : rtc (end_read late other) (nic_reader l) r -> rtc end_step l (set_readers r (conn_reader l) l).
Proof.
  intros H. remember (nic_reader l) as a eqn:Ea. revert l Ea. induction H as [a|a b r Hs _ IH]; intros l ->.
  - by destruct l.
  - eapply rtc_l; [by apply end_nic_read|]. by apply (IH (set_readers b (conn_reader l) l)).
Qed.
Lemma conn_runs l r : rtc (end_read late other) (conn_reader l) r -> rtc end_step l (set_readers (nic_reader l) r l).
Proof.
  intros H. remember (conn_reader l) as a eqn:Ea. revert l Ea. induction H as [a|a b r Hs _ IH]; intros l ->.
  - by destruct l.
  - eapply rtc_l; [by apply end_conn_read|]. by apply (IH (set_readers (nic_reader l) b l)).
Qed.
Lemma route_runs l r : rtc (route_step os) (routing l) r -> rtc end_step l (set_routing r l).
Proof.
  intros H. remember (routing l) as a eqn:Ea. revert l Ea. induction H as [a|a b r Hs _ IH]; intros l ->.
  - by destruct l.
  - eapply rtc_l; [by apply end_routes|]. by apply (IH (set_routing b l)).
Qed.

Lemma route_risk_fires r : route_risk r -> exists r', rtc (route_step os) r r' /\ watch r' = Crashed.
Proof.
  intros [Hos Hr].
  assert (Hsend : forall n z k, z = true \/ k <> Ended -> exists r', rtc (route_step os) (MkRoutes Sending n z k) r' /\ watch r' = Crashed).
  { intros n z k Hz. exists (MkRoutes Crashed n true k). split; [|done].
    destruct z; [by apply rtc_once, darwin_send_closed|]. destruct Hz as [Hz|Hz]; [done|].
    eapply rtc_l; [by apply darwin_close|]. by apply rtc_once, darwin_send_closed. }
  destruct r as [w n z k]. cbn in Hr. destruct Hr as [[-> Hz]|(-> & Hn & Hz)]; [by apply Hsend|].
  destruct n as [|n]; [done|]. destruct (Hsend n z k Hz) as (r' & Hr & Hc). exists r'. split; [|done].
  eapply rtc_l; [apply route_event|done].
Qed.

Lemma risk_fires l : risk l -> exists l', rtc end_step l l' /\ panicked l'.
Proof.
  intros [H|[H|[H|H]]].
  - eexists. split; [by apply nic_runs, reader_risk_fires|]. by left.
  - eexists. split; [by apply conn_runs, reader_risk_fires|]. right. by left.
  - destruct l as [a b i o w c r]. unfold writer_risk in H. cbn in H.
    assert (Hhold : forall o, exists l', rtc end_step (MkLoops a b i o w Holding r) l' /\ panicked l').
    { intros o'. exists (MkLoops a b i o' w Panicked r). split; [apply rtc_once, end_conn_reject|]. right. right. by left. }
    destruct H as [->|[-> Ho]]; [done|]. destruct o as [|o]; [done|]. destruct (Hhold o) as (l' & Hr & Hp).
    exists l'. split; [|done]. eapply rtc_l; [apply end_conn_take|done].
  - destruct (route_risk_fires _ H) as (r' & Hr & Hc). exists (set_routing r' l). split; [by apply route_runs|].
    right. right. by right.
Qed.

Lemma panic_iff l : (exists l', rtc end_step l l' /\ panicked l') <-> panicked l \/ risk l.
Proof.
  split.
  - intros (l' & Hr & Hp). assert (H : panicked l' \/ risk l') by by left. clear Hp. revert H.
    induction Hr as [l|l l1 l' Hs _ IH]; [done|]. intros H. by apply (risk_back l l1 Hs), IH.
  - intros [H|H]; [by exists l|by apply risk_fires].
Qed.

End End.

(** A packet that the device gave just before the end, and a route message. *)
Definition l0 : loops := MkLoops Holding Reading 1 0 true Reading (MkRoutes Watching 1 false Ranging).
Definition l1 : loops := set_readers Panicked Reading l0.

End Shutdown.

(** ** Witness *)

Module Examples.
Import Routes.
Definition net1 : IPNet := MkIPNet [z2b 10; z2b 1; z2b 0; z2b 0] [z2b 255; z2b 255; z2b 0; z2b 0].
Definition gw1 : IP := [z2b 100; z2b 99; z2b 0; z2b 2].
Definition lru0 {K V : Type} `{Countable K} : LruCache.Cache K V := LruCache.MkCache 1 ∅ [] ∅ 0.
Definition nic0 : Nic.VirtualNIC := match Nic.init with Ok n => n | _ => Nic.MkNIC lru0 lru0 [] end.
Definition up : RouteUpdate := MkUpdate true net1 gw1.
Definition st0 : Nic.VirtualNIC * ignore_state := (nic0, Ignore [] [] []).

Lemma canonical1 : canonical (bs "10.1.0.0/16").
Proof. intros ip n H. vm_compute in H. injection H as <- <-. vm_compute. reflexivity. Qed.

Lemma ignored_follow_routes_witness :
  let ig := (routingTableUpdate ([] ++ [up]) st0).2 in
  (New up = true -> net1 ∈ ignoredLocalCIDRs ig /\ forall x, Contains net1 x = true -> IsIgnoredLocalIP x ig = true) /\
  (New up = false -> forall m, m ∈ ignoredLocalCIDRs ig -> net_String m <> bs "10.1.0.0/16").
Proof.
  refine (ignored_follow_routes [] up [] st0 (bs "10.1.0.0/16") (v4InV6Prefix ++ [z2b 10; z2b 1; z2b 0; z2b 0]) net1 _ _ _ _ canonical1 _).
  - split; vm_compute; reflexivity.
  - constructor.
  - vm_compute. reflexivity.
  - vm_compute. reflexivity.
  - constructor.
Defined.
End Examples.
