(* ===== verification/Daemon.v ===== *)
(** * Daemon: the configuration of a VPN node and its secret ([cmd/pgcli/vpn/vpn.go], [disco/server.go])

    What the flags of the daemon become: the options of the peer-to-peer
    connection, what the node announces about itself and what its peers make of
    it, and the network secret, which is kept in a file between the starts.  The
    secret stores share an interface with a law, which both of them satisfy. *)

From S2P Require Import Prelude Text GoTime Url Lru Netip Disco DiscoUdp Ws P2p Vpn Login.

(** ** Configuration *)

Record Config := MkConfig {
  NIC_IPv4 : bytes; NIC_IPv6 : bytes; NIC_MTU : Z; NIC_Name : bytes;
  Proxy_Listen : bytes; Proxy_Users : list bytes;
  Disco_Config : DiscoConfig; IgnoredInterfaces : list bytes;
  cfg_UDPPort : Z; PrivateKey : bytes; cfg_Secret : bytes; cfg_SecretFile : bytes; Server : bytes; AuthQR : bool;
  P2pTransportMode : bytes; Forwards : list bytes; Labels : list bytes;
  QueryPeers : bool; QueryNodeInfo : bool
}.

(** The flags that are not fields, with the configuration that the others fill. *)
Record parsed := MkParsed {
  p_cfg : Config; ignoredInterfaces : list bytes; forwards : list bytes; proxyUsers : list bytes; nodeLabels : list bytes;
  cryptoAlgo : bytes; forcePeerRelay : bool; forceServerRelay : bool
}.

(** The defaults; the name of the device depends on the system, the server on the
    environment. *)
Definition default_flags (defaultTunName PG_SERVER : bytes) : parsed :=
  MkParsed
    (MkConfig [] [] 1371 defaultTunName [] []
       (MkDiscoConfig (-1000) 3000 (6 * Second) 5 (200 * Millisecond) 165) []
       29877 [] [] [] PG_SERVER false MODE_DEFAULT [] [] false false)
    [] [] [] [] (bs "chacha20poly1305") false false.

Definition with_lists (f : parsed) : Config :=
  let c := p_cfg f in
  MkConfig (NIC_IPv4 c) (NIC_IPv6 c) (NIC_MTU c) (NIC_Name c) (Proxy_Listen c) (proxyUsers f) (Disco_Config c)
    (ignoredInterfaces f) (cfg_UDPPort c) (PrivateKey c) (cfg_Secret c) (cfg_SecretFile c) (Server c) (AuthQR c)
    (P2pTransportMode c) (forwards f) (nodeLabels f) (QueryPeers c) (QueryNodeInfo c).
Definition with_mode (mode : bytes) (c : Config) : Config :=
  MkConfig (NIC_IPv4 c) (NIC_IPv6 c) (NIC_MTU c) (NIC_Name c) (Proxy_Listen c) (Proxy_Users c) (Disco_Config c)
    (IgnoredInterfaces c) (cfg_UDPPort c) (PrivateKey c) (cfg_Secret c) (cfg_SecretFile c) (Server c) (AuthQR c)
    mode (Forwards c) (Labels c) (QueryPeers c) (QueryNodeInfo c).

Inductive algo := Chacha20poly1305 | AesCbc.

(** [createConfig] after the flags are parsed: the configuration, the error, and
    the algorithm it sets, if any. *)
Definition createConfig (f : parsed) : Config * option bytes * option algo :=
  let c := with_lists f in
  if QueryPeers c || QueryNodeInfo c then (c, None, None)
  else
    let a := if bool_decide (cryptoAlgo f = bs "chacha20poly1305") then Some Chacha20poly1305
             else if bool_decide (cryptoAlgo f = bs "aescbc") then Some AesCbc else None in
    if bool_decide (Server c = []) then (c, Some (bs "flag server not set"), a)
    else if bool_decide (NIC_IPv4 c = [] /\ NIC_IPv6 c = []) then
      (c, Some (bs "at least one of the flags in the group [ipv4 ipv6] is required"), a)
    else
      let c := if forcePeerRelay f then with_mode MODE_FORCE_PEER_RELAY c else c in
      let c := if forceServerRelay f && negb (forcePeerRelay f) then with_mode MODE_FORCE_RELAY c else c in
      (c, None, a).

(** [Run] needs no device when it forwards or serves a proxy. *)
Definition rootlessMode (c : Config) : bool := bool_decide (Forwards c <> [] \/ Proxy_Listen c <> []).

(** ** What the node announces *)

Section Options.
Context {S Priv : Type}.
Context (b58_Encode b58_Decode : bytes -> bytes).
Context (NewPrivateKey : bytes -> option Priv) (PublicKey : Priv -> bytes) (ECDH : Priv -> bytes -> option bytes).
Context (newAlgo : (bytes -> option bytes) -> S).

(** The alias of a family, with its prefix kept out of discovery. *)
Definition alias_option (prefix : bytes) (option_ : bytes -> Option_ S) (ig : ignore_state) :
    option (list (Option_ S)) * ignore_state :=
  if bool_decide (prefix = []) then (Some [], ig)
  else match ParsePrefix prefix with
       | None => (None, ig)
       | Some a => (Some [option_ (netip_String a)], AddIgnoredLocalCIDRs [prefix] ig)
       end.

(** The options of [listenPacketConn]; [key] is the key that is generated if none is given. *)
Definition base_options (version hostname st : bytes) : list (Option_ S) :=
  [PeerMeta_ (bs "version") version; PeerMeta_ (bs "name") hostname; PeerMeta_ (bs "st") st;
   ListenPeerUp true; ListenPeerLeave true; KeepAlivePeriod_ (6 * Second)].
Definition key_option (v : Config) (key : option bytes) : Option_ S :=
  if bool_decide (PrivateKey v <> []) then
    ListenPeerCurve25519 b58_Encode b58_Decode NewPrivateKey PublicKey ECDH newAlgo (PrivateKey v)
  else ListenPeerSecure b58_Encode b58_Decode NewPrivateKey PublicKey ECDH newAlgo key.

Definition p2pOptions (v : Config) (version hostname st : bytes) (key : option bytes) (ig : ignore_state) :
    option (list (Option_ S)) * ignore_state :=
  let prefixs := IgnoredInterfaces v ++ [bs "pg"; bs "wg"; bs "veth"; bs "docker"; bs "nerdctl"; bs "tailscale"] in
  let ig := SetIgnoredLocalInterfaceNamePrefixs prefixs ig in
  let opts := base_options version hostname st ++ (PeerMeta_ (bs "label") <$> Labels v) ++
    (if bool_decide (0 < cfg_UDPPort v) then [ListenUDPPort (cfg_UDPPort v)] else []) in
  match alias_option (NIC_IPv4 v) PeerAlias1 ig with
  | (None, ig) => (None, ig)
  | (Some o4, ig) =>
      match alias_option (NIC_IPv6 v) PeerAlias2 ig with
      | (None, ig) => (None, ig)
      | (Some o6, ig) => (Some (opts ++ o4 ++ o6 ++ [key_option v key]), ig)
      end
  end.

(** [onPeerUp] and [onPeerLeave] *)
Definition onPeerUp (pi : bytes) (m : Values) (n : Nic.VirtualNIC) : Nic.VirtualNIC :=
  Nic.AddPeer (Nic.MkPeer pi (vals_Get m (bs "alias1")) (vals_Get m (bs "alias2")) m) n.
Definition onPeerLeave (order : list bytes) (pi : bytes) (n : Nic.VirtualNIC) : Nic.VirtualNIC :=
  Nic.LabelPeer order pi (bs "node.off") n.

(** *** Lemmas *)

(** What an option adds to the metadata. *)
Inductive adds : Option_ S -> list (bytes * bytes) -> Prop :=
| adds_meta k v : adds (PeerMeta_ k v) [(k, v)]
| adds_none opt : (forall c c', opt c = Ok c' -> Metadata (PeerInfo c') = Metadata (PeerInfo c)) -> adds opt [].

Definition add_all (m : Values) (kvs : list (bytes * bytes)) : Values := fold_left (fun m kv => vals_Add m kv.1 kv.2) kvs m.

Lemma configure_adds opts kvs c c' :
  Forall2 adds opts kvs -> configure opts c = Ok c' ->
  Metadata (PeerInfo c') = add_all (Metadata (PeerInfo c)) (concat kvs).
Proof.
  intros H. revert c. induction H as [|opt kv opts kvs Ho _ IH]; intros c Hc.
  - by injection Hc as <-.
  - rewrite configure_cons in Hc. destruct (opt c) as [c1|e|] eqn:E1; [|done..].
    rewrite (IH c1 Hc). cbn [concat]. unfold add_all. rewrite fold_left_app.
    destruct Ho as [k v|opt Hm]; [by injection E1 as <-|]. by rewrite (Hm _ _ E1).
Qed.

Lemma add_all_other m kvs k : Forall (fun kv => kv.1 <> k) kvs -> add_all m kvs !! k = m !! k.
Proof.
  intros H. revert m. induction H as [|kv kvs Hk _ IH]; intros m; [done|]. cbn [add_all fold_left].
  change (fold_left _ kvs ?x) with (add_all x kvs). rewrite IH. unfold vals_Add. by rewrite lookup_insert_ne.
Qed.

(** The text that a prefix of the configuration announces. *)
Definition alias_text (prefix : bytes) : bytes :=
  if bool_decide (prefix = []) then []
  else match ParsePrefix prefix with Some a => netip_String a | None => [] end.

Lemma alias_option_adds key prefix ig o ig' :
  alias_option prefix (PeerMeta_ key) ig = (Some o, ig') ->
  Forall2 adds o (if bool_decide (prefix = []) then [] else [[(key, alias_text prefix)]]).
Proof.
  unfold alias_option, alias_text. case_bool_decide as Hp; [intros [= <- _]; constructor|].
  destruct (ParsePrefix prefix) as [a|]; [|done]. intros [= <- _]. apply Forall2_cons. split; [apply adds_meta|constructor].
Qed.

Lemma key_option_adds v key : adds (key_option v key) [].
Proof.
  apply adds_none. intros c c'. unfold key_option, ListenPeerSecure, ListenPeerCurve25519.
  case_bool_decide; [|destruct key as [key|]; [|done]];
    (destruct (cfg_SymmAlgo c); [done|]; destruct (NewPrivateKey _); [|done]; by intros [= <-]).
Qed.

Lemma label_adds ls : Forall2 adds (PeerMeta_ (bs "label") <$> ls) ((fun l => [(bs "label", l)]) <$> ls).
Proof. induction ls; cbn [fmap list_fmap]; [constructor|]. apply Forall2_cons. by split; [apply adds_meta|]. Qed.

Lemma labels_other key (ls : list bytes) :
  key <> bs "label" -> Forall (fun kv => kv.1 <> key) (concat ((fun l => [(bs "label", l)]) <$> ls)).
Proof. intros Hk. induction ls as [|l ls IH]; [constructor|]. apply Forall_cons. by split; [apply not_eq_sym|]. Qed.

Lemma optional_other (prefix key key' t : bytes) :
  key' <> key ->
  Forall (fun kv => kv.1 <> key) (concat (if bool_decide (prefix = []) then [] else [[(key', t)]])).
Proof. intros Hk. case_bool_decide; [constructor|]. cbn [concat app]. apply Forall_cons. by split; [|constructor]. Qed.

Lemma add_all_alias m key t kvs1 kvs2 :
  Forall (fun kv => kv.1 <> key) kvs1 -> Forall (fun kv => kv.1 <> key) kvs2 -> m !! key = None ->
  vals_Get (add_all m (kvs1 ++ (key, t) :: kvs2)) key = t.
Proof.
  intros H1 H2 Hm. unfold add_all. rewrite fold_left_app. cbn [fold_left].
  change (fold_left _ kvs2 ?x) with (add_all x kvs2). change (fold_left _ kvs1 ?x) with (add_all x kvs1).
  unfold vals_Get. rewrite add_all_other by done. unfold vals_Add. cbn [fst snd]. rewrite lookup_insert_eq.
  by rewrite add_all_other, Hm.
Qed.

(** What a node's peers see of it. *)
Lemma announced v version hostname st key ig opts ig' rnd c :
  p2pOptions v version hostname st key ig = (Some opts, ig') ->
  configure opts (default_config b58_Encode rnd) = Ok c ->
  (NIC_IPv4 v <> [] -> vals_Get (Metadata (PeerInfo c)) (bs "alias1") = alias_text (NIC_IPv4 v)) /\
  (NIC_IPv6 v <> [] -> vals_Get (Metadata (PeerInfo c)) (bs "alias2") = alias_text (NIC_IPv6 v)).
Proof.
  unfold p2pOptions. intros Ho Hc.
  destruct (alias_option (NIC_IPv4 v) _ _) as [[o4|] ig4] eqn:E4; [|done].
  destruct (alias_option (NIC_IPv6 v) _ _) as [[o6|] ig6] eqn:E6; [|done]. injection Ho as <- _.
  apply alias_option_adds in E4, E6.
  set (base := [[(bs "version", version)]; [(bs "name", hostname)]; [(bs "st", st)]; []; []; []] : list (list (bytes * bytes))).
  set (k4 := if bool_decide (NIC_IPv4 v = []) then [] else [[(bs "alias1", alias_text (NIC_IPv4 v))]]) in E4.
  set (k6 := if bool_decide (NIC_IPv6 v = []) then [] else [[(bs "alias2", alias_text (NIC_IPv6 v))]]) in E6.
  set (kp := if bool_decide (0 < cfg_UDPPort v) then [[]] else [] : list (list (bytes * bytes))).
  assert (Hadds : Forall2 adds
    ((base_options version hostname st ++ (PeerMeta_ (bs "label") <$> Labels v) ++
      (if bool_decide (0 < cfg_UDPPort v) then [ListenUDPPort (cfg_UDPPort v)] else [])) ++ o4 ++ o6 ++ [key_option v key])
    ((base ++ ((fun l => [(bs "label", l)]) <$> Labels v) ++ kp) ++ k4 ++ k6 ++ [[]])).
  { apply Forall2_app; [|apply Forall2_app; [exact E4|apply Forall2_app; [exact E6|]]];
      [apply Forall2_app; [|apply Forall2_app; [exact (label_adds (Labels v))|]]|].
    - unfold base_options, base. do 3 (apply Forall2_cons; split; [apply adds_meta|]).
      do 3 (apply Forall2_cons; split; [apply adds_none; by intros ? ? [= <-]|]). constructor.
    - unfold kp. case_bool_decide; [|constructor]. apply Forall2_cons. split; [|constructor]. apply adds_none. by intros ? ? [= <-].
    - apply Forall2_cons. split; [apply key_option_adds|constructor]. }
  pose proof (configure_adds _ _ _ _ Hadds Hc) as Hm. rewrite !concat_app in Hm.
  assert (Hpre : forall key, key ∈ [bs "alias1"; bs "alias2"] ->
    Forall (fun kv => kv.1 <> key) (concat base ++ concat ((fun l => [(bs "label", l)]) <$> Labels v) ++ concat kp)).
  { intros k Hk. apply Forall_app. split; [|apply Forall_app; split].
    - unfold base. cbn [concat app]. repeat constructor; cbn [fst]; intros <-; revert Hk;
        apply (bool_decide_eq_false (_ ∈ _)); vm_compute; reflexivity.
    - apply labels_other. intros ->. revert Hk. apply (bool_decide_eq_false (_ ∈ _)). vm_compute. reflexivity.
    - unfold kp. by case_bool_decide; constructor. }
  rewrite Hm. split; intros Hne.
  - unfold k4. rewrite bool_decide_false by done. cbn [concat app].
    apply add_all_alias; [apply Hpre; by left| |done].
    apply Forall_app. split; [by apply optional_other|constructor].
  - unfold k6. rewrite (bool_decide_false (NIC_IPv6 v = [])) by done. cbn [concat app]. rewrite app_assoc.
    apply add_all_alias; [|constructor|done]. apply Forall_app.
    split; [apply Hpre; right; by left|by apply optional_other].
Qed.
End Options.

(** ** The peer of an address *)

Section Found.
Import LruCache.

Lemma put_lookup_other {K V : Type} `{Countable K} cap (k k' : K) (v v' : V) (l : list (K * V)) :
  (2 <= cap)%nat -> head l = Some (k, v) -> k <> k' -> LruSpec.lookup k (LruSpec.put cap k' v' l) = Some v.
Proof.
  intros Hcap Hh Hne. destruct l as [|[k1 v1] l]; [done|]. injection Hh as -> ->. unfold LruSpec.put.
  assert (Hl : forall x, LruSpec.lookup k ((k', v') :: (k, v) :: x) = Some v)
    by (intros x; simpl; rewrite decide_False by done; by rewrite decide_True).
  destruct (LruSpec.lookup k' _).
  - unfold LruSpec.remove. rewrite filter_cons_True by done. apply Hl.
  - unfold LruSpec.evict. case_decide as Hlen; [|apply Hl]. destruct l as [|x l]; [simpl in Hlen; lia|]. simpl. by rewrite decide_False, decide_True.
Qed.

Lemma put_lookup_same {K V : Type} `{Countable K} cap (k : K) (v : V) l : LruSpec.lookup k (LruSpec.put cap k v l) = Some v.
Proof. unfold LruSpec.put. destruct (LruSpec.lookup k l); simpl; by rewrite decide_True. Qed.

Lemma put_head {K V : Type} `{Countable K} cap (k : K) (v : V) l : head (LruSpec.put cap k v l) = Some (k, v).
Proof. unfold LruSpec.put. by destruct (LruSpec.lookup k l). Qed.

Lemma AddPeer_found n lp p ip order :
  repr (Nic.peers n) lp -> capacity (Nic.peers n) = 1024 -> ip <> [] -> ip = Nic.IPv4 p \/ ip = Nic.IPv6 p ->
  (Nic.GetPeer order ip (Nic.AddPeer p n)).1 = Some (Nic.Addr p).
Proof.
  intros R Hcap Hne Hip. set (i := length (Nic.store n)).
  assert (Hput : forall k c l, repr c l -> capacity c = 1024 ->
    exists l', repr (Nic.put_if k i c) l' /\ capacity (Nic.put_if k i c) = 1024 /\
      (k <> [] -> l' = LruSpec.put 1024 k i l) /\ (k = [] -> l' = l)).
  { intros k c l Rc Hc. unfold Nic.put_if. case_bool_decide as Hk.
    - exists (LruSpec.put 1024 k i l). pose proof (repr_Put k i c l Rc) as Rp. rewrite Hc in Rp.
      split; [exact Rp|]. split; [|by split]. pose proof (exec_capacity (OpPut k i) c) as He. simpl in He. by rewrite He.
    - exists l. split; [done|]. split; [done|]. split; [done|done]. }
  destruct (Hput (Nic.IPv4 p) _ _ R Hcap) as (l4 & R4 & C4 & N4 & E4).
  destruct (Hput (Nic.IPv6 p) _ _ R4 C4) as (l6 & R6 & C6 & N6 & E6).
  assert (Hl : LruSpec.lookup ip l6 = Some i).
  { destruct (decide (Nic.IPv6 p = [])) as [H6|H6].
    - rewrite (E6 H6). destruct Hip as [->| ->]; [|done]. rewrite (N4 Hne). apply put_lookup_same.
    - rewrite (N6 H6). destruct (decide (ip = Nic.IPv6 p)) as [->|Hd]; [apply put_lookup_same|].
      destruct Hip as [->|?]; [|done]. rewrite (N4 Hne). apply put_lookup_other; [lia|apply put_head|done]. }
  unfold Nic.GetPeer, Nic.AddPeer. cbn [Nic.peers Nic.routing Nic.store].
  destruct (repr_Get ip _ _ R6) as [Hg _].
  destruct (Get ip (Nic.put_if (Nic.IPv6 p) i (Nic.put_if (Nic.IPv4 p) i (Nic.peers n)))) as [g c'] eqn:Eg.
  change (length (Nic.store n)) with i. rewrite Eg. cbn [fst] in Hg. unfold LruSpec.get in Hg. rewrite Hl in Hg. cbn [fst] in Hg.
  subst g. cbn [fst]. unfold Nic.addr_of. simpl. unfold i. by rewrite list_lookup_middle.
Qed.
End Found.

Lemma ip4_String_nonempty b : ip4_String b <> [].
Proof. unfold ip4_String. intros H. apply (f_equal length) in H. rewrite !length_app in H. simpl in H. lia. Qed.

Lemma hex_go_nonempty k x : hex_go (S k) x <> [].
Proof. simpl. case_bool_decide; [done|]. intros Hn. apply (f_equal length) in Hn. rewrite length_app in Hn. simpl in Hn. lia. Qed.

Lemma ip6_String_nonempty b : ip6_String b <> [].
Proof.
  unfold ip6_String. cbn [groups_String]. rewrite bool_decide_false by lia. destruct (longest_run b) as [[s e]|].
  - case_bool_decide; [done|]. rewrite (bool_decide_false (0 < 0)%nat) by lia. cbn [app].
    intros Hn. apply app_eq_nil in Hn as [Hn _]. by apply hex_go_nonempty in Hn.
  - rewrite bool_decide_false by lia. cbn [app]. intros Hn. apply app_eq_nil in Hn as [Hn _]. by apply hex_go_nonempty in Hn.
Qed.

(** The address of a destination that a prefix gives: of IPv4, or of IPv6 and no
    IPv4 address in disguise. *)
Definition destination (prefix ip : bytes) : Prop :=
  prefix <> [] /\ (ParsePrefix prefix = Some (Addr4 ip) /\ length ip = 4%nat \/
    ParsePrefix prefix = Some (Addr6 ip) /\ length ip = 16%nat /\ take 12 ip <> v4InV6Prefix).

Lemma destination_text prefix ip : destination prefix ip -> alias_text prefix = ip_String ip /\ ip_String ip <> [].
Proof.
  intros [Hp [[Ha Hl]|(Ha & Hl & Hm)]]; unfold alias_text; rewrite (bool_decide_false (prefix = [])), Ha by done; simpl.
  - unfold ip_String. rewrite bool_decide_false by (intros ->; done). rewrite To4_4 by done.
    split; [done|apply ip4_String_nonempty].
  - rewrite bool_decide_false by done. unfold ip_String. rewrite bool_decide_false by (intros ->; done).
    unfold To4. rewrite bool_decide_false by lia. rewrite bool_decide_false by naive_solver.
    rewrite bool_decide_true by done. split; [done|apply ip6_String_nonempty].
Qed.

(** From the configuration of one node to the table of another: if a node
    starts with a prefix and its metadata reach a peer, then the peer sends packets
    for the address of the prefix, of either family, to this node. *)
Theorem address_leads_to_node {S Priv : Type} (b58e b58d : bytes -> bytes) (newkey : bytes -> option Priv)
    (pub : Priv -> bytes) (ecdh : Priv -> bytes -> option bytes) (algo : (bytes -> option bytes) -> S)
    v version hostname st key ig opts ig' rnd c n lp prefix ip order :
  p2pOptions b58e b58d newkey pub ecdh algo v version hostname st key ig = (Some opts, ig') ->
  configure opts (default_config b58e rnd) = Ok c ->
  prefix = NIC_IPv4 v \/ prefix = NIC_IPv6 v -> destination prefix ip ->
  LruCache.repr (Nic.peers n) lp -> LruCache.capacity (Nic.peers n) = 1024 ->
  (Nic.GetPeer order (ip_String ip) (onPeerUp (peer_ID (PeerInfo c)) (Metadata (PeerInfo c)) n)).1 =
    Some (peer_ID (PeerInfo c)).
Proof.
  intros Ho Hc Hpre Hd R Hcap. destruct (announced b58e b58d newkey pub ecdh algo v version hostname st key ig opts ig' rnd c Ho Hc) as [H4 H6].
  destruct (destination_text _ _ Hd) as [Ht Hne]. destruct Hd as [Hp _].
  unfold onPeerUp. rewrite (AddPeer_found n lp); [done|done|done|done|]. cbn [Nic.IPv4 Nic.IPv6].
  destruct Hpre as [-> | ->]; [left; by rewrite (H4 Hp)|right; by rewrite (H6 Hp)].
Qed.

(** ** The secret of the network *)

(** The interface of [SecretStore]: a store is read and updated, and what an
    update that succeeds has stored is read again. *)
Class SecretStore (T : Type) := {
  get_secret : T -> res bytes NetworkSecret;
  update_secret : NetworkSecret -> T -> res bytes unit * T
}.
Class SecretStoreLaws (T : Type) `{!SecretStore T} := {
  updated_secret s t : (update_secret s t).1 = Ok tt -> get_secret (update_secret s t).2 = Ok s
}.

(** A [NetworkSecret] stores itself. *)
#[export] Instance memory_store : SecretStore NetworkSecret := {|
  get_secret s := Ok s;
  update_secret secret s := (Ok tt, UpdateNetworkSecret secret s)
|}.
#[export] Instance memory_store_laws : SecretStoreLaws NetworkSecret.
Proof. constructor. intros s t _. by destruct s. Qed.

(** A [SecretFile]: its path in a file system, which says what can be opened and
    written, with the JSON codec, whose law is that of texts in valid UTF-8. *)
Class json_secret := { json_enc : NetworkSecret -> bytes; json_dec : bytes -> option NetworkSecret }.
Class json_secret_ok (J : json_secret) := json_dec_enc : forall s, json_dec (json_enc s) = Some s.

Record files := MkFiles { content : gmap bytes bytes; creatable : bytes -> bool; writable : bytes -> bool }.
Record SecretFile := MkSecretFile { FilePath : bytes; fs : files }.
Definition set_content (p b : bytes) (f : files) : files := MkFiles (<[p := b]> (content f)) (creatable f) (writable f).

Definition file_get {J : json_secret} (t : SecretFile) : res bytes NetworkSecret :=
  match content (fs t) !! FilePath t with
  | None => Err (bs "file secret store open failed")
  | Some b => match json_dec b with Some s => Ok s | None => Err (bs "file secret store decode failed") end
  end.

(** Creating empties the file before the secret is written. *)
Definition file_update {J : json_secret} (secret : NetworkSecret) (t : SecretFile) : res bytes unit * SecretFile :=
  let p := FilePath t in
  if negb (creatable (fs t) p) then (Err (bs "update network secret failed"), t)
  else
    let f := set_content p [] (fs t) in
    if negb (writable (fs t) p) then (Err (bs "save network secret failed"), MkSecretFile p f)
    else (Ok tt, MkSecretFile p (set_content p (json_enc secret) f)).

#[export] Instance file_store {J : json_secret} : SecretStore SecretFile := {|
  get_secret := file_get;
  update_secret := file_update
|}.
#[export] Instance file_store_laws {J : json_secret} {HJ : json_secret_ok J} : SecretStoreLaws SecretFile.
Proof.
  constructor. intros s [p f]. simpl. unfold file_update. cbn [FilePath fs].
  destruct (creatable f p); [|done]. destruct (writable f p); [|done]. intros _. unfold file_get. simpl.
  rewrite lookup_insert_eq. by rewrite json_dec_enc.
Qed.

(** ** Logging in when it is necessary *)

Section Necessary.
Context {J : json_secret}.

Inductive store := InMemory (s : NetworkSecret) | InFile (p : bytes).

(** The outcome of [loginIfNecessary]: the store or an error, the file system, and
    whether the user was asked. *)
Record login_outcome := MkOutcome { lo_store : res bytes store; lo_files : files; lo_asked : bool }.

(** The login ends with a secret or an error, and the secret goes to the file. *)
Definition newFileStore (joined : res bytes NetworkSecret) (p : bytes) (f : files) : login_outcome :=
  match joined with
  | Ok secret =>
      let '(r, t) := file_update secret (MkSecretFile p f) in
      MkOutcome (_ ← r; Ok (InFile p)) (fs t) true
  | Err e => MkOutcome (Err (bs "request network secret failed: " ++ e)) f true
  | Panic => MkOutcome Panic f true
  end.

(** [loginIfNecessary] at a time; [home] is the home directory of the user, an
    absolute path. *)
Definition secret_path (v : Config) (home : option bytes) : option bytes :=
  if bool_decide (cfg_SecretFile v <> []) then Some (cfg_SecretFile v)
  else h ← home; Some (if bool_decide (h = []) then bs ".peerguard_network_secret.json"
                       else Clean (h ++ bs "/.peerguard_network_secret.json")).
Definition loginIfNecessary (v : Config) (home : option bytes) (now : Z) (joined : res bytes NetworkSecret) (f : files) :
    login_outcome :=
  if bool_decide (cfg_Secret v <> []) then MkOutcome (Ok (InMemory (MkNetworkSecret (cfg_Secret v) [] 0))) f false
  else match secret_path v home with
       | None => MkOutcome (Err (bs "user")) f false
       | Some p =>
           match content f !! p with
           | None => newFileStore joined p f
           | Some _ =>
               match file_get (MkSecretFile p f) with
               | Err e => MkOutcome (Err e) f false
               | Panic => MkOutcome Panic f false
               | Ok secret =>
                   if Expired now secret then newFileStore joined p f else MkOutcome (Ok (InFile p)) f false
               end
           end
       end.

(** What a store gives. *)
Definition secret_of (s : store) (f : files) : res bytes NetworkSecret :=
  match s with InMemory n => Ok n | InFile p => file_get (MkSecretFile p f) end.

Context {HJ : json_secret_ok J}.

(** C24. A login is remembered: after one that succeeded, the daemon starts with the
    secret that was joined, without asking, until it expires, and then asks again;
    and it is only asked for at all if the configuration has no secret and the file
    is missing or holds one that has expired. *)
Theorem login_remembered v home now joined f :
  (lo_asked (loginIfNecessary v home now joined f) = true ->
     cfg_Secret v = [] /\ exists p, secret_path v home = Some p /\
       (content f !! p = None \/ exists s, file_get (MkSecretFile p f) = Ok s /\ Expire s <= now)) /\
  (forall s st now' joined',
     let o := loginIfNecessary v home now (Ok s) f in
     lo_asked o = true -> lo_store o = Ok st ->
     secret_of st (lo_files o) = Ok s /\
     let o' := loginIfNecessary v home now' joined' (lo_files o) in
     lo_asked o' = bool_decide (Expire s <= now') /\ (now' < Expire s -> lo_store o' = Ok st /\ lo_files o' = lo_files o)).
Proof.
  assert (Hexp : forall t s, Expired t s = bool_decide (Expire s <= t))
    by (intros t s; apply bool_decide_ext; lia).
  unfold loginIfNecessary. case_bool_decide as Hs; [by split|].
  destruct (secret_path v home) as [p|]; [|by split].
  set (run := fun (joined : res bytes NetworkSecret) now f => match content f !! p with
    | None => newFileStore joined p f
    | Some _ => match file_get (MkSecretFile p f) with
        | Ok secret => if Expired now secret then newFileStore joined p f else MkOutcome (Ok (InFile p)) f false
        | Err e => MkOutcome (Err e) f false
        | Panic => MkOutcome Panic f false end end).
  change (match content f !! p with None => newFileStore joined p f | Some _ => _ end) with (run joined now f).
  split.
  - intros Ha. split; [by destruct (cfg_Secret v)|]. exists p. split; [done|]. unfold run in Ha.
    destruct (content f !! p) as [b|]; [right|by left].
    destruct (file_get (MkSecretFile p f)) as [s|e|]; [|done..]. exists s. split; [done|].
    destruct (Expired now s) eqn:Ee; [|done]. rewrite Hexp in Ee. by apply bool_decide_eq_true in Ee.
  - intros s st now' joined'. cbv zeta. fold (run (Ok s) now f). intros Ha Hst.
    assert (Hnew : run (Ok s) now f = newFileStore (Ok s) p f).
    { unfold run in *. destruct (content f !! p); [|done]. destruct (file_get _) as [s0|e|]; [|done..].
      by destruct (Expired now s0). }
    rewrite Hnew in *. unfold newFileStore in *. destruct (file_update s (MkSecretFile p f)) as [r t] eqn:Eu.
    cbn [lo_store lo_files] in *. destruct r as [[]|e|]; [|done..]. injection Hst as <-.
    assert (Hget : file_get t = Ok s).
    { pose proof (updated_secret s (MkSecretFile p f)) as H. simpl in H. rewrite Eu in H. by apply H. }
    assert (Ht : FilePath t = p /\ content (fs t) !! p = Some (json_enc s)).
    { unfold file_update in Eu. cbn [FilePath fs] in Eu. destruct (creatable f p); [|done]. destruct (writable f p); [|done].
      injection Eu as <-. cbn. by rewrite lookup_insert_eq. }
    destruct Ht as [Hp Hc]. destruct t as [p' f']. cbn [FilePath fs] in *. subst p'. cbn [secret_of].
    split; [done|]. fold (run joined' now' f'). unfold run. rewrite Hc, Hget, Hexp. case_bool_decide as He; [|by split].
    split; [|lia]. unfold newFileStore. destruct joined' as [s'|e|]; [|done..]. by destruct (file_update s' _).
Qed.
End Necessary.

(** ** Witnesses *)

Module Examples.

(** A codec: the bits of a number that stands for the secret. *)
Fixpoint pos_bytes (p : positive) : bytes :=
  match p with xH => [] | xO p => z2b 0 :: pos_bytes p | xI p => z2b 1 :: pos_bytes p end.
Fixpoint bytes_pos (s : bytes) : positive :=
  match s with [] => xH | c :: s => if bool_decide (c = z2b 0) then xO (bytes_pos s) else xI (bytes_pos s) end.
Lemma bytes_pos_bytes p : bytes_pos (pos_bytes p) = p.
Proof. induction p as [p IH|p IH|]; cbn [pos_bytes bytes_pos]; [|by rewrite bool_decide_true, IH|done]. by rewrite bool_decide_false, IH. Qed.

Definition tuple_of (s : NetworkSecret) : list Z * list Z * Z := (b2z <$> Secret s, b2z <$> Network s, Expire s).
Definition of_tuple (t : list Z * list Z * Z) : NetworkSecret := MkNetworkSecret (z2b <$> t.1.1) (z2b <$> t.1.2) t.2.
Lemma of_tuple_of s : of_tuple (tuple_of s) = s.
Proof.
  assert (H : forall b : bytes, z2b <$> (b2z <$> b) = b)
    by (induction b as [|c b IH]; [done|]; cbn [fmap list_fmap]; by rewrite z2b_b2z, IH).
  destruct s as [sec net e]. unfold of_tuple, tuple_of. cbn. by rewrite !H.
Qed.
#[local] Instance toy_json : json_secret := {|
  json_enc s := pos_bytes (encode (tuple_of s));
  json_dec b := of_tuple <$> decode (bytes_pos b)
|}.
#[local] Instance toy_json_ok : json_secret_ok toy_json.
Proof. intros s. simpl. rewrite bytes_pos_bytes, decode_encode. simpl. by rewrite of_tuple_of. Qed.

Definition cfg0 : Config :=
  match createConfig (MkParsed (MkConfig (bs "100.99.0.1/24") (bs "fd00::1/64") 1371 (bs "pg0") [] []
    defaultDiscoConfig [] 29877 [] [] [] (bs "wss://example.org/pg") false [] [] [] false false)
    [] [] [] [bs "role=db"] (bs "aescbc") true true) with (c, _, _) => c end.
Definition no_files : files := MkFiles ∅ (fun _ => true) (fun _ => true).
Definition joined0 : NetworkSecret := MkNetworkSecret (bs "s") (bs "home") 1000.

Lemma login_remembered_witness :
  (lo_asked (loginIfNecessary cfg0 (Some (bs "/root")) 10 (Ok joined0) no_files) = true ->
     cfg_Secret cfg0 = [] /\ exists p, secret_path cfg0 (Some (bs "/root")) = Some p /\
       (content no_files !! p = None \/ exists s, file_get (MkSecretFile p no_files) = Ok s /\ Expire s <= 10)) /\
  (forall s st now' joined',
     let o := loginIfNecessary cfg0 (Some (bs "/root")) 10 (Ok s) no_files in
     lo_asked o = true -> lo_store o = Ok st ->
     secret_of st (lo_files o) = Ok s /\
     let o' := loginIfNecessary cfg0 (Some (bs "/root")) now' joined' (lo_files o) in
     lo_asked o' = bool_decide (Expire s <= now') /\ (now' < Expire s -> lo_store o' = Ok st /\ lo_files o' = lo_files o)).
Proof. exact (login_remembered cfg0 (Some (bs "/root")) 10 (Ok joined0) no_files). Defined.

Example asked_once :
  let o := loginIfNecessary cfg0 (Some (bs "/root")) 10 (Ok joined0) no_files in
  lo_asked o = true /\ lo_store o = Ok (InFile (bs "/root/.peerguard_network_secret.json")) /\
  lo_asked (loginIfNecessary cfg0 (Some (bs "/root")) 999 (Err []) (lo_files o)) = false /\
  lo_asked (loginIfNecessary cfg0 (Some (bs "/root")) 1000 (Err []) (lo_files o)) = true.
Proof. vm_compute. done. Qed.

(** Keys are their own text. *)
Definition toy_options : option (list (Option_ unit)) * ignore_state :=
  p2pOptions (S := unit) (Priv := bytes) (fun b => b) (fun b => b) Some (fun k => k) (fun _ _ => None) (fun _ => tt)
    cfg0 (bs "v1") (bs "host") (bs "7") (Some (bs "alice")) (Ignore [] [] []).
Definition toy_opts : list (Option_ unit) * ignore_state :=
  match toy_options with (Some o, ig) => (o, ig) | (None, ig) => ([], ig) end.
Lemma toy_options_some : toy_options = (Some toy_opts.1, toy_opts.2).
Proof.
  assert (H : match toy_options.1 with Some _ => true | None => false end = true) by (vm_compute; reflexivity).
  unfold toy_opts. by destruct toy_options as [[o|] ig].
Qed.
Definition announced_cfg : P2p.Config unit :=
  match configure toy_opts.1 (default_config (fun b => b) (bs "rnd")) with Ok c => c | _ => default_config (fun b => b) [] end.
Definition lru0 {K V : Type} `{Countable K} : LruCache.Cache K V := LruCache.MkCache 1024 ∅ [] ∅ 0.
Definition nic0 : Nic.VirtualNIC := Nic.MkNIC lru0 lru0 [].
Definition fd1 : IP := [z2b 253] ++ repeat (z2b 0) 14 ++ [z2b 1].

Lemma address_leads_to_node_witness :
  (Nic.GetPeer [] (ip_String fd1) (onPeerUp (bs "alice") (Metadata (PeerInfo announced_cfg)) nic0)).1 = Some (bs "alice").
Proof.
  refine (address_leads_to_node (S := unit) (Priv := bytes) (fun b => b) (fun b => b) Some (fun k => k) (fun _ _ => None) (fun _ => tt)
    cfg0 (bs "v1") (bs "host") (bs "7") (Some (bs "alice")) (Ignore [] [] []) toy_opts.1 toy_opts.2 (bs "rnd")
    announced_cfg nic0 [] (NIC_IPv6 cfg0) fd1 [] toy_options_some _ _ _ _ _).
  - vm_compute. reflexivity.
  - right. reflexivity.
  - split; [discriminate|]. right. split; [vm_compute; reflexivity|]. split; [reflexivity|discriminate].
  - apply (LruCache.repr_New 1024). reflexivity.
  - reflexivity.
Defined.

Example modes : P2pTransportMode cfg0 = MODE_FORCE_PEER_RELAY /\ rootlessMode cfg0 = false.
Proof. done. Qed.
End Examples.
