(* ===== verification/Card.v ===== *)
(** * Card: the network card of the rootless mode ([vpn/nic/gvisor/gvisor.go])

    A [GvisorCard] stands between the packet loops and a gVisor stack.  The stack
    is outside: [calls] records what it is asked for, and a read is given what its
    endpoint answers.  The card is set up by the first operation that uses it, from
    the prefixes of the configuration, which the daemon has checked in another
    way ([Daemon.p2pOptions]). *)

From S2P Require Import Prelude Text Netip Lru Disco DiscoUdp P2p Vpn Daemon.

(** ** The card *)

Inductive stack_call :=
| CreateNIC (mtu : Z)
| AddProtocolAddress (addr : bytes) (prefixLen : Z)
| AddRoute (net mask : bytes)
| InjectInbound (v4 : bool) (packet : bytes)
| RemoveAddress (addr : bytes)
| RemoveRoutes
| CloseEndpoint.

(** [initOnce] and [closeOnce] are done; the endpoint [ep] is made with the card. *)
Record GvisorCard := MkCard {
  init_done : bool; close_done : bool; ep : bool; addr4 : bytes; addr6 : bytes; calls : list stack_call
}.
Definition new_card : GvisorCard := MkCard false false false [] [] [].

Definition call (x : stack_call) (g : GvisorCard) : GvisorCard :=
  MkCard (init_done g) (close_done g) (ep g) (addr4 g) (addr6 g) (calls g ++ [x]).
Definition set_addr4 (a : bytes) (g : GvisorCard) : GvisorCard :=
  MkCard (init_done g) (close_done g) (ep g) a (addr6 g) (calls g).
Definition set_addr6 (a : bytes) (g : GvisorCard) : GvisorCard :=
  MkCard (init_done g) (close_done g) (ep g) (addr4 g) a (calls g).

Abbreviation CardM := (GoM GvisorCard Empty_set).

(** The conversion [[n]byte(b)] of a slice: it panics when the slice is shorter. *)
Definition to_array (n : nat) (b : bytes) : res Empty_set bytes :=
  if bool_decide (n <= length b)%nat then Ok (take n b) else Panic.

(** [ipnet.Mask.Size()] *)
Definition ones (mask : bytes) : Z := default 0 (mask_len mask).

(** The address and the route of one family; [To4] of an address of another
    family is nil. *)
Definition init_ipv4 (prefix : bytes) : CardM unit :=
  if bool_decide (prefix = []) then mret tt
  else match ParseCIDR prefix with
       | None => panic
       | Some (ip, ipnet) =>
           a ← lift (to_array 4 (default [] (To4 ip)));
           _ ← modify (set_addr4 a);
           _ ← modify (call (AddProtocolAddress a (ones (net_Mask ipnet))));
           n ← lift (to_array 4 (default [] (To4 (net_IP ipnet))));
           modify (call (AddRoute n (net_Mask ipnet)))
       end.
Definition init_ipv6 (prefix : bytes) : CardM unit :=
  if bool_decide (prefix = []) then mret tt
  else match ParseCIDR prefix with
       | None => panic
       | Some (ip, ipnet) =>
           a ← lift (to_array 16 ip);
           _ ← modify (set_addr6 a);
           _ ← modify (call (AddProtocolAddress a (ones (net_Mask ipnet))));
           n ← lift (to_array 16 (net_IP ipnet));
           modify (call (AddRoute n (net_Mask ipnet)))
       end.

(** [init], with its [initOnce]. *)
Section Operations.
Context (cfg_IPv4 cfg_IPv6 : bytes) (cfg_MTU : Z).

Definition start_init (g : GvisorCard) : GvisorCard :=
  MkCard true (close_done g) true (addr4 g) (addr6 g)
    (calls g ++ [CreateNIC (u32 (if bool_decide (cfg_MTU = 0) then 1500 else cfg_MTU))]).
Definition init : CardM unit :=
  done ← gets init_done;
  if (done : bool) then mret tt
  else _ ← modify start_init; _ ← init_ipv4 cfg_IPv4; init_ipv6 cfg_IPv6.

Definition Write (p : Packet.Packet) : CardM unit :=
  _ ← init;
  v ← lift (Packet.Ver p);
  modify (call (InjectInbound (bool_decide (v = 4)) (Packet.AsBytes p))).

(** [Read]: [answer] is what the endpoint gives, nothing when it is closed; the
    packet is what [nic.GetPacket] is given. *)
Definition Read (answer : option bytes) : CardM (option bytes) := _ ← init; mret answer.
End Operations.

(** [Close]; [stack] is whether the card has one. *)
Definition Close (stack : bool) (g : GvisorCard) : GvisorCard :=
  if close_done g then g
  else
    let removed := if stack then
      (if bool_decide (addr4 g = []) then [] else [RemoveAddress (addr4 g)]) ++
      (if bool_decide (addr6 g = []) then [] else [RemoveAddress (addr6 g)]) ++ [RemoveRoutes] else [] in
    MkCard (init_done g) true (ep g) (addr4 g) (addr6 g)
      (calls g ++ removed ++ if ep g then [CloseEndpoint] else []).

(** ** Lemmas *)

Lemma to_array_exact n b : length b = n -> to_array n b = Ok b.
Proof. intros <-. unfold to_array. rewrite bool_decide_true by lia. by rewrite take_ge by lia. Qed.

Lemma to_array_short n b : (length b < n)%nat -> to_array n b = Panic.
Proof. intros Hl. unfold to_array. by rewrite bool_decide_false by lia. Qed.

Lemma ip_Mask_length x m : length x = length m -> length m <> 4%nat -> ip_Mask x m = zip_with band x m.
Proof.
  intros Hl Hm. unfold ip_Mask. rewrite (bool_decide_false (length m = 4%nat /\ _)) by (intros [? _]; done).
  by rewrite bool_decide_true.
Qed.

Lemma ip_Mask_4 b m : length b = 4%nat -> length m = 4%nat -> ip_Mask (v4InV6Prefix ++ b) m = zip_with band b m.
Proof.
  intros Hb Hm. unfold ip_Mask. rewrite (bool_decide_true (length m = 4%nat /\ _)).
  2:{ split; [done|]. split; [by rewrite length_app, Hb|done]. }
  change (drop 12 (v4InV6Prefix ++ b)) with b. by rewrite bool_decide_true by congruence.
Qed.

Lemma CIDRMask_4 n : length (CIDRMask n 32) = 4%nat.
Proof. unfold CIDRMask. by rewrite length_fmap, length_seq. Qed.
Lemma CIDRMask_16 n : length (CIDRMask n 128) = 16%nat.
Proof. unfold CIDRMask. by rewrite length_fmap, length_seq. Qed.

(** The mask of an address that stands for an IPv4 address keeps what marks it as
    such exactly from 96 bits on. *)
Lemma mapped_mask n :
  0 <= n <= 128 ->
  bool_decide (zip_with band v4InV6Prefix (take 12 (CIDRMask n 128)) = v4InV6Prefix) = bool_decide (96 <= n).
Proof.
  intros Hn. assert (Hall : forallb (fun k => Bool.eqb
      (bool_decide (zip_with band v4InV6Prefix (take 12 (CIDRMask k 128)) = v4InV6Prefix)) (bool_decide (96 <= k))) (seqZ 0 129) = true)
    by (vm_compute; reflexivity).
  rewrite forallb_forall in Hall. apply Bool.eqb_prop, Hall, list_elem_of_In, elem_of_seqZ. lia.
Qed.

Lemma To4_masked b n :
  length b = 16%nat -> take 12 b = v4InV6Prefix -> 0 <= n <= 128 ->
  is_Some (To4 (ip_Mask b (CIDRMask n 128))) <-> 96 <= n.
Proof.
  intros Hb Hp Hn. rewrite ip_Mask_length by (rewrite CIDRMask_16; [exact Hb|done] || by rewrite CIDRMask_16).
  rewrite To4_16 by (rewrite length_zip_with, Hb, CIDRMask_16; done).
  rewrite zip_with_take, Hp. pose proof (mapped_mask n Hn) as Hm.
  destruct (decide (96 <= n)) as [H96|H96].
  - rewrite (bool_decide_true (96 <= n)) in Hm by done. rewrite Hm. split; [done|eauto].
  - rewrite (bool_decide_false (96 <= n)) in Hm by done. rewrite Hm. split; [by intros [? ?]|done].
Qed.

Lemma ParsePrefix_length s a :
  ParsePrefix s = Some a ->
  match a with Addr4 b => length b = 4%nat | Addr6 b => length b = 16%nat | AddrZero => False end.
Proof.
  unfold ParsePrefix. intros (i & _ & H)%bind_Some. apply bind_Some in H as (a' & Ha & H).
  destruct (bool_decide _ && _); [done|]. apply bind_Some in H as (n & _ & H). case_bool_decide; [|done]. injection H as <-.
  unfold ParseAddr in Ha. destruct (List.find _ _); [|done]. case_bool_decide; [|case_bool_decide; [|done]].
  - apply fmap_Some in Ha as (x & Hb & ->). by apply parse_ip4_length in Hb.
  - apply fmap_Some in Ha as (x & Hb & ->). by apply parse_ip6_length in Hb.
Qed.

(** What a family's part of [init] comes to on a prefix that the daemon accepts. *)
Definition ipv4_ok (prefix : bytes) : Prop :=
  match ParsePrefix prefix, prefix_len prefix with
  | Some (Addr4 _), _ => True
  | Some (Addr6 b), Some n => take 12 b = v4InV6Prefix /\ 96 <= n
  | _, _ => False
  end.
Definition ipv6_ok (prefix : bytes) : Prop := match ParsePrefix prefix with Some (Addr6 _) => True | _ => False end.

(** The address that a family's part gives the card. *)
Definition card_addr4 (prefix : bytes) : bytes :=
  match ParsePrefix prefix with Some (Addr4 b) => b | Some (Addr6 b) => drop 12 b | _ => [] end.
Definition card_addr6 (prefix : bytes) : bytes := match ParsePrefix prefix with Some (Addr6 b) => b | _ => [] end.

Lemma init_ipv4_run prefix a g :
  ParsePrefix prefix = Some a ->
  (ipv4_ok prefix -> (init_ipv4 prefix g).1 = Ok tt) /\ (~ ipv4_ok prefix -> (init_ipv4 prefix g).1 = Panic) /\
  (ipv4_ok prefix -> addr4 (init_ipv4 prefix g).2 = card_addr4 prefix) /\ addr6 (init_ipv4 prefix g).2 = addr6 g.
Proof.
  intros Ha. destruct (ParsePrefix_ParseCIDR _ _ Ha) as (n & Hn & Hr & Hc). pose proof (ParsePrefix_length _ _ Ha) as Hl.
  unfold init_ipv4, ipv4_ok, card_addr4. rewrite Ha, Hn, Hc.
  rewrite bool_decide_false by (intros ->; done). cbn [net_IP net_Mask].
  destruct a as [|b|b]; [done| |]; cbn beta iota in Hl.
  - assert (H4 : To4 (As16 (Addr4 b)) = Some b)
      by (cbn [As16]; rewrite To4_16, bool_decide_true by (done || (rewrite length_app, Hl; done)); done).
    rewrite H4. cbn [from_option id]. rewrite (to_array_exact 4 b) by done. cbn [BitLen].
    assert (Hm : To4 (ip_Mask (As16 (Addr4 b)) (CIDRMask n 32)) = Some (zip_with band b (CIDRMask n 32))).
    { cbn [As16]. rewrite ip_Mask_4 by (done || apply CIDRMask_4). apply To4_4. by rewrite length_zip_with, CIDRMask_4, Hl. }
    rewrite Hm. cbn [from_option id]. rewrite (to_array_exact 4 (zip_with _ _ _)) by (by rewrite length_zip_with, CIDRMask_4, Hl).
    cbn. done.
  - cbn [As16 BitLen] in *. destruct (decide (take 12 b = v4InV6Prefix)) as [Hmap|Hmap].
    + rewrite (To4_16 b), bool_decide_true by done. cbn [from_option id]. rewrite (to_array_exact 4 (drop 12 b)) by (by rewrite length_drop, Hl).
      pose proof (To4_masked b n Hl Hmap Hr) as Hmask.
      destruct (To4 (ip_Mask b (CIDRMask n 128))) as [x|] eqn:Ex.
      * pose proof (To4_length _ _ Ex) as Hx. cbn [from_option id]. rewrite (to_array_exact 4 x) by done. cbn.
        assert (96 <= n) by (apply Hmask; eauto). split_and!; try done. by intros [].
      * assert (~ 96 <= n) by (intros Hc96; apply Hmask in Hc96 as [? ?]; done). cbn [from_option id].
        rewrite (to_array_short 4 []) by (simpl; lia). cbn. split_and!; try done; by intros [].
    + rewrite (To4_16 b), bool_decide_false by done. cbn [from_option id].
      rewrite (to_array_short 4 []) by (simpl; lia). cbn. split_and!; try done; by intros [].
Qed.

Lemma init_ipv6_run prefix a g :
  ParsePrefix prefix = Some a ->
  (ipv6_ok prefix -> (init_ipv6 prefix g).1 = Ok tt) /\ (~ ipv6_ok prefix -> (init_ipv6 prefix g).1 = Panic) /\
  (ipv6_ok prefix -> addr6 (init_ipv6 prefix g).2 = card_addr6 prefix) /\ addr4 (init_ipv6 prefix g).2 = addr4 g.
Proof.
  intros Ha. destruct (ParsePrefix_ParseCIDR _ _ Ha) as (n & Hn & Hr & Hc). pose proof (ParsePrefix_length _ _ Ha) as Hl.
  unfold init_ipv6, ipv6_ok, card_addr6. rewrite Ha, Hc.
  rewrite bool_decide_false by (intros ->; done). cbn [net_IP net_Mask].
  destruct a as [|b|b]; [done| |]; cbn beta iota in Hl; cbn [As16 BitLen].
  - rewrite (to_array_exact 16 (_ ++ b)) by (rewrite length_app, Hl; done).
    rewrite (to_array_short 16 (ip_Mask _ _)); [cbn; split_and!; try done; by intros []|].
    rewrite ip_Mask_4 by (done || apply CIDRMask_4). rewrite length_zip_with, CIDRMask_4, Hl. simpl. lia.
  - rewrite (to_array_exact 16 b) by done. rewrite ip_Mask_length by (rewrite CIDRMask_16; [exact Hl|done] || by rewrite CIDRMask_16).
    rewrite (to_array_exact 16 (zip_with _ _ _)) by (by rewrite length_zip_with, CIDRMask_16, Hl). cbn. done.
Qed.

(** A configuration that the daemon accepts has prefixes that parse. *)
Lemma accepted_prefixes {S Priv : Type} (b58e b58d : bytes -> bytes) (newkey : bytes -> option Priv)
    (pub : Priv -> bytes) (ecdh : Priv -> bytes -> option bytes) (algo : (bytes -> option bytes) -> S)
    v version hostname st key ig opts ig' :
  p2pOptions b58e b58d newkey pub ecdh algo v version hostname st key ig = (Some opts, ig') ->
  (NIC_IPv4 v <> [] -> is_Some (ParsePrefix (NIC_IPv4 v))) /\ (NIC_IPv6 v <> [] -> is_Some (ParsePrefix (NIC_IPv6 v))).
Proof.
  assert (Hal : forall prefix (o : bytes -> Option_ S) i os i', alias_option prefix o i = (Some os, i') ->
    prefix <> [] -> is_Some (ParsePrefix prefix)).
  { unfold alias_option. intros prefix o i os i' H Hne. rewrite bool_decide_false in H by done. by destruct (ParsePrefix prefix). }
  unfold p2pOptions. destruct (alias_option (NIC_IPv4 v) _ _) as [[o4|] ig4] eqn:E4; [|done].
  destruct (alias_option (NIC_IPv6 v) _ _) as [[o6|] ig6] eqn:E6; [|done]. intros _. split; by eapply Hal.
Qed.

(** One family's part, on a prefix that is missing or parses. *)
Lemma init_ipv4_cases prefix g :
  (prefix <> [] -> is_Some (ParsePrefix prefix)) ->
  let r := init_ipv4 prefix g in
  (r.1 = Panic /\ prefix <> [] /\ ~ ipv4_ok prefix) \/
  (r.1 = Ok tt /\ (prefix = [] \/ ipv4_ok prefix /\ addr4 r.2 = card_addr4 prefix)).
Proof.
  intros Hp r. destruct (decide (prefix = [])) as [He|He].
  - right. unfold r, init_ipv4. rewrite bool_decide_true by done. split; [done|by left].
  - destruct (Hp He) as [a Ha]. destruct (init_ipv4_run prefix a g Ha) as (H1 & H2 & H3 & _).
    assert (Hd : Decision (ipv4_ok prefix)) by (unfold ipv4_ok; rewrite Ha; repeat case_match; apply _).
    destruct (decide (ipv4_ok prefix)) as [Hok|Hok]; [right; split; [by apply H1|right; split; [done|by apply H3]]|].
    left. split; [by apply H2|done].
Qed.
Lemma init_ipv6_cases prefix g :
  (prefix <> [] -> is_Some (ParsePrefix prefix)) ->
  let r := init_ipv6 prefix g in
  (r.1 = Panic /\ prefix <> [] /\ ~ ipv6_ok prefix) \/
  (r.1 = Ok tt /\ addr4 r.2 = addr4 g /\ (prefix = [] \/ ipv6_ok prefix /\ addr6 r.2 = card_addr6 prefix)).
Proof.
  intros Hp r. destruct (decide (prefix = [])) as [He|He].
  - right. unfold r, init_ipv6. rewrite bool_decide_true by done. split; [done|]. split; [done|by left].
  - destruct (Hp He) as [a Ha]. destruct (init_ipv6_run prefix a g Ha) as (H1 & H2 & H3 & H4).
    assert (Hd : Decision (ipv6_ok prefix)) by (unfold ipv6_ok; rewrite Ha; repeat case_match; apply _).
    destruct (decide (ipv6_ok prefix)) as [Hok|Hok]; [right|left; split; [by apply H2|done]].
    split; [by apply H1|]. split; [done|]. right. split; [done|by apply H3].
Qed.

Lemma destination_card prefix ip :
  destination prefix ip ->
  (ipv4_ok prefix -> card_addr4 prefix = ip) /\ (ipv6_ok prefix -> card_addr6 prefix = ip).
Proof.
  unfold ipv4_ok, ipv6_ok, card_addr4, card_addr6.
  intros [_ [[-> _]|(-> & _ & Hm)]]; split; try done. destruct (prefix_len prefix); [|done]. by intros [? _].
Qed.

(** The rootless card panics on some configurations that the daemon accepts:
    exactly when the IPv4 prefix is one of IPv6 (other than at least 96 bits of an
    IPv4-mapped address) or the IPv6 prefix is one of IPv4, for the families of the
    flags are not checked.  Otherwise the card has the addresses of the prefixes,
    those to which the node's peers send ([Daemon.address_leads_to_node]). *)
Theorem card_init_panic_iff {S Priv : Type} (b58e b58d : bytes -> bytes) (newkey : bytes -> option Priv)
    (pub : Priv -> bytes) (ecdh : Priv -> bytes -> option bytes) (algo : (bytes -> option bytes) -> S)
    v version hostname st key ig opts ig' :
  p2pOptions b58e b58d newkey pub ecdh algo v version hostname st key ig = (Some opts, ig') ->
  let r := init (NIC_IPv4 v) (NIC_IPv6 v) (NIC_MTU v) new_card in
  (r.1 = Panic <-> (NIC_IPv4 v <> [] /\ ~ ipv4_ok (NIC_IPv4 v)) \/ (NIC_IPv6 v <> [] /\ ~ ipv6_ok (NIC_IPv6 v))) /\
  (r.1 = Ok tt -> forall ip,
     (destination (NIC_IPv4 v) ip -> addr4 r.2 = ip) /\ (destination (NIC_IPv6 v) ip -> addr6 r.2 = ip)).
Proof.
  intros Ho r. destruct (accepted_prefixes _ _ _ _ _ _ _ _ _ _ _ _ _ _ Ho) as [P4 P6]. unfold r, init.
  rewrite gets_bind. cbn [init_done new_card]. rewrite modify_bind. set (g0 := start_init _ _). rewrite gom_bind_run.
  destruct (init_ipv4_cases _ g0 P4) as [(E4 & N4 & O4)|(E4 & O4)]; destruct (init_ipv4 (NIC_IPv4 v) g0) as [r4 g4];
    cbn [fst snd] in *; subst r4; cbn.
  { split; [split; [by left|done]|done]. }
  destruct (init_ipv6_cases _ g4 P6) as [(E6 & N6 & O6)|(E6 & K6 & O6)]; rewrite E6.
  { split; [split; [by right|done]|done]. }
  split.
  - split; [done|]. intros [[? ?]|[? ?]]; [destruct O4 as [?|[? _]]|destruct O6 as [?|[? _]]]; done.
  - intros _ ip. split; intros Hd; destruct (destination_card _ _ Hd) as [D4 D6]; destruct Hd as [Hne _].
    + rewrite K6. destruct O4 as [?|[? ->]]; [done|by apply D4].
    + destruct O6 as [?|[? ->]]; [done|by apply D6].
Qed.

(** ** Witness *)

Module Examples.
Import Daemon.Examples.

(** The prefixes in the wrong flags: accepted by the daemon, and the card panics. *)
Definition swapped : Config :=
  MkConfig (bs "fd00::1/64") (bs "100.99.0.1/24") 1371 (bs "pg0") [] [] defaultDiscoConfig [] 29877 [] [] []
    (bs "wss://example.org/pg") false MODE_DEFAULT [bs "tcp://127.0.0.1:80"] [] false false.
Definition options (v : Config) : option (list (Option_ unit)) * ignore_state :=
  p2pOptions (S := unit) (Priv := bytes) (fun b => b) (fun b => b) Some (fun k => k) (fun _ _ => None) (fun _ => tt)
    v (bs "v1") (bs "host") (bs "7") (Some (bs "alice")) (Ignore [] [] []).
Definition options_of (v : Config) : list (Option_ unit) := default [] (options v).1.
Lemma swapped_accepted : options swapped = (Some (options_of swapped), (options swapped).2).
Proof.
  assert (H : match (options swapped).1 with Some _ => true | None => false end = true) by (vm_compute; reflexivity).
  unfold options_of. by destruct (options swapped) as [[o|] ig].
Qed.

Lemma card_init_panic_iff_witness :
  (init (bs "fd00::1/64") (bs "100.99.0.1/24") 1371 new_card).1 = Panic.
Proof.
  refine (proj2 (proj1 (card_init_panic_iff (S := unit) (Priv := bytes) (fun b => b) (fun b => b) Some (fun k => k)
    (fun _ _ => None) (fun _ => tt) swapped (bs "v1") (bs "host") (bs "7") (Some (bs "alice")) (Ignore [] [] [])
    (options_of swapped) (options swapped).2 swapped_accepted)) _).
  right. split; [discriminate|]. vm_compute. exact (fun f => f).
Defined.

Example card_runs :
  let r := init (NIC_IPv4 cfg0) (NIC_IPv6 cfg0) (NIC_MTU cfg0) new_card in
  r.1 = Ok tt /\
  calls (Close true r.2) =
    [CreateNIC 1371; AddProtocolAddress [z2b 100; z2b 99; z2b 0; z2b 1] 24;
     AddRoute [z2b 100; z2b 99; z2b 0; z2b 0] (CIDRMask 24 32); AddProtocolAddress fd1 64;
     AddRoute ([z2b 253] ++ repeat (z2b 0) 15) (CIDRMask 64 128);
     RemoveAddress [z2b 100; z2b 99; z2b 0; z2b 1]; RemoveAddress fd1; RemoveRoutes; CloseEndpoint].
Proof. vm_compute. done. Qed.
End Examples.
