(* ===== verification/Relay.v ===== *)
(** * Relay: two connections that are joined ([rootless/forward.go])

    [relay] copies between an accepted connection and its backend: a goroutine
    copies what comes back, the caller copies what goes there and closes both
    connections when that ends.  The remote ends send, finish and fail at any time;
    [sent] remembers what has come from them.  Both connections are streams (TCP),
    or both carry datagrams: a forward of [udp], or the UDP side of the proxy. *)

From S2P Require Import Prelude.

Inductive kind := Stream | Datagram.

(** The buffer of [io.Copy]. *)
Definition copy_size : nat := 32768.

(** An end of the relay: what its remote has sent - the datagrams, or pieces of a
    stream whose borders mean nothing -, what of it is not read yet, whether the
    remote has finished sending, and what was written to it. *)
Record conn := MkConn { sent : list bytes; unread : list bytes; fin : bool; written : list bytes }.

(** [io.Copy]: between two reads, with a chunk to write, at the end of the source,
    or failed. *)
Inductive copier := Reading | Writing (chunk : bytes) | AtEOF | Failed.

Record relaying := MkRelaying { c1 : conn; c2 : conn; there : copier; back : copier; closed : bool }.

(** What both remote ends have sent before. *)
Definition start (a b : list bytes) : relaying := MkRelaying (MkConn a a false []) (MkConn b b false []) Reading Reading false.

Definition send (data : bytes) (c : conn) : conn := MkConn (sent c ++ [data]) (unread c ++ [data]) (fin c) (written c).
Definition finish (c : conn) : conn := MkConn (sent c) (unread c) true (written c).
Definition take_chunk (rest : list bytes) (c : conn) : conn := MkConn (sent c) rest (fin c) (written c).
Definition put (data : bytes) (c : conn) : conn := MkConn (sent c) (unread c) (fin c) (written c ++ [data]).

(** A read with a buffer of [copy_size]: some bytes that have come of a stream, or
    the next datagram, of which what does not fit is lost. *)
Inductive reads (k : kind) (queue : list bytes) : bytes -> list bytes -> Prop :=
| read_stream chunk rest : k = Stream -> chunk <> [] -> (length chunk <= copy_size)%nat -> concat queue = chunk ++ rest -> reads k queue chunk [rest]
| read_datagram d rest : k = Datagram -> queue = d :: rest -> reads k queue (take copy_size d) rest.

(** A step of [io.Copy] from [src] to [dst]: what a read gives is written, unless it
    is empty; a write to a stream takes all or, on an error, a beginning.  A stream
    that is closed takes nothing; the connections of [UDPListener] are closed for
    reading only. *)
Inductive copy_step (k : kind) (is_closed : bool) : conn * conn * copier -> conn * conn * copier -> Prop :=
| copy_read src dst chunk rest :
    is_closed = false -> reads k (unread src) chunk rest ->
    copy_step k is_closed (src, dst, Reading) (take_chunk rest src, dst, if bool_decide (chunk = []) then Reading else Writing chunk)
| copy_write src dst chunk :
    (is_closed = true -> k = Datagram) -> copy_step k is_closed (src, dst, Writing chunk) (src, put chunk dst, Reading)
| copy_eof src dst :
    k = Stream -> is_closed = false -> concat (unread src) = [] -> fin src = true ->
    copy_step k is_closed (src, dst, Reading) (src, dst, AtEOF)
| copy_read_error src dst : copy_step k is_closed (src, dst, Reading) (src, dst, Failed)
| copy_write_error src dst chunk : copy_step k is_closed (src, dst, Writing chunk) (src, dst, Failed)
| copy_write_short src dst chunk part rest :
    k = Stream -> is_closed = false -> chunk = part ++ rest -> copy_step k is_closed (src, dst, Writing chunk) (src, put part dst, Failed).

Definition over (c : copier) : Prop := c = AtEOF \/ c = Failed.

Inductive relay_step (k : kind) : relaying -> relaying -> Prop :=
| send1 x data : fin (c1 x) = false -> relay_step k x (MkRelaying (send data (c1 x)) (c2 x) (there x) (back x) (closed x))
| send2 x data : fin (c2 x) = false -> relay_step k x (MkRelaying (c1 x) (send data (c2 x)) (there x) (back x) (closed x))
| finish1 x : relay_step k x (MkRelaying (finish (c1 x)) (c2 x) (there x) (back x) (closed x))
| finish2 x : relay_step k x (MkRelaying (c1 x) (finish (c2 x)) (there x) (back x) (closed x))
| copy_there x a b c : copy_step k (closed x) (c1 x, c2 x, there x) (a, b, c) -> relay_step k x (MkRelaying a b c (back x) (closed x))
| copy_back x a b c : copy_step k (closed x) (c2 x, c1 x, back x) (b, a, c) -> relay_step k x (MkRelaying a b (there x) c (closed x))
(** The deferred calls, once the caller's [io.Copy] has returned. *)
| close_both x : over (there x) -> relay_step k x (MkRelaying (c1 x) (c2 x) (there x) (back x) true).

(** What a relay makes of what was sent: the bytes of a stream, or the datagrams,
    each cut to [copy_size], without the empty ones. *)
Definition cut (ds : list bytes) : list bytes := filter (fun d => d <> []) (take copy_size <$> ds).
Definition passes (k : kind) (sent written : list bytes) : Prop :=
  match k with
  | Stream => concat written `prefix_of` concat sent
  | Datagram => written `prefix_of` cut sent
  end.

(** ** Lemmas

    Streams and datagrams alike: the units in which a relay keeps the order, the
    bytes of a stream and the datagrams as they are passed on. *)
Definition units (k : kind) (l : list bytes) : list bytes :=
  match k with Stream => (fun b => [b]) <$> concat l | Datagram => cut l end.

Lemma cut_app a b : cut (a ++ b) = cut a ++ cut b.
Proof. unfold cut. by rewrite fmap_app, filter_app. Qed.

Lemma units_app k a b : units k (a ++ b) = units k a ++ units k b.
Proof. destruct k; cbn [units]; [by rewrite concat_app, fmap_app|apply cut_app]. Qed.

Lemma units_read k queue chunk rest : reads k queue chunk rest -> units k queue = units k [chunk] ++ units k rest.
Proof.
  destruct 1 as [chunk rest -> _ _ H|d rest -> ->]; cbn [units].
  - cbn [concat]. by rewrite H, !app_nil_r, fmap_app.
  - change (d :: rest) with ([d] ++ rest). rewrite cut_app. f_equal. unfold cut. cbn [fmap list_fmap]. by rewrite take_take, Nat.min_id.
Qed.

Lemma units_empty k : units k [[]] = [].
Proof. by destruct k. Qed.

Lemma units_short part rest : units Stream [part ++ rest] = units Stream [part] ++ units Stream [rest].
Proof. cbn. by rewrite !app_nil_r, fmap_app. Qed.

(** What was written is of the form that a relay writes. *)
Definition formed (k : kind) (l : list bytes) : Prop := k = Datagram -> cut l = l.

Lemma formed_app k a b : formed k a -> formed k b -> formed k (a ++ b).
Proof. intros Ha Hb E. specialize (Ha E). specialize (Hb E). by rewrite cut_app, Ha, Hb. Qed.

Lemma formed_read k queue chunk rest : reads k queue chunk rest -> chunk <> [] -> formed k [chunk].
Proof.
  destruct 1 as [chunk rest -> _ _ _|d rest -> _]; intros Hne E; [done|].
  unfold cut. cbn [fmap list_fmap]. rewrite take_take, Nat.min_id. by rewrite filter_cons_True.
Qed.

(** What a copier has done: everything read is written or in hand; at the end of
    the source everything that was sent is written. *)
Definition copied (k : kind) (src dst : conn) (c : copier) : Prop :=
  formed k (written dst) /\
  match c with
  | Reading => units k (written dst) ++ units k (unread src) = units k (sent src)
  | Writing chunk => formed k [chunk] /\ units k (written dst) ++ units k [chunk] ++ units k (unread src) = units k (sent src)
  | AtEOF => k = Stream /\ units k (written dst) = units k (sent src) /\ fin src = true
  | Failed => units k (written dst) `prefix_of` units k (sent src)
  end.

Lemma copied_prefix k src dst c : copied k src dst c -> units k (written dst) `prefix_of` units k (sent src).
Proof.
  intros [_ H]. destruct c; cbn in H; [by exists (units k (unread src))| |by destruct H as (_ & -> & _)|done].
  destruct H as [_ H]. by exists (units k [chunk] ++ units k (unread src)).
Qed.

Lemma copied_eof k src dst : copied k src dst AtEOF -> k = Stream /\ concat (written dst) = concat (sent src).
Proof.
  intros [_ (-> & H & _)]. split; [done|]. cbn [units] in H. revert H. generalize (concat (written dst)) (concat (sent src)).
  intros l. induction l as [|b l IH]; intros [|b' l'] H; try done. injection H as -> H. f_equal. by apply IH.
Qed.

Lemma units_bytes l l' : units Stream l `prefix_of` units Stream l' -> concat l `prefix_of` concat l'.
Proof.
  cbn. generalize (concat l) (concat l'). clear. induction l as [|b l IH]; intros l' [r H]; [apply prefix_nil|].
  destruct l' as [|b' l']; [done|]. cbn in H. injection H as -> H. apply prefix_cons, IH. by exists r.
Qed.

Lemma copied_passes k src dst c : copied k src dst c -> passes k (sent src) (written dst).
Proof.
  intros H. pose proof (copied_prefix _ _ _ _ H) as Hp. destruct H as [Hf _]. destruct k; cbn [passes].
  - by apply units_bytes.
  - cbn in Hp. by rewrite (Hf eq_refl) in Hp.
Qed.

Lemma copied_step k z src dst c src' dst' c' :
  copy_step k z (src, dst, c) (src', dst', c') -> copied k src dst c ->
  copied k src' dst' c' /\ sent src' = sent src /\ fin src' = fin src /\ (sent dst', unread dst', fin dst') = (sent dst, unread dst, fin dst) /\
  written src' = written src.
Proof.
  inversion 1 as [? ? chunk rest _ Hr|? ? chunk _|? ? Hk _ Hu Hf| |? ? chunk|? ? chunk part rest Hk _ Hc]; subst; cbn; intros [Hw Hc'].
  - split_and!; try done. pose proof (units_read _ _ _ _ Hr) as Hu. case_bool_decide as He.
    + subst chunk. split; [done|]. cbn. rewrite units_empty in Hu. cbn in Hu. by rewrite <- Hu.
    + split; [done|]. cbn. split; [by eapply formed_read|]. by rewrite <- Hu.
  - destruct Hc' as [Hf Hc']. split_and!; try done. split; [by apply formed_app|]. cbn. by rewrite units_app, <- app_assoc.
  - split_and!; try done. split; [done|]. cbn [units] in Hc'. rewrite Hu in Hc'. cbn in Hc'. by rewrite app_nil_r in Hc'.
  - split_and!; try done. split; [done|]. cbn. by exists (units k (unread src')).
  - destruct Hc' as [Hf Hc']. split_and!; try done. split; [done|]. cbn. by exists (units k [chunk] ++ units k (unread src')).
  - destruct Hc' as [Hf Hc']. split_and!; try done. split; [by intros ?|]. cbn [written sent put].
    exists (units Stream [rest] ++ units Stream (unread src')).
    rewrite <- Hc', units_short, units_app, <- !app_assoc. done.
Qed.

(** The remote of the source goes on. *)
Lemma copied_send k src dst c data : fin src = false -> copied k src dst c -> copied k (send data src) dst c.
Proof.
  intros Hf [Hw H]. split; [done|]. destruct c; unfold send; cbn [sent unread fin written]; rewrite ?units_app.
  - by rewrite app_assoc, H.
  - destruct H as [Hc H]. split; [done|]. by rewrite <- H, <- !app_assoc.
  - destruct H as (_ & _ & H). congruence.
  - by apply prefix_app_r.
Qed.

Lemma copied_finish k src dst c : copied k src dst c -> copied k (finish src) dst c.
Proof. intros [Hw H]. split; [done|]. destruct c; cbn in *; try done. by destruct H as (? & ? & _). Qed.

(** Only [written] of the destination matters, and only the stream of the source. *)
Lemma copied_ext k src dst src' dst' c :
  written dst' = written dst -> (sent src', unread src', fin src') = (sent src, unread src, fin src) ->
  copied k src dst c -> copied k src' dst' c.
Proof. intros Hw [= Hs Hu Hf] [H1 H2]. unfold copied. rewrite Hw. split; [done|]. destruct c; by rewrite ?Hs, ?Hu, ?Hf. Qed.

Definition relay_inv (k : kind) (x : relaying) : Prop :=
  copied k (c1 x) (c2 x) (there x) /\ copied k (c2 x) (c1 x) (back x) /\ (closed x = true -> over (there x)).

Lemma over_stuck k z src dst c s : over c -> ~ copy_step k z (src, dst, c) s.
Proof. intros [->| ->] H; inversion H. Qed.

Lemma relay_inv_step k x y : relay_step k x y -> relay_inv k x -> relay_inv k y.
Proof.
  destruct 1 as [x d Hf|x d Hf|x|x|x a b c Hs|x a b c Hs|x Ho]; intros (H1 & H2 & H3); split_and!; cbn; try done.
  - by apply copied_send.
  - by apply copied_send.
  - by apply copied_finish.
  - by apply copied_finish.
  - by apply (copied_step _ _ _ _ _ _ _ _ Hs).
  - destruct (copied_step _ _ _ _ _ _ _ _ Hs H1) as (_ & _ & _ & Hd & Hw). by apply (copied_ext k (c2 x) (c1 x)).
  - intros Hc. destruct (over_stuck _ _ _ _ _ _ (H3 Hc) Hs).
  - destruct (copied_step _ _ _ _ _ _ _ _ Hs H2) as (_ & _ & _ & Hd & Hw). by apply (copied_ext k (c1 x) (c2 x)).
  - by apply (copied_step _ _ _ _ _ _ _ _ Hs).
Qed.

Lemma relay_reachable k a b x : rtc (relay_step k) (start a b) x -> relay_inv k x.
Proof.
  intros H. apply (rtc_invariant (relay_step k) (relay_inv k) (start a b) x); [|done|].
  - intros y z Hs. by apply relay_inv_step.
  - unfold relay_inv, copied. cbn. split_and!; try done; by destruct k.
Qed.

(** After the close only a datagram in hand is still written. *)
Definition last_words (k : kind) (x y : relaying) : Prop :=
  written (c2 y) = written (c2 x) /\
  (written (c1 y) = written (c1 x) /\ (back y = back x \/ over (back y)) \/
   k = Datagram /\ exists chunk, back x = Writing chunk /\ written (c1 y) = written (c1 x) ++ [chunk] /\ (back y = Reading \/ over (back y))).

Lemma closed_step k x y :
  relay_step k x y -> relay_inv k x -> closed x = true -> closed y = true /\ last_words k x y.
Proof.
  destruct 1 as [x d Hf|x d Hf|x|x|x a b c Hs|x a b c Hs|x Ho]; intros (_ & _ & H3) Hc; cbn;
    try (split; [done|]; split; [done|]; left; split; [done|]; by left).
  - destruct (over_stuck _ _ _ _ _ _ (H3 Hc) Hs).
  - split; [done|]. unfold last_words. cbn.
    inversion Hs as [? ? chunk rest Hz _|? ? chunk Hk|? ? _ Hz _ _| |? ? chunk|? ? chunk part rest _ Hz _]; subst; cbn; try congruence.
    + split; [done|]. right. split; [by apply Hk|]. exists chunk. split_and!; [done|done|by left].
    + split; [done|]. left. split; [done|]. right. by right.
    + split; [done|]. left. split; [done|]. right. by right.
Qed.

Lemma last_words_trans k x z y : last_words k x z -> last_words k z y -> last_words k x y.
Proof.
  unfold last_words, over. intros [H1 H] [H2 H']. split; [by rewrite H2|].
  destruct H as [[E Hb]|(Hk & ch & Hb & E & Hz)], H' as [[E' Hb']|(Hk' & ch' & Hb' & E' & Hy)].
  - left. split; [by rewrite E'|]. naive_solver congruence.
  - destruct Hb as [Hb|Hb]; [|naive_solver congruence].
    right. split; [done|]. exists ch'. rewrite <- Hb, E', E. done.
  - right. split; [done|]. exists ch. rewrite E', E. split_and!; [done..|]. naive_solver congruence.
  - naive_solver congruence.
Qed.

Lemma closed_final k x y : rtc (relay_step k) x y -> relay_inv k x -> closed x = true -> last_words k x y.
Proof.
  induction 1 as [x|x z y Hs _ IH]; intros Hi Hc; [split; [done|]; left; split; [done|]; by left|].
  destruct (closed_step k _ _ Hs Hi Hc) as (Hc' & Hl). eapply last_words_trans; [exact Hl|]. apply IH; [|done].
  by apply (relay_inv_step k x).
Qed.

(** ** Properties *)

(** C35. What a relay passes on, in order and once.  Of a stream each end gets a
    beginning of what the other end has sent, whatever the sizes of the reads; all
    of it when the copy in its direction has come to the end of the stream.  Of
    datagrams each end gets the first ones that the other end has sent, but for the
    empty ones, and each cut to 32 KiB.  The connections are closed only when the
    copy to the backend is over; until then the other copy goes on, and from the
    close on nothing is passed any more, except that a datagram that was already
    read is still written: what else the backend has sent by then is never
    written. *)
Theorem relay_exact k a b x :
  rtc (relay_step k) (start a b) x ->
  passes k (sent (c1 x)) (written (c2 x)) /\ passes k (sent (c2 x)) (written (c1 x)) /\
  (there x = AtEOF -> k = Stream /\ concat (written (c2 x)) = concat (sent (c1 x))) /\
  (back x = AtEOF -> k = Stream /\ concat (written (c1 x)) = concat (sent (c2 x))) /\
  (closed x = true -> over (there x)) /\
  (closed x = true -> forall y, rtc (relay_step k) x y ->
     written (c2 y) = written (c2 x) /\
     (written (c1 y) = written (c1 x) \/
      k = Datagram /\ exists chunk, back x = Writing chunk /\ written (c1 y) = written (c1 x) ++ [chunk])).
Proof.
  intros H. pose proof (relay_reachable _ _ _ _ H) as Hi. pose proof Hi as (H1 & H2 & H3). split_and!.
  - by eapply copied_passes.
  - by eapply copied_passes.
  - intros E. rewrite E in H1. by apply copied_eof in H1.
  - intros E. rewrite E in H2. by apply copied_eof in H2.
  - done.
  - intros Hc y Hy. destruct (closed_final k x y Hy Hi Hc) as [E [[E' _]|(Hk & ch & Hb & E' & _)]]; (split; [done|]); eauto 6.
Qed.

(** ** Examples: a client that finishes sending before it is answered *)

Module Examples.
Definition x0 : relaying := start [bs "ask"] [].
Definition x1 : relaying := MkRelaying (take_chunk [[]] (c1 x0)) (c2 x0) (Writing (bs "ask")) Reading false.
Definition x2 : relaying := MkRelaying (c1 x1) (put (bs "ask") (c2 x1)) Reading Reading false.
Definition x3 : relaying := MkRelaying (finish (c1 x2)) (c2 x2) Reading Reading false.
Definition x4 : relaying := MkRelaying (c1 x3) (c2 x3) AtEOF Reading false.
Definition x5 : relaying := MkRelaying (c1 x4) (c2 x4) AtEOF Reading true.
Definition x6 : relaying := MkRelaying (c1 x5) (send (bs "answer") (c2 x5)) AtEOF Reading true.

Lemma reach_x6 : rtc (relay_step Stream) x0 x6.
Proof.
  apply (rtc_l _ _ x1).
  { apply (copy_there _ x0), (copy_read _ _ _ _ (bs "ask")); [done|]. apply read_stream; [done..|apply Nat.leb_le; vm_compute; reflexivity|done]. }
  apply (rtc_l _ _ x2); [by apply (copy_there _ x1), copy_write|].
  apply (rtc_l _ _ x3); [apply finish1|].
  apply (rtc_l _ _ x4); [by apply (copy_there _ x3), copy_eof|].
  apply (rtc_l _ _ x5); [apply (close_both _ x4); by left|].
  apply (rtc_l _ _ x6); [by apply (send2 _ x5)|]. apply rtc_refl.
Qed.

Lemma relay_exact_witness :
  passes Stream (sent (c1 x6)) (written (c2 x6)) /\
  (closed x6 = true -> forall y, rtc (relay_step Stream) x6 y ->
     written (c2 y) = written (c2 x6) /\
     (written (c1 y) = written (c1 x6) \/
      Stream = Datagram /\ exists chunk, back x6 = Writing chunk /\ written (c1 y) = written (c1 x6) ++ [chunk])).
Proof.
  pose proof (relay_exact Stream [bs "ask"] [] x6 reach_x6) as H. split; apply H.
Defined.

(** The answer is lost. *)
Example half_closed : concat (sent (c2 x6)) = bs "answer" /\ forall y, rtc (relay_step Stream) x6 y -> written (c1 y) = [].
Proof.
  split; [done|]. intros y Hy.
  by destruct (closed_final Stream x6 y Hy (relay_reachable _ _ _ _ reach_x6) eq_refl) as [_ [[E _]|(? & _)]].
Qed.

(** Of a datagram that is longer than the buffer the backend gets the beginning. *)
Lemma datagram_cut d :
  (copy_size < length d)%nat ->
  exists y, rtc (relay_step Datagram) (start [d] []) y /\ written (c2 y) = [take copy_size d] /\ length (take copy_size d) = copy_size.
Proof.
  intros Hd. assert (Hl : length (take copy_size d) = copy_size) by (rewrite length_take; lia).
  assert (Hne : take copy_size d <> []) by (intros E; rewrite E in Hl; discriminate Hl).
  exists (MkRelaying (MkConn [d] [] false []) (put (take copy_size d) (MkConn [] [] false [])) Reading Reading false).
  split; [|by split].
  eapply rtc_l; [apply (copy_there _ (start [d] [])), copy_read; [done|by apply read_datagram]|].
  rewrite bool_decide_false by done. eapply rtc_l; [apply copy_there, copy_write; done|]. apply rtc_refl.
Qed.
End Examples.
