(* ===== verification/Closing.v ===== *)
(** * Closing: how a connection closes under its goroutines ([p2p/conn.go], [disco/udp/udp.go])

    [PacketConn.Close] and [UDPConn.Close] as steps among those of the goroutines
    that send on the channels which are closed at the end: the readers of the
    sockets, and the tasks that look for the node's addresses.  [Close] waits for
    those that are counted in [closedWG].  ([P2p.Close] is what a call that
    returns has done.) *)

From S2P Require Import Prelude.

(** What a reader hands on: a datagram to [datagrams], or the error of a relayed
    one to [errChan]; neither channel has a buffer. *)
Inductive item := ForReadFrom | RelayFailure.

(** [udpRead]: begun, at the check of [closeChan], in [ReadFromUDP], in a send. *)
Inductive udp_reader := Begun | Looking | Receiving | Handing (i : item) | Left | ReaderDied.

(** What a task still does: a send to [natEvents] with a default, [closedWG.Add],
    a send to [endpoints], [closedWG.Done]. *)
Inductive send_op := PushNAT | EnterWG | SendEndpoint | LeaveWG.
Record sender := MkSender { inside : bool; todo : list send_op; died : bool }.

Inductive close_phase := Open | Announced | Shutting | Waiting | Ended.
(** The operations are compared. *)
#[export] Instance send_op_eq_dec : EqDecision send_op.
Proof. solve_decision. Defined.
#[export] Instance close_phase_eq_dec : EqDecision close_phase.
Proof. solve_decision. Defined.

(** [calls] of [ReadFrom] are waiting, [calling] is whether the application makes
    more, [looping] whether [eventsHandle] runs, [room] the places that are free
    in the buffer of [endpoints]. *)
Record closing := MkClosing {
  phase : close_phase; readers : list udp_reader; senders : list sender;
  calls : nat; calling : bool; looping : bool; room : nat
}.
Definition set_phase (p : close_phase) (x : closing) : closing :=
  MkClosing p (readers x) (senders x) (calls x) (calling x) (looping x) (room x).
Definition set_readers (l : list udp_reader) (x : closing) : closing :=
  MkClosing (phase x) l (senders x) (calls x) (calling x) (looping x) (room x).
Definition set_senders (l : list sender) (n : nat) (x : closing) : closing :=
  MkClosing (phase x) (readers x) l (calls x) (calling x) (looping x) n.
Definition set_app (n : nat) (b : bool) (x : closing) : closing :=
  MkClosing (phase x) (readers x) (senders x) n b (looping x) (room x).
Definition set_loop (b : bool) (n : nat) (x : closing) : closing :=
  MkClosing (phase x) (readers x) (senders x) (calls x) (calling x) b n.

(** [closeChan] of the UDP side is closed. *)
Definition shut (p : close_phase) : bool := match p with Open | Announced => false | _ => true end.

(** A move of [udpRead] that nobody else takes part in. *)
Inductive reader_move (p : close_phase) : udp_reader -> udp_reader -> Prop :=
| reader_enters : reader_move p Begun Looking
| reader_leaves : shut p = true -> reader_move p Looking Left
| reader_receives : shut p = false -> reader_move p Looking Receiving
| reader_skips : p <> Waiting -> p <> Ended -> reader_move p Receiving Looking
| reader_takes i : p <> Waiting -> p <> Ended -> reader_move p Receiving (Handing i)
| reader_closed : reader_move p Receiving Left
| reader_dies i : p = Ended -> reader_move p (Handing i) ReaderDied.

(** The tasks: [mappingAddress] with what is sent after it, [lanAddrsGenerate],
    the one of the timer with its [DetectNAT], [DetectNAT] alone. *)
Inductive task : list send_op -> Prop :=
| upnp_task : task [EnterWG; SendEndpoint; PushNAT; LeaveWG]
| lan_task k : task (EnterWG :: repeat SendEndpoint k ++ [LeaveWG])
| wan_task k : task (PushNAT :: EnterWG :: repeat SendEndpoint k ++ [LeaveWG])
| nat_task : task [PushNAT].

(** A move of a task at a number of free places. *)
Inductive sender_move (p : close_phase) : nat -> sender -> nat -> sender -> Prop :=
| push_nat n b l : p <> Ended -> sender_move p n (MkSender b (PushNAT :: l) false) n (MkSender b l false)
| enter_wg n b l : sender_move p n (MkSender b (EnterWG :: l) false) n (MkSender true l false)
| send_endpoint n b l : p <> Ended -> sender_move p (S n) (MkSender b (SendEndpoint :: l) false) n (MkSender b l false)
| leave_wg n b l : sender_move p n (MkSender b (LeaveWG :: l) false) n (MkSender false l false)
| send_dies n b o l : p = Ended -> o = PushNAT \/ o = SendEndpoint ->
    sender_move p n (MkSender b (o :: l) false) n (MkSender b (o :: l) true).

(** What [closedWG] counts. *)
Definition counted (r : udp_reader) : bool := match r with Looking | Receiving | Handing _ => true | _ => false end.
Definition idle (x : closing) : Prop :=
  Forall (fun r => counted r = false) (readers x) /\ Forall (fun s => inside s = false) (senders x).

Inductive close_step : closing -> closing -> Prop :=
(** The sockets are opened again by [RestartListener], at any time. *)
| new_reader x : close_step x (set_readers (readers x ++ [Begun]) x)
| move_reader x i r r' : readers x !! i = Some r -> reader_move (phase x) r r' -> close_step x (set_readers (<[i:=r']> (readers x)) x)
| new_task x l : task l -> close_step x (set_senders (senders x ++ [MkSender false l false]) (room x) x)
| move_sender x i s n' s' : senders x !! i = Some s -> sender_move (phase x) (room x) s n' s' ->
    close_step x (set_senders (<[i:=s']> (senders x)) n' x)
(** [ReadFrom] begins, returns something else, takes a datagram; no more calls. *)
| call_begins x : calling x = true -> close_step x (set_app (S (calls x)) true x)
| call_returns x n : calls x = S n -> close_step x (set_app n (calling x) x)
| call_takes x n i : calls x = S n -> readers x !! i = Some (Handing ForReadFrom) -> phase x <> Ended ->
    close_step x (set_app n (calling x) (set_readers (<[i:=Looking]> (readers x)) x))
| calls_end x : close_step x (set_app (calls x) false x)
(** [eventsHandle] takes an error or an endpoint, and ends after [close(c.closeChan)]. *)
| loop_error x i : looping x = true -> readers x !! i = Some (Handing RelayFailure) -> phase x <> Ended ->
    close_step x (set_readers (<[i:=Looking]> (readers x)) x)
| loop_endpoint x : looping x = true -> (room x < 10)%nat -> close_step x (set_loop true (S (room x)) x)
| loop_ends x : phase x <> Open -> close_step x (set_loop false (room x) x)
(** [PacketConn.Close]; [UDPConn.Close] with [close(c.closeChan)], the sockets,
    [closedWG.Wait], the channels. *)
| close_begins x : phase x = Open -> close_step x (set_phase Announced x)
| close_shuts x : phase x = Announced -> close_step x (set_phase Shutting x)
| close_sockets x : phase x = Shutting -> close_step x (set_phase Waiting x)
| close_ends x : phase x = Waiting -> idle x -> close_step x (set_phase Ended x).

(** A connection that has been opened, with the reader of its socket. *)
Definition opened_conn : closing := MkClosing Open [Begun] [] 0 true true 10.

(** Nobody takes from the channels any more: the application has stopped reading,
    as one that calls [Close] does, and so has the loop. *)
Definition abandoned (x : closing) : Prop := calling x = false /\ calls x = 0%nat /\ looping x = false.

Definition is_handing (r : udp_reader) : bool := match r with Handing _ => true | _ => false end.
Definition is_send (o : send_op) : bool := match o with SendEndpoint => true | _ => false end.
Definition sends_left (s : sender) : nat := if inside s then length (List.filter is_send (todo s)) else 0.
Definition pending_sends (x : closing) : nat := sum_list_with sends_left (senders x).

(** ** Lemmas *)

Lemma sum_insert {A} (f : A -> nat) l i x y :
  l !! i = Some x -> (sum_list_with f (<[i:=y]> l) + f x = sum_list_with f l + f y)%nat.
Proof.
  revert i; induction l as [|a l IH]; intros [|i] H; simplify_eq/=; [lia|]. specialize (IH _ H). lia.
Qed.

Lemma Exists_insert_other {A} (P : A -> Prop) l i x y : l !! i = Some x -> ~ P x -> Exists P l -> Exists P (<[i:=y]> l).
Proof.
  intros Hi Hx He. apply Exists_exists in He as (z & Hz & HP). apply list_elem_of_lookup in Hz as [j Hj].
  apply Exists_exists. exists z. split; [|done]. apply list_elem_of_lookup. exists j. rewrite list_lookup_insert_ne; [done|]. naive_solver.
Qed.

(** The shape of a task: what it sends counted lies between [Add] and [Done]. *)
Definition sending (o : send_op) : Prop := o = PushNAT \/ o = SendEndpoint.
Inductive sender_ok : sender -> Prop :=
| ok_before pre body d : Forall (eq PushNAT) pre -> Forall sending body ->
    sender_ok (MkSender false (pre ++ EnterWG :: body ++ [LeaveWG]) d)
| ok_inside body d : Forall sending body -> sender_ok (MkSender true (body ++ [LeaveWG]) d)
| ok_outside pre d : Forall (eq PushNAT) pre -> sender_ok (MkSender false pre d).

Lemma task_ok l : task l -> sender_ok (MkSender false l false).
Proof.
  assert (Hrep : forall k, Forall sending (repeat SendEndpoint k)) by (intros k; induction k; simpl; constructor; try done; by right).
  destruct 1 as [|k|k|].
  - apply (ok_before [] [SendEndpoint; PushNAT]); [done|]. constructor; [by right|]. constructor; [by left|done].
  - by apply (ok_before []).
  - by apply (ok_before [PushNAT]); [repeat constructor|].
  - apply (ok_outside [PushNAT]). by repeat constructor.
Qed.

Lemma sender_move_ok p n s n' s' : sender_move p n s n' s' -> sender_ok s -> sender_ok s'.
Proof.
  intros Hm Hs; inversion Hs as [pre body d Hp Hb|body d Hb|pre d Hp]; subst; clear Hs.
  - destruct pre as [|o pre]; cbn [app] in Hm; inversion Hm; subst; simplify_eq/=; decompose_Forall; subst; try naive_solver;
      try (by constructor); try (by apply ok_before; [|done]; repeat constructor);
      try (by apply (ok_before (PushNAT :: pre)); [constructor|]).
  - destruct body as [|o body]; cbn [app] in Hm; inversion Hm; subst; simplify_eq/=; decompose_Forall; unfold sending in *; try naive_solver;
      try (by constructor); try (by apply (ok_inside (_ :: body)); constructor).
  - inversion Hm; subst; decompose_Forall; subst; try naive_solver; try (by constructor);
      try (by apply ok_outside; constructor).
Qed.

(** What holds of every reachable state. *)
Definition closing_inv (x : closing) : Prop :=
  Forall sender_ok (senders x) /\ ReaderDied ∉ readers x /\
  (phase x = Ended -> Forall (fun r => is_handing r = false) (readers x)) /\
  (phase x <> Ended -> Forall (fun s => died s = false) (senders x)).

Lemma reader_move_inv p l i r r' :
  l !! i = Some r -> reader_move p r r' -> (p = Ended -> Forall (fun r => is_handing r = false) l) -> ReaderDied ∉ l ->
  ReaderDied ∉ <[i:=r']> l /\ (p = Ended -> Forall (fun r => is_handing r = false) (<[i:=r']> l)).
Proof.
  intros Hi Hm Hend Hno.
  assert (Hr : r' <> ReaderDied /\ (p = Ended -> is_handing r' = false)).
  { destruct Hm; split; try done. intros _. specialize (Hend H). by apply (Forall_lookup_1 _ _ _ _ Hend) in Hi. }
  destruct Hr as [Hr Hh]. split.
  - intros Hin. apply list_elem_of_lookup in Hin as [j Hj]. destruct (decide (i = j)) as [->|Hne].
    + rewrite list_lookup_insert_eq in Hj by (by eapply lookup_lt_Some). congruence.
    + rewrite list_lookup_insert_ne in Hj by done. apply Hno, list_elem_of_lookup. by exists j.
  - intros Hp. apply Forall_insert; auto.
Qed.

Lemma looking_inv p l i r :
  l !! i = Some r -> (p = Ended -> Forall (fun r => is_handing r = false) l) -> ReaderDied ∉ l ->
  ReaderDied ∉ <[i:=Looking]> l /\ (p = Ended -> Forall (fun r => is_handing r = false) (<[i:=Looking]> l)).
Proof.
  intros Hi Hend Hno. split.
  - intros Hin. apply list_elem_of_lookup in Hin as [j Hj]. destruct (decide (i = j)) as [->|Hne].
    + rewrite list_lookup_insert_eq in Hj by (by eapply lookup_lt_Some). congruence.
    + rewrite list_lookup_insert_ne in Hj by done. apply Hno, list_elem_of_lookup. by exists j.
  - intros Hp. apply Forall_insert; auto.
Qed.

Lemma sender_move_alive p n s n' s' : sender_move p n s n' s' -> p <> Ended -> died s' = false.
Proof. by destruct 1. Qed.

Lemma close_step_inv x y : close_step x y -> closing_inv x -> closing_inv y.
Proof.
  intros Hs (H1 & H2 & H3 & H4). unfold closing_inv.
  destruct Hs as [x|x i r r' Hi Hm|x l Ht|x i s n' s' Hi Hm|x|x n|x n i Hc Hi Hp|x|x i Hl Hi Hp|x|x|x|x|x|x Hp [Hr Hw]];
    cbn [phase readers senders set_readers set_senders set_app set_loop set_phase]; try done.
  - split_and!; [done|set_solver| |done]. intros He. apply Forall_app; split; [by apply H3|by repeat constructor].
  - destruct (reader_move_inv _ _ _ _ _ Hi Hm H3 H2). by split_and!.
  - split_and!; try done.
    + apply Forall_app; split; [done|]. constructor; [by apply task_ok|done].
    + intros He. apply Forall_app; split; [by apply H4|by repeat constructor].
  - split_and!; try done.
    + apply Forall_insert; [done|]. eapply sender_move_ok; [done|]. by apply (Forall_lookup_1 _ _ _ _ H1 Hi).
    + intros He. apply Forall_insert; [by apply H4|]. by eapply sender_move_alive.
  - destruct (looking_inv _ _ _ _ Hi H3 H2). by split_and!.
  - destruct (looking_inv _ _ _ _ Hi H3 H2). by split_and!.
  - split_and!; try done. intros _. apply H4. congruence.
  - split_and!; try done. intros _. apply H4. congruence.
  - split_and!; try done. intros _. apply H4. congruence.
  - split_and!; try done. intros _. eapply Forall_impl; [exact Hr|]. by intros [].
Qed.

Lemma closing_reachable x : rtc close_step opened_conn x -> closing_inv x.
Proof.
  intros H. assert (H0 : closing_inv opened_conn).
  { split_and!; try done. cbn. set_solver. }
  revert H0. induction H as [|x y z Hs _ IH]; [done|]. intros H0. apply IH. by eapply close_step_inv.
Qed.

Lemma closing_inv_rtc x y : rtc close_step x y -> closing_inv x -> closing_inv y.
Proof. induction 1 as [|x y z Hs _ IH]; [done|]. intros H0. apply IH. by eapply close_step_inv. Qed.

(** *** A close that cannot end *)

Definition blocked (x : closing) : Prop :=
  phase x <> Ended /\ abandoned x /\ (Exists (fun r => is_handing r = true) (readers x) \/ (room x < pending_sends x)%nat).

Lemma not_idle x : Exists (fun r => is_handing r = true) (readers x) \/ (0 < pending_sends x)%nat -> ~ idle x.
Proof.
  intros H [Hr Hs]. destruct H as [H|H].
  - apply Exists_exists in H as (r & Hin & Hh). rewrite Forall_forall in Hr. specialize (Hr r Hin). by destruct r.
  - unfold pending_sends in H. induction (senders x) as [|s l IH]; cbn in H; [lia|]. decompose_Forall.
    unfold sends_left in H at 1. rewrite H0 in H. by apply IH.
Qed.

Lemma sender_move_pending p n s n' s' :
  sender_move p n s n' s' -> p <> Ended -> sender_ok s -> (n' + sends_left s <= n + sends_left s')%nat.
Proof.
  intros Hm Hp Hs. destruct Hm as [n b l|n b l|n b l|n b l|]; unfold sends_left; cbn [inside todo List.filter is_send]; try done;
    destruct b; cbn [length]; try lia.
  inversion Hs as [|body d Hb|]; subst. destruct body as [|o body]; simplify_eq/=; [lia|].
  decompose_Forall. unfold sending in *. naive_solver.
Qed.

Lemma blocked_step x y : close_step x y -> closing_inv x -> blocked x -> blocked y.
Proof.
  intros Hs (H1 & H2 & H3 & H4) (Hp & Ha & Hb). pose proof Ha as (A1 & A2 & A3). unfold blocked, abandoned, pending_sends in *.
  destruct Hs as [x|x i r r' Hi Hm|x l Ht|x i s n' s' Hi Hm|x|x n|x n i Hc Hi|x|x i Hl Hi|x|x|x|x|x|x Hph Hidle];
    cbn [phase readers senders calls calling looping room set_readers set_senders set_app set_loop set_phase] in *;
    try congruence; try (by split; [congruence|]).
  - split; [done|split; [done|]]. destruct Hb as [Hb|Hb]; [left|by right]. rewrite Exists_app. by left.
  - split; [done|split; [done|]]. destruct Hb as [Hb|Hb]; [left|by right].
    apply (Exists_insert_other _ _ _ r); [done| |done]. by destruct Hm.
  - split; [done|split; [done|]]. destruct Hb as [Hb|Hb]; [by left|right]. rewrite sum_list_with_app. cbn. lia.
  - split; [done|split; [done|]]. destruct Hb as [Hb|Hb]; [by left|right].
    pose proof (sum_insert sends_left _ _ _ s' Hi). pose proof (Forall_lookup_1 _ _ _ _ H1 Hi) as Hok.
    pose proof (sender_move_pending _ _ _ _ _ Hm Hp Hok). lia.
  - exfalso. apply (not_idle x); [|done]. destruct Hb as [Hb|Hb]; [by left|right; unfold pending_sends; lia].
Qed.

Lemma blocked_for_good x y : rtc close_step x y -> closing_inv x -> blocked x -> phase y <> Ended.
Proof.
  induction 1 as [x|x y z Hs _ IH]; intros Hi Hb; [apply Hb|]. apply IH; [by eapply close_step_inv|by eapply blocked_step].
Qed.

(** *** A close that ends *)

Lemma set_readers_id x : set_readers (readers x) x = x.
Proof. by destruct x. Qed.
Lemma set_senders_id x : set_senders (senders x) (room x) x = x.
Proof. by destruct x. Qed.

Lemma reach_waiting x : phase x <> Ended -> rtc close_step x (set_phase Waiting x).
Proof.
  destruct x as [p rs ss c a l n]. intros Hp. cbn [phase] in Hp.
  assert (H3 : rtc close_step (MkClosing Shutting rs ss c a l n) (MkClosing Waiting rs ss c a l n))
    by (by apply rtc_once, (close_sockets (MkClosing Shutting rs ss c a l n))).
  assert (H2 : rtc close_step (MkClosing Announced rs ss c a l n) (MkClosing Waiting rs ss c a l n))
    by (eapply rtc_l; [by apply (close_shuts (MkClosing Announced rs ss c a l n))|done]).
  destruct p; try done. eapply rtc_l; [by apply (close_begins (MkClosing Open rs ss c a l n))|done].
Qed.

(** Readers with nothing in hand leave, one after the other. *)
Lemma readers_leave rest front x :
  shut (phase x) = true -> readers x = front ++ rest -> Forall (fun r => is_handing r = false) rest ->
  exists rest', rtc close_step x (set_readers (front ++ rest') x) /\ Forall (fun r => counted r = false) rest'.
Proof.
  revert front x; induction rest as [|r rest IH]; intros front x Hp Hr Hh.
  { exists []. rewrite <- Hr, set_readers_id. split; [apply rtc_refl|done]. }
  apply Forall_cons in Hh as [Hh Hrest].
  assert (Hone : exists r', rtc close_step x (set_readers (front ++ r' :: rest) x) /\ counted r' = false).
  { assert (Hi : readers x !! length front = Some r) by (rewrite Hr; by apply list_lookup_middle).
    assert (Hins : forall r', <[length front:=r']> (readers x) = front ++ r' :: rest)
      by (intros r'; rewrite Hr, insert_app_r_alt by lia; by rewrite Nat.sub_diag).
    destruct r; try done; [exists Begun|exists Left|exists Left|exists Left|exists ReaderDied];
      try (split; [rewrite <- Hr, set_readers_id; apply rtc_refl|done]);
      (split; [|done]); rewrite <- Hins; apply rtc_once; eapply move_reader; try done; by constructor. }
  destruct Hone as (r' & H1 & Hc). destruct (IH (front ++ [r']) (set_readers (front ++ r' :: rest) x)) as (rest' & H2 & Hf);
    [done|by rewrite <- app_assoc|done|].
  exists (r' :: rest'). split; [|by constructor]. etrans; [exact H1|].
  rewrite <- app_assoc in H2. exact H2.
Qed.

(** A counted task runs to its end when there is room for what it sends. *)
Lemma sender_leaves body x i :
  phase x <> Ended -> senders x !! i = Some (MkSender true (body ++ [LeaveWG]) false) -> Forall sending body ->
  (length (List.filter is_send body) <= room x)%nat ->
  rtc close_step x (set_senders (<[i:=MkSender false [] false]> (senders x)) (room x - length (List.filter is_send body)) x).
Proof.
  revert x; induction body as [|o body IH]; intros x Hp Hi Hb Hroom.
  { cbn [List.filter length]. rewrite Nat.sub_0_r. apply rtc_once. eapply move_sender; [exact Hi|]. apply leave_wg. }
  apply Forall_cons in Hb as [Ho Hb].
  assert (Hmove : exists n', (n' = room x - length (List.filter is_send [o]))%nat /\
    sender_move (phase x) (room x) (MkSender true (o :: body ++ [LeaveWG]) false) n' (MkSender true (body ++ [LeaveWG]) false)).
  { destruct Ho as [-> | ->]; cbn [List.filter is_send length] in *.
    - eexists. split; [done|]. rewrite Nat.sub_0_r. by apply push_nat.
    - destruct (room x) as [|n] eqn:En; [lia|]. exists n. split; [lia|]. by apply send_endpoint. }
  destruct Hmove as (n' & Hn & Hm).
  set (y := set_senders (<[i:=MkSender true (body ++ [LeaveWG]) false]> (senders x)) n' x).
  eapply (rtc_l _ _ y); [by eapply move_sender|].
  assert (Hlen : length (List.filter is_send (o :: body)) = (length (List.filter is_send [o]) + length (List.filter is_send body))%nat)
    by (cbn [List.filter]; destruct (is_send o); reflexivity).
  assert (Hy : rtc close_step y (set_senders (<[i:=MkSender false [] false]> (senders y)) (room y - length (List.filter is_send body)) y)).
  { apply IH; [done| |done|cbn [y room set_senders]; lia]. cbn [y senders set_senders].
    rewrite list_lookup_insert_eq; [done|by eapply lookup_lt_Some]. }
  replace (room x - length (List.filter is_send (o :: body)))%nat with (room y - length (List.filter is_send body))%nat
    by (cbn [y room set_senders]; lia).
  cbn [y senders set_senders] in Hy. rewrite list_insert_insert_eq in Hy. exact Hy.
Qed.

Lemma senders_leave rest front x :
  phase x <> Ended -> senders x = front ++ rest -> Forall sender_ok rest -> Forall (fun s => died s = false) rest ->
  (sum_list_with sends_left rest <= room x)%nat ->
  exists rest' n, rtc close_step x (set_senders (front ++ rest') n x) /\ Forall (fun s => inside s = false) rest'.
Proof.
  revert front x; induction rest as [|s rest IH]; intros front x Hp Hs Hok Hal Hroom.
  { exists [], (room x). rewrite <- Hs, set_senders_id. split; [apply rtc_refl|done]. }
  apply Forall_cons in Hok as [Hok Hrest], Hal as [Hal Hals]. cbn [sum_list_with] in Hroom.
  assert (Hone : exists s', rtc close_step x (set_senders (front ++ s' :: rest) (room x - sends_left s) x) /\ inside s' = false).
  { destruct s as [[] l d]; cbn [died] in Hal; subst d.
    2:{ exists (MkSender false l false). split; [|done]. unfold sends_left. cbn [inside].
        rewrite <- Hs, Nat.sub_0_r, set_senders_id. apply rtc_refl. }
    inversion Hok as [|body d Hb Hl|]; subst. exists (MkSender false [] false). split; [|done].
    assert (Hsl : sends_left (MkSender true (body ++ [LeaveWG]) false) = length (List.filter is_send body))
      by (unfold sends_left; cbn [inside todo]; rewrite List.filter_app; cbn; by rewrite app_nil_r).
    rewrite Hsl in *. assert (Hi : senders x !! length front = Some (MkSender true (body ++ [LeaveWG]) false))
      by (rewrite Hs; by apply list_lookup_middle).
    replace (front ++ MkSender false [] false :: rest) with (<[length front:=MkSender false [] false]> (senders x))
      by (rewrite Hs, insert_app_r_alt by lia; by rewrite Nat.sub_diag).
    apply sender_leaves; [done..|lia]. }
  destruct Hone as (s' & H1 & Hc).
  destruct (IH (front ++ [s']) (set_senders (front ++ s' :: rest) (room x - sends_left s) x)) as (rest' & n & H2 & Hf);
    [done|by rewrite <- app_assoc|done|done|cbn [room set_senders]; lia|].
  exists (s' :: rest'), n. split; [|by constructor]. etrans; [exact H1|].
  rewrite <- app_assoc in H2. exact H2.
Qed.

Lemma can_end x :
  phase x <> Ended -> closing_inv x -> Forall (fun r => is_handing r = false) (readers x) -> (pending_sends x <= room x)%nat ->
  exists y, rtc close_step x y /\ phase y = Ended.
Proof.
  intros Hp (Hok & _ & _ & Hal) Hh Hroom. specialize (Hal Hp).
  set (x1 := set_phase Waiting x).
  destruct (readers_leave (readers x) [] x1) as (rs & H2 & Hrs); [done..|]. set (x2 := set_readers ([] ++ rs) x1) in *.
  destruct (senders_leave (senders x) [] x2) as (ss & n & H3 & Hss); [done..|]. set (x3 := set_senders ([] ++ ss) n x2) in *.
  exists (set_phase Ended x3). split; [|done].
  etrans; [by apply reach_waiting|]. etrans; [exact H2|]. etrans; [exact H3|].
  apply rtc_once, close_ends; [done|]. by split.
Qed.

(** *** Panics *)

(** What becomes of one task in a step: it moves, or is left alone. *)
Lemma sender_next x y i s :
  close_step x y -> senders x !! i = Some s ->
  exists s', senders y !! i = Some s' /\ (s' = s \/ exists n', sender_move (phase x) (room x) s n' s').
Proof.
  intros Hs Hi. destruct Hs as [x|x j r r' Hj Hm|x l Ht|x j s1 n' s' Hj Hm|x|x n|x n j Hc Hj Hp|x|x j Hl Hj Hp|x|x|x|x|x|x];
    cbn [senders set_readers set_senders set_app set_loop set_phase]; try (exists s; split; [done|by left]).
  - exists s. split; [by apply lookup_app_l_Some|by left].
  - destruct (decide (i = j)) as [->|Hne].
    + exists s'. split; [apply list_lookup_insert_eq; by eapply lookup_lt_Some|right]. exists n'. congruence.
    + exists s. split; [by rewrite list_lookup_insert_ne|by left].
Qed.

Lemma ended_stays x y : close_step x y -> phase x = Ended -> phase y = Ended.
Proof.
  destruct 1; cbn [phase set_readers set_senders set_app set_loop set_phase]; congruence.
Qed.

(** A counted task is done when the channels are closed. *)
Definition waited (i : nat) (x : closing) : Prop :=
  exists s, senders x !! i = Some s /\ died s = false /\ ((phase x <> Ended /\ inside s = true) \/ todo s = []).

Lemma waited_step i x y : close_step x y -> closing_inv x -> waited i x -> waited i y.
Proof.
  intros Hs (H1 & _) (s & Hi & Hd & Hw). destruct (sender_next _ _ _ _ Hs Hi) as (s' & Hi' & Hm). exists s'. split; [done|].
  destruct Hw as [[Hp Hin]|Hn].
  - assert (Hp' : (phase y <> Ended \/ inside s = false) /\ (s' = s \/ phase y = phase x)).
    { destruct Hs; cbn [phase senders set_readers set_senders set_app set_loop set_phase] in *; try (split; [by left|by right]);
        try (split; [left; congruence|left; congruence]).
      destruct H0 as [_ H0]. split; [right; by apply (Forall_lookup_1 _ _ _ _ H0 Hi)|left; congruence]. }
    destruct Hp' as [Hp' Hss]. destruct Hp' as [Hp'|?]; [|congruence].
    destruct Hm as [->|(n' & Hm)]; [split; [done|by left]|].
    split; [by eapply sender_move_alive|]. pose proof (Forall_lookup_1 _ _ _ _ H1 Hi) as Hok.
    inversion Hok as [|body d Hb|]; subst; [done| |done]. destruct body as [|o body]; cbn [app] in Hm.
    + right. inversion Hm; subst; naive_solver.
    + left. split; [done|]. inversion Hm; subst; try done. decompose_Forall. unfold sending in *. naive_solver.
  - destruct Hm as [->|(n' & Hm)]; [split; [done|by right]|]. inversion Hm; subst; cbn in Hn; congruence.
Qed.

(** A task whose sends are over does not panic. *)
Definition harmless (i : nat) (x : closing) : Prop :=
  exists s, senders x !! i = Some s /\ died s = false /\ Forall (fun o => ~ sending o) (todo s).

Lemma harmless_step i x y : close_step x y -> harmless i x -> harmless i y.
Proof.
  intros Hs (s & Hi & Hd & Hf). destruct (sender_next _ _ _ _ Hs Hi) as (s' & Hi' & Hm). exists s'. split; [done|].
  destruct Hm as [->|(n' & Hm)]; [done|].
  inversion Hm; subst; cbn [todo] in *; apply Forall_cons in Hf as [Ho Hf]; done.
Qed.

Lemma will_panic x i s :
  phase x = Ended -> senders x !! i = Some s -> died s = false -> Exists sending (todo s) ->
  exists y s', rtc close_step x y /\ senders y !! i = Some s' /\ died s' = true.
Proof.
  destruct s as [b l d]. cbn [died todo]. intros Hp Hi -> He. revert x b Hp Hi.
  induction l as [|o l IH]; intros x b Hp Hi; [by apply Exists_nil in He|].
  assert (Hnext : forall b', sender_move (phase x) (room x) (MkSender b (o :: l) false) (room x) (MkSender b' l false) -> ~ sending o ->
    exists y s', rtc close_step x y /\ senders y !! i = Some s' /\ died s' = true).
  { intros b' Hm Ho. apply Exists_cons in He as [He|He]; [done|].
    destruct (IH He (set_senders (<[i:=MkSender b' l false]> (senders x)) (room x) x) b') as (y & s' & Hy & Hs');
      [done|apply list_lookup_insert_eq; by eapply lookup_lt_Some|].
    exists y, s'. split; [|done]. eapply rtc_l; [by eapply move_sender|done]. }
  assert (Hdie : sending o -> exists y s', rtc close_step x y /\ senders y !! i = Some s' /\ died s' = true).
  { intros Ho. eexists _, (MkSender b (o :: l) true). split; [apply rtc_once; eapply move_sender; [done|]; by apply send_dies|].
    split; [|done]. apply list_lookup_insert_eq. by eapply lookup_lt_Some. }
  destruct o; [apply Hdie; by left| |apply Hdie; by right|].
  - apply (Hnext true); [apply enter_wg|intros [?|?]; done].
  - apply (Hnext false); [apply leave_wg|intros [?|?]; done].
Qed.

(** ** Properties *)

(** C11. When closing a connection ends.  Once nobody takes from the channels any
    more - the application, as one that calls [Close], and the event loop, as it
    ends - [Close] can return exactly when no reader holds a datagram or an error
    that it wants to hand on, and the endpoints of the tasks that are counted fit
    the buffer.  Otherwise it never returns, and the connection to the server
    stays open. *)
Theorem close_ends_iff x :
  rtc close_step opened_conn x -> phase x <> Ended -> calling x = false -> calls x = 0%nat -> looping x = false ->
  ((exists y, rtc close_step x y /\ phase y = Ended) <->
   (forall i, Handing i ∉ readers x) /\ (pending_sends x <= room x)%nat).
Proof.
  intros Hx Hp H1 H2 H3. pose proof (closing_reachable _ Hx) as Hi.
  assert (Hh : (forall i, Handing i ∉ readers x) <-> Forall (fun r => is_handing r = false) (readers x)).
  { rewrite Forall_forall. split.
    - intros H r Hr. destruct r as [| | |i| |]; try done. by destruct (H i).
    - intros H i Hr. by specialize (H _ Hr). }
  rewrite Hh. split.
  - intros (y & Hy & Hend). assert (Hb : ~ blocked x) by (intros Hb; by apply (blocked_for_good _ _ Hy Hi Hb)).
    unfold blocked, abandoned in Hb. split.
    + apply Forall_forall. intros r Hr. destruct (is_handing r) eqn:E; [|done]. exfalso. apply Hb. split_and!; try done.
      left. apply Exists_exists. eauto.
    + destruct (decide (pending_sends x <= room x)%nat); [done|]. exfalso. apply Hb. split_and!; try done. right. lia.
  - intros [Hf Hr]. by apply can_end.
Qed.

(** Who panics on a closed channel.  No reader of a socket ever does, and no task
    that was counted before the channels were closed.  A task that is alive when
    they are closed panics in some continuation exactly when it still has
    something to send: [Close] does not wait for the discovery of the NAT, nor for
    a task that has not been counted yet. *)
Theorem closed_channel_panics x :
  rtc close_step opened_conn x ->
  ReaderDied ∉ readers x /\
  (forall i s y s', phase x <> Ended -> senders x !! i = Some s -> inside s = true ->
     rtc close_step x y -> senders y !! i = Some s' -> died s' = false) /\
  (forall i s, phase x = Ended -> senders x !! i = Some s -> died s = false ->
     ((exists y s', rtc close_step x y /\ senders y !! i = Some s' /\ died s' = true) <->
      PushNAT ∈ todo s \/ SendEndpoint ∈ todo s)).
Proof.
  intros Hx. pose proof (closing_reachable _ Hx) as Hi. split_and!.
  - apply Hi.
  - intros i s y s' Hp Hs Hin Hy Hs'. assert (Hw : waited i x).
    { exists s. destruct Hi as (_ & _ & _ & Ha). split_and!; [done| |by left]. by apply (Forall_lookup_1 _ _ _ _ (Ha Hp) Hs). }
    assert (Hw' : waited i y).
    { clear Hs' Hs Hp Hx. induction Hy as [|x z y Hstep _ IH]; [done|].
      apply IH; [by eapply close_step_inv|by eapply waited_step]. }
    destruct Hw' as (s1 & E & Hd & _). congruence.
  - intros i s Hp Hs Hd. split.
    + intros (y & s' & Hy & Hs' & Hd'). destruct (decide (PushNAT ∈ todo s)) as [|N1]; [by left|].
      destruct (decide (SendEndpoint ∈ todo s)) as [|N2]; [by right|]. exfalso.
      assert (Hh : harmless i x) by (exists s; split_and!; [done..|]; apply Forall_forall; intros o Ho [-> | ->]; done).
      assert (Hh' : harmless i y) by (clear -Hy Hh; induction Hy as [|x z y Hstep _ IH]; [done|]; apply IH; by eapply harmless_step).
      destruct Hh' as (s1 & E & E' & _). congruence.
    + intros Ho. eapply will_panic; [done..|]. apply Exists_exists. destruct Ho as [Ho|Ho]; (eexists; split; [exact Ho|]); [by left|by right].
Qed.

(** ** Examples *)

Module Examples.

Ltac by_reader m := eapply rtc_l; [eapply (move_reader _ 0%nat); [reflexivity|apply m; cbn; congruence]|]; cbn.
Ltac by_step m := eapply rtc_l; [eapply m; cbn; congruence|]; cbn.

(** A datagram has been read when the application closes the connection and does
    not read any more. *)
Definition hung : closing := MkClosing Waiting [Handing ForReadFrom] [] 0 false false 10.

Lemma reach_hung : rtc close_step opened_conn hung.
Proof.
  unfold opened_conn, hung. by_reader reader_enters. by_reader reader_receives. by_reader (reader_takes Open ForReadFrom).
  by_step close_begins. by_step loop_ends. eapply rtc_l; [eapply calls_end|]. cbn. by_step close_shuts. by_step close_sockets.
  apply rtc_refl.
Qed.

Lemma close_ends_iff_witness :
  rtc close_step opened_conn hung /\ ~ (exists y, rtc close_step hung y /\ phase y = Ended).
Proof.
  split; [exact reach_hung|]. intros H. assert (Hp : phase hung <> Ended) by done.
  apply (close_ends_iff hung reach_hung Hp eq_refl eq_refl eq_refl) in H as [H _]. apply (H ForReadFrom). by left.
Defined.

(** The timer of a peer that came up fires after the close. *)
Definition closed_early : closing := MkClosing Ended [Left] [MkSender false (PushNAT :: EnterWG :: repeat SendEndpoint 1 ++ [LeaveWG]) false] 0 true true 10.

Lemma reach_closed_early : rtc close_step opened_conn closed_early.
Proof.
  unfold opened_conn, closed_early. eapply rtc_l; [apply (new_task _ _ (wan_task 1))|]. cbn. by_reader reader_enters.
  by_step close_begins. by_step close_shuts. by_step close_sockets. by_reader reader_leaves.
  eapply rtc_l; [eapply close_ends; [done|by repeat constructor]|]. cbn. apply rtc_refl.
Qed.

Lemma closed_channel_panics_witness :
  exists y s, rtc close_step closed_early y /\ senders y !! 0%nat = Some s /\ died s = true.
Proof.
  apply (proj2 (proj2 (closed_channel_panics closed_early reach_closed_early)) 0%nat
    (MkSender false (PushNAT :: EnterWG :: repeat SendEndpoint 1 ++ [LeaveWG]) false)); [done|reflexivity|reflexivity|].
  left. by left.
Defined.
End Examples.
