(* ===== verification/Ipc.v ===== *)
(** * Ipc: what a daemon tells about itself and its peers ([cmd/pgcli/vpn/ipc])

    The server answers on a socket of the machine from the virtual NIC and the
    packet connection; the client asks and prints a table.  The theorems relate
    the mode that is shown for a peer to the way that datagrams to it take.  JSON
    and HTTP are outside. *)

From S2P Require Import Prelude Text GoTime Url Lru CacheTTL Netip Stun Disco DiscoUdp Langs Stream Secure Ws P2p Vpn Login.

(** ** The data ([sdk.go]) *)

Record PeerState := MkState {
  st_ID : bytes; Hostname : bytes; st_IPv4 : bytes; st_IPv6 : bytes; Addrs : list bytes; st_Last : option Z;
  Mode : bytes; st_NAT : bytes; Version : bytes; st_Labels : list bytes
}.
#[export] Instance PeerState_eq_dec : EqDecision PeerState.
Proof. solve_decision. Defined.

Record NodeInfo := MkNodeInfo { ni_ID : bytes; ni_Meta : Values; ni_NAT : NATInfo; ni_Version : bytes }.

(** [GetDefaultUnixSocketPath]: the home directory of the user, an absolute path, if
    it can be found. *)
Definition GetDefaultUnixSocketPath (home : option bytes) (windows : bool) : bytes :=
  match home with
  | Some h => if bool_decide (h = []) then bs ".pgvpn.sock" else Clean (h ++ bs "/.pgvpn.sock")
  | None => if windows then bs "C:\ProgramData\pgvpn.sock" else bs "/var/run/pgvpn.sock"
  end.

(** ** The server ([http.go]) *)

Section Server.
Context {S E : Type} `{!SymmAlgo S E}.
Context {CM CD CP : Type} `{!CacheLaws CM bytes Values} `{!CacheLaws CD bytes time} `{!ClearLaws CD bytes time}
  `{!CacheLaws CP bytes nat}.
Abbreviation conn := (@PacketConn S CM CD CP).
Abbreviation PM := (GoM conn Empty_set).

(** [usePeerRelay]: the loop ends at the first peer that might relay. *)
Fixpoint usePeerRelay_go (ps : list DiscoUdp.PeerState) (peerID : bytes) : PM bool :=
  match ps with
  | [] => mret false
  | p :: ps =>
      if bool_decide (ps_PeerID p = peerID) then usePeerRelay_go ps peerID
      else
        meta ← PeerMeta (ps_PeerID p);
        match meta with
        | None => usePeerRelay_go ps peerID
        | Some meta =>
            if (Labels_Get (default [] (meta !! bs "label")) (bs "node.nr")).2 then usePeerRelay_go ps peerID
            else mret (nat_Easy (vals_Get meta (bs "nat")) || nat_IP4 (vals_Get meta (bs "nat")))
        end
  end.
Definition usePeerRelay (peerID : bytes) : PM bool :=
  ps ← gets (fun c => DiscoUdp.Peers (udpConn c)); usePeerRelay_go ps peerID.

(** [p2pPeers]: for each identifier the last activity and the addresses. *)
Definition add_p2p (m : gmap bytes (Z * list bytes)) (p : DiscoUdp.PeerState) : gmap bytes (Z * list bytes) :=
  let addr := addr_String (ps_Addr p) in
  match m !! ps_PeerID p with
  | None => <[ps_PeerID p := (LastActiveTime p, [addr])]> m
  | Some (last, addrs) =>
      <[ps_PeerID p := (if bool_decide (last < LastActiveTime p) then LastActiveTime p else last, addrs ++ [addr])]> m
  end.
Definition p2pPeers (ps : list DiscoUdp.PeerState) : gmap bytes (Z * list bytes) := fold_left add_p2p ps ∅.

Definition base_state (p : Nic.Peer) (addrs : list bytes) (last : option Z) (mode : bytes) : PeerState :=
  MkState (Nic.Addr p) (vals_Get (Nic.Meta p) (bs "name")) (Nic.IPv4 p) (Nic.IPv6 p) addrs last mode
    (vals_Get (Nic.Meta p) (bs "nat")) (vals_Get (Nic.Meta p) (bs "version")) (default [] (Nic.Meta p !! bs "label")).

Fixpoint report_peers (known : gmap bytes (Z * list bytes)) (ps : list Nic.Peer) : PM (list PeerState) :=
  match ps with
  | [] => mret []
  | p :: ps =>
      st ← (match known !! Nic.Addr p with
            | Some (last, addrs) => mret (base_state p addrs (Some last) (bs "P2P"))
            | None =>
                relay ← usePeerRelay (Nic.Addr p);
                mret (base_state p [] None (if relay : bool then bs "PEER_RELAY" else bs "RELAY"))
            end);
      rest ← report_peers known ps;
      mret (st :: rest)
  end.

(** [handleQueryPeers]: the data of the answer. *)
Definition handleQueryPeers (n : Nic.VirtualNIC) : PM (list PeerState) :=
  ps ← gets (fun c => DiscoUdp.Peers (udpConn c));
  report_peers (p2pPeers ps) (Nic.Peers n).

(** [NodeInfo] of the packet connection and [handleQueryNodeInfo]. *)
Definition conn_NodeInfo (listen : Z -> option nat) (ips : option (list bytes)) (answers : list UDPAddr) (version : bytes) :
    PM NodeInfo := fun c =>
  match DetectNAT listen ips answers (udpConn c) with
  | (Ok i, u) => (Ok (MkNodeInfo (peer_ID (PeerInfo (cfg c))) (Metadata (PeerInfo (cfg c))) i version), set_udpConn u c)
  | (_, u) => (Panic, set_udpConn u c)
  end.
End Server.

(** ** The client ([sdk.go], [client.go]) *)

Inductive ipc_error := ErrPermissionDenied | ErrNoDaemon | ErrTransport (text : bytes) | ErrCode (code : Z) (msg : bytes).

(** [unixDial]: the errors that have a name. *)
Definition dial_error (text : bytes) : ipc_error :=
  if str_Contains text (bs "permission denied") || str_Contains text (bs "forbidden by its access permissions")
  then ErrPermissionDenied
  else if str_Contains text (bs "connection refused") || str_Contains text (bs "no such file or directory")
  then ErrNoDaemon else ErrTransport text.

(** [QueryPeers] and [QueryNodeInfo]: [reply] is the error of the dial or the body;
    a body that does not decode leaves the zero value. *)
Section Query.
Context {A : Type} (decode : bytes -> option (Z * A * bytes)) (zero : A).
Definition query (reply : bytes + bytes) : res ipc_error A :=
  match reply with
  | inl text => Err (dial_error text)
  | inr body =>
      let '(code, data, msg) := default (0, zero, []) (decode body) in
      if bool_decide (code <> 0) then Err (ErrCode code msg) else Ok data
  end.
End Query.

Definition Or (s : bytes) : bytes := if bool_decide (s = []) then bs "-" else s.

Definition parseFlags (labels : list bytes) : list bytes :=
  (if (Labels_Get labels (bs "node.nr")).2 then [bs "NR"] else []) ++
  (if (Labels_Get labels (bs "node.off")).2 then [bs "OFF"] else []).

(** [slices.Compact] *)
Fixpoint Compact (l : list bytes) : list bytes :=
  match l with
  | x :: (y :: _) as l' => if bool_decide (x = y) then Compact l' else x :: Compact l'
  | _ => l
  end.

Definition joined (l : list bytes) : bytes := Or (join (bs ",") l).

(** The rows that [PrintPeers] and [PrintNodeInfo] print. *)
Definition peer_row (p : PeerState) : list bytes :=
  let mode := if (Labels_Get (st_Labels p) (bs "node.off")).2 then [] else Mode p in
  [Or (Hostname p); Or (st_IPv4 p); Or (st_IPv6 p); Or mode; Or (st_NAT p);
   joined (parseFlags (st_Labels p)); joined (take 3 (Addrs p)); Version p].
Definition node_rows (n : NodeInfo) : list (list bytes) :=
  let addrs := Compact (addr_String <$> nat_Addrs (ni_NAT n)) in
  [[bs "ID"; ni_ID n]; [bs "Name"; Or (vals_Get (ni_Meta n) (bs "name"))];
   [bs "IPv4"; Or (vals_Get (ni_Meta n) (bs "alias1"))]; [bs "IPv6"; Or (vals_Get (ni_Meta n) (bs "alias2"))];
   [bs "NAT"; Or (nat_Type (ni_NAT n))];
   [bs "Flags"; joined (parseFlags (default [] (ni_Meta n !! bs "label")))];
   [bs "Endpoints"; joined (take 3 addrs)]; [bs "Version"; ni_Version n]].
Definition PrintPeers (decode : bytes -> option (Z * list PeerState * bytes)) (reply : bytes + bytes) :
    res ipc_error (list (list bytes)) :=
  match query decode [] reply with Ok ps => Ok (peer_row <$> ps) | Err e => Err e | Panic => Panic end.
(** A nil answer is dereferenced. *)
Definition PrintNodeInfo (decode : bytes -> option (Z * option NodeInfo * bytes)) (reply : bytes + bytes) :
    res ipc_error (list (list bytes)) :=
  match query decode None reply with
  | Ok (Some n) => Ok (node_rows n)
  | Err e => Err e
  | _ => Panic
  end.

(** ** Lemmas *)

Section Facts.
Context {S E : Type} `{!SymmAlgo S E}.
Context {CM CD CP : Type} `{!CacheLaws CM bytes Values} `{!CacheLaws CD bytes time} `{!ClearLaws CD bytes time}
  `{!CacheLaws CP bytes nat}.
Abbreviation conn := (@PacketConn S CM CD CP).

(** The first peer on which [usePeerRelay] decides. *)
Definition decisive (peerID : bytes) (c : conn) (p : DiscoUdp.PeerState) : Prop :=
  ps_PeerID p <> peerID /\
  match meta_view c (ps_PeerID p) with
  | Some m => (Labels_Get (default [] (m !! bs "label")) (bs "node.nr")).2 = false
  | None => False
  end.
#[export] Instance decisive_dec peerID c p : Decision (decisive peerID c p).
Proof. unfold decisive. destruct (meta_view c (ps_PeerID p)); apply _. Defined.

Definition easy_nat (c : conn) (id : bytes) : bool :=
  match meta_view c id with
  | Some m => nat_Easy (vals_Get m (bs "nat")) || nat_IP4 (vals_Get m (bs "nat"))
  | None => false
  end.
Definition relay_verdict (ps : list DiscoUdp.PeerState) (peerID : bytes) (c : conn) : bool :=
  match head (filter (decisive peerID c) ps) with Some p => easy_nat c (ps_PeerID p) | None => false end.

Lemma same_refl (c : conn) : cok (peerMap c) -> same_but_index c c.
Proof. done. Qed.

Lemma same_trans (c c1 c2 : conn) : same_but_index c c1 -> same_but_index c1 c2 -> same_but_index c c2.
Proof. intros (H1 & H2 & H3 & H4) (K1 & K2 & K3 & K4). split_and!; [done|intros id; by rewrite K2|congruence..]. Qed.

Lemma PeerMeta_run id (c : conn) :
  cok (peerMap c) -> exists c', PeerMeta id c = (Ok (meta_view c id), c') /\ same_but_index c c'.
Proof.
  intros Hok. unfold PeerMeta. pose proof (cget_view id (peerMap c) Hok) as Hv. pose proof (cget_ok id (peerMap c) Hok) as Hk.
  assert (Hkeep : forall k, cview (cget id (peerMap c)).2 k = cview (peerMap c) k) by (intros k; by apply cget_keeps).
  destruct (cget id (peerMap c)) as [m cache]. cbn [fst snd] in *. exists (set_peerMap cache c). rewrite Hv. by split.
Qed.

(** [relay_verdict] only looks at the metadata. *)
Lemma relay_verdict_same (c c' : conn) ps id : same_but_index c c' -> relay_verdict ps id c' = relay_verdict ps id c.
Proof.
  intros (_ & Hv & _). unfold relay_verdict. rewrite (list_filter_iff (decisive id c') (decisive id c)).
  - destruct (head _) as [p|]; [|done]. unfold easy_nat. by rewrite Hv.
  - intros p. unfold decisive. by rewrite Hv.
Qed.

Lemma usePeerRelay_go_run ps id (c : conn) :
  cok (peerMap c) -> exists c', usePeerRelay_go ps id c = (Ok (relay_verdict ps id c), c') /\ same_but_index c c'.
Proof.
  revert c. induction ps as [|p ps IH]; intros c Hok; [by exists c|]. cbn [usePeerRelay_go].
  assert (Hskip : forall c1, same_but_index c c1 -> ~ decisive id c p ->
    exists c', usePeerRelay_go ps id c1 = (Ok (relay_verdict (p :: ps) id c), c') /\ same_but_index c c').
  { intros c1 H1 Hn. destruct (IH c1 (proj1 H1)) as (c' & Hrun & H2). exists c'. split; [|by eapply same_trans].
    rewrite Hrun, (relay_verdict_same c c1) by done. unfold relay_verdict at 2. by rewrite filter_cons_False. }
  case_bool_decide as Hself; [apply Hskip; [done|by intros [? _]]|].
  destruct (PeerMeta_run (ps_PeerID p) c Hok) as (c1 & Hm & H1). rewrite gom_bind_run, Hm.
  destruct (meta_view c (ps_PeerID p)) as [m|] eqn:Em.
  - destruct (Labels_Get _ _).2 eqn:El.
    + apply Hskip; [done|]. intros [_ H]. rewrite Em, El in H. done.
    + exists c1. split; [|done]. unfold relay_verdict. rewrite filter_cons_True by (split; [done|by rewrite Em]).
      cbn [head]. unfold easy_nat. by rewrite Em.
  - apply Hskip; [done|]. intros [_ H]. by rewrite Em in H.
Qed.

(** What [p2pPeers] collects of a peer. *)
Definition states_of (id : bytes) (ps : list DiscoUdp.PeerState) : list DiscoUdp.PeerState :=
  filter (fun p => ps_PeerID p = id) ps.
Definition collected (ps : list DiscoUdp.PeerState) : option (Z * list bytes) :=
  match ps with
  | [] => None
  | p :: rest => Some (fold_left Z.max (LastActiveTime <$> rest) (LastActiveTime p), addr_String <$> (ps_Addr <$> ps))
  end.

Lemma collected_snoc ps p :
  collected (ps ++ [p]) =
  match collected ps with
  | None => Some (LastActiveTime p, [addr_String (ps_Addr p)])
  | Some (last, addrs) => Some (Z.max last (LastActiveTime p), addrs ++ [addr_String (ps_Addr p)])
  end.
Proof. destruct ps as [|q ps]; [done|]. cbn [app collected]. rewrite !fmap_cons, !fmap_app, fold_left_app. done. Qed.

Lemma p2pPeers_collected ps id : p2pPeers ps !! id = collected (states_of id ps).
Proof.
  unfold p2pPeers. rewrite <- (rev_involutive ps). induction (rev ps) as [|p qs IH]; [done|].
  cbn [rev]. rewrite fold_left_app. cbn [fold_left]. unfold states_of in *. rewrite filter_app, filter_cons, filter_nil.
  set (m := fold_left add_p2p (rev qs) ∅) in *. unfold add_p2p. destruct (decide (ps_PeerID p = id)) as [He|He].
  - rewrite He, IH, collected_snoc. destruct (collected _) as [[last addrs]|]; rewrite lookup_insert_eq; [|done].
    do 2 f_equal. case_bool_decide; lia.
  - rewrite app_nil_r, <- IH. destruct (m !! ps_PeerID p) as [[last addrs]|]; by rewrite lookup_insert_ne.
Qed.

(** *** The index of the UDP connection *)

(** A keeper and its states are those of the identifier they are found under. *)
Definition keyed (u : UDPConn) : Prop :=
  forall id k, peersIndex u !! id = Some k ->
    k_peerID k = id /\ (forall key st, states k !! key = Some st -> ps_PeerID st = id).

Lemma elem_of_Peers st u :
  st ∈ DiscoUdp.Peers u <-> exists id k, peersIndex u !! id = Some k /\ st ∈ state_list k.
Proof.
  unfold DiscoUdp.Peers. rewrite merge_sort_Permutation, list_elem_of_In, in_concat. split.
  - intros (l & Hl & Hst). apply list_elem_of_In in Hl, Hst. apply list_elem_of_fmap in Hl as ([id k] & -> & Hin). apply elem_of_map_to_list in Hin.
    by exists id, k.
  - intros (id & k & Hk & Hst). exists (state_list k). rewrite <- !list_elem_of_In. split; [|done]. apply list_elem_of_fmap. exists (id, k).
    split; [done|]. by apply elem_of_map_to_list.
Qed.

Lemma keyed_set x u : keyed u -> (forall id k, x !! id = Some k -> peersIndex u !! id = Some k \/
    (k_peerID k = id /\ forall key st, states k !! key = Some st -> ps_PeerID st = id)) ->
  keyed (set_peersIndex x u).
Proof. intros Hu Hx id k Hk. cbn in Hk. destruct (Hx id k Hk) as [Hold|Hnew]; [by apply Hu|done]. Qed.

Definition keeper_of (id : bytes) (k : peerkeeper) : Prop :=
  k_peerID k = id /\ forall key st, states k !! key = Some st -> ps_PeerID st = id.

Lemma keeper_heartbeat l now addr id k : keeper_of id k -> keeper_of id (heartbeat l now addr k).2.
Proof.
  intros [Hid Hst]. unfold heartbeat. destruct l; cbn [negb]; [|done].
  destruct (List.find _ _) as [[key0 st0]|] eqn:Ef; (split; [done|]); cbn [snd set_states states];
    intros key st [[<- <-]|[_ ?]]%lookup_insert_Some; try done; try by eapply Hst.
  apply find_some in Ef as [Ef _]. apply list_elem_of_In, elem_of_map_to_list in Ef. cbn [ps_PeerID]. by eapply Hst.
Qed.

Lemma keyed_beat l l' now sock id addr u : keyed u -> keyed (beat l l' now sock id addr u).
Proof.
  intros Hu. unfold beat. destruct (tryGetPeerkeeper l now sock id u) as [[k|] u1] eqn:Et.
  2:{ unfold tryGetPeerkeeper in Et. destruct l; cbn [negb] in Et; [by case_match|by injection Et as <-]. }
  assert (H0 : keeper_of id k /\ u1 = set_peersIndex (<[id := k]> (peersIndex u)) u).
  { unfold tryGetPeerkeeper in Et. destruct l; [|done]. cbn [negb] in Et.
    destruct (peersIndex u !! id) as [k0|] eqn:Ek; injection Et as <- <-; (split; [|done]); [exact (Hu _ _ Ek)|by split]. }
  destruct H0 as [H0 ->]. pose proof (keeper_heartbeat l' now addr id k H0) as H1.
  destruct (heartbeat l' now addr k) as [ping k1]. cbn [snd] in H1.
  assert (H : keyed (set_peersIndex (<[id := k1]> (<[id := k]> (peersIndex u))) (set_peersIndex (<[id := k]> (peersIndex u)) u))).
  { intros id' k'. cbn. rewrite insert_insert_eq. intros [[<- <-]|[_ ?]]%lookup_insert_Some; [done|by apply Hu]. }
  by destruct ping.
Qed.

Lemma keyed_findPeer now id u r u' : keyed u -> findPeer now id u = (r, u') -> keyed u'.
Proof.
  intros Hu. unfold findPeer. destruct (peersIndex u !! id) as [k|] eqn:Ek; [|by intros [= _ <-]].
  destruct (ready now k) as [ok k1] eqn:Er. intros [= _ <-]. apply keyed_set; [done|].
  assert (Hk : k_peerID k1 = k_peerID k /\ states k1 = states k).
  { unfold ready in Er. case_bool_decide; [by injection Er as _ <-|]. destruct (value_LoadTTL _ _ _ _ _) as [r0 v].
    by injection Er as _ <-. }
  destruct Hk as [H1 H2]. intros id' k' [[<- <-]|[_ ?]]%lookup_insert_Some; [right|by left]. rewrite H1, H2. by apply Hu.
Qed.

Lemma keyed_WriteTo now b id u r u' : keyed u -> DiscoUdp.WriteTo now b id u = (r, u') -> keyed u'.
Proof.
  intros Hu. unfold DiscoUdp.WriteTo. destruct (findPeer now id u) as [[[k|]|e|] u1] eqn:Ef;
    apply keyed_findPeer in Ef; try done; [|by intros [= _ <-]..].
  destruct (writeUDP now b k) as [r0 [[a x]|]]; by intros [= _ <-].
Qed.

(** Packets and health checks keep the index as it should be. *)
Lemma keyed_udpRead ignored locks now sock addr buf u r u' :
  keyed u -> udpRead ignored locks now sock addr buf u = (r, u') -> keyed u'.
Proof.
  intros Hu. unfold udpRead. case_bool_decide.
  { destruct (ignored _); intros [= _ <-]; [done|by apply keyed_beat]. }
  destruct (Is _); [by intros [= _ <-]|]. case_bool_decide; [by intros [= _ <-]|].
  pose proof (keyed_beat locks.1 locks.2 now sock (findPeerID now addr u) addr u Hu) as Hb.
  destruct (tryToDst _ _) as [[[pkt dst]|]|e|]; [| |done|by intros [= _ <-]].
  - destruct (DiscoUdp.WriteTo _ _ _ _) as [[n|e|] u1] eqn:Ew; apply keyed_WriteTo in Ew; try done; by intros [= _ <-].
  - destruct (tryRecv _) as [[[[|x pkt] src]|]|e|]; by intros [= _ <-].
Qed.

Lemma keyed_healthcheck now u : keyed u -> keyed (healthcheck_round now u).
Proof.
  intros Hu. apply keyed_set; [done|]. intros id k. rewrite lookup_omap_Some. intros (k0 & Hk & H0). right.
  cbv zeta in Hk. destruct (bool_decide (states _ = ∅)); [done|]. injection Hk as <-. destruct (Hu _ _ H0) as [H1 H2]. unfold healthcheck.
  destruct (bool_decide _); [|done]. cbn. split; [done|]. intros key st. rewrite map_lookup_filter_Some. intros [? _]. by eapply H2.
Qed.

(** A write that succeeds goes to an address of the index. *)
Lemma WriteTo_known now b id u n u' :
  keyed u -> DiscoUdp.WriteTo now b id u = (Ok n, u') -> exists st, st ∈ DiscoUdp.Peers u /\ ps_PeerID st = id.
Proof.
  intros Hu. unfold DiscoUdp.WriteTo, findPeer. destruct (peersIndex u !! id) as [k|] eqn:Ek; [|done].
  destruct (ready now k) as [[ok|e|] k1] eqn:Er; [|done..]. cbn. destruct ok; [|done].
  assert (Hk : states k1 = states k).
  { unfold ready in Er. case_bool_decide; [by injection Er as _ <-|]. destruct (value_LoadTTL _ _ _ _ _) as [r0 v].
    by injection Er as _ <-. }
  unfold writeUDP, writeUDP_to. destruct b as [b|]; [|done]. destruct (selectPeerUDP now k1) as [st|] eqn:Es; [|done]. intros _.
  assert (Hst : st ∈ state_list k).
  { unfold selectPeerUDP in Es. pose proof (most_recent_spec (filter (fun st => candidate now k1 st = true) (state_list k1))) as Hm.
    rewrite Es in Hm. destruct Hm as [Hm _]. apply list_elem_of_filter in Hm as [_ Hm]. unfold state_list in *. by rewrite Hk in Hm. }
  exists st. split; [apply elem_of_Peers; by exists id, k|]. apply elem_of_state_list in Hst as [key Hst]. by apply (Hu _ _ Ek) in Hst.
Qed.

(** *** What is reported *)

Definition report (c : conn) (p : Nic.Peer) : PeerState :=
  let ps := DiscoUdp.Peers (udpConn c) in
  match collected (states_of (Nic.Addr p) ps) with
  | Some (last, addrs) => base_state p addrs (Some last) (bs "P2P")
  | None => base_state p [] None (if relay_verdict ps (Nic.Addr p) c then bs "PEER_RELAY" else bs "RELAY")
  end.

Lemma report_same (c c' : conn) p : same_but_index c c' -> report c' p = report c p.
Proof. intros H. unfold report. rewrite (relay_verdict_same c c') by done. by destruct H as (_ & _ & -> & _). Qed.

Lemma report_peers_run ps (c : conn) :
  cok (peerMap c) ->
  exists c', report_peers (p2pPeers (DiscoUdp.Peers (udpConn c))) ps c = (Ok (report c <$> ps), c') /\ same_but_index c c'.
Proof.
  set (known := p2pPeers (DiscoUdp.Peers (udpConn c))).
  assert (H : forall c1, same_but_index c c1 ->
    exists c', report_peers known ps c1 = (Ok (report c <$> ps), c') /\ same_but_index c c').
  2:{ intros Hok. by apply H. }
  induction ps as [|p ps IH]; intros c1 H1; [by exists c1|]. cbn [report_peers]. rewrite gom_bind_run.
  assert (Hhead : exists c2, (match known !! Nic.Addr p with
      | Some (last, addrs) => mret (base_state p addrs (Some last) (bs "P2P"))
      | None => relay ← usePeerRelay (Nic.Addr p);
          mret (base_state p [] None (if relay : bool then bs "PEER_RELAY" else bs "RELAY"))
      end : GoM conn Empty_set PeerState) c1 = (Ok (report c p), c2) /\ same_but_index c c2).
  { unfold known. rewrite p2pPeers_collected. unfold report.
    destruct (collected _) as [[last addrs]|]; [by exists c1|]. rewrite gom_bind_run. unfold usePeerRelay. rewrite gets_bind.
    destruct (usePeerRelay_go_run (DiscoUdp.Peers (udpConn c1)) (Nic.Addr p) c1 (proj1 H1)) as (c2 & -> & H2).
    exists c2. split; [|by eapply same_trans]. rewrite (relay_verdict_same c c1) by done.
    destruct H1 as (_ & _ & -> & _). done. }
  destruct Hhead as (c2 & -> & H2). rewrite gom_bind_run. destruct (IH c2 H2) as (c' & -> & H3). by exists c'.
Qed.

Lemma states_of_collected id ps : collected (states_of id ps) <> None <-> exists st, st ∈ ps /\ ps_PeerID st = id.
Proof.
  split.
  - destruct (states_of id ps) as [|st l] eqn:El; [done|]. intros _. exists st.
    assert (Hin : st ∈ states_of id ps) by (rewrite El; left). by apply list_elem_of_filter in Hin as [? ?].
  - intros (st & Hin & Hid). assert (Hf : st ∈ states_of id ps) by (by apply list_elem_of_filter).
    destruct (states_of id ps); [by apply elem_of_nil in Hf|done].
Qed.

Lemma elem_of_rotate {A} (x : A) k l : x ∈ rotate k l <-> x ∈ l.
Proof.
  unfold rotate. set (i := (k `mod` length l)%nat).
  assert (H : x ∈ l <-> x ∈ take i l ++ drop i l) by (by rewrite take_drop). rewrite H, !elem_of_app. tauto.
Qed.

Lemma verdict_relay (c : conn) id :
  Forall (fun st => ps_PeerID st <> []) (DiscoUdp.Peers (udpConn c)) ->
  relay_verdict (DiscoUdp.Peers (udpConn c)) id c = true -> relay_spec id c <> [].
Proof.
  intros Hne. unfold relay_verdict. destruct (head _) as [p|] eqn:Eh; [|done]. intros Hv.
  assert (Hin : p ∈ filter (decisive id c) (DiscoUdp.Peers (udpConn c))) by (destruct (filter _ _); [done|injection Eh as ->; left]).
  apply list_elem_of_filter in Hin as [[Hid Hd] Hin].
  assert (Hs : suits id c p).
  { split; [done|]. unfold easy_nat in Hv. destruct (meta_view c (ps_PeerID p)) as [m|]; [|done]. unfold can_relay. by rewrite Hd. }
  unfold relay_spec. set (r := rotate _ _).
  assert (Hr : p ∈ filter (suits id c) r).
  { apply list_elem_of_filter. split; [done|]. unfold r. by rewrite elem_of_rotate. }
  destruct (filter (suits id c) r) as [|q l] eqn:Ef; [by apply elem_of_nil in Hr|]. cbn.
  assert (Hq : q ∈ filter (suits id c) r) by (rewrite Ef; left). apply list_elem_of_filter in Hq as [_ Hq].
  unfold r in Hq. rewrite elem_of_rotate in Hq. rewrite Forall_forall in Hne. by apply Hne.
Qed.
End Facts.

(** What a daemon shows of its peers is so: one line for each peer of the NIC, in
    its order; the mode is P2P exactly when the peer is known by an address, and
    then the line has all of its addresses; it is so whenever a write to the peer
    goes straight to it; and a peer that is shown as reached over another one has
    a relay that can be chosen. *)
Theorem peers_shown {S E} `{!SymmAlgo S E} {CM CD CP : Type} `{!CacheLaws CM bytes Values} `{!CacheLaws CD bytes time}
    `{!ClearLaws CD bytes time} `{!CacheLaws CP bytes nat} n (c : @PacketConn S CM CD CP) :
  cok (peerMap c) -> keyed (udpConn c) -> Forall (fun st => ps_PeerID st <> []) (DiscoUdp.Peers (udpConn c)) ->
  exists states c', handleQueryPeers n c = (Ok states, c') /\ same_but_index c c' /\
    st_ID <$> states = Nic.Addr <$> Nic.Peers n /\
    Forall (fun st =>
      (Mode st = bs "P2P" <-> exists a, a ∈ DiscoUdp.Peers (udpConn c) /\ ps_PeerID a = st_ID st) /\
      Addrs st = addr_String <$> (ps_Addr <$> states_of (st_ID st) (DiscoUdp.Peers (udpConn c))) /\
      (forall now b k u', DiscoUdp.WriteTo now b (st_ID st) (udpConn c) = (Ok k, u') -> Mode st = bs "P2P") /\
      (Mode st = bs "PEER_RELAY" -> relay_spec (st_ID st) c <> [])) states.
Proof.
  intros Hok Hu Hne. unfold handleQueryPeers. rewrite gets_bind.
  destruct (report_peers_run (Nic.Peers n) c Hok) as (c' & -> & Hs). exists (report c <$> Nic.Peers n), c'.
  split; [done|]. split; [done|]. split.
  { rewrite <- list_fmap_compose. apply list_fmap_ext. intros i p _. unfold compose, report. by destruct (collected _) as [[? ?]|]. }
  apply Forall_fmap, Forall_forall. intros p _. unfold compose, report. pose proof (states_of_collected (Nic.Addr p) (DiscoUdp.Peers (udpConn c))) as Hc.
  destruct (states_of (Nic.Addr p) (DiscoUdp.Peers (udpConn c))) as [|s l] eqn:El; cbn [collected] in *; cbn [st_ID Mode Addrs base_state].
  - rewrite El. assert (Hno : forall a, a ∈ DiscoUdp.Peers (udpConn c) -> ps_PeerID a <> Nic.Addr p)
      by (intros a Ha Hid; apply (proj2 Hc); [by exists a|done]).
    split; [|split; [done|split]].
    + split; [by destruct (relay_verdict _ _ _)|]. intros (a & Ha & Hid). by destruct (Hno a Ha).
    + intros now b k u' Hw. destruct (WriteTo_known _ _ _ _ _ _ Hu Hw) as (a & Ha & Hid). by destruct (Hno a Ha).
    + destruct (relay_verdict _ _ _) eqn:Ev; [|done]. intros _. by apply verdict_relay.
  - rewrite El. split; [|done]. split; [intros _; by apply Hc|done].
Qed.

(** The loop stops at the first peer that has not refused, whatever its NAT: with a
    hard one before an easy one the mode shown is RELAY while datagrams go through
    the easy one. *)
Module Examples.
Import P2p.Examples.
Definition known_of (id : bytes) (x : Z) : peerkeeper := ex_keeper id x 0.
Definition hidden : @PacketConn toy_algo (LruCache.Cache bytes Values) (LruCache.Cache bytes time) (LruCache.Cache bytes nat) :=
  put_meta (MkPeer (bs "q") {[bs "nat" := [bs "hard"]]})
    (put_meta (MkPeer (bs "p") {[bs "nat" := [bs "easy"]]})
      (ex_conn (bs "a") MODE_DEFAULT None
         (ex_udp (bs "a") {[bs "p" := known_of (bs "p") 7; bs "q" := known_of (bs "q") 8]} [1%nat]) new_WSConn)).

Example relay_hidden :
  relay_verdict (DiscoUdp.Peers (udpConn hidden)) (bs "b") hidden = false /\ relay_spec (bs "b") hidden = bs "p".
Proof. vm_compute. done. Qed.

Definition lru0 {K V : Type} `{Countable K} : LruCache.Cache K V := LruCache.MkCache 8 ∅ [] ∅ 0.
Definition nic2 : Nic.VirtualNIC :=
  Nic.AddPeer (Nic.MkPeer (bs "b") (bs "100.99.0.3") [] ∅)
    (Nic.AddPeer (Nic.MkPeer (bs "p") (bs "100.99.0.2") [] {[bs "name" := [bs "host"]; bs "label" := [bs "node.nr"]]})
      (Nic.MkNIC lru0 lru0 [])).

Lemma hidden_keyed : keyed (udpConn hidden).
Proof.
  intros id k. change (peersIndex (udpConn hidden)) with ({[bs "p" := known_of (bs "p") 7; bs "q" := known_of (bs "q") 8]} : gmap bytes peerkeeper).
  intros [[<- <-]|[_ [<- <-]%lookup_singleton_Some]]%lookup_insert_Some; (split; [done|]);
    intros key st H; unfold known_of, ex_keeper in H; cbn [states] in H; apply lookup_singleton_Some in H as [<- <-]; done.
Qed.

Lemma peers_shown_witness :
  exists states c', handleQueryPeers nic2 hidden = (Ok states, c') /\ same_but_index hidden c' /\
    st_ID <$> states = Nic.Addr <$> Nic.Peers nic2 /\
    Forall (fun st =>
      (Mode st = bs "P2P" <-> exists a, a ∈ DiscoUdp.Peers (udpConn hidden) /\ ps_PeerID a = st_ID st) /\
      Addrs st = addr_String <$> (ps_Addr <$> states_of (st_ID st) (DiscoUdp.Peers (udpConn hidden))) /\
      (forall now b k u', DiscoUdp.WriteTo now b (st_ID st) (udpConn hidden) = (Ok k, u') -> Mode st = bs "P2P") /\
      (Mode st = bs "PEER_RELAY" -> relay_spec (st_ID st) hidden <> [])) states.
Proof.
  refine (peers_shown nic2 hidden _ hidden_keyed _).
  - apply cput_ok, cput_ok, empty_ok.
  - apply Forall_forall. intros st Hin.
    assert (H : forallb (fun st => negb (bool_decide (ps_PeerID st = []))) (DiscoUdp.Peers (udpConn hidden)) = true)
      by (vm_compute; reflexivity).
    rewrite forallb_forall in H. apply list_elem_of_In, H, negb_true_iff, bool_decide_eq_false in Hin. exact Hin.
Defined.

Example printed :
  match handleQueryPeers nic2 hidden with
  | (Ok states, _) => peer_row <$> states =
      [[bs "-"; bs "100.99.0.3"; bs "-"; bs "RELAY"; bs "-"; bs "-"; bs "-"; []];
       [bs "host"; bs "100.99.0.2"; bs "-"; bs "P2P"; bs "-"; bs "NR"; bs "192.0.2.7:4000"; []]]
  | _ => False
  end.
Proof. vm_compute. done. Qed.
End Examples.
