(* ===== verification/Startup.v ===== *)
(** * Startup: how a node comes up and goes down ([cmd/pgcli/vpn/vpn.go], [ipc/server], [rootless])

    [P2PVPN.Run] opens the card, the connection, the forwards, the proxy and the
    socket of the daemon, and hands over to [vpn.Run].  What it opens is a list;
    the goroutines that close something once the context is done, and for which its
    deferred [wg.Wait] waits, are the list [waiting]. *)

From S2P Require Import Prelude Text Netip Socks5 Rootless P2p Daemon.

Inductive resource := TunDevice | GvisorCard | GvisorStack | PacketConnection | Forward (l : nat) | ProxyTCP | ProxyUDP | IpcSocket.
#[export] Instance resource_eq_dec : EqDecision resource.
Proof. solve_decision. Defined.

(** A goroutine that waits for the end of the context. *)
Inductive closer := EndForwards (ls : list nat) | EndProxy | EndIpc.

(** The file of the socket: missing, left over from a daemon that has died, or of
    one that answers. *)
Inductive socket_file := Absent | Stale | Live.

Inductive run_error := ErrTun | ErrTunName | ErrConnection | ErrForwards | ErrProxyListen | ErrSocketInUse | ErrSocketListen.

Record host := MkHost { opened : list resource; waiting : list closer; socket : socket_file }.

Definition open (rs : list resource) (h : host) : host := MkHost (opened h ++ rs) (waiting h) (socket h).
Definition close (rs : list resource) (h : host) : host :=
  MkHost (filter (fun r => r ∉ rs) (opened h)) (waiting h) (socket h).
Definition wait_for (c : closer) (h : host) : host := MkHost (opened h) (waiting h ++ [c]) (socket h).
Definition set_socket (s : socket_file) (h : host) : host := MkHost (opened h) (waiting h) s.

Abbreviation HM := (GoM host run_error).
Definition fail (e : run_error) : HM unit := fun h => (Err e, h).

(** What the system answers: whether the device can be created and says its name,
    the connection listens, a forward can be listened on, the proxy's sockets, and whether a
    stale socket file can be removed and a new one listened on. *)
Record system := MkSystem {
  tun_CreateTUN : bool; device_Name : bool; listenPacketConn : bool; url_Parse : bytes -> option (bytes * bytes);
  gvisor_Listen : list nat -> bytes -> Z -> option nat; listen_tcp : bool; listen_udp : bool;
  removable : bool; listenable : bool
}.

Section Run.
Context (sys : system).

(** [ForwardEngine.Start]; an error closes what was opened, the card and the stack
    under it ([closeEngine]). *)
Definition ForwardEngine_Start (forwards : list bytes) : HM unit :=
  match Rootless.Start (url_Parse sys) (gvisor_Listen sys) forwards with
  | Running jobs =>
      _ ← modify (open (Forward <$> (job_listener <$> jobs)));
      modify (wait_for (EndForwards (job_listener <$> jobs)))
  | NotStarted closed => _ ← modify (close (GvisorCard :: GvisorStack :: (Forward <$> closed))); fail ErrForwards
  end.

(** [ProxyServer.Start] *)
Definition ProxyServer_Start : HM unit :=
  if negb (listen_tcp sys) then fail ErrProxyListen
  else
    _ ← modify (open [ProxyTCP]);
    if negb (listen_udp sys) then _ ← modify (close [ProxyTCP]); fail ErrProxyListen
    else _ ← modify (open [ProxyUDP]); modify (wait_for EndProxy).

(** [Server.Start]: a socket that answers is left alone, another one replaced. *)
Definition Server_Start : HM unit :=
  s ← gets socket;
  match s with
  | Live => fail ErrSocketInUse
  | _ =>
      _ ← modify (set_socket (if removable sys then Absent else s));
      s ← gets socket;
      match s with
      | Absent =>
          if listenable sys then
            _ ← modify (set_socket Live); _ ← modify (open [IpcSocket]); modify (wait_for EndIpc)
          else fail ErrSocketListen
      | _ => fail ErrSocketListen
      end
  end.

(** An error of the socket is only a warning. *)
Definition try (m : HM unit) : HM unit := fun h => (Ok tt, (m h).2).

(** [tun.Create]: a device that does not say its name is not closed. *)
Definition tun_Create : HM unit :=
  if negb (tun_CreateTUN sys) then fail ErrTun
  else _ ← modify (open [TunDevice]); if negb (device_Name sys) then fail ErrTunName else mret tt.

(** The card of [Run], and its [Close]: that of [GvisorCard] takes its addresses
    from the stack, which stays. *)
Definition open_card (v : Config) : HM unit :=
  if rootlessMode v then modify (open [GvisorCard; GvisorStack]) else tun_Create.
Definition card_Close (v : Config) : host -> host := close [if rootlessMode v then GvisorCard else TunDevice].

(** [Run] up to the call of [vpn.Run]; the forwards and the proxy come in between. *)
Definition start_rootless (v : Config) : HM unit :=
  _ ← ForwardEngine_Start (Forwards v);
  if bool_decide (Proxy_Listen v <> []) then ProxyServer_Start else mret tt.
Definition Run (v : Config) : HM unit :=
  _ ← open_card v;
  if negb (listenPacketConn sys) then _ ← modify (card_Close v); fail ErrConnection
  else
    _ ← modify (open [PacketConnection]);
    _ ← (if rootlessMode v then start_rootless v else mret tt);
    try Server_Start.

(** What becomes of it: [Run] returns its error, or waits with it until the context
    is done, or the node runs. *)
Inductive exit := Returns (e : run_error) | WaitsWith (e : run_error) | Serves | Dies.
Definition exit_of (r : res run_error unit * host) : exit :=
  match r with
  | (Ok _, _) => Serves
  | (Err e, h) => if bool_decide (waiting h = []) then Returns e else WaitsWith e
  | (Panic, _) => Dies
  end.

(** The end of the context. *)
Definition run_closer (c : closer) (h : host) : host :=
  match c with
  | EndForwards ls => close (GvisorCard :: GvisorStack :: (Forward <$> ls)) h
  | EndProxy => close [ProxyTCP; ProxyUDP] h
  | EndIpc => set_socket Absent (close [IpcSocket] h)
  end.
Definition at_end (v : Config) (r : res run_error unit * host) : host :=
  let h := fold_right run_closer r.2 (waiting r.2) in
  match r.1 with
  | Ok _ => card_Close v (close [PacketConnection] h)
  | _ => h
  end.
End Run.

(** ** Lemmas *)

(** Resources are closed by name: what is left of a list. *)
Ltac closing := repeat first
  [ rewrite filter_app | rewrite filter_nil
  | rewrite filter_cons_False by set_solver | rewrite filter_cons_True by set_solver ].

Lemma filter_forwards (rs : list resource) (ls : list nat) :
  (forall l, l ∈ ls -> Forward l ∈ rs) -> filter (fun r => r ∉ rs) (Forward <$> ls) = [].
Proof.
  intros H. induction ls as [|l ls IH]; [done|]. cbn [fmap list_fmap].
  rewrite filter_cons_False by (intros Hn; apply Hn, H; left). apply IH. intros l' Hl. apply H. by right.
Qed.

Lemma filter_forwards_keep (rs : list resource) (ls : list nat) :
  (forall l, Forward l ∉ rs) -> filter (fun r => r ∉ rs) (Forward <$> ls) = Forward <$> ls.
Proof. intros H. induction ls as [|l ls IH]; [done|]. cbn [fmap list_fmap]. by rewrite filter_cons_True, IH. Qed.

(** Runs a computation step by step. *)
Ltac run_steps := repeat first
  [ rewrite gets_bind | rewrite modify_bind | rewrite gom_bind_run
  | progress unfold modify, fail, try | progress cbn [fst snd opened waiting socket negb andb open close wait_for set_socket] ].

(** The socket of the daemon changes only its own entry. *)
Lemma Server_Start_run sys h :
  let h' := (Server_Start sys h).2 in
  (opened h' = opened h ++ [IpcSocket] /\ waiting h' = waiting h ++ [EndIpc] /\ socket h <> Live /\ socket h' = Live) \/
  (opened h' = opened h /\ waiting h' = waiting h /\ (socket h = Live -> socket h' = Live)).
Proof.
  destruct h as [o w []]; unfold Server_Start; run_steps; [..|right; by split_and!];
    destruct (removable sys); run_steps; try (destruct (listenable sys); run_steps);
    (left; by split_and!) || (right; by split_and!).
Qed.

(** The rootless part: an error leaves nothing but the connection and, behind the
    forwards, what waits; otherwise every resource has its closer. *)
Lemma rootless_run sys v h :
  opened h = [GvisorCard; GvisorStack; PacketConnection] -> waiting h = [] ->
  let r := start_rootless sys v h in
  socket r.2 = socket h /\
  match Rootless.Start (url_Parse sys) (gvisor_Listen sys) (Forwards v) with
  | NotStarted _ => r.1 = Err ErrForwards /\ opened r.2 = [PacketConnection] /\ waiting r.2 = []
  | Running jobs =>
      let ls := job_listener <$> jobs in
      if bool_decide (Proxy_Listen v <> []) then
        if listen_tcp sys && listen_udp sys then
          r.1 = Ok tt /\ opened r.2 = [GvisorCard; GvisorStack; PacketConnection] ++ (Forward <$> ls) ++ [ProxyTCP; ProxyUDP] /\
          waiting r.2 = [EndForwards ls; EndProxy]
        else r.1 = Err ErrProxyListen /\ opened r.2 = [GvisorCard; GvisorStack; PacketConnection] ++ (Forward <$> ls) /\
             waiting r.2 = [EndForwards ls]
      else r.1 = Ok tt /\ opened r.2 = [GvisorCard; GvisorStack; PacketConnection] ++ (Forward <$> ls) /\ waiting r.2 = [EndForwards ls]
  end.
Proof.
  destruct h as [o w s]. cbn [opened waiting socket]. intros -> ->. unfold start_rootless, ForwardEngine_Start.
  destruct (Rootless.Start _ _ _) as [jobs|closed].
  2:{ run_steps. split_and!; try done. by closing. }
  set (ls := job_listener <$> jobs). run_steps. case_bool_decide as Hp; [|run_steps; by split_and!].
  unfold ProxyServer_Start. destruct (listen_tcp sys); run_steps; [|by split_and!].
  destruct (listen_udp sys); run_steps; split_and!; try done.
  - by rewrite <- !app_assoc.
  - closing. rewrite filter_forwards_keep by set_solver. by rewrite app_nil_r.
Qed.

(** What waits at the end closes what was opened. *)
Lemma end_serving v o ls sk (ipc proxy : bool) :
  o = (if rootlessMode v then [GvisorCard; GvisorStack; PacketConnection] ++ (Forward <$> ls) ++ (if proxy then [ProxyTCP; ProxyUDP] else [])
       else [TunDevice; PacketConnection]) ->
  opened (at_end v (Ok tt, MkHost (o ++ if ipc then [IpcSocket] else [])
    ((if rootlessMode v then EndForwards ls :: (if proxy then [EndProxy] else []) else []) ++ if ipc then [EndIpc] else []) sk)) = [] /\
  socket (at_end v (Ok tt, MkHost (o ++ if ipc then [IpcSocket] else [])
    ((if rootlessMode v then EndForwards ls :: (if proxy then [EndProxy] else []) else []) ++ if ipc then [EndIpc] else []) sk)) =
    if ipc then Absent else sk.
Proof.
  intros ->. unfold at_end, card_Close. cbn [fst snd waiting]. destruct (rootlessMode v), proxy, ipc; cbn [app fold_right run_closer]; run_steps;
    cbn [set_socket socket opened]; (split; [|done]); closing;
    rewrite ?filter_forwards_keep by set_solver; rewrite ?(filter_forwards (GvisorCard :: GvisorStack :: _)) by set_solver; by closing.
Qed.

Lemma end_waiting v ls sk e :
  opened (at_end v (Err e, MkHost ([GvisorCard; GvisorStack; PacketConnection] ++ (Forward <$> ls)) [EndForwards ls] sk)) = [PacketConnection].
Proof.
  unfold at_end. cbn [fst snd waiting fold_right run_closer]. run_steps. closing.
  rewrite (filter_forwards (GvisorCard :: GvisorStack :: _)) by set_solver. done.
Qed.

(** What a run from these conditions should come to. *)
Definition waits (sys : system) (v : Config) : Prop :=
  rootlessMode v = true /\ listenPacketConn sys = true /\ Proxy_Listen v <> [] /\ listen_tcp sys && listen_udp sys = false /\
  exists jobs, Rootless.Start (url_Parse sys) (gvisor_Listen sys) (Forwards v) = Running jobs.
Definition left_open (sys : system) (v : Config) : list resource :=
  if rootlessMode v then if listenPacketConn sys then [PacketConnection] else [GvisorStack]
  else if tun_CreateTUN sys && negb (device_Name sys) then [TunDevice] else [].
Definition ends (sys : system) (v : Config) (sock : socket_file) (r : res run_error unit * host) : Prop :=
  exit_of r <> Dies /\
  ((exists e, exit_of r = WaitsWith e) <-> waits sys v) /\
  (exit_of r = Serves -> opened (at_end v r) = []) /\
  (exit_of r <> Serves -> opened (at_end v r) = left_open sys v) /\
  (sock = Live -> socket (at_end v r) = Live) /\
  (IpcSocket ∈ opened r.2 -> sock <> Live /\ socket r.2 = Live /\ socket (at_end v r) = Absent).

(** An error with nothing that waits. *)
Lemma ends_error sys v sock e o :
  ~ waits sys v -> o = left_open sys v -> ends sys v sock (Err e, MkHost o [] sock).
Proof.
  intros Hn Ho. unfold ends, exit_of, at_end. cbn. rewrite Ho. split_and!; try done.
  - split; [by intros [? ?]|done].
  - unfold left_open. destruct (rootlessMode v), (listenPacketConn sys), (tun_CreateTUN sys && negb (device_Name sys)); set_solver.
Qed.

(** The proxy cannot be listened on. *)
Lemma ends_waiting sys v sock ls :
  waits sys v -> ends sys v sock (Err ErrProxyListen, MkHost ([GvisorCard; GvisorStack; PacketConnection] ++ (Forward <$> ls)) [EndForwards ls] sock).
Proof.
  intros Hw. unfold ends. rewrite end_waiting. unfold exit_of. rewrite bool_decide_false by done. split_and!; try done.
  - split; [done|by exists ErrProxyListen].
  - intros _. unfold left_open. destruct Hw as (-> & -> & _). done.
  - cbn [snd opened]. set_solver.
Qed.

(** Everything has been opened, but for the socket. *)
Lemma ends_serving sys v h ls (proxy : bool) :
  opened h = (if rootlessMode v then [GvisorCard; GvisorStack; PacketConnection] ++ (Forward <$> ls) ++ (if proxy then [ProxyTCP; ProxyUDP] else [])
              else [TunDevice; PacketConnection]) ->
  waiting h = (if rootlessMode v then EndForwards ls :: (if proxy then [EndProxy] else []) else []) ->
  ~ waits sys v -> ends sys v (socket h) (try (Server_Start sys) h).
Proof.
  intros Ho Hw Hn. unfold try. pose proof (Server_Start_run sys h) as Hrun. cbv zeta in *.
  destruct (Server_Start sys h).2 as [o w s]. cbn [opened waiting socket snd] in *.
  assert (Hno : IpcSocket ∉ opened h).
  { rewrite Ho. destruct (rootlessMode v), proxy; rewrite ?elem_of_app; set_solver. }
  assert (Hw0 : forall o' w' s', (exists e, exit_of (Ok tt, MkHost o' w' s') = WaitsWith e) <-> waits sys v)
    by (intros o' w' s'; split; [by intros [? ?]|done]).
  destruct Hrun as [(-> & -> & Hl & ->)|(-> & -> & Hl)]; rewrite Hw.
  - destruct (end_serving v (opened h) ls Live true proxy Ho) as [H1 H2]. by split_and!.
  - destruct (end_serving v (opened h) ls s false proxy Ho) as [H1 H2]. rewrite !app_nil_r in H1, H2.
    split_and!; try done. rewrite H2. done.
Qed.

Lemma ends_rootless sys v sock :
  rootlessMode v = true -> listenPacketConn sys = true -> ends sys v sock (Run sys v (MkHost [] [] sock)).
Proof.
  intros Er Ec. unfold Run, open_card. rewrite Er, Ec. cbn [negb]. rewrite !modify_bind, gom_bind_run. set (h0 := open [PacketConnection] _).
  destruct (rootless_run sys v h0 eq_refl eq_refl) as [Hs Hrun]. cbv zeta in *. destruct (start_rootless sys v h0) as [r1 [o w s]].
  cbn [fst snd socket opened waiting] in *. change (socket h0) with sock in Hs. subst s.
  destruct (Rootless.Start _ _ _) as [jobs|closed] eqn:Ef.
  2:{ destruct Hrun as (-> & -> & ->). apply ends_error; [|by unfold left_open; rewrite Er, Ec].
      intros (_ & _ & _ & _ & jobs & Hj). by rewrite Ef in Hj. }
  set (ls := job_listener <$> jobs) in *. case_bool_decide as Hp.
  - destruct (listen_tcp sys && listen_udp sys) eqn:Ep; destruct Hrun as (-> & -> & ->).
    + apply (ends_serving sys v (MkHost _ _ sock) ls true); rewrite ?Er; [done..|]. intros (_ & _ & _ & ? & _). congruence.
    + apply ends_waiting. split_and!; try done. by exists jobs.
  - destruct Hrun as (-> & -> & ->). apply (ends_serving sys v (MkHost _ _ sock) ls false); rewrite ?Er; cbn [opened waiting];
      [by rewrite app_nil_r|done|]. by intros (_ & _ & ? & _).
Qed.


(** ** Examples *)

Module Examples.
Import Daemon.Examples.

(** A forward and a proxy on a port that is taken. *)
Definition cfg1 : Config :=
  MkConfig (bs "100.99.0.1/24") [] 1371 (bs "pg0") (bs "127.0.0.1:4090") [] (Disco_Config cfg0) [] 29877 [] [] []
    (bs "wss://example.org/pg") false MODE_DEFAULT [bs "tcp://127.0.0.1:80"] [] false false.
Definition sys1 : system :=
  MkSystem true true true (fun _ => Some (bs "tcp", bs "127.0.0.1:80")) (fun ls _ _ => Some (length ls)) true false true true.

Example hangs : exit_of (Run sys1 cfg1 (MkHost [] [] Absent)) = WaitsWith ErrProxyListen.
Proof. vm_compute. reflexivity. Qed.
Example stale_socket_replaced :
  let r := Run (MkSystem true true true (url_Parse sys1) (gvisor_Listen sys1) true true true true) cfg1 (MkHost [] [] Stale) in
  exit_of r = Serves /\ opened r.2 = [GvisorCard; GvisorStack; PacketConnection; Forward 0; ProxyTCP; ProxyUDP; IpcSocket] /\
  at_end cfg1 r = MkHost [] (waiting r.2) Absent.
Proof. vm_compute. done. Qed.
End Examples.
