(* ===== verification/Netlink.v ===== *)
(** * Netlink: addresses and routes of the system ([netlink/], [vpn/nic/tun/tun.go])

    The same package for four kinds of systems.  What a device is given when it is
    created and what [Show] then says of it; what the messages of a system become;
    and the goroutines of a subscription as steps.  The system itself (links,
    commands, sockets) is an argument. *)

From S2P Require Import Prelude Text Netip Lru Disco Vpn VpnRun.

Inductive system := Linux | Darwin | Windows | Other.
#[export] Instance system_dec : EqDecision system.
Proof. solve_decision. Defined.

(** ** Links *)

Module Link.

Record Info := MkInfo { IPv4 : bytes; IPv6 : bytes }.

Definition set_IPv4 (t : bytes) (i : Info) : Info := MkInfo t (IPv6 i).
Definition set_IPv6 (t : bytes) (i : Info) : Info := MkInfo (IPv4 i) t.

(** "%d.%d.%d.%d" of the first bytes of a mask. *)
Definition dotted {E} (m : bytes) : res E bytes :=
  match m with
  | a :: b :: c :: d :: _ => Ok (ip4_String [a; b; c; d])
  | _ => Panic
  end.

Section System.
(** Whether a command succeeds; [vishvananda/netlink] on Linux. *)
Context (run : list bytes -> bool).
Context (LinkByName : bytes -> option nat) (ParseAddr : bytes -> option IP) (AddrAdd : nat -> bytes -> bool) (LinkSetUp : nat -> bool).

(** A command line; the result says whether it succeeded. *)
Definition route_args (op : bytes) (to : IPNet) : list bytes :=
  [bs "route"; bs "-qn"; op; if To4 (net_IP to) then bs "-inet" else bs "-inet6"; net_String to].

Definition done_ (b : bool) : res unit unit := if b then Ok tt else Err tt.

Definition AddRoute_linux (RouteAdd : IPNet -> IP -> bool) (to : IPNet) (via : IP) : res unit unit := done_ (RouteAdd to via).
Definition DelRoute_linux (RouteDel : IPNet -> IP -> bool) (to : IPNet) (via : IP) : res unit unit := done_ (RouteDel to via).

Definition AddRoute_darwin (ifName : bytes) (to : IPNet) : res unit unit :=
  done_ (run (route_args (bs "add") to ++ [bs "-iface"; ifName])).
Definition DelRoute_darwin (to : IPNet) : res unit unit := done_ (run (route_args (bs "delete") to)).

Definition AddRoute_windows (ifName : bytes) (to : IPNet) (via : IP) : res unit unit :=
  if To4 via then
    mask ← dotted (net_Mask to);
    done_ (run [bs "route"; bs "add"; ip_String (net_IP to); bs "mask"; mask; ip_String via])
  else done_ (run [bs "netsh"; bs "interface"; bs "ipv6"; bs "add"; bs "route"; net_String to; ifName; ip_String via]).
Definition DelRoute_windows (ifName : bytes) (to : IPNet) (via : IP) : res unit unit :=
  if To4 via then done_ (run [bs "route"; bs "delete"; ip_String (net_IP to)])
  else done_ (run [bs "netsh"; bs "interface"; bs "ipv6"; bs "delete"; bs "route"; net_String to; ifName; ip_String via]).

(** [SetupLink] *)
Definition SetupLink_linux (ifName cidr : bytes) (i : Info) : res unit unit * Info :=
  match LinkByName ifName with
  | None => (Err tt, i)
  | Some link =>
      match ParseAddr cidr with
      | None => (Err tt, i)
      | Some ip =>
          let i := set_IPv4 (ip_String ip) i in
          let i := if To4 ip then i else set_IPv6 (ip_String ip) i in
          (if AddrAdd link cidr && LinkSetUp link then Ok tt else Err tt, i)
      end
  end.

Definition SetupLink_darwin (ifName cidr : bytes) (i : Info) : res unit unit * Info :=
  match ParseCIDR cidr with
  | None => (Err tt, i)
  | Some (ip, ipnet) =>
      let '(cmd, i) :=
        if To4 ip then ([bs "ifconfig"; ifName; bs "inet"; cidr; ip_String ip; bs "up"], set_IPv4 (ip_String ip) i)
        else ([bs "ifconfig"; ifName; bs "inet6"; bs "add"; cidr], set_IPv6 (ip_String ip) i) in
      (if run cmd then AddRoute_darwin ifName ipnet else Err tt, i)
  end.

Definition SetupLink_windows (ifName cidr : bytes) (i : Info) : res unit unit * Info :=
  match ParseCIDR cidr with
  | None => (Err tt, i)
  | Some (ip, ipnet) =>
      if To4 ip then
        (mask ← dotted (net_Mask ipnet);
         done_ (run [bs "netsh"; bs "interface"; bs "ipv4"; bs "set"; bs "address"; ifName; bs "static"; ip_String ip; mask]),
         set_IPv4 (ip_String ip) i)
      else (done_ (run [bs "netsh"; bs "interface"; bs "ipv6"; bs "add"; bs "address"; ifName; cidr]), set_IPv6 (ip_String ip) i)
  end.

Definition SetupLink (o : system) : bytes -> bytes -> Info -> res unit unit * Info :=
  match o with
  | Linux => SetupLink_linux
  | Darwin => SetupLink_darwin
  | Windows => SetupLink_windows
  | Other => fun _ _ i => (Ok tt, i)
  end.

(** [tun.Create]: the device with the name it was asked for, which the system may
    change; errors of [SetupLink] are ignored. *)
Inductive create_error := ErrCreateTUN | ErrDeviceName.
Definition Create (o : system) (CreateTUN : bytes -> Z -> bool) (Name : bytes -> option bytes) (name : bytes) (mtu : Z)
    (v4 v6 : bytes) (i : Info) : res create_error bytes * Info :=
  let name := if bool_decide (name = []) then bs "tun0" else name in
  if CreateTUN name mtu then
    match Name name with
    | None => (Err ErrDeviceName, i)
    | Some deviceName =>
        let setup cidr i := if bool_decide (cidr = []) then (Ok tt, i) else SetupLink o deviceName cidr i in
        match setup v4 i with
        | (Panic, i) => (Panic, i)
        | (_, i) => match setup v6 i with (Panic, i) => (Panic, i) | (_, i) => (Ok name, i) end
        end
    end
  else (Err ErrCreateTUN, i).
End System.

(** *** Lemmas *)

Lemma colon_in_ip6 b : z2b 58 ∈ ip6_String b.
Proof.
  assert (Hd : forall x : bytes, z2b 58 ∈ bs "::" ++ x) by (intros x; by left).
  assert (Hs : forall x : bytes, z2b 58 ∈ bs ":" ++ x) by (intros x; by left).
  unfold ip6_String. destruct (longest_run b) as [[s e]|]; cbn [groups_String]; rewrite (bool_decide_false (8 <= 0)%nat) by lia.
  - destruct (bool_decide (s = 0%nat)); [apply Hd|]. rewrite (bool_decide_false (0 < 0)%nat), (bool_decide_false (8 <= 1)%nat) by lia.
    cbn [app]. apply elem_of_app. right. destruct (bool_decide (s = 1%nat)); [apply Hd|].
    rewrite (bool_decide_true (0 < 1)%nat) by lia. apply Hs.
  - rewrite (bool_decide_false (0 < 0)%nat), (bool_decide_false (8 <= 1)%nat) by lia. cbn [app]. apply elem_of_app. right.
    rewrite (bool_decide_true (0 < 1)%nat) by lia. apply Hs.
Qed.

Lemma no_colon_octet b i : z2b 58 ∉ Itoa (octet b i).
Proof.
  unfold Itoa, octet. pose proof (b2z_range (nth i b (z2b 0))). rewrite bool_decide_false by lia. intros Hin.
  pose proof (itoa_digits (b2z (nth i b (z2b 0))) ltac:(lia)) as Hd. rewrite Forall_forall in Hd.
  destruct (Hd _ Hin) as (d & He & Hr). apply (f_equal b2z) in He. unfold digit in He. rewrite !b2z_z2b_small in He by lia. lia.
Qed.

Lemma no_colon_in_ip4 b : z2b 58 ∉ ip4_String b.
Proof.
  unfold ip4_String. rewrite !elem_of_app. assert (Hdot : z2b 58 ∉ bs ".") by (apply (bool_decide_eq_false_1 (_ ∈ _)); by vm_compute).
  pose proof (no_colon_octet b). naive_solver.
Qed.

(** The texts of the two families differ. *)
Lemma families_differ ip4 ip6 : is_Some (To4 ip4) -> To4 ip6 = None -> length ip6 = 16%nat -> ip_String ip4 <> ip_String ip6.
Proof.
  intros [b Hb] Hn Hl Heq. pose proof (colon_in_ip6 ip6) as Hc.
  assert (H6 : ip_String ip6 = ip6_String ip6).
  { unfold ip_String. rewrite bool_decide_false by (by intros ->). by rewrite Hn, bool_decide_true. }
  rewrite <- H6, <- Heq in Hc. unfold ip_String in Hc. rewrite bool_decide_false in Hc by (by intros ->).
  rewrite Hb in Hc. by apply no_colon_in_ip4 in Hc.
Qed.
Lemma ParseAddr_sizes s a : Netip.ParseAddr s = Some a -> length (As16 a) = 16%nat /\ 32 <= BitLen a <= 128.
Proof.
  unfold Netip.ParseAddr. destruct (List.find _ s) as [c|]; [|done]. repeat case_bool_decide; [| |done].
  - destruct (parse_ip4 s) as [b|] eqn:E; intros [= <-]. apply parse_ip4_length in E. cbn [As16 BitLen].
    rewrite length_app, E. split; [done|lia].
  - destruct (parse_ip6 s) as [b|] eqn:E; intros [= <-]. apply parse_ip6_length in E. cbn [As16 BitLen]. split; [done|lia].
Qed.

Lemma ParseCIDR_sizes s ip n : ParseCIDR s = Some (ip, n) -> length ip = 16%nat /\ (4 <= length (net_Mask n))%nat.
Proof.
  unfold ParseCIDR. destruct (index_byte _ s) as [i|]; cbn [mbind option_bind]; [|done].
  destruct (Netip.ParseAddr (take i s)) as [a|] eqn:Ea; cbn [mbind option_bind]; [|done]. apply ParseAddr_sizes in Ea as [H1 H2].
  case_bool_decide; [done|]. destruct (dec_val _) as [k|]; cbn [mbind option_bind]; [|done].
  case_bool_decide; [done|]. intros [= <- <-]. split; [done|]. cbn [net_Mask]. unfold CIDRMask.
  rewrite length_fmap, length_seq. assert (4 <= BitLen a / 8) by (apply Z.div_le_lower_bound; lia). lia.
Qed.

Lemma dotted_total {E} m : (4 <= length m)%nat -> exists t, @dotted E m = Ok t.
Proof. destruct m as [|a [|b [|c [|d m]]]]; simpl; [lia..|]. intros _. by eexists. Qed.

(** What each system remembers of an address. *)
Definition remembered (o : system) (ip : IP) (i : Info) : Info :=
  match To4 ip, o with
  | Some _, _ => set_IPv4 (ip_String ip) i
  | None, Linux => set_IPv6 (ip_String ip) (set_IPv4 (ip_String ip) i)
  | None, _ => set_IPv6 (ip_String ip) i
  end.

Section Facts.
Context (run : list bytes -> bool).
Context (LinkByName : bytes -> option nat) (ParseAddr : bytes -> option IP) (AddrAdd : nat -> bytes -> bool) (LinkSetUp : nat -> bool).
Context (o : system) (dev : bytes).
Hypothesis o_known : o <> Other.
Hypothesis dev_found : o = Linux -> is_Some (LinkByName dev).
Hypothesis parser_agrees : o = Linux -> forall cidr, ParseAddr cidr = fst <$> ParseCIDR cidr.

Lemma SetupLink_remembers cidr ip n i :
  ParseCIDR cidr = Some (ip, n) ->
  let r := SetupLink run LinkByName ParseAddr AddrAdd LinkSetUp o dev cidr i in r.1 <> Panic /\ r.2 = remembered o ip i.
Proof.
  intros Hp. cbv zeta. unfold remembered. destruct o; [| | |done]; cbn [SetupLink].
  - destruct (dev_found eq_refl) as [l Hl]. unfold SetupLink_linux. rewrite Hl, (parser_agrees eq_refl), Hp. cbn.
    destruct (To4 ip), (AddrAdd l cidr && LinkSetUp l); by split.
  - unfold SetupLink_darwin. rewrite Hp. destruct (To4 ip); cbn [fst snd]; (split; [|done]);
      (destruct (run _); [|done]); unfold AddRoute_darwin; by destruct (run _).
  - unfold SetupLink_windows. rewrite Hp. destruct (ParseCIDR_sizes _ _ _ Hp) as [_ Hm].
    destruct (To4 ip); cbn [fst snd]; (split; [|done]); [|by destruct (run _)].
    destruct (@dotted_total unit (net_Mask n) Hm) as [t Ht]. rewrite Ht. cbn. by destruct (run _).
Qed.

Lemma Create_remembers CreateTUN Name name mtu v4 v6 ip4 n4 ip6 n6 i :
  let name' := if bool_decide (name = []) then bs "tun0" else name in
  CreateTUN name' mtu = true -> Name name' = Some dev -> ParseCIDR v4 = Some (ip4, n4) -> ParseCIDR v6 = Some (ip6, n6) ->
  Create run LinkByName ParseAddr AddrAdd LinkSetUp o CreateTUN Name name mtu v4 v6 i = (Ok name', remembered o ip6 (remembered o ip4 i)).
Proof.
  intros name' Hc Hn H4 H6. unfold Create. cbv zeta. fold name'. rewrite Hc, Hn.
  rewrite (bool_decide_false (v4 = [])) by (by intros ->). rewrite (bool_decide_false (v6 = [])) by (by intros ->).
  destruct (SetupLink_remembers v4 ip4 n4 i H4) as [P4 R4].
  destruct (SetupLink _ _ _ _ _ o dev v4 i) as [r4 i4]. cbn [fst snd] in *. subst i4.
  destruct (SetupLink_remembers v6 ip6 n6 (remembered o ip4 i) H6) as [P6 R6].
  destruct (SetupLink _ _ _ _ _ o dev v6 _) as [r6 i6]. cbn [fst snd] in *. subst i6.
  destruct r4, r6; done.
Qed.
End Facts.
End Link.

(** ** Updates *)

Module Updates.
Import Routes.

Record AddrUpdate := MkAddrUpdate { ANew : bool; Addr : IPNet; LinkIndex : Z }.

(** Linux: the events of addresses are passed on, those of routes are filtered. *)
Definition linux_addr (NewAddr : bool) (LinkAddress : IPNet) (LinkIndex : Z) : AddrUpdate := MkAddrUpdate NewAddr LinkAddress LinkIndex.

(** Darwin: the messages of a routing socket, as [golang.org/x/net/route] parses them. *)
Inductive rib_addr := Inet4Addr (ip : bytes) | Inet6Addr (ip : bytes) | LinkAddr | OtherAddr.
Inductive rib_message :=
| RouteMessage (type : Z) (addrs : list rib_addr)
| InterfaceAddrMessage (type index : Z) (addrs : list rib_addr)
| OtherMessage.
Definition RTM_ADD := 1.
Definition RTM_DELETE := 2.
Definition RTM_NEWADDR := 12.
Definition RTM_DELADDR := 13.

(** The buffer after a read, and the part of it that is parsed: its first byte, the
    low one of the message's length, is overwritten, and what earlier reads left
    behind the message is parsed with it. *)
Definition read_into (data buf : bytes) : bytes := <[0%nat := z2b 254]> (data ++ drop (length data) buf).
Definition rib_input (buf : bytes) : bytes := take 254 buf.

(** The first two addresses are the mask and the address. *)
Fixpoint addr_fields (addrs : list rib_addr) (mask : option bytes) : bytes * bytes :=
  match addrs with
  | [] => ([], default [] mask)
  | Inet4Addr ip :: addrs | Inet6Addr ip :: addrs =>
      match mask with
      | None => addr_fields addrs (Some ip)
      | Some m => (ip, m)
      end
  | _ :: addrs => addr_fields addrs mask
  end.
Definition darwin_addr (m : rib_message) : option AddrUpdate :=
  match m with
  | InterfaceAddrMessage type index addrs =>
      if bool_decide (type ∈ [RTM_NEWADDR; RTM_DELADDR]) then
        let '(ip, mask) := addr_fields addrs None in
        Some (MkAddrUpdate (bool_decide (type = RTM_NEWADDR)) (MkIPNet ip mask) index)
      else None
  | _ => None
  end.

(** The first three are the destination, the gateway and the mask, where a link
    stands for the loopback address. *)
Definition route_ip (a : rib_addr) : option bytes :=
  match a with Inet4Addr ip | Inet6Addr ip => Some ip | LinkAddr => Some IPv6loopback | OtherAddr => None end.
Definition route_fields (addrs : list rib_addr) : bytes * bytes * bytes :=
  let ips := omap route_ip addrs in
  (default [] (ips !! 0%nat), default [] (ips !! 1%nat), default [] (ips !! 2%nat)).
Definition darwin_route (buf : bytes) (m : rib_message) : option RouteUpdate :=
  match m with
  | RouteMessage type addrs =>
      if bool_decide (type ∈ [RTM_ADD; RTM_DELETE]) then
        let '(dst, via, mask) := route_fields addrs in
        Some (MkUpdate (bool_decide (b2z (nth 3 buf (z2b 0)) = 1)) (MkIPNet dst mask) via)
      else None
  | _ => None
  end.

(** A round of the loops: the updates that are sent, and the buffer. *)
Section Loop.
Context (ParseRIB : bytes -> option (list rib_message)).
Definition darwin_round {U} (update : bytes -> rib_message -> option U) (data buf : bytes) : list U * bytes :=
  let buf := read_into data buf in
  (match ParseRIB (rib_input buf) with Some ms => omap (update buf) ms | None => [] end, buf).
End Loop.

(** Windows: [type] is that of the notification, 0 a change, 1 an addition and 2 a
    removal. *)
Definition windows_route (type : Z) (dst : Netip.Addr) (bits : Z) (nextHop : Netip.Addr) : RouteUpdate :=
  let slice a := match a with AddrZero => [] | Addr4 b | Addr6 b => b end in
  MkUpdate (bool_decide (type = 1)) (MkIPNet (slice dst) (CIDRMask bits (BitLen dst))) (slice nextHop).
Definition windows_addr (type : Z) (addr : Netip.Addr) (index : Z) : option AddrUpdate :=
  if bool_decide (type ∈ [1; 2]) then Some (MkAddrUpdate (bool_decide (type = 1)) (MkIPNet (ParseIP (netip_String addr)) []) index)
  else None.

(** A change of a route is taken for its removal. *)
Example changed_route : New (windows_route 0 (Addr4 [z2b 10; z2b 0; z2b 0; z2b 0]) 8 (Addr4 [z2b 10; z2b 0; z2b 0; z2b 2])) = false.
Proof. reflexivity. Qed.
(** A route over a link gets the loopback address as gateway. *)
Example link_route : darwin_route [z2b 254; z2b 0; z2b 5; z2b 1] (RouteMessage 1 [Inet4Addr [z2b 10; z2b 1; z2b 0; z2b 0]; LinkAddr; Inet4Addr [z2b 255; z2b 255; z2b 0; z2b 0]]) =
  Some (MkUpdate true (MkIPNet [z2b 10; z2b 1; z2b 0; z2b 0] [z2b 255; z2b 255; z2b 0; z2b 0]) IPv6loopback).
Proof. reflexivity. Qed.
End Updates.

(** ** Subscriptions *)

Module Subscription.

(** The events of the system, each an update or one that is dropped; the update that
    the reader waits to send; what the subscriber received. *)
Record sub (U : Type) := MkSub { coming : list (option U); waiting : option U; running : bool; cancelled : bool;
  ch_closed : bool; got : list U; broken : bool }.
Arguments MkSub {U}.
Arguments coming {U}.
Arguments waiting {U}.
Arguments running {U}.
Arguments cancelled {U}.
Arguments ch_closed {U}.
Arguments got {U}.
Arguments broken {U}.

Definition start {U} (events : list (option U)) : sub U := MkSub events None true false false [] false.

(** On Linux one goroutine reads, sends and closes the channel. *)
Inductive linux_step {U} : sub U -> sub U -> Prop :=
| LCancel es w r c g b : linux_step (MkSub es w r false c g b) (MkSub es w r true c g b)
| LTake e es ca g b : linux_step (MkSub (e :: es) None true ca false g b) (MkSub es e true ca false g b)
| LSend u es ca g b : linux_step (MkSub es (Some u) true ca false g b) (MkSub es None true ca false (g ++ [u]) b)
| LStop es g b : linux_step (MkSub es None true true false g b) (MkSub es None false true true g b).

(** On Darwin a second one closes the socket, which ends the reads, and the channel. *)
Inductive darwin_step {U} : sub U -> sub U -> Prop :=
| DCancel es w r c g b : darwin_step (MkSub es w r false c g b) (MkSub es w r true c g b)
| DTake e es ca g b : darwin_step (MkSub (e :: es) None true ca false g b) (MkSub es e true ca false g b)
| DSend u es ca g b : darwin_step (MkSub es (Some u) true ca false g b) (MkSub es None true ca false (g ++ [u]) b)
| DClose es w r g b : darwin_step (MkSub es w r true false g b) (MkSub es w r true true g b)
| DStop es g b : darwin_step (MkSub es None true true true g b) (MkSub es None false true true g b)
| DSendClosed u es g b : darwin_step (MkSub es (Some u) true true true g b) (MkSub es (Some u) false true true g true).

Definition step {U} (o : system) : sub U -> sub U -> Prop :=
  match o with Linux => linux_step | Darwin => darwin_step | _ => fun _ _ => False end.

Definition inv {U} (o : system) (events : list (option U)) (s : sub U) : Prop :=
  (exists before, before ++ coming s = events /\ omap id before = got s ++ option_list (waiting s)) /\
  (o = Linux -> broken s = false /\ (ch_closed s = true -> waiting s = None)) /\
  (broken s = true -> running s = false /\ exists u, waiting s = Some u).

Lemma subscription_step_inv {U} o (events : list (option U)) s s' : step o s s' -> inv o events s -> inv o events s'.
Proof.
  intros Hs ((before & Hb & Hg) & Hl & Hw). unfold inv in *.
  assert (Hsent : exists before, before ++ coming s' = events /\ omap id before = got s' ++ option_list (waiting s')).
  { destruct o; [destruct Hs|destruct Hs|done..]; cbn [coming waiting got] in *; try (by exists before).
    1,3: exists (before ++ [e]); rewrite <- app_assoc; (split; [done|]); rewrite omap_app, Hg; cbn [option_list];
      rewrite app_nil_r; by destruct e.
    all: exists before; (split; [done|]); cbn [option_list] in *; by rewrite app_nil_r. }
  split; [exact Hsent|]. clear Hb Hg Hsent. destruct o; [destruct Hs|destruct Hs|done..]; cbn [broken waiting ch_closed running] in *; naive_solver.
Qed.

(** On Linux and Darwin a subscriber gets the updates of the events in their order;
    the process is never broken by this on Linux, and on Darwin it is on some
    schedule as soon as there is an update at all, which is being sent when the
    channel is closed. *)
Theorem subscription_breaks_iff {U} o (events : list (option U)) :
  o = Linux \/ o = Darwin ->
  (forall s, rtc (step o) (start events) s -> got s `prefix_of` omap id events) /\
  ((exists s, rtc (step o) (start events) s /\ broken s = true) <-> o = Darwin /\ omap id events <> []).
Proof.
  intros Ho.
  assert (Hinv : forall s, rtc (step o) (start events) s -> inv o events s).
  { intros s Hs. apply (rtc_invariant (step o) (inv o events) (start events)); [|done|].
    - intros a b Hab. by apply subscription_step_inv.
    - split; [by exists []|]. split; done. }
  split.
  { intros s Hs. destruct (Hinv s Hs) as ((before & Hb & Hg) & _). rewrite <- Hb, omap_app, Hg, <- app_assoc. by eexists. }
  split.
  - intros (s & Hs & Hbr). destruct (Hinv s Hs) as ((before & Hb & Hg) & Hl & Hw). destruct Ho as [->| ->].
    { destruct (Hl eq_refl) as [Hf _]. congruence. }
    split; [done|]. destruct (Hw Hbr) as [_ [u Hu]]. rewrite Hu in Hg. rewrite <- Hb, omap_app, Hg. by destruct (got s).
  - intros [-> Hne]. assert (Hgo : forall (events' : list (option U)) (g : list U), omap id events' <> [] ->
      exists s, rtc darwin_step (MkSub events' None true false false g false) s /\ broken s = true).
    { intros events'. induction events' as [|[u|] es IH]; intros g Hn; [done| |].
      - exists (MkSub es (Some u) false true true g true). split; [|done].
        eapply rtc_l; [apply DTake|]. eapply rtc_l; [apply DCancel|]. eapply rtc_l; [apply DClose|].
        eapply rtc_l; [apply DSendClosed|]. apply rtc_refl.
      - destruct (IH g Hn) as (s & Hs & Hb). exists s. split; [|done]. eapply rtc_l; [apply DTake|done]. }
    exact (Hgo events [] Hne).
Qed.
End Subscription.

(** ** Properties *)

(** C33. A packet of the device for the node's own IPv4 address is looped back, when the
    device was created with an address of each family, on Darwin and Windows; on
    Linux it is not, because the address of the second family is remembered in the
    place of the first. *)
Theorem own_packets run LinkByName ParseAddr AddrAdd LinkSetUp o dev CreateTUN Name name mtu v4 v6 ip4 n4 ip6 n6 i :
  o <> Other -> (o = Linux -> is_Some (LinkByName dev)) -> (o = Linux -> forall cidr, ParseAddr cidr = fst <$> ParseCIDR cidr) ->
  let name' := if bool_decide (name = []) then bs "tun0" else name in
  CreateTUN name' mtu = true -> Name name' = Some dev ->
  ParseCIDR v4 = Some (ip4, n4) -> is_Some (To4 ip4) -> ParseCIDR v6 = Some (ip6, n6) -> To4 ip6 = None ->
  exists show, Link.Create run LinkByName ParseAddr AddrAdd LinkSetUp o CreateTUN Name name mtu v4 v6 i = (Ok name', show) /\
    Link.IPv6 show = ip_String ip6 /\ (Link.IPv4 show = ip_String ip4 <-> o <> Linux) /\
    forall p4 p6 icmp order n b rest src dst,
      Z.shiftr (b2z b) 4 = 4 -> p4 (b :: rest) = Some (src, dst) -> ip_String dst = ip_String ip4 ->
      (fate_of p4 p6 (Link.IPv4 show) (Link.IPv6 show) icmp order n (b :: rest) = ToSelf <-> o <> Linux).
Proof.
  intros Ho Hl Hp name' Hc Hn H4 [b4 Hb4] H6 Hn6.
  rewrite (Link.Create_remembers run LinkByName ParseAddr AddrAdd LinkSetUp o dev Ho Hl Hp CreateTUN Name name mtu v4 v6 ip4 n4 ip6 n6 i) by done.
  eexists. split; [reflexivity|].
  assert (Hne : ip_String ip6 <> ip_String ip4).
  { apply not_eq_sym, Link.families_differ; [by exists b4|done|by eapply Link.ParseCIDR_sizes]. }
  set (show := Link.remembered o ip6 (Link.remembered o ip4 i)).
  assert (Hshow : Link.IPv6 show = ip_String ip6 /\ (Link.IPv4 show = ip_String ip4 <-> o <> Linux)).
  { unfold show, Link.remembered. rewrite Hb4, Hn6. destruct o; [|by split..|done]. split; [done|]. cbn. naive_solver. }
  destruct Hshow as [Hs6 Hs4]. split; [done|]. split; [done|].
  intros p4 p6 icmp order n b rest src dst Hv Hpar Hdst. unfold fate_of. cbn zeta. rewrite Hv, bool_decide_true by done.
  rewrite Hpar, Hdst, <- Hs4. case_bool_decide as He; [by rewrite He|].
  split; [|congruence]. destruct (IsMulticast dst); [done|]. by destruct (Nic.GetPeer _ _ _).1.
Qed.

(** ** Witness *)

Module Examples.
Definition ip_of (cidr : bytes) : option IP := fst <$> ParseCIDR cidr.
Definition no_info : Link.Info := Link.MkInfo [] [].
Definition dual (o : system) : Link.Info :=
  (Link.Create (fun _ => true) (fun _ => Some 3%nat) ip_of (fun _ _ => true) (fun _ => true) o (fun _ _ => true) Some (bs "pg0") 1428
     (bs "100.99.0.1/24") (bs "fd00::1/64") no_info).2.

Definition home4 : IP := v4InV6Prefix ++ [z2b 100; z2b 99; z2b 0; z2b 1].
Definition home6 : IP := [z2b 253] ++ repeat (z2b 0) 14 ++ [z2b 1].
Lemma own_packets_witness :
  exists show, Link.Create (fun _ => true) (fun _ => Some 3%nat) ip_of (fun _ _ => true) (fun _ => true) Linux (fun _ _ => true) Some
                 (bs "pg0") 1428 (bs "100.99.0.1/24") (bs "fd00::1/64") no_info = (Ok (bs "pg0"), show) /\
    Link.IPv4 show <> bs "100.99.0.1".
Proof.
  assert (H1 : Linux <> Other) by discriminate.
  assert (H2 : Linux = Linux -> is_Some (Some 3%nat)) by (intros _; by eexists).
  assert (H3 : Linux = Linux -> forall cidr, ip_of cidr = fst <$> ParseCIDR cidr) by (intros _ cidr; reflexivity).
  assert (H4 : ParseCIDR (bs "100.99.0.1/24") = Some (home4, MkIPNet [z2b 100; z2b 99; z2b 0; z2b 0] [z2b 255; z2b 255; z2b 255; z2b 0]))
    by (vm_compute; reflexivity).
  assert (H5 : is_Some (To4 home4)) by (eexists; vm_compute; reflexivity).
  assert (H6 : ParseCIDR (bs "fd00::1/64") = Some (home6, MkIPNet ([z2b 253] ++ repeat (z2b 0) 15) (repeat (z2b 255) 8 ++ repeat (z2b 0) 8)))
    by (vm_compute; reflexivity).
  assert (H7 : To4 home6 = None) by (vm_compute; reflexivity).
  destruct (own_packets (fun _ => true) (fun _ => Some 3%nat) ip_of (fun _ _ => true) (fun _ => true) Linux (bs "pg0") (fun _ _ => true)
    Some (bs "pg0") 1428 (bs "100.99.0.1/24") (bs "fd00::1/64") _ _ _ _ no_info H1 H2 H3 eq_refl eq_refl H4 H5 H6 H7)
    as (show & Hc & _ & Hs & _).
  assert (Ht : ip_String home4 = bs "100.99.0.1") by (vm_compute; reflexivity). rewrite Ht in Hs.
  exists show. split; [exact Hc|]. intros H. by apply (proj1 Hs).
Defined.

Example dual_linux : dual Linux = Link.MkInfo (bs "fd00::1") (bs "fd00::1").
Proof. vm_compute. reflexivity. Qed.
Example dual_darwin : dual Darwin = Link.MkInfo (bs "100.99.0.1") (bs "fd00::1").
Proof. vm_compute. reflexivity. Qed.
Example dual_windows : dual Windows = Link.MkInfo (bs "100.99.0.1") (bs "fd00::1").
Proof. vm_compute. reflexivity. Qed.
End Examples.
