(* ===== verification/Serve.v ===== *)
(** * Serve: the accept loop of the file server ([fileshare/filemanager.go])

    [FileManager.Serve] accepts a connection and handles its request before it
    accepts the next one; a second goroutine closes the listener, and one for each
    connection closes that, when the context is done.  A client is what it has sent
    and whether it has left; the handler is the program of [Fileshare.v], of which a
    step is what [Duplex.act] allows. *)

From S2P Require Import Prelude Text Url Duplex Fileshare.
Import Transfer.

Section Serve.
Context (sha256 : bytes -> bytes) (open : Z -> opened).

Record client := MkClient { sent : bytes; unread : bytes; gone : bool; handler : io unit; answer : bytes }.
Definition new_client : client := MkClient [] [] false (handleRequest sha256 open) [].

Inductive place := Looping | Accepting | Handling (i : nat) | Returned.
Record server := MkServer { at_ : place; waiting : list nat; clients : list client; served : list nat; cancelled : bool; closed : bool }.
Definition start : server := MkServer Looping [] [] [] false false.

Definition set_at (x : place) (s : server) : server := MkServer x (waiting s) (clients s) (served s) (cancelled s) (closed s).
Definition set_client (i : nat) (c : client) (s : server) : server :=
  MkServer (at_ s) (waiting s) (<[i := c]> (clients s)) (served s) (cancelled s) (closed s).

(** What clients and the outside do. *)
Inductive outside : server -> server -> Prop :=
| Connect a w cs f ca : outside (MkServer a w cs f ca false) (MkServer a (w ++ [length cs]) (cs ++ [new_client]) f ca false)
| Send i c b s : clients s !! i = Some c -> gone c = false ->
    outside s (set_client i (MkClient (sent c ++ b) (unread c ++ b) false (handler c) (answer c)) s)
| Leave i c s : clients s !! i = Some c -> outside s (set_client i (MkClient (sent c) (unread c) true (handler c) (answer c)) s)
| Cancel a w cs f ca cl : outside (MkServer a w cs f ca cl) (MkServer a w cs f true cl).

(** What the server does. *)
Inductive own : server -> server -> Prop :=
| CloseListener a w cs f cl : own (MkServer a w cs f true cl) (MkServer a w cs f true true)
| CloseConn i c s : cancelled s = true -> at_ s = Handling i -> clients s !! i = Some c ->
    own s (set_client i (MkClient (sent c) (unread c) true (handler c) (answer c)) s)
| Look s : at_ s = Looping -> own s (set_at (if cancelled s then Returned else Accepting) s)
| Accept i w cs f ca cl : own (MkServer Accepting (i :: w) cs f ca cl) (MkServer (Handling i) w cs f ca cl)
| AcceptFails cs f ca : own (MkServer Accepting [] cs f ca true) (MkServer Looping [] cs f ca true)
| Handle i c p q out s : at_ s = Handling i -> clients s !! i = Some c ->
    act (handler c) (unread c) (gone c) = Some (p, q, out) ->
    own s (set_client i (MkClient (sent c) q (gone c) p (answer c ++ out)) s)
| Finish i c w cs f ca cl : cs !! i = Some c -> handler c = Ret tt ->
    own (MkServer (Handling i) w cs f ca cl) (MkServer Looping w cs (f ++ [i]) ca cl).

Definition step (s s' : server) : Prop := outside s s' \/ own s s'.

Definition current (s : server) : list nat := match at_ s with Handling i => [i] | _ => [] end.
(** Less than a header. *)
Definition silent (c : client) : Prop := (length (sent c) < 4)%nat /\ gone c = false.

Record inv (s : server) : Prop := {
  inv_order : served s ++ current s ++ waiting s = seq 0 (length (clients s));
  inv_silent i c : clients s !! i = Some c -> silent c -> handler c = handleRequest sha256 open /\ unread c = sent c
}.

Lemma inv_update s i c c' :
  clients s !! i = Some c -> inv s -> (silent c' -> handler c' = handleRequest sha256 open /\ unread c' = sent c') ->
  inv (set_client i c' s).
Proof.
  intros Hc [Ho Hs] Hc'. split; [cbn; by rewrite length_insert|]. intros j d. cbn. intros Hd.
  apply list_lookup_insert_Some in Hd as [(-> & <- & _)|[_ Hd]]; [exact Hc'|exact (Hs j d Hd)].
Qed.

(** A handler begins with the header. *)
Lemma header_first : exists k, handleRequest sha256 open = ReadN 4 k.
Proof. by eexists. Qed.

Lemma silent_waits c p q out : silent c -> handler c = handleRequest sha256 open -> unread c = sent c ->
  act (handler c) (unread c) (gone c) <> Some (p, q, out).
Proof.
  intros [Hl Hg] -> ->. rewrite Hg. destruct header_first as [k ->]. cbn [act]. by rewrite bool_decide_false by lia.
Qed.

Lemma serve_step_inv s s' : step s s' -> inv s -> inv s'.
Proof.
  intros [H|H] Hi.
  - destruct H as [a w cs f ca|i c b s Hc Hg|i c s Hc|a w cs f ca cl].
    + destruct Hi as [Ho Hs]. split.
      * cbn in *. rewrite length_app, seq_app, <- Ho. unfold current. cbn. by rewrite <- !app_assoc.
      * intros j d. cbn. rewrite lookup_app_Some, list_lookup_singleton_Some. intros [Hd|(_ & _ & <-)]; [exact (Hs j d Hd)|done].
    + apply (inv_update s i c); [done|done|]. intros [Hl _]. cbn in *. rewrite length_app in Hl.
      destruct (inv_silent s Hi i c Hc) as [-> ->]; [split; [lia|done]|done].
    + apply (inv_update s i c); [done|done|]. by intros [_ Hg].
    + by destruct Hi; split.
  - destruct H as [a w cs f cl|i c s Hca Ha Hc|s Ha|i w cs f ca cl|cs f ca|i c p q out s Ha Hc Hact|i c w cs f ca cl Hc Hr].
    + by destruct Hi; split.
    + apply (inv_update s i c); [done|done|]. by intros [_ Hg].
    + destruct Hi as [Ho Hs]. split; [|exact Hs]. unfold current in *. rewrite Ha in Ho. cbn. by destruct (cancelled s).
    + by destruct Hi; split.
    + by destruct Hi; split.
    + apply (inv_update s i c); [done|done|]. intros Hsil. exfalso.
      destruct (inv_silent s Hi i c Hc Hsil) as [H1 H2]. by apply (silent_waits c p q out Hsil H1 H2).
    + destruct Hi as [Ho Hs]. split; [|exact Hs]. cbn in *. by rewrite <- Ho, <- app_assoc.
Qed.
(** Clients send more and leave, but nothing else. *)
Definition later (c c' : client) : Prop := sent c `prefix_of` sent c' /\ (gone c = true -> gone c' = true).

Lemma later_refl c : later c c.
Proof. done. Qed.
Lemma later_silent c c' : later c c' -> silent c' -> silent c.
Proof.
  intros [Hp Hg] [Hl Hn]. apply prefix_length in Hp. split; [lia|]. destruct (gone c); [|done]. by rewrite Hg in Hn.
Qed.

Lemma update_later s i c c' j d :
  clients s !! i = Some c -> later c c' -> clients s !! j = Some d -> exists d', clients (set_client i c' s) !! j = Some d' /\ later d d'.
Proof.
  intros Hc Hl Hd. cbn. destruct (decide (i = j)) as [->|Hne].
  - exists c'. rewrite list_lookup_insert_eq by (by eapply lookup_lt_Some). split; [done|]. congruence.
  - exists d. by rewrite list_lookup_insert_ne.
Qed.

Lemma step_later s s' i c : step s s' -> clients s !! i = Some c -> exists c', clients s' !! i = Some c' /\ later c c'.
Proof.
  intros [H|H] Hc; destruct H; try (by exists c; split; [|apply later_refl]);
    try (eapply update_later; [done| |done]; split; cbn; [by first [apply prefix_app_r|done]|congruence]).
  exists c. split; [|done]. cbn in *. by apply lookup_app_l_Some.
Qed.

Lemma rtc_later s s' i c : rtc step s s' -> clients s !! i = Some c -> exists c', clients s' !! i = Some c' /\ later c c'.
Proof.
  intros H. revert c. induction H as [s|s s1 s' Hs _ IH]; intros c Hc; [by exists c|].
  destruct (step_later _ _ _ _ Hs Hc) as (c1 & Hc1 & [H1 H2]). destruct (IH c1 Hc1) as (c' & Hc' & [H3 H4]).
  exists c'. split; [done|]. split; [by etrans|auto].
Qed.

Lemma lookup_current s i : inv s -> at_ s = Handling i -> is_Some (clients s !! i).
Proof.
  intros [Ho _] Ha. apply lookup_lt_is_Some. unfold current in Ho. rewrite Ha in Ho.
  assert (Hin : i ∈ seq 0 (length (clients s))) by (rewrite <- Ho, !elem_of_app; right; left; by left).
  apply elem_of_seq in Hin. lia.
Qed.

Lemma silent_step s s' i c : step s s' -> inv s -> at_ s = Handling i -> clients s !! i = Some c -> silent c ->
  (forall c', clients s' !! i = Some c' -> silent c') -> at_ s' = Handling i /\ served s' = served s.
Proof.
  intros Hst Hi Ha Hc Hs Hs'. destruct (inv_silent s Hi i c Hc Hs) as [Hh Hu].
  destruct Hst as [H|H]; destruct H; cbn in *; simplify_eq; try done.
  - congruence.
  - exfalso. destruct header_first as [k Hk]. congruence.
Qed.

(** Once its connection is closed, a handler ends. *)
Lemma handler_ends p : forall i c s, at_ s = Handling i -> clients s !! i = Some c -> handler c = p -> gone c = true ->
  exists s' c', rtc own s s' /\ at_ s' = Handling i /\ clients s' !! i = Some c' /\ cancelled s' = cancelled s /\
    (handler c' = Ret tt \/ handler c' = Crash).
Proof.
  assert (Hstep : forall i c s q u out, at_ s = Handling i -> clients s !! i = Some c ->
    act (handler c) (unread c) (gone c) = Some (q, u, out) ->
    let c' := MkClient (sent c) u (gone c) q (answer c ++ out) in
    own s (set_client i c' s) /\ at_ (set_client i c' s) = Handling i /\ clients (set_client i c' s) !! i = Some c').
  { intros i c s q u out Ha Hc Hact. split; [by eapply Handle|]. split; [done|]. cbn.
    apply list_lookup_insert_eq. by eapply lookup_lt_Some. }
  induction p as [[]|n k IH|b k IH|]; intros i c s Ha Hc Hp Hg.
  - exists s, c. split_and!; [apply rtc_refl|done..|by left].
  - assert (Hact : exists q u out, act (handler c) (unread c) (gone c) = Some (q, u, out) /\ exists d ok, q = k d ok).
    { rewrite Hp, Hg. cbn [act]. case_bool_decide; do 3 eexists; (split; [reflexivity|]); by do 2 eexists. }
    destruct Hact as (q & u & out & Hact & d & ok & ->). destruct (Hstep i c s _ _ _ Ha Hc Hact) as (H1 & H2 & H3).
    destruct (IH d ok i _ _ H2 H3 eq_refl Hg) as (s' & c' & Hr & Hrest). exists s', c'. split; [by eapply rtc_l|done].
  - assert (Hact : act (handler c) (unread c) (gone c) = Some (k true, unread c, b)) by (by rewrite Hp).
    destruct (Hstep i c s _ _ _ Ha Hc Hact) as (H1 & H2 & H3).
    destruct (IH true i _ _ H2 H3 eq_refl Hg) as (s' & c' & Hr & Hrest). exists s', c'. split; [by eapply rtc_l|done].
  - exists s, c. split_and!; [apply rtc_refl|done..|by right].
Qed.

Lemma looping_returns s : cancelled s = true -> at_ s = Looping -> exists s', rtc own s s' /\ at_ s' = Returned.
Proof. intros Hca Ha. eexists. split; [apply rtc_once, (Look s Ha)|]. cbn. by rewrite Hca. Qed.

Lemma handling_returns s i : cancelled s = true -> at_ s = Handling i -> is_Some (clients s !! i) ->
  exists s', rtc own s s' /\ (at_ s' = Returned \/ exists i c, at_ s' = Handling i /\ clients s' !! i = Some c /\ handler c = Crash).
Proof.
  intros Hca Ha [c Hc]. set (c1 := MkClient (sent c) (unread c) true (handler c) (answer c)).
  assert (H1 : own s (set_client i c1 s)) by (by apply CloseConn).
  assert (Hc1 : clients (set_client i c1 s) !! i = Some c1) by (apply list_lookup_insert_eq; by eapply lookup_lt_Some).
  destruct (handler_ends (handler c1) i c1 (set_client i c1 s) Ha Hc1 eq_refl eq_refl) as (s' & c' & Hr & Ha' & Hc' & Hca' & [Hret|Hcr]).
  - destruct s' as [a w cs f ca cl]. cbn in *. subst a.
    destruct (looping_returns (MkServer Looping w cs (f ++ [i]) ca cl)) as (s2 & Hr2 & Hret2); [cbn; congruence|done|].
    exists s2. split; [|by left]. eapply rtc_l; [exact H1|]. etrans; [exact Hr|]. eapply rtc_l; [by eapply Finish|done].
  - exists s'. split; [by eapply rtc_l|]. right. by exists i, c'.
Qed.

Lemma returns s : inv s -> cancelled s = true ->
  exists s', rtc own s s' /\ (at_ s' = Returned \/ exists i c, at_ s' = Handling i /\ clients s' !! i = Some c /\ handler c = Crash).
Proof.
  intros Hi Hca. destruct (at_ s) as [| |i|] eqn:Ha.
  - destruct (looping_returns s Hca Ha) as (s' & H1 & H2). exists s'. by split; [|left].
  - destruct s as [a w cs f ca cl]. cbn in *. subst a ca. destruct w as [|i w].
    + destruct (looping_returns (MkServer Looping [] cs f true true) eq_refl eq_refl) as (s' & H1 & H2). exists s'. split; [|by left].
      eapply rtc_l; [apply CloseListener|]. eapply rtc_l; [apply AcceptFails|done].
    + destruct (handling_returns (MkServer (Handling i) w cs f true cl) i eq_refl eq_refl) as (s' & H1 & H2).
      { apply lookup_lt_is_Some. destruct Hi as [Ho _]. cbn in Ho.
        assert (Hin : i ∈ seq 0 (length cs)) by (rewrite <- Ho, elem_of_app; right; by left). apply elem_of_seq in Hin. cbn. lia. }
      exists s'. split; [|done]. eapply rtc_l; [apply Accept|done].
  - eapply handling_returns; [done|done|by eapply lookup_current].
  - exists s. split; [apply rtc_refl|by left].
Qed.

(** ** Properties *)

(** C34. Whoever came first is served first, and as long as a client that is being served
    has sent less than a header and has not left, nobody else is; but when the
    context is done, the server can return, unless the handler panics. *)
Theorem served_in_turn s :
  rtc step start s ->
  served s ++ current s ++ waiting s = seq 0 (length (clients s)) /\
  (forall i s' c, at_ s = Handling i -> rtc step s s' -> clients s' !! i = Some c -> silent c ->
     at_ s' = Handling i /\ served s' = served s) /\
  (cancelled s = true -> exists s', rtc own s s' /\
     (at_ s' = Returned \/ exists i c, at_ s' = Handling i /\ clients s' !! i = Some c /\ handler c = Crash)).
Proof.
  intros Hr. assert (Hinv : inv s).
  { apply (rtc_invariant step inv start); [by intros; eapply serve_step_inv|done|by split]. }
  split; [apply Hinv|]. split.
  - clear Hr. intros i s' c Ha Hst. induction Hst as [s|s s1 s' Hs Hst IH]; [done|]. intros Hc Hsil.
    destruct (lookup_current s i Hinv Ha) as [c0 Hc0].
    assert (H1 : forall c1, clients s1 !! i = Some c1 -> silent c1).
    { intros c1 Hc1. destruct (rtc_later _ _ _ _ Hst Hc1) as (c' & Hc' & Hl). simplify_eq. by eapply later_silent. }
    destruct (step_later _ _ _ _ Hs Hc0) as (c1 & Hc1 & Hl1).
    destruct (silent_step s s1 i c0 Hs Hinv Ha Hc0 (later_silent _ _ Hl1 (H1 c1 Hc1)) H1) as [Ha1 Hf1].
    destruct (IH (serve_step_inv _ _ Hs Hinv) Ha1 Hc Hsil) as [H2 H3]. split; [done|congruence].
  - intros Hca. by apply returns.
Qed.
End Serve.

(** ** Witness *)

Module Examples.
Definition no_sum (_ : bytes) : bytes := [].
Definition no_file (_ : Z) : opened := NotOpened.
Definition two : server := MkServer (Handling 0) [1%nat] [new_client no_sum no_file; new_client no_sum no_file] [] false false.

Lemma two_reached : rtc (step no_sum no_file) start two.
Proof.
  eapply rtc_l; [left; apply Connect|]. eapply rtc_l; [left; apply Connect|]. eapply rtc_l; [right; by apply Look|].
  eapply rtc_l; [right; apply Accept|]. apply rtc_refl.
Qed.

(** Whatever happens, the second client waits for the first. *)
Lemma served_in_turn_witness :
  rtc (step no_sum no_file) start two /\
  forall s' c, rtc (step no_sum no_file) two s' -> clients s' !! 0%nat = Some c -> silent c -> at_ s' = Handling 0 /\ served s' = [].
Proof.
  split; [exact two_reached|]. intros s' c Hs Hc Hsil.
  exact (proj1 (proj2 (served_in_turn no_sum no_file two two_reached)) 0%nat s' c eq_refl Hs Hc Hsil).
Defined.
End Examples.
