(* ===== verification/Tunnel.v ===== *)
(** * Tunnel: an IP packet from device to device

    [Vpn.v], [Daemon.v], [P2p.v] with [Overlay.v], and [Peermap.v] composed: what
    the device of one node emits for an address of another is what the device of the
    other receives.  The loops of [VPN.Run] take turns on the shared channels; a
    turn of [packetConnRead] gets what [ReadFrom] handed out, and a turn of
    [packetConnWrite] ends in a [WriteTo]. *)

From S2P Require Import Prelude Text GoTime Url Lru CacheTTL Netip Stun Disco DiscoUdp NetUdp Langs Stream Secure Ws.
From S2P Require Import Auth Peermap PeermapFacts PeermapInv Control P2p Overlay Vpn Daemon.

(** ** Sending *)

(** A packet for a unicast address that is not the node's own. *)
Definition addressed (p4 p6 : bytes -> option (IP * IP)) (l4 l6 data ip : bytes) : Prop :=
  IsMulticast ip = false /\ exists b rest src, data = b :: rest /\
    (Z.shiftr (b2z b) 4 = 4 /\ p4 data = Some (src, ip) /\ ip_String ip <> l4 \/
     Z.shiftr (b2z b) 4 = 6 /\ p6 data = Some (src, ip) /\ ip_String ip <> l6).

Lemma sent_to_owner p4 p6 l4 l6 icmp order pick id p v ip peer :
  owned [id] v -> heap v !! id = Some p -> closed (inbound v) = false ->
  addressed p4 p6 l4 l6 (Packet.AsBytes p) ip -> (Nic.GetPeer order (ip_String ip) (nic v)).1 = Some peer ->
  (let r := packetConnWrite [] p4 p6 l4 l6 icmp order pick id v in
   r.1 = Ok tt /\ conn_out r.2 = conn_out v ++ [(Packet.AsBytes p, peer)] /\ nic_out r.2 = nic_out v).
Proof.
  intros Ho Hp Hop (Hm & b & rest & src & Hd & Hv) Hg. cbv zeta.
  rewrite (packetConnWrite_version _ _ _ _ _ _ _ _ p b rest) by done.
  pose proof (fun parse local => route_fate p4 p6 l6 icmp order pick id parse local p v Ho Hp Hop) as Hroute. cbv zeta in Hroute.
  destruct Hv as [(Hver & Hparse & Hl)|(Hver & Hparse & Hl)]; rewrite Hver.
  - specialize (Hroute p4 l4). rewrite Hparse, (bool_decide_false (ip_String ip = l4)), Hm, Hg in Hroute by done.
    rewrite bool_decide_true by done. tauto.
  - specialize (Hroute p6 l6). rewrite Hparse, (bool_decide_false (ip_String ip = l6)), Hm, Hg in Hroute by done.
    rewrite (bool_decide_false (6 = 4)), bool_decide_true by done. tauto.
Qed.

(** ** Receiving *)

(** Turns of [nicWrite], without handlers, until these packets are written. *)
Fixpoint nicWrites (ids : list nat) : GoM VPN Empty_set unit :=
  match ids with
  | [] => mret tt
  | id :: ids => _ ← modify (set_inbound (Chan ids false)); _ ← nicWrite [] id; nicWrites ids
  end.

Definition holds (v : VPN) (id : nat) (data : bytes) : Prop := Packet.AsBytes <$> heap v !! id = Some data.

Lemma holds_ext v v' ids datas :
  (forall j, j ∈ ids -> heap v' !! j = heap v !! j) -> Forall2 (holds v) ids datas -> Forall2 (holds v') ids datas.
Proof.
  intros He H. induction H as [|id d ids ds Hh _ IH]; constructor; [|apply IH; intros; apply He; by right].
  unfold holds. by rewrite He by left.
Qed.

(** The parameters of [Vpn.v] that receiving does not use. *)
Local Definition no_header (_ : bytes) : option (IP * IP) := None.
Local Definition no_icmp (_ _ : IP) (_ : bytes) : bytes := [].

Lemma nicWrite_run id p v :
  heap v !! id = Some p -> nicWrite [] id v = RecyclePacket id (add_nic_out (Packet.AsBytes p) v).
Proof.
  intros Hp. unfold nicWrite. cbn [handle]. rewrite gom_bind_run. cbn [mret gom_ret].
  by rewrite (packet_bind id p) by done.
Qed.

Lemma nicWrites_run ids datas v :
  inbound v = Chan ids false -> owned [] v -> Forall2 (holds v) ids datas ->
  (let r := nicWrites ids v in r.1 = Ok tt /\ nic_out r.2 = nic_out v ++ datas).
Proof.
  revert datas v. induction ids as [|id ids IH]; intros datas v Hq Ho Hd; inversion Hd as [|? data ? rest Hh Ht]; subst.
  { split; [done|]. by rewrite app_nil_r. }
  cbv zeta. cbn [nicWrites]. rewrite gom_bind_run. cbn [modify]. rewrite gom_bind_run.
  unfold holds in Hh. destruct (heap v !! id) as [p|] eqn:Ep; [|done]. injection Hh as Hh.
  assert (Hrun : exists v', nicWrite [] id (set_inbound (Chan ids false) v) = (Ok tt, v') /\ nic_out v' = nic_out v ++ [data] /\
    inbound v' = Chan ids false /\ forall j, j <> id -> heap v' !! j = heap v !! j).
  { rewrite (nicWrite_run id p) by done. eexists. split; [reflexivity|]. rewrite <- Hh.
    split_and!; [done..|]. intros j Hj. by apply lookup_alter_ne. }
  destruct Hrun as (v' & Hrun & Hout & Hin & Hheap). rewrite Hrun. cbv iota.
  assert (Ho' : owned [] v').
  { refine (moves_nicWrite [] no_header no_header [] no_icmp id _ _ tt v' _ Hrun);
      [intros h p1 p2 Hx; by apply not_elem_of_nil in Hx|by apply owned_take_inbound]. }
  assert (Ht' : Forall2 (holds v') ids rest).
  { pose proof (own_once _ _ Ho) as Hnd. unfold places in Hnd. rewrite Hq in Hnd. cbn [queue app] in Hnd.
    apply NoDup_app in Hnd as (_ & _ & Hnd). apply NoDup_cons in Hnd as [Hni _].
    apply (holds_ext v); [|done]. intros j Hj. apply Hheap.
    intros ->. apply Hni. set_solver. }
  destruct (IH rest v' Hin Ho' Ht') as [H1 H2]. split; [done|]. rewrite H2, Hout. by rewrite <- app_assoc.
Qed.

(** What a [ReadFrom] hands out is written to the device after what was queued. *)
Lemma read_is_written pick data v ids datas :
  owned [] v -> inbound v = Chan ids false -> Forall2 (holds v) ids datas ->
  exists id v', packetConnRead pick data v = (Ok tt, v') /\ inbound v' = Chan (ids ++ [id]) false /\
    (let r := nicWrites (ids ++ [id]) v' in r.1 = Ok tt /\ nic_out r.2 = nic_out v ++ datas ++ [data]).
Proof.
  intros Ho Hq Hd.
  destruct (GetPacket_ok no_header no_header no_icmp [] pick data v Ho)
    as (id & v1 & Hrun & Hh & Hin & _ & Hout & _ & _ & Hheap).
  assert (Hread : packetConnRead pick data v = (Ok tt, set_inbound (Chan (ids ++ [id]) false) v1)).
  { unfold packetConnRead. rewrite gom_bind_run, Hrun. unfold to_inbound, chan_send. by rewrite Hin, Hq. }
  exists id, (set_inbound (Chan (ids ++ [id]) false) v1). split; [done|]. split; [done|].
  rewrite <- Hout. change (nic_out v1) with (nic_out (set_inbound (Chan (ids ++ [id]) false) v1)).
  apply nicWrites_run; [done|exact (moves_packetConnRead no_header no_header [] no_icmp pick data v tt _ Ho Hread)|].
  apply Forall2_app; [|by constructor]. apply (holds_ext v); [|done]. intros j Hj. apply Hheap.
  rewrite Hq. cbn [queue app]. apply elem_of_app. by left.
Qed.

(** ** The whole way *)

Section Tunnel.
Context {S E Priv : Type} `{!SymmAlgo S E} `{!SymmLaws S E}.
Context {CM CD CP : Type} `{!CacheLaws CM bytes Values} `{!CacheLaws CD bytes time} `{!ClearLaws CD bytes time}
  `{!CacheLaws CP bytes nat}.
Context (b58e b58d : bytes -> bytes) (newkey : bytes -> option Priv) (pub : Priv -> bytes)
  (ecdh : Priv -> bytes -> option bytes) (algo : (bytes -> option bytes) -> S).

(** A node with its own configuration, that of its packet connection, the
    connection and the state of the loops. *)
Record node := MkNode {
  node_config : Daemon.Config; node_conn : @PacketConn S CM CD CP; node_vpn : VPN
}.
Definition node_id (b : node) : bytes := peer_ID (PeerInfo (cfg (node_conn b))).

(** The connection was made with the options of the configuration. *)
Definition started (b : node) : Prop := exists version hostname st key ig opts ig' rnd,
  p2pOptions b58e b58d newkey pub ecdh algo (node_config b) version hostname st key ig = (Some opts, ig') /\
  configure opts (default_config b58e rnd) = Ok (cfg (node_conn b)).

(** The node has the address, and another one has been told so. *)
Definition has_address (b : node) (ip : bytes) : Prop :=
  exists prefix, (prefix = NIC_IPv4 (node_config b) \/ prefix = NIC_IPv6 (node_config b)) /\ destination prefix ip.
Definition knows (a b : node) : Prop := exists n lp,
  LruCache.repr (Nic.peers n) lp /\ LruCache.capacity (Nic.peers n) = 1024 /\
  nic (node_vpn a) = onPeerUp (node_id b) (Metadata (PeerInfo (cfg (node_conn b)))) n.

Lemma known_owner a b ip order :
  started b -> has_address b ip -> knows a b -> (Nic.GetPeer order (ip_String ip) (nic (node_vpn a))).1 = Some (node_id b).
Proof.
  intros (version & hostname & st & key & ig & opts & ig' & rnd & Ho & Hc) (prefix & Hpre & Hd) (n & lp & R & Hcap & ->).
  exact (address_leads_to_node b58e b58d newkey pub ecdh algo _ _ _ _ _ _ _ _ _ _ n lp prefix ip order Ho Hc Hpre Hd R Hcap).
Qed.

(** The server holds the connection of a node. *)
Record attached (s : PeerMap) (b : node) (i : nat) (p : peerConn) (k : nat) : Prop := {
  at_conn : conns s !! i = Some p;
  at_nonce : p_nonce p = wnonce (wsConn (node_conn b));
  at_socket : p_conn p = Some k;
  at_open : open_channels (wsConn (node_conn b));
  at_id : zlen (p_id p) <= 253
}.

(** C4. From device to device.  A packet that the device of node [a] emits for an
    address that node [b] was started with is written to the connection for [b], and
    in relay mode goes to the server as one message, which the server turns into one
    message to [b], after which a [ReadFrom] of [b] can return the very packet; and
    what that returns is written to the device of [b] unchanged, after the packets
    that were queued before it. *)
Theorem device_to_device WMa WM jn res js p4 p6 l4 l6 icmp order pick pick' eA eB locked now now' now''
    (a b : node) s i p q pq kA kA' kB id pkt ip sp sp' n ids datas :
  started b -> has_address b ip -> knows a b ->
  let data := Packet.AsBytes pkt in
  owned [id] (node_vpn a) -> heap (node_vpn a) !! id = Some pkt -> closed (inbound (node_vpn a)) = false ->
  addressed p4 p6 l4 l6 data ip ->
  closeChan (node_conn a) = false -> transportMode (node_conn a) = MODE_FORCE_RELAY ->
  rawConn (lnk (wsConn (node_conn a))) = Some kA ->
  crypt_agree eA eB (cfg_SymmAlgo (cfg (node_conn a))) (cfg_SymmAlgo (cfg (node_conn b))) (p_id p) (node_id b) ->
  attached s a i p kA' -> attached s b q pq kB -> p_id pq = node_id b ->
  getPeer (js_Network (networkSecret p)) (p_id pq) s = Some q ->
  queue (Ws.datagrams (wsConn (node_conn b))) = [] -> zlen data <= n ->
  owned [] (node_vpn b) -> inbound (node_vpn b) = Chan ids false -> Forall2 (holds (node_vpn b)) ids datas ->
  (let r := packetConnWrite [] p4 p6 l4 l6 icmp order pick id (node_vpn a) in
   r.1 = Ok tt /\ conn_out r.2 = conn_out (node_vpn a) ++ [(data, node_id b)]) /\
  exists m1 m2,
    (let r := WriteTo WMa eA locked now (Some data) (Some (node_id b)) (node_conn a) in
     r.1 <> Panic /\ out (wsConn r.2) = out (wsConn (node_conn a)) ++ [OutMessage kA BinaryMessage m1]) /\
    (let s' := handleMessage WM jn i now' BinaryMessage (GSlice m1 sp) s in
     s'.1 = Ok tt /\ pm_out s'.2 = pm_out s ++ [OutMessage kB BinaryMessage m2]) /\
    (let w := @onMessage res js Empty_set now'' BinaryMessage (GSlice m2 sp') (wsConn (node_conn b)) in
     w.1 = Ok tt /\ can_read eB n (set_wsConn w.2 (node_conn b)) data (p_id p)) /\
    exists j v', packetConnRead pick' data (node_vpn b) = (Ok tt, v') /\ inbound v' = Chan (ids ++ [j]) false /\
      (let r := nicWrites (ids ++ [j]) v' in r.1 = Ok tt /\ nic_out r.2 = nic_out (node_vpn b) ++ datas ++ [data]).
Proof.
  intros Hst Hip Hk data Ho Hp Hop Hadd Hopen Hmode HkA Hagree Ha Hb Hid Hg Hempty Hlen HoB HqB HdB. split.
  { destruct (sent_to_owner p4 p6 l4 l6 icmp order pick id pkt (node_vpn a) ip (node_id b) Ho Hp Hop Hadd
                (known_owner a b ip order Hst Hip Hk)) as (H1 & H2 & _). done. }
  destruct Ha as [Ha1 Ha2 _ _ Ha5], Hb as [Hb1 Hb2 Hb3 Hb4 Hb5]. rewrite Hid in Hg, Hb5.
  destruct (crypt_wire eA eB (p_id p) (node_id b) data (node_conn a) _ Hagree) as (w & x & Henc & Hdec).
  exists (xor_all (wnonce (wsConn (node_conn a))) (framed CONTROL_RELAY (node_id b) w)),
         (xor_all (wnonce (wsConn (node_conn b))) (framed CONTROL_RELAY (p_id p) w)).
  split; [by apply (relay_mode_sends WMa eA locked now data (node_id b) (node_conn a) w x kA)|].
  split; [|split; [by apply relayed_is_read|by apply read_is_written]].
  rewrite <- Ha2, <- Hb2. apply (handleMessage_relay WM jn i p now' CONTROL_RELAY (node_id b) w sp s q pq kB); try done.
  split; [done|]. rewrite !not_elem_of_cons. split_and!; [done..|apply not_elem_of_nil].
Qed.
End Tunnel.

(** ** Witness *)

Module Examples.
Import Auth.Examples Control.Examples P2p.Examples Overlay.Examples Vpn.Examples.

(** Bob starts with 10.0.0.2 and Alice has been told so. *)
Definition bob_config : Daemon.Config :=
  Daemon.MkConfig (bs "10.0.0.2/24") [] 1428 (bs "pg0") [] [] defaultDiscoConfig [] 29877 [] [] [] [] false [] [] [] false false.
Definition one_key (_ _ : bytes) : option bytes := Some Secure.Examples.key16.
Definition bob_options : option (list (Option_ toy_algo)) * ignore_state :=
  p2pOptions (Priv := bytes) id id Some id one_key toy_new bob_config (bs "v1") (bs "host") (bs "7") (Some (bs "bob")) (Ignore [] [] []).
Definition bob_opts : list (Option_ toy_algo) := default [] bob_options.1.
Definition bob_p2p : P2p.Config toy_algo :=
  match configure bob_opts (default_config id (bs "rnd")) with Ok c => c | _ => default_config id [] end.
Definition bob_conn : toy_conn :=
  MkPacketConn bob_p2p false (ex_udp (bs "bob") ∅ [2%nat]) false cB empty_cache empty_cache MODE_DEFAULT Deadline.init 0 (Pool [] empty_cache).

Abbreviation toy_node := (@node toy_algo (LruCache.Cache bytes Values) (LruCache.Cache bytes time) (LruCache.Cache bytes nat)).
Definition node_b : toy_node := MkNode bob_config bob_conn (new_vpn Daemon.Examples.nic0).
Definition alice_nic : Nic.VirtualNIC := onPeerUp (bs "bob") (Metadata (PeerInfo bob_p2p)) Daemon.Examples.nic0.
Definition node_a : toy_node :=
  MkNode bob_config relay_A (MkVPN alice_nic {[7%nat := ex_packet]} [] make_chan make_chan [] []).

Lemma bob_started : started id id Some id one_key toy_new node_b.
Proof.
  assert (H : match bob_options.1 with Some _ => true | None => false end = true) by (vm_compute; reflexivity).
  exists (bs "v1"), (bs "host"), (bs "7"), (Some (bs "bob")), (Ignore [] [] []), bob_opts, bob_options.2, (bs "rnd").
  split.
  - change (bob_options = (Some bob_opts, bob_options.2)). unfold bob_opts. by destruct bob_options as [[o|] ig].
  - vm_compute. reflexivity.
Qed.

Lemma bob_address : has_address node_b (ip 10 0 0 2).
Proof. exists (bs "10.0.0.2/24"). split; [by left|]. split; [done|]. left. by vm_compute. Qed.

Lemma alice_knows : knows node_a node_b.
Proof.
  exists Daemon.Examples.nic0, []. split; [by apply (LruCache.repr_New 1024)|]. split; [reflexivity|].
  assert (Hb : node_id node_b = bs "bob") by (vm_compute; reflexivity). rewrite Hb. clear Hb.
  unfold node_a, node_b, bob_conn. cbn [node_vpn node_conn nic cfg]. unfold alice_nic. reflexivity.
Qed.

Lemma alice_agrees : crypt_agree iv iv (Some shared) (cfg_SymmAlgo bob_p2p) (p_id pA) (node_id node_b).
Proof.
  assert (Hp : cfg_SymmAlgo bob_p2p = Some (toy_new (fun k => one_key (bs "bob") (id k)))) by (vm_compute; reflexivity).
  rewrite Hp. split; [exact shared_sound|].
  split; [exact (Secure.Examples.new_sound Secure.Examples.toy_cipher 1024 empty_cache _ eq_refl)|].
  split; [reflexivity|]. exists Secure.Examples.key16. split; [by exists Secure.Examples.toy_block|]. by vm_compute.
Qed.

Lemma alice_owned : owned [7%nat] (node_vpn node_a).
Proof. destruct ex_owned as [H1 H2 H3]. split; [exact H1|exact H2|exact H3]. Qed.

Lemma device_to_device_witness :
  let data := [z2b 69; z2b 1; z2b 2] in
  (let r := packetConnWrite [] toy_header toy_header [] [] toy_icmp [] 0 7 (node_vpn node_a) in
   r.1 = Ok tt /\ conn_out r.2 = [(data, node_id node_b)]) /\
  exists m1 m2,
    (let r := WriteTo quiet_ws iv true y2025 (Some data) (Some (node_id node_b)) (node_conn node_a) in
     r.1 <> Panic /\ out (wsConn r.2) = [OutMessage 10 BinaryMessage m1]) /\
    (let s' := handleMessage quiet_ws no_report 0 y2025 BinaryMessage (GSlice m1 []) ex2 in
     s'.1 = Ok tt /\ pm_out s'.2 = pm_out ex2 ++ [OutMessage 20 BinaryMessage m2]) /\
    (let w := @onMessage no_addr no_secret Empty_set y2025 BinaryMessage (GSlice m2 []) (wsConn (node_conn node_b)) in
     w.1 = Ok tt /\ can_read iv 1468 (set_wsConn w.2 (node_conn node_b)) data (p_id pA)) /\
    exists j v', packetConnRead 0 data (node_vpn node_b) = (Ok tt, v') /\ inbound v' = Chan [j] false /\
      (let r := nicWrites [j] v' in r.1 = Ok tt /\ nic_out r.2 = [data]).
Proof.
  refine (device_to_device id id Some id one_key toy_new quiet_ws quiet_ws no_report no_addr no_secret toy_header toy_header
    [] [] toy_icmp [] 0 0 iv iv true y2025 y2025 y2025 node_a node_b ex2 0 pA 1 pB 10 10 20 7 ex_packet (ip 10 0 0 2) [] []
    1468 [] [] bob_started bob_address alice_knows alice_owned eq_refl eq_refl _ eq_refl eq_refl eq_refl alice_agrees _ _ _ _ eq_refl
    _ _ eq_refl _).
  - split; [reflexivity|]. exists (z2b 69), [z2b 1; z2b 2], (ip 10 0 0 1). split; [reflexivity|]. left. by vm_compute.
  - split; [exact ex_A|by vm_compute..].
  - split; [exact ex_B|by vm_compute..].
  - vm_compute. reflexivity.
  - vm_compute. reflexivity.
  - vm_compute. discriminate.
  - split; [apply NoDup_nil_2|intros x Hx; by apply not_elem_of_nil in Hx|intros x y Hx; by apply not_elem_of_nil in Hx].
  - constructor.
Defined.
End Examples.
