(* ===== verification/Exporter.v ===== *)
(** * Exporter: the queries of an operator and their answers ([peermap/exporter/client.go])

    The client signs every request with a token that lives for ten seconds, the
    server's mux leads the request to a handler of [Peermap.v], which first checks
    the token, and the client reads the answer.  JSON and the transport are
    outside; a path arrives as it was sent. *)

From S2P Require Import Prelude Text Url GoTime Secure Auth Peermap Login.

(** ** Requests *)

Inductive method := GET | PUT (body : bytes).
Record http_request := MkRequest { hr_method : method; hr_Path : bytes; hr_Token : bytes }.
Record http_response := MkResponse { hr_Status : Z; hr_Body : bytes }.

Record NetworkMeta := MkNetworkMeta { nm_Alias : bytes; nm_Neighbors : list bytes }.

(** [NewClient]: the scheme and the path of the server's URL. *)
Record Client := MkClient { cl_Scheme : bytes; cl_Path : bytes }.
Definition http_scheme (scheme : bytes) : bytes :=
  if bool_decide (scheme = bs "ws") then bs "http" else if bool_decide (scheme = bs "wss") then bs "https" else scheme.
Definition NewClient (url_Parse : bytes -> option (bytes * bytes)) (peermapURL : bytes) : option Client :=
  u ← url_Parse peermapURL; Some (MkClient (http_scheme u.1) u.2).

(** [path.Join] of the path of the URL and another; an absolute path of the URL or none. *)
Definition Join (p q : bytes) : bytes := if bool_decide (p = []) then Clean q else Clean (p ++ bs "/" ++ q).
Definition networks_path (c : Client) : bytes := Join (cl_Path c) (bs "/networks").
Definition peers_path (c : Client) : bytes := Join (cl_Path c) (bs "/peers").
Definition meta_path (c : Client) (network : bytes) : bytes := Join (cl_Path c) (bs "/networks/" ++ network ++ bs "/meta").

(** What the mux finds for a path below "/pg". *)
Inductive target := ToNetworks | ToPeers | ToMeta (network : bytes) | ToStatic.
Definition route (p : bytes) : target :=
  match Split (z2b 47) p with
  | [e; pg; n] =>
      if bool_decide (e = [] /\ pg = bs "pg" /\ n = bs "networks") then ToNetworks
      else if bool_decide (e = [] /\ pg = bs "pg" /\ n = bs "peers") then ToPeers else ToStatic
  | [e; pg; n; network; m] =>
      if bool_decide (e = [] /\ pg = bs "pg" /\ n = bs "networks" /\ m = bs "meta" /\ network <> []) then ToMeta network
      else ToStatic
  | _ => ToStatic
  end.

Section Exchange.
Context (b64_Decode : bytes -> option bytes) (b64_Encode : bytes -> bytes).
(** The keys of the two sides, through the encryption under them. *)
Context (Encrypt : bytes -> res crypt_error bytes) (Decrypt : bytes -> res crypt_error bytes).
Context (json_expiry : bytes -> Z) (expiry_json : Z -> bytes).
(** JSON of the answers. *)
Context (heads_json : list NetworkHead -> bytes) (json_heads : bytes -> list NetworkHead).
Context (peers_json : list NetworkPeers -> bytes) (json_peers : bytes -> list NetworkPeers).
Context (meta_json : NetworkMeta -> bytes) (json_meta : bytes -> option NetworkMeta).
Context (escape_host : bytes -> bytes).
(** The server's other parameters, for updates of a network. *)
Context (WM : list Ws.ws_out -> nat -> Z -> bytes -> option Ws.ws_error) (a : codec) (secret_json : Disco.NetworkSecret -> bytes).

(** ** The server *)

(** [checkAdminToken]; a panic ends the request, not the server. *)
Definition checkAdminToken (now : time) (token : bytes) : res unit unit :=
  match CheckToken b64_Decode Decrypt json_expiry now token with
  | Ok _ => Ok tt
  | Err _ => Err tt
  | Panic => Panic
  end.

Definition of_status (st : status) : http_response :=
  match st with
  | OK200 al ns => MkResponse 200 (meta_json (MkNetworkMeta al ns))
  | Unauthorized401 => MkResponse 401 []
  | NotFound404 => MkResponse 404 []
  | BadRequest400 => MkResponse 400 []
  end.

(** The answer of the server, [None] when its handler panics, and its state. *)
Definition serve (rnd : bytes) (now : time) (r : http_request) (s : PeerMap) : option http_response * PeerMap :=
  match route (hr_Path r), hr_method r with
  | ToStatic, _ => (Some (MkResponse 404 []), s)
  | _, _ =>
      match checkAdminToken now (hr_Token r) with
      | Panic => (None, s)
      | c =>
          let authorized := match c with Ok _ => true | _ => false end in
          match route (hr_Path r), hr_method r with
          | ToNetworks, GET =>
              (Some match HandleQueryNetworks authorized s with
                    | Some l => MkResponse 200 (heads_json l) | None => MkResponse 401 [] end, s)
          | ToPeers, GET =>
              let '(l, s) := HandleQueryNetworkPeers escape_host authorized s in
              (Some match l with Some l => MkResponse 200 (peers_json l) | None => MkResponse 401 [] end, s)
          | ToMeta network, GET => (Some (of_status (HandleGetNetworkMeta authorized network s)), s)
          | ToMeta network, PUT body =>
              let request := (fun m => (nm_Alias m, nm_Neighbors m)) <$> json_meta body in
              match HandlePutNetworkMeta WM a secret_json rnd now authorized network request s with
              | (Ok (OK200 _ _), s) => (Some (MkResponse 200 []), s)
              | (Ok st, s) => (Some (of_status st), s)
              | (Err _, s) => (Some (MkResponse 500 []), s)
              | (Panic, s) => (None, s)
              end
          | _, _ => (Some (MkResponse 405 []), s)
          end
      end
  end.

(** ** The client *)

Inductive client_error := TokenError (e : crypt_error) | TransportError | UnexpectedStatus (code : Z).

(** [RoundTrip] at a time, answered at another. *)
Definition RoundTrip (sent received : time) (rnd : bytes) (m : method) (p : bytes) (s : PeerMap) :
    res client_error http_response * PeerMap :=
  match GenerateToken b64_Encode Encrypt expiry_json (Unix (Add sent (10 * Second))) with
  | Ok token =>
      let '(r, s) := serve rnd received (MkRequest m p token) s in
      (match r with Some r => Ok r | None => Err TransportError end, s)
  | Err e => (Err (TokenError e), s)
  | Panic => (Panic, s)
  end.

Definition expect200 (r : res client_error http_response) : res client_error bytes :=
  x ← r; if bool_decide (hr_Status x <> 200) then Err (UnexpectedStatus (hr_Status x)) else Ok (hr_Body x).

Definition Networks (sent received : time) (c : Client) (s : PeerMap) : res client_error (list NetworkHead) * PeerMap :=
  let '(r, s) := RoundTrip sent received [] GET (networks_path c) s in
  (b ← expect200 r; Ok (json_heads b), s).
Definition Peers (sent received : time) (c : Client) (s : PeerMap) : res client_error (list NetworkPeers) * PeerMap :=
  let '(r, s) := RoundTrip sent received [] GET (peers_path c) s in
  (b ← expect200 r; Ok (json_peers b), s).
(** A document that does not decode leaves the zero value. *)
Definition NetworkMeta_ (sent received : time) (c : Client) (network : bytes) (s : PeerMap) :
    res client_error NetworkMeta * PeerMap :=
  let '(r, s) := RoundTrip sent received [] GET (meta_path c network) s in
  (b ← expect200 r; Ok (default (MkNetworkMeta [] []) (json_meta b)), s).
Definition PutNetworkMeta (sent received : time) (rnd : bytes) (c : Client) (network : bytes) (request : NetworkMeta)
    (s : PeerMap) : res client_error unit * PeerMap :=
  let '(r, s) := RoundTrip sent received rnd (PUT (meta_json request)) (meta_path c network) s in
  (_ ← expect200 r; Ok tt, s).

(** ** Queries arrive *)

(** One key on both sides, and codecs.  The laws on the documents are those of texts
    in valid UTF-8: [encoding/json] replaces other bytes. *)
Record agreement : Prop := {
  ag_b64 b : b64_Decode (b64_Encode b) = Some b;
  ag_key p : exists c, Encrypt p = Ok c /\ Decrypt c = Ok p;
  ag_expiry e : json_expiry (expiry_json e) = e;
  ag_heads l : json_heads (heads_json l) = l;
  ag_peers l : json_peers (peers_json l) = l;
  ag_meta m : json_meta (meta_json m) = Some m
}.
Hypothesis Hag : agreement.

(** The answer comes within the life of the token. *)
Definition in_time (sent received : time) : Prop := i64 (Unix (Add sent (10 * Second)) - Unix received) > 0.

Lemma token_accepted sent received :
  in_time sent received ->
  exists token, GenerateToken b64_Encode Encrypt expiry_json (Unix (Add sent (10 * Second))) = Ok token /\
    checkAdminToken received token = Ok tt.
Proof.
  intros Ht. destruct Hag as [Hb Hk He _ _ _]. unfold GenerateToken.
  destruct (Hk (z2b 1 :: expiry_json (Unix (Add sent (10 * Second))))) as (c & Hc & Hd). rewrite Hc.
  eexists. split; [reflexivity|]. unfold checkAdminToken, CheckToken. rewrite Hb, Hd.
  change (b2z (z2b 1)) with 1. rewrite (bool_decide_false (1 <> 1)) by lia. rewrite He. cbv zeta.
  unfold in_time in Ht. by rewrite bool_decide_false by lia.
Qed.

Lemma RoundTrip_served sent received rnd m p s :
  in_time sent received ->
  exists token, checkAdminToken received token = Ok tt /\
    RoundTrip sent received rnd m p s =
      (match (serve rnd received (MkRequest m p token) s).1 with Some r => Ok r | None => Err TransportError end,
       (serve rnd received (MkRequest m p token) s).2).
Proof.
  intros Ht. destruct (token_accepted sent received Ht) as (token & Hg & Hc). exists token. split; [done|].
  unfold RoundTrip. rewrite Hg. by destruct (serve _ _ _ _).
Qed.
End Exchange.

(** A name that is one element of a path. *)
Definition element (n : bytes) : Prop := n <> [] /\ n <> bs "." /\ n <> bs ".." /\ z2b 47 ∉ n.

Lemma no_slash (e : bytes) : bool_decide (z2b 47 ∈ e) = false -> z2b 47 ∉ e.
Proof. apply bool_decide_eq_false_1. Qed.

Lemma route_meta n : element n -> route (bs "/pg/networks/" ++ n ++ bs "/meta") = ToMeta n.
Proof.
  intros (H1 & H2 & H3 & H4). unfold route.
  change (bs "/pg/networks/" ++ n ++ bs "/meta") with (join [z2b 47] [[]; bs "pg"; bs "networks"; n; bs "meta"]).
  rewrite Split_join; [by rewrite bool_decide_true|done|].
  repeat (apply Forall_cons; split; [first [exact H4|apply no_slash; vm_compute; reflexivity]|]). constructor.
Qed.

Lemma meta_path_element sch n : element n -> meta_path (MkClient sch (bs "/pg")) n = bs "/pg/networks/" ++ n ++ bs "/meta".
Proof.
  intros (H1 & H2 & H3 & H4). unfold meta_path, Join. cbn [cl_Path]. rewrite bool_decide_false by done. unfold Clean.
  change (bs "/pg" ++ bs "/" ++ bs "/networks/" ++ n ++ bs "/meta") with
    (join [z2b 47] [[]; bs "pg"; []; bs "networks"; n; bs "meta"]).
  rewrite Split_join; [|done|].
  2:{ repeat (apply Forall_cons; split; [first [exact H4|apply no_slash; vm_compute; reflexivity]|]). constructor. }
  cbn [fold_left]. unfold clean_step at 2. rewrite (bool_decide_false (n = [] \/ n = bs ".")) by tauto.
  rewrite (bool_decide_false (n = bs "..")) by done. reflexivity.
Qed.

(** The queries of an operator with the server's key arrive: within the ten
    seconds of the token the client gets what the handlers answer to an authorized
    request, for a network by its name if the name is one element of a path, and an
    unknown network is a 404. *)
Theorem queries_arrive (b64d : bytes -> option bytes) (b64e : bytes -> bytes) (enc dec : bytes -> res crypt_error bytes)
    (jexp : bytes -> Z) (expj : Z -> bytes) (hj : list NetworkHead -> bytes) (jh : bytes -> list NetworkHead)
    (pj : list NetworkPeers -> bytes) (jp : bytes -> list NetworkPeers)
    (mj : NetworkMeta -> bytes) (jm : bytes -> option NetworkMeta) (esc : bytes -> bytes)
    (WM : list Ws.ws_out -> nat -> Z -> bytes -> option Ws.ws_error) (a : codec) (sj : Disco.NetworkSecret -> bytes)
    sent received sch n s :
  agreement b64d b64e enc dec jexp expj hj jh pj jp mj jm -> in_time sent received -> element n ->
  let c := MkClient sch (bs "/pg") in
  (Networks b64d b64e enc dec jexp expj hj jh pj mj jm esc WM a sj sent received c s).1 =
    (match HandleQueryNetworks true s with Some l => Ok l | None => Err TransportError end) /\
  (Peers b64d b64e enc dec jexp expj hj pj jp mj jm esc WM a sj sent received c s).1 =
    (match (HandleQueryNetworkPeers esc true s).1 with Some l => Ok l | None => Err TransportError end) /\
  (NetworkMeta_ b64d b64e enc dec jexp expj hj pj mj jm esc WM a sj sent received c n s).1 =
    (match getNetwork n s with
     | Some ctx => Ok (MkNetworkMeta (alias ctx) (neighbors ctx))
     | None => Err (UnexpectedStatus 404)
     end).
Proof.
  intros Hag Ht Hn c. assert (HN : route (networks_path c) = ToNetworks) by (vm_compute; reflexivity).
  assert (HP : route (peers_path c) = ToPeers) by (vm_compute; reflexivity).
  assert (HM : route (meta_path c n) = ToMeta n) by (unfold c; rewrite meta_path_element by done; by apply route_meta).
  assert (Hrt := fun p => RoundTrip_served b64d b64e enc dec jexp expj hj jh pj jp mj jm esc WM a sj Hag sent received [] GET p s Ht).
  destruct Hag as [_ _ _ Hh Hp Hm]. split; [|split].
  - destruct (Hrt (networks_path c)) as (token & Hc & Hr). unfold Networks. rewrite Hr. unfold serve.
    cbn [hr_Path hr_method hr_Token]. rewrite HN, Hc. cbn [fst snd].
    unfold HandleQueryNetworks. cbn [negb]. unfold expect200. cbn [mbind res_bind hr_Status hr_Body].
    rewrite bool_decide_false by (intros H; by apply H). cbn [mbind res_bind fst]. by rewrite Hh.
  - destruct (Hrt (peers_path c)) as (token & Hc & Hr). unfold Peers. rewrite Hr. unfold serve.
    cbn [hr_Path hr_method hr_Token]. rewrite HP, Hc. cbn [fst snd].
    unfold HandleQueryNetworkPeers. cbn [negb fst snd]. unfold expect200. cbn [mbind res_bind hr_Status hr_Body].
    rewrite bool_decide_false by (intros H; by apply H). cbn [mbind res_bind fst]. by rewrite Hp.
  - destruct (Hrt (meta_path c n)) as (token & Hc & Hr). unfold NetworkMeta_. rewrite Hr. unfold serve.
    cbn [hr_Path hr_method hr_Token]. rewrite HM, Hc. cbn [fst snd]. unfold HandleGetNetworkMeta. cbn [negb].
    destruct (getNetwork n s) as [ctx|]; [|done]. unfold expect200, of_status. cbn [mbind res_bind hr_Status hr_Body].
    rewrite bool_decide_false by (intros H; by apply H). cbn [mbind res_bind fst]. by rewrite Hm.
Qed.

(** After the ten seconds the token is refused. *)
Lemma late_query (b64d : bytes -> option bytes) (b64e : bytes -> bytes) (enc dec : bytes -> res crypt_error bytes)
    (jexp : bytes -> Z) (expj : Z -> bytes) expiredAt now token :
  (forall b, b64d (b64e b) = Some b) -> (forall p c, enc p = Ok c -> dec c = Ok p) -> (forall e, jexp (expj e) = e) ->
  GenerateToken b64e enc expj expiredAt = Ok token -> i64 (expiredAt - Unix now) <= 0 ->
  checkAdminToken b64d dec jexp now token = Err tt.
Proof.
  intros Hb He Hj Hg Hl. unfold checkAdminToken.
  rewrite (CheckToken_Generate b64d b64e dec enc jexp expj now expiredAt token) by done. by rewrite bool_decide_true.
Qed.

(** ** Witness *)

Module Examples.
Import Auth.Examples.

(** Documents are the bits of a number that stands for them; a byte in front is the
    cipher. *)
Section Codec.
Context {A B : Type} `{Countable B} (f : A -> B) (g : B -> A) (gf : forall x, g (f x) = x).
Definition to_doc (x : A) : bytes := pos_bytes (encode (f x)).
Definition of_doc (b : bytes) : option A := g <$> decode (bytes_pos b).
Lemma of_to_doc x : of_doc (to_doc x) = Some x.
Proof. unfold of_doc, to_doc. rewrite bytes_pos_inverse, decode_encode. cbn. by rewrite gf. Qed.
End Codec.

Definition head_tuple (h : NetworkHead) : bytes * bytes * nat * bytes := (nh_ID h, nh_Alias h, nh_PeersCount h, nh_CreateTime h).
Definition tuple_head (t : bytes * bytes * nat * bytes) : NetworkHead := MkNetworkHead t.1.1.1 t.1.1.2 t.1.2 t.2.
Definition peers_tuple (p : NetworkPeers) : bytes * bytes * list bytes := (np_ID p, np_Alias p, np_Peers p).
Definition tuple_peers (t : bytes * bytes * list bytes) : NetworkPeers := MkNetworkPeers t.1.1 t.1.2 t.2.
Definition meta_tuple (m : NetworkMeta) : bytes * list bytes := (nm_Alias m, nm_Neighbors m).
Definition tuple_meta (t : bytes * list bytes) : NetworkMeta := MkNetworkMeta t.1 t.2.
Definition heads_doc : list NetworkHead -> bytes := to_doc (fmap head_tuple).
Definition doc_heads (b : bytes) : list NetworkHead := default [] (of_doc (fmap tuple_head) b).
Definition peers_doc : list NetworkPeers -> bytes := to_doc (fmap peers_tuple).
Definition doc_peers (b : bytes) : list NetworkPeers := default [] (of_doc (fmap tuple_peers) b).
Definition expiry_doc : Z -> bytes := to_doc (fun z => z).
Definition doc_expiry (b : bytes) : Z := default 0 (of_doc (fun z => z) b).

Lemma fmap_inverse {A B} (f : A -> B) (g : B -> A) (l : list A) : (forall x, g (f x) = x) -> g <$> (f <$> l) = l.
Proof. intros H. induction l as [|x l IH]; [done|]. cbn [fmap list_fmap]. by rewrite H, IH. Qed.

Lemma toy_agreement :
  agreement Some (fun b => b) (fun p => Ok (z2b 7 :: p)) (fun c => Ok (tail c)) doc_expiry expiry_doc
    heads_doc doc_heads peers_doc doc_peers (to_doc meta_tuple) (of_doc tuple_meta).
Proof.
  split.
  - done.
  - intros p. by eexists.
  - intros e. unfold doc_expiry, expiry_doc. by rewrite of_to_doc.
  - intros l. unfold doc_heads, heads_doc. rewrite of_to_doc; [done|]. intros x. apply fmap_inverse. by intros [].
  - intros l. unfold doc_peers, peers_doc. rewrite of_to_doc; [done|]. intros x. apply fmap_inverse. by intros [].
  - intros m. apply of_to_doc. by intros [].
Qed.

(** A server with one network and nobody in it. *)
Definition home : networkContext := MkNetworkContext ∅ y2025 y2025 (bs "home") (bs "h1") [bs "other"].
Definition server : PeerMap :=
  MkPeerMap ∅ {[ bs "home" := home ]} ∅ (MkConfig (bs "127.0.0.1:9987") (bs "key") [] [] [] None 0 0) [].
Definition late : time := Add y2025 (9 * Second).
Definition operator : Client := MkClient (bs "https") (bs "/pg").

Lemma queries_arrive_witness :
  (Networks Some (fun b => b) (fun p => Ok (z2b 7 :: p)) (fun c => Ok (tail c)) doc_expiry expiry_doc heads_doc doc_heads
     peers_doc (to_doc meta_tuple) (of_doc tuple_meta) (fun b => b) (fun _ _ _ _ => None) toy_codec (fun _ => [])
     y2025 late operator server).1 =
    (match HandleQueryNetworks true server with Some l => Ok l | None => Err TransportError end) /\
  (Peers Some (fun b => b) (fun p => Ok (z2b 7 :: p)) (fun c => Ok (tail c)) doc_expiry expiry_doc heads_doc
     peers_doc doc_peers (to_doc meta_tuple) (of_doc tuple_meta) (fun b => b) (fun _ _ _ _ => None) toy_codec (fun _ => [])
     y2025 late operator server).1 =
    (match (HandleQueryNetworkPeers (fun b => b) true server).1 with Some l => Ok l | None => Err TransportError end) /\
  (NetworkMeta_ Some (fun b => b) (fun p => Ok (z2b 7 :: p)) (fun c => Ok (tail c)) doc_expiry expiry_doc heads_doc
     peers_doc (to_doc meta_tuple) (of_doc tuple_meta) (fun b => b) (fun _ _ _ _ => None) toy_codec (fun _ => [])
     y2025 late operator (bs "home") server).1 = Ok (MkNetworkMeta (bs "h1") [bs "other"]).
Proof.
  assert (Ht : in_time y2025 late) by (vm_compute; reflexivity).
  assert (Hn : element (bs "home")).
  { split; [discriminate|]. split; [discriminate|]. split; [discriminate|]. apply no_slash. vm_compute. reflexivity. }
  exact (queries_arrive Some (fun b => b) (fun p => Ok (z2b 7 :: p)) (fun c => Ok (tail c)) doc_expiry expiry_doc
    heads_doc doc_heads peers_doc doc_peers (to_doc meta_tuple) (of_doc tuple_meta) (fun b => b) (fun _ _ _ _ => None)
    toy_codec (fun _ => []) y2025 late (bs "https") (bs "home") server toy_agreement Ht Hn).
Defined.
End Examples.
