(* ===== verification/Flags.v ===== *)
(** * Flags: the command lines of the programs (Go's [flag] package)

    A set of flags over the record of the variables they fill.  Every set of the
    programs ends the process on an error, with status 0 when help is asked for.
    [parse_settings] is the round trip: a command line that is made of settings and
    of arguments sets the variables in order and leaves the arguments. *)

From S2P Require Import Prelude Text.

(** Setting a variable: its value may be refused, and the function of a switch like
    [-version] ends the process. *)
Inductive set_result (V : Type) := SetTo (v : V) | Refused | Quits.
Arguments SetTo {V}.
Arguments Refused {V}.
Arguments Quits {V}.

(** A flag that is boolean takes no argument of its own. *)
Record flag (V : Type) := MkFlag { f_Name : bytes; f_IsBool : bool; f_Set : bytes -> V -> set_result V }.
Arguments MkFlag {V}.
Arguments f_Name {V}.
Arguments f_IsBool {V}.
Arguments f_Set {V}.

(** What [FlagSet.Parse] comes to: the variables and [Args()], or the exit of the process. *)
Inductive parse_result (V : Type) := Parsed (v : V) (args : list bytes) | Exited (code : Z).
Arguments Parsed {V}.
Arguments Exited {V}.
Definition and_then {V} (r : set_result V) (k : V -> parse_result V) : parse_result V :=
  match r with SetTo v => k v | Refused => Exited 2 | Quits => Exited 0 end.

(** The flag that an argument is: none, the end of the flags, a syntax error, a
    name with the value after an equals sign. *)
Inductive flag_text := NoFlag | EndOfFlags | BadSyntax | Named (name : bytes) (value : option bytes).

Definition cut_equals (name : bytes) : flag_text :=
  match name with
  | [] => BadSyntax
  | c :: rest =>
      if bool_decide (c = z2b 45 \/ c = z2b 61) then BadSyntax
      else match index_byte (z2b 61) rest with
           | Some i => Named (c :: take i rest) (Some (drop (S i) rest))
           | None => Named name None
           end
  end.
Definition read_flag (arg : bytes) : flag_text :=
  match arg with
  | a :: b :: rest =>
      if bool_decide (a <> z2b 45) then NoFlag
      else if bool_decide (b = z2b 45) then (if bool_decide (rest = []) then EndOfFlags else cut_equals rest)
      else cut_equals (b :: rest)
  | _ => NoFlag
  end.

Definition lookup_flag {V} (name : bytes) (fs : list (flag V)) : option (flag V) :=
  List.find (fun f => bool_decide (f_Name f = name)) fs.

(** [Parse]: one flag after the other. *)
Fixpoint Parse {V} (fs : list (flag V)) (args : list bytes) (v : V) : parse_result V :=
  match args with
  | [] => Parsed v []
  | arg :: args' =>
      match read_flag arg with
      | NoFlag => Parsed v args
      | EndOfFlags => Parsed v args'
      | BadSyntax => Exited 2
      | Named name value =>
          match lookup_flag name fs with
          | None => Exited (if bool_decide (name = bs "help" \/ name = bs "h") then 0 else 2)
          | Some f =>
              if f_IsBool f then and_then (f_Set f (default (bs "true") value) v) (Parse fs args')
              else
                match value, args' with
                | Some x, _ => and_then (f_Set f x v) (Parse fs args')
                | None, x :: args'' => and_then (f_Set f x v) (Parse fs args'')
                | None, [] => Exited 2
                end
          end
      end
  end.

(** [StringVar], [BoolVar], [IntVar] (an integer as [strconv.ParseInt] reads it in
    base 10), and a [Var] that collects. *)
Definition ParseBool (s : bytes) : option bool :=
  if bool_decide (s ∈ [bs "1"; bs "t"; bs "T"; bs "TRUE"; bs "true"; bs "True"]) then Some true
  else if bool_decide (s ∈ [bs "0"; bs "f"; bs "F"; bs "FALSE"; bs "false"; bs "False"]) then Some false else None.
Definition StringVar {V} (name : bytes) (set : bytes -> V -> V) : flag V := MkFlag name false (fun x v => SetTo (set x v)).
Definition BoolVar {V} (name : bytes) (set : bool -> V -> V) : flag V :=
  MkFlag name true (fun x v => match ParseBool x with Some b => SetTo (set b v) | None => Refused end).
Definition ValueVar {V A} (read : bytes -> option A) (name : bytes) (set : A -> V -> V) : flag V :=
  MkFlag name false (fun x v => match read x with Some y => SetTo (set y v) | None => Refused end).
(** A switch that prints something and ends the process. *)
Definition BoolFunc {V} (name : bytes) : flag V := MkFlag name true (fun _ _ => Quits).

(** [Arg(i)] *)
Definition Arg (i : nat) (args : list bytes) : bytes := default [] (args !! i).

(** ** A command line that is made of settings *)

(** One setting: a flag that takes an argument, with it, or a switch. *)
Inductive setting := WithValue (name value : bytes) | Switch (name : bytes).
Definition set_args (x : setting) : list bytes :=
  match x with WithValue n y => [bs "-" ++ n; y] | Switch n => [bs "-" ++ n] end.
Definition command_line (l : list setting) (args : list bytes) : list bytes := concat (set_args <$> l) ++ args.

Definition setting_name (x : setting) : bytes := match x with WithValue n _ | Switch n => n end.
Definition value_set {V} (r : set_result V) : option V := match r with SetTo v => Some v | _ => None end.
Definition apply_setting {V} (fs : list (flag V)) (v : option V) (x : setting) : option V :=
  v0 ← v;
  f ← lookup_flag (setting_name x) fs;
  match x with
  | WithValue _ y => if f_IsBool f then None else value_set (f_Set f y v0)
  | Switch _ => if f_IsBool f then value_set (f_Set f (bs "true") v0) else None
  end.

(** A name that reads back. *)
Definition plain_name (n : bytes) : bool :=
  match n with c :: rest => bool_decide (c <> z2b 45 /\ z2b 61 ∉ n) | [] => false end.

Lemma index_byte_none c s : c ∉ s -> index_byte c s = None.
Proof.
  induction s as [|d s IH]; cbn [index_byte]; [done|]. intros H.
  rewrite bool_decide_false by (intros ->; apply H; by left). rewrite IH; [done|]. intros Hs. apply H. by right.
Qed.

Lemma read_plain n : plain_name n = true -> read_flag (bs "-" ++ n) = Named n None.
Proof.
  destruct n as [|c rest]; [done|]. cbn [plain_name]. intros [Hc Hn]%bool_decide_eq_true.
  change (bs "-" ++ c :: rest) with (z2b 45 :: c :: rest). cbn [read_flag].
  rewrite bool_decide_false by (intros H; by apply H). rewrite bool_decide_false by done. cbn [cut_equals].
  rewrite bool_decide_false by (intros [?| ->]; [done|apply Hn; by left]).
  rewrite index_byte_none; [done|]. intros H. apply Hn. by right.
Qed.

Lemma apply_settings_none {V} (fs : list (flag V)) l : fold_left (apply_setting fs) l None = None.
Proof. by induction l. Qed.

Lemma parse_settings {V} (fs : list (flag V)) l args v v' :
  Forall (fun x => plain_name (setting_name x) = true) l -> (forall a, head args = Some a -> read_flag a = NoFlag) ->
  fold_left (apply_setting fs) l (Some v) = Some v' -> Parse fs (command_line l args) v = Parsed v' args.
Proof.
  intros Hl Ha. revert v. induction Hl as [|x l Hx Hl IH]; intros v Hf; cbn [fold_left] in Hf.
  - injection Hf as ->. unfold command_line. cbn. destruct args as [|a args]; [done|]. cbn [Parse]. by rewrite (Ha a eq_refl).
  - destruct (apply_setting fs (Some v) x) as [v1|] eqn:E; [|by rewrite apply_settings_none in Hf].
    change (command_line (x :: l) args) with ((set_args x ++ concat (set_args <$> l)) ++ args).
    rewrite <- app_assoc. change (concat (set_args <$> l) ++ args) with (command_line l args).
    unfold apply_setting in E. cbn [mbind option_bind] in E. destruct (lookup_flag (setting_name x) fs) as [f|] eqn:El; [|done].
    cbn [mbind option_bind] in E.
    destruct x as [n y|n]; cbn [setting_name set_args app] in *; destruct (f_IsBool f) eqn:Eb; try done; cbn [Parse];
      rewrite read_plain by done; rewrite El, Eb; cbn [default]; unfold and_then; change (default (bs "true") None) with (bs "true");
      (destruct (f_Set f _ v) as [v2| |]; [injection E as ->; auto|done..]).
Qed.
