(* ===== verification/Admin.v ===== *)
(** * Admin: the operator's commands ([cmd/pgcli/admin])

    The flags of each command, the queries it makes of the server through the
    client of [Exporter.v], and what it prints.  The environment, the text of
    durations and URLs, and JSON are outside. *)

From S2P Require Import Prelude Text Url GoTime Flags Secure Disco Auth Peermap Login Exporter.

(** What a command prints, and how it ends. *)
Inductive document :=
| DocMeta (m : NetworkMeta) | DocNetworks (l : list NetworkHead) | DocPeers (l : list NetworkPeers) | DocSecret (s : NetworkSecret) | DocUsage.
Inductive admin_error :=
| FlagRequired (name : bytes) | BadDuration | BadServerURL | QueryFailed (e : client_error) | MetaNotFound (key : bytes).
Inductive ending := Returned (e : option admin_error) | Exit (code : Z) | Panicked.
Record outcome := MkOutcome { stdout : list document; ended : ending }.
Definition fails (e : admin_error) : outcome := MkOutcome [] (Returned (Some e)).

(** The variables of the flags. *)
Record query_vars := MkQueryVars { q_secretKey : bytes; q_key : bytes; q_value : bytes }.
Definition set_q_secretKey (x : bytes) (v : query_vars) : query_vars := MkQueryVars x (q_key v) (q_value v).
Definition set_q_key (x : bytes) (v : query_vars) : query_vars := MkQueryVars (q_secretKey v) x (q_value v).
Definition set_q_value (x : bytes) (v : query_vars) : query_vars := MkQueryVars (q_secretKey v) (q_key v) x.

Record secret_vars := MkSecretVars { s_alias : bytes; s_duration : bytes; s_network : bytes; s_secretKey : bytes; s_adm : bool }.
Definition set_s_alias (x : bytes) (v : secret_vars) : secret_vars := MkSecretVars x (s_duration v) (s_network v) (s_secretKey v) (s_adm v).
Definition set_s_duration (x : bytes) (v : secret_vars) : secret_vars := MkSecretVars (s_alias v) x (s_network v) (s_secretKey v) (s_adm v).
Definition set_s_network (x : bytes) (v : secret_vars) : secret_vars := MkSecretVars (s_alias v) (s_duration v) x (s_secretKey v) (s_adm v).
Definition set_s_secretKey (x : bytes) (v : secret_vars) : secret_vars := MkSecretVars (s_alias v) (s_duration v) (s_network v) x (s_adm v).
Definition set_s_adm (x : bool) (v : secret_vars) : secret_vars := MkSecretVars (s_alias v) (s_duration v) (s_network v) (s_secretKey v) x.

(** [cmp.Or] of strings *)
Definition Or_text (x y : bytes) : bytes := if bool_decide (x = []) then y else x.

Section Admin.
Context (Getenv : bytes -> bytes) (ParseDuration : bytes -> option Z) (url_Parse : bytes -> option (bytes * bytes)).
Context (b64_Decode : bytes -> option bytes) (b64_Encode : bytes -> bytes).
(** The encryption under a key, and the decryption under the server's. *)
Context (Encrypt : bytes -> bytes -> res crypt_error bytes) (Decrypt : bytes -> res crypt_error bytes).
Context (json_expiry : bytes -> Z) (expiry_json : Z -> bytes).
Context (heads_json : list NetworkHead -> bytes) (json_heads : bytes -> list NetworkHead).
Context (peers_json : list NetworkPeers -> bytes) (json_peers : bytes -> list NetworkPeers).
Context (meta_json : NetworkMeta -> bytes) (json_meta : bytes -> option NetworkMeta) (escape_host : bytes -> bytes).
Context (WM : list Ws.ws_out -> nat -> Z -> bytes -> option Ws.ws_error) (a : codec) (secret_json : NetworkSecret -> bytes).

(** [parseSecretKeyAndServer]: both flags fill the key, and nothing fills the server. *)
Definition key_flags : list (flag query_vars) :=
  [StringVar (bs "secret-key") set_q_secretKey; StringVar (bs "s") set_q_secretKey].
Definition parseSecretKeyAndServer (own : list (flag query_vars)) (args : list bytes) :
    (bytes * bytes * query_vars * list bytes) + outcome :=
  match Parse (own ++ key_flags) args (MkQueryVars [] [] []) with
  | Exited code => inr (MkOutcome [] (Exit code))
  | Parsed v rest =>
      let secretKey := Or_text (q_secretKey v) (Getenv (bs "PG_SECRET_KEY")) in
      if bool_decide (secretKey = []) then inr (fails (FlagRequired (bs "secret-key")))
      else
        let server := Getenv (bs "PG_SERVER") in
        if bool_decide (server = []) then inr (fails (FlagRequired (bs "server")))
        else inl (secretKey, server, v, rest)
  end.

(** The two requests of a command: when each is sent and received. *)
Record moments := MkMoments { sent1 : time; received1 : time; sent2 : time; received2 : time }.

Definition query_networks t c key s := Networks b64_Decode b64_Encode (Encrypt key) Decrypt json_expiry expiry_json heads_json
  json_heads peers_json meta_json json_meta escape_host WM a secret_json (sent1 t) (received1 t) c s.
Definition query_peers t c key s := Peers b64_Decode b64_Encode (Encrypt key) Decrypt json_expiry expiry_json heads_json
  peers_json json_peers meta_json json_meta escape_host WM a secret_json (sent1 t) (received1 t) c s.
Definition query_meta t c key n s := NetworkMeta_ b64_Decode b64_Encode (Encrypt key) Decrypt json_expiry expiry_json heads_json
  peers_json meta_json json_meta escape_host WM a secret_json (sent1 t) (received1 t) c n s.
Definition put_meta t rnd c key n m s := PutNetworkMeta b64_Decode b64_Encode (Encrypt key) Decrypt json_expiry expiry_json
  heads_json peers_json meta_json json_meta escape_host WM a secret_json (sent2 t) (received2 t) rnd c n m s.

(** A query that prints its answer. *)
Definition prints {A} (doc : A -> document) (r : res client_error A * PeerMap) : outcome * PeerMap :=
  match r with
  | (Ok x, s) => (MkOutcome [doc x] (Returned None), s)
  | (Err e, s) => (fails (QueryFailed e), s)
  | (Panic, s) => (MkOutcome [] Panicked, s)
  end.

Definition listNetworks (t : moments) (args : list bytes) (s : PeerMap) : outcome * PeerMap :=
  match parseSecretKeyAndServer [] args with
  | inr o => (o, s)
  | inl (key, server, _, _) =>
      match NewClient url_Parse server with
      | None => (fails BadServerURL, s)
      | Some c => prints DocNetworks (query_networks t c key s)
      end
  end.
Definition listPeers (t : moments) (args : list bytes) (s : PeerMap) : outcome * PeerMap :=
  match parseSecretKeyAndServer [] args with
  | inr o => (o, s)
  | inl (key, server, _, _) =>
      match NewClient url_Parse server with
      | None => (fails BadServerURL, s)
      | Some c => prints DocPeers (query_peers t c key s)
      end
  end.
Definition getMeta (t : moments) (args : list bytes) (s : PeerMap) : outcome * PeerMap :=
  match parseSecretKeyAndServer [] args with
  | inr o => (o, s)
  | inl (key, server, _, rest) =>
      match NewClient url_Parse server with
      | None => (fails BadServerURL, s)
      | Some c => prints DocMeta (query_meta t c key (Arg 0 rest) s)
      end
  end.

(** [reflect]: [FieldByName] finds a field by its Go name, and [SetString] panics on
    one that is no string. *)
Inductive field := StringField | OtherField.
Definition FieldByName (key : bytes) : option field :=
  if bool_decide (key = bs "Alias") then Some StringField
  else if bool_decide (key = bs "Neighbors") then Some OtherField else None.

Definition setMeta (t : moments) (rnd : bytes) (args : list bytes) (s : PeerMap) : outcome * PeerMap :=
  match parseSecretKeyAndServer [StringVar (bs "key") set_q_key; StringVar (bs "value") set_q_value] args with
  | inr o => (o, s)
  | inl (secretKey, server, v, rest) =>
      match NewClient url_Parse server with
      | None => (fails BadServerURL, s)
      | Some c =>
          match query_meta t c secretKey (Arg 0 rest) s with
          | (Err e, s) => (fails (QueryFailed e), s)
          | (Panic, s) => (MkOutcome [] Panicked, s)
          | (Ok meta, s) =>
              match FieldByName (q_key v) with
              | None => (fails (MetaNotFound (q_key v)), s)
              | Some OtherField => (MkOutcome [] Panicked, s)
              | Some StringField =>
                  let meta := MkNetworkMeta (q_value v) (nm_Neighbors meta) in
                  let '(r, s) := put_meta t rnd c secretKey (Arg 0 rest) meta s in
                  (MkOutcome [DocMeta meta]
                     match r with Ok _ => Returned None | Err e => Returned (Some (QueryFailed e)) | Panic => Panicked end, s)
              end
          end
      end
  end.

(** [generateSecret]; the clock is read for the token and again for what the file says. *)
Definition secret_flags : list (flag secret_vars) :=
  [StringVar (bs "alias") set_s_alias; StringVar (bs "duration") set_s_duration; StringVar (bs "network") set_s_network;
   StringVar (bs "secret-key") set_s_secretKey; BoolVar (bs "admin") set_s_adm].
Definition generateSecret (codec_of : bytes -> codec) (nonce : bytes) (now now' : time) (args : list bytes) : outcome :=
  match Parse secret_flags args (MkSecretVars [] (bs "24h") (bs "default") [] false) with
  | Exited code => MkOutcome [] (Exit code)
  | Parsed v _ =>
      match ParseDuration (s_duration v) with
      | None => fails BadDuration
      | Some d =>
          let secretKey := Or_text (s_secretKey v) (Getenv (bs "PG_SECRET_KEY")) in
          if bool_decide (secretKey = []) then fails (FlagRequired (bs "secret-key"))
          else
            MkOutcome
              [DocSecret (MkNetworkSecret
                 (GenerateSecretAdmin (codec_of secretKey) nonce now (s_adm v) (MkNet (s_network v) (s_alias v) []) d)
                 (s_network v) (nanos (Add now' (d - 10 * Second))))]
              (Returned None)
      end
  end.

(** [Run] with the arguments after "admin". *)
Definition Run (codec_of : bytes -> codec) (nonce rnd : bytes) (now now' : time) (t : moments) (args : list bytes) (s : PeerMap) :
    outcome * PeerMap :=
  match Parse ([] : list (flag unit)) args tt with
  | Exited code => (MkOutcome [] (Exit code), s)
  | Parsed _ rest =>
      let sub := Arg 0 rest in
      if bool_decide (sub = bs "get-meta") then getMeta t (tail rest) s
      else if bool_decide (sub = bs "set-meta") then setMeta t rnd (tail rest) s
      else if bool_decide (sub = bs "networks") then listNetworks t (tail rest) s
      else if bool_decide (sub = bs "peers") then listPeers t (tail rest) s
      else if bool_decide (sub = bs "secret") then (generateSecret codec_of nonce now now' (tail rest), s)
      else (MkOutcome [DocUsage] (Returned None), s)
  end.
End Admin.

(** ** A change of the metadata on the server *)

Section Server.
Context (WM : list Ws.ws_out -> nat -> Z -> bytes -> option Ws.ws_error) (a : codec) (js : NetworkSecret -> bytes).

(** A peer that can be told of a new secret. *)
Definition reachable_peer (s : PeerMap) (pid : nat) : Prop :=
  exists p, conns s !! pid = Some p /\ p_conn p <> None /\ is_Some (getNetwork (p_network p) s).
(** What matters of a connection for that. *)
Definition link (p : peerConn) : option nat * bytes := (p_conn p, p_network p).

Lemma reachable_peer_ext s s' pid :
  networkMap s' = networkMap s -> link <$> conns s' !! pid = link <$> conns s !! pid ->
  reachable_peer s pid -> reachable_peer s' pid.
Proof.
  intros Hn Hl (p & Hp & Hc & Hk). rewrite Hp in Hl. apply fmap_Some in Hl as (p' & Hp' & Hl). unfold link in Hl.
  injection Hl as H1 H2. exists p'. unfold getNetwork in *. by rewrite <- H1, <- H2, Hn.
Qed.

Lemma told_run rnd now pid s :
  let r := ignore (updateSecret WM a js rnd now pid) s in
  networkMap r.2 = networkMap s /\ (forall q, link <$> conns r.2 !! q = link <$> conns s !! q) /\
  (r.1 = Ok tt \/ r.1 = Panic) /\ (reachable_peer s pid -> r.1 = Ok tt).
Proof.
  unfold ignore, updateSecret. rewrite deref_bind. destruct (conns s !! pid) as [p|] eqn:Hp.
  2:{ cbn. split_and!; try done; [by right|]. intros (p & Hp' & _). congruence. }
  rewrite gets_bind. destruct (getNetwork (p_network p) s) as [ctx|] eqn:Hk.
  2:{ cbn. split_and!; try done; [by right|]. intros (p' & Hp' & _ & Hk'). simplify_eq. rewrite Hk in Hk'. by destruct Hk'. }
  rewrite gets_bind, gom_bind_run. unfold peer_write. rewrite deref_bind, Hp. destruct (p_conn p) as [conn|] eqn:Hc.
  2:{ cbn. split_and!; try done; [by right|]. intros (p' & Hp' & Hc' & _). simplify_eq. }
  unfold peer_writeWS. destruct (WM _ _ _ _); cbn; [by split_and!; try done; left|].
  split_and!; try done; [|by left]. intros q. destruct (decide (q = pid)) as [->|Hne].
  - by rewrite lookup_alter_eq, Hp.
  - by rewrite lookup_alter_ne.
Qed.

Lemma told_all rnd now pids s :
  let r := for_each pids (fun pid => ignore (updateSecret WM a js rnd now pid)) s in
  networkMap r.2 = networkMap s /\ (r.1 = Ok tt \/ r.1 = Panic) /\ (Forall (reachable_peer s) pids -> r.1 = Ok tt).
Proof.
  revert s. induction pids as [|pid pids IH]; intros s; cbn [for_each]; [by split_and!; try done; left|].
  rewrite gom_bind_run. destruct (told_run rnd now pid s) as (Hn & Hl & Hr & Hok).
  destruct (ignore _ s) as [r s1]. cbn [fst snd] in *. destruct Hr as [-> | ->].
  - destruct (IH s1) as (Hn1 & Hr1 & Hok1). split_and!; [by rewrite Hn1|done|]. intros [_ Hf]%Forall_cons. apply Hok1.
    eapply Forall_impl; [exact Hf|]. intros q. by apply reachable_peer_ext.
  - split_and!; [done|by right|]. intros [Hf _]%Forall_cons. by specialize (Hok Hf).
Qed.

(** The metadata of a network are replaced, whatever becomes of its peers. *)
Lemma updateMeta_run rnd now n al ns s ctx :
  getNetwork n s = Some ctx ->
  let r := updateMeta WM a js rnd now n al ns s in
  (exists ctx', getNetwork n r.2 = Some ctx' /\ alias ctx' = al /\ neighbors ctx' = ns /\ peers ctx' = peers ctx) /\
  (forall m, m <> n -> getNetwork m r.2 = getNetwork m s) /\
  (r.1 = Ok tt \/ r.1 = Panic) /\
  (Forall (reachable_peer s) (snd <$> map_to_list (peers ctx)) -> r.1 = Ok tt).
Proof.
  intros Hn. unfold updateMeta. rewrite gets_bind, Hn. case_bool_decide as He.
  { destruct He as [<- <-]. cbn. split_and!; try done; [|by left]. by exists ctx. }
  rewrite modify_bind. set (s1 := set_networkMap _ s). set (pids := snd <$> _).
  destruct (told_all rnd now pids s1) as (H1 & H2 & H3). destruct (for_each pids _ s1) as [r s2]. cbn [fst snd] in *.
  unfold getNetwork in *. rewrite H1. cbn [s1 set_networkMap networkMap]. split_and!; [|by intros m Hm; rewrite lookup_alter_ne|done|].
  - exists (set_meta now al ns ctx). by rewrite lookup_alter_eq, Hn.
  - intros Hf. apply H3. eapply Forall_impl; [exact Hf|]. intros pid (p & Hp & Hc & [c Hk]). exists p. split_and!; [done..|].
    unfold getNetwork in *. cbn [s1 set_networkMap networkMap]. destruct (decide (n = p_network p)) as [->|Hne].
    + rewrite lookup_alter_eq, Hk. by eexists.
    + rewrite lookup_alter_ne by done. by eexists.
Qed.
End Server.

(** ** Properties *)

(** C22. The file of an operator admits.  The secret that [admin secret] prints is of
    the network, the alias and the role of the flags, and the server with the same
    key accepts it at any time at which a node still takes it for live, provided
    that the two readings of the clock are less than nine seconds apart. *)
Theorem printed_secret_admits (Getenv : bytes -> bytes) (ParseDuration : bytes -> option Z) (codec_of : bytes -> codec)
    nonce now now' args v rest d t :
  Parse secret_flags args (MkSecretVars [] (bs "24h") (bs "default") [] false) = Parsed v rest ->
  ParseDuration (s_duration v) = Some d ->
  let key := Or_text (s_secretKey v) (Getenv (bs "PG_SECRET_KEY")) in
  key <> [] -> codec_ok (codec_of key) ->
  0 <= d < 2 ^ 62 -> sane now -> sane now' -> sane t -> sane (Add now d) -> near (Add now d) t ->
  unixToInternal <= t_sec (Add now d) -> nanos now <= nanos now' < nanos now + 9 * Second ->
  exists ns, generateSecret Getenv ParseDuration codec_of nonce now now' args = MkOutcome [DocSecret ns] (Returned None) /\
    Network ns = s_network v /\
    (Expired (nanos t) ns = false ->
     ParseSecret (codec_of key) t (Secret ns) =
       (MkJSONSecret (s_network v) (s_adm v) (s_alias v) [] (Unix (Add now d)), None)).
Proof.
  intros Hp Hd key Hk Hc Hr Hn Hn' Ht Hs Hnear Hu Hclock. unfold generateSecret. rewrite Hp, Hd. fold key.
  rewrite bool_decide_false by done. eexists. split; [reflexivity|]. split; [done|].
  unfold Expired. cbn [Expire Secret]. intros He%bool_decide_eq_false.
  rewrite secret_lifetime by done. cbn [net_ID net_Alias net_Neighbors]. rewrite bool_decide_false; [done|].
  destruct (Add_sane now' (d - 10 * Second) Hn') as [Ha _]; [unfold Second in *; lia|]. rewrite Ha in He.
  pose proof (Z.mod_pos_bound (nanos now + d) Second ltac:(unfold Second; lia)) as Hm.
  pose proof (Z.div_mod (nanos now + d) Second ltac:(unfold Second; lia)). unfold Second in *. lia.
Qed.

Section SetMeta.
Context (Getenv : bytes -> bytes) (ParseDuration : bytes -> option Z) (url_Parse : bytes -> option (bytes * bytes)).
Context (b64d : bytes -> option bytes) (b64e : bytes -> bytes) (Encrypt : bytes -> bytes -> res crypt_error bytes) (dec : bytes -> res crypt_error bytes).
Context (jexp : bytes -> Z) (expj : Z -> bytes) (hj : list NetworkHead -> bytes) (jh : bytes -> list NetworkHead).
Context (pj : list NetworkPeers -> bytes) (jp : bytes -> list NetworkPeers) (mj : NetworkMeta -> bytes) (jm : bytes -> option NetworkMeta).
Context (esc : bytes -> bytes) (WM : list Ws.ws_out -> nat -> Z -> bytes -> option Ws.ws_error) (a : codec) (sj : NetworkSecret -> bytes).

(** The two requests as the server answers them. *)
Lemma query_meta_run t sch key n s :
  agreement b64d b64e (Encrypt key) dec jexp expj hj jh pj jp mj jm -> in_time (sent1 t) (received1 t) -> element n ->
  query_meta b64d b64e Encrypt dec jexp expj hj pj mj jm esc WM a sj t (MkClient sch (bs "/pg")) key n s =
    (match getNetwork n s with
     | Some ctx => Ok (MkNetworkMeta (alias ctx) (neighbors ctx))
     | None => Err (UnexpectedStatus 404)
     end, s).
Proof.
  intros Hag Ht Hn. unfold query_meta, NetworkMeta_.
  destruct (RoundTrip_served b64d b64e (Encrypt key) dec jexp expj hj jh pj jp mj jm esc WM a sj Hag (sent1 t) (received1 t)
    [] GET (meta_path (MkClient sch (bs "/pg")) n) s Ht) as (token & Hc & ->).
  unfold serve. cbn [hr_Path hr_method hr_Token]. rewrite meta_path_element, route_meta by done. rewrite Hc. cbn [fst snd].
  unfold HandleGetNetworkMeta. cbn [negb]. destruct (getNetwork n s) as [ctx|]; [|reflexivity].
  unfold expect200, of_status. cbn [mbind res_bind hr_Status hr_Body]. rewrite bool_decide_false by (intros H; by apply H).
  cbn [mbind res_bind]. rewrite (ag_meta _ _ _ _ _ _ _ _ _ _ _ _ Hag). reflexivity.
Qed.

Lemma put_meta_run t rnd sch key n m s ctx :
  agreement b64d b64e (Encrypt key) dec jexp expj hj jh pj jp mj jm -> in_time (sent2 t) (received2 t) -> element n ->
  getNetwork n s = Some ctx ->
  let r := put_meta b64d b64e Encrypt dec jexp expj hj pj mj jm esc WM a sj t rnd (MkClient sch (bs "/pg")) key n m s in
  let u := updateMeta WM a sj rnd (received2 t) n (nm_Alias m) (nm_Neighbors m) s in
  r.2 = u.2 /\ (u.1 = Ok tt -> r.1 = Ok tt) /\ (u.1 = Panic -> r.1 = Err TransportError).
Proof.
  intros Hag Ht Hn Hk r u. unfold r, put_meta, PutNetworkMeta.
  destruct (RoundTrip_served b64d b64e (Encrypt key) dec jexp expj hj jh pj jp mj jm esc WM a sj Hag (sent2 t) (received2 t)
    rnd (PUT (mj m)) (meta_path (MkClient sch (bs "/pg")) n) s Ht) as (token & Hc & ->).
  unfold serve. cbn [hr_Path hr_method hr_Token]. rewrite meta_path_element, route_meta by done. rewrite Hc. cbn [fst snd].
  rewrite (ag_meta _ _ _ _ _ _ _ _ _ _ _ _ Hag). unfold HandlePutNetworkMeta. cbn [negb fmap option_fmap option_map]. rewrite Hk.
  fold u. destruct u as [[[]|e|] s']; by split_and!.
Qed.
End SetMeta.

(** C21. Changing the metadata of a network.  For an operator with the server's key and
    a known network, [admin set-meta -key Alias] sets the alias and keeps the
    neighbours, the members and every other network, prints what it has set, and
    returns no error unless the server cannot tell one of the members - the change
    is made even then.  The key is the name of a Go field: [Neighbors] panics the
    command, any other is an error, and an unknown network is a 404; neither of
    them changes anything. *)
Theorem set_meta_applies (Getenv : bytes -> bytes) (url_Parse : bytes -> option (bytes * bytes))
    (b64d : bytes -> option bytes) (b64e : bytes -> bytes) (Encrypt : bytes -> bytes -> res crypt_error bytes) (dec : bytes -> res crypt_error bytes)
    (jexp : bytes -> Z) (expj : Z -> bytes) (hj : list NetworkHead -> bytes) (jh : bytes -> list NetworkHead)
    (pj : list NetworkPeers -> bytes) (jp : bytes -> list NetworkPeers) (mj : NetworkMeta -> bytes) (jm : bytes -> option NetworkMeta)
    (esc : bytes -> bytes) (WM : list Ws.ws_out -> nat -> Z -> bytes -> option Ws.ws_error) (a : codec) (sj : NetworkSecret -> bytes)
    t rnd args s key server v rest sch :
  parseSecretKeyAndServer Getenv [StringVar (bs "key") set_q_key; StringVar (bs "value") set_q_value] args = inl (key, server, v, rest) ->
  url_Parse server = Some (sch, bs "/pg") ->
  agreement b64d b64e (Encrypt key) dec jexp expj hj jh pj jp mj jm ->
  in_time (sent1 t) (received1 t) -> in_time (sent2 t) (received2 t) -> element (Arg 0 rest) ->
  let n := Arg 0 rest in
  let '(o, s') := setMeta Getenv url_Parse b64d b64e Encrypt dec jexp expj hj pj mj jm esc WM a sj t rnd args s in
  match getNetwork n s with
  | None => o = fails (QueryFailed (UnexpectedStatus 404)) /\ s' = s
  | Some ctx =>
      if bool_decide (q_key v = bs "Alias") then
        stdout o = [DocMeta (MkNetworkMeta (q_value v) (neighbors ctx))] /\
        (exists ctx', getNetwork n s' = Some ctx' /\ alias ctx' = q_value v /\ neighbors ctx' = neighbors ctx /\ peers ctx' = peers ctx) /\
        (forall m, m <> n -> getNetwork m s' = getNetwork m s) /\
        (ended o = Returned None \/ ended o = Returned (Some (QueryFailed TransportError))) /\
        (Forall (reachable_peer s) (snd <$> map_to_list (peers ctx)) -> ended o = Returned None)
      else o = (if bool_decide (q_key v = bs "Neighbors") then MkOutcome [] Panicked else fails (MetaNotFound (q_key v))) /\ s' = s
  end.
Proof.
  intros Hp Hu Hag Ht1 Ht2 Hn n. unfold setMeta. rewrite Hp. unfold NewClient. rewrite Hu. cbn [mbind option_bind snd fst].
  rewrite (query_meta_run b64d b64e Encrypt dec jexp expj hj jh pj jp mj jm esc WM a sj) by done. fold n.
  destruct (getNetwork n s) as [ctx|] eqn:Hk; [|done]. unfold FieldByName.
  case_bool_decide as Ha; [|case_bool_decide; done]. cbn [nm_Neighbors].
  pose proof (put_meta_run b64d b64e Encrypt dec jexp expj hj jh pj jp mj jm esc WM a sj t rnd (http_scheme sch) key n
    (MkNetworkMeta (q_value v) (neighbors ctx)) s ctx Hag Ht2 Hn Hk) as (Hs & Hok & Hpan).
  cbn [nm_Alias nm_Neighbors] in *.
  destruct (updateMeta_run WM a sj rnd (received2 t) n (q_value v) (neighbors ctx) s ctx Hk) as (H1 & H2 & H3 & H4).
  destruct (put_meta _ _ _ _ _ _ _ _ _ _ _ _ _ _ _ _ _ _ _ _ _) as [r s']. cbn [fst snd] in *. subst s'.
  split_and!; [done|done|done| |].
  - destruct H3 as [H3|H3]; [left; by rewrite (Hok H3)|right; by rewrite (Hpan H3)].
  - intros Hf. cbn [ended]. by rewrite (Hok (H4 Hf)).
Qed.

(** ** Witnesses *)

Module Examples.
Import Auth.Examples Exporter.Examples.

Definition environment (name : bytes) : bytes :=
  if bool_decide (name = bs "PG_SERVER") then bs "wss://example.org/pg" else [].
Definition parse_server (_ : bytes) : option (bytes * bytes) := Some (bs "wss", bs "/pg").
Definition soon : moments := MkMoments y2025 late y2025 late.
(** [pgcli admin set-meta -secret-key key -key Alias -value "den" home] *)
Definition set_alias : list bytes :=
  command_line [WithValue (bs "secret-key") (bs "key"); WithValue (bs "key") (bs "Alias"); WithValue (bs "value") (bs "den")] [bs "home"].

Lemma set_meta_applies_witness :
  let '(o, s') := setMeta environment parse_server Some (fun b => b) (fun _ p => Ok (z2b 7 :: p)) (fun c => Ok (tail c))
    doc_expiry expiry_doc heads_doc peers_doc (to_doc meta_tuple) (of_doc tuple_meta) (fun b => b) (fun _ _ _ _ => None) toy_codec
    (fun _ => []) soon [] set_alias server in
  stdout o = [DocMeta (MkNetworkMeta (bs "den") [bs "other"])] /\
  (exists ctx', getNetwork (bs "home") s' = Some ctx' /\ alias ctx' = bs "den" /\ neighbors ctx' = [bs "other"] /\ peers ctx' = ∅) /\
  (forall m, m <> bs "home" -> getNetwork m s' = getNetwork m server) /\
  (ended o = Returned None \/ ended o = Returned (Some (QueryFailed TransportError))) /\
  (Forall (reachable_peer server) (snd <$> map_to_list (peers home)) -> ended o = Returned None).
Proof.
  assert (Ht : in_time (sent1 soon) (received1 soon)) by (vm_compute; reflexivity).
  assert (Hn : element (Arg 0 [bs "home"])).
  { split; [discriminate|]. split; [discriminate|]. split; [discriminate|]. apply no_slash. vm_compute. reflexivity. }
  exact (set_meta_applies environment parse_server Some (fun b => b) (fun _ p => Ok (z2b 7 :: p)) (fun c => Ok (tail c))
    doc_expiry expiry_doc heads_doc doc_heads peers_doc doc_peers (to_doc meta_tuple) (of_doc tuple_meta) (fun b => b)
    (fun _ _ _ _ => None) toy_codec (fun _ => []) soon [] set_alias server (bs "key") (bs "wss://example.org/pg")
    (MkQueryVars (bs "key") (bs "Alias") (bs "den")) [bs "home"] (bs "wss") eq_refl eq_refl toy_agreement Ht Ht Hn).
Defined.

(** [-s] is said to be the server, and is the key. *)
Example server_flag_is_key :
  parseSecretKeyAndServer environment [] [bs "-s"; bs "wss://example.net/pg"] =
    inl (bs "wss://example.net/pg", bs "wss://example.org/pg", MkQueryVars (bs "wss://example.net/pg") [] [], []).
Proof. vm_compute. reflexivity. Qed.

Definition one_hour (s : bytes) : option Z := if bool_decide (s = bs "1h") then Some Hour else None.

Lemma printed_secret_admits_witness :
  exists ns,
    generateSecret (fun _ => bs "key") one_hour (fun _ => toy_codec) [] y2025 y2025
      (command_line [WithValue (bs "duration") (bs "1h"); Switch (bs "admin"); WithValue (bs "network") (bs "home")] []) =
      MkOutcome [DocSecret ns] (Returned None) /\
    Network ns = bs "home" /\
    (Expired (nanos (Add y2025 Minute)) ns = false ->
     ParseSecret toy_codec (Add y2025 Minute) (Secret ns) = (MkJSONSecret (bs "home") true [] [] (Unix (Add y2025 Hour)), None)).
Proof.
  refine (printed_secret_admits (fun _ => bs "key") one_hour (fun _ => toy_codec) [] y2025 y2025
    (command_line [WithValue (bs "duration") (bs "1h"); Switch (bs "admin"); WithValue (bs "network") (bs "home")] [])
    (MkSecretVars [] (bs "1h") (bs "home") [] true) [] Hour (Add y2025 Minute) _ _ _ toy_codec_ok _ _ _ _ _ _ _ _);
    try (vm_compute; repeat split; discriminate); vm_compute; reflexivity.
Defined.
End Examples.
