(* ===== verification/Commands.v ===== *)
(** * Commands: the command lines of the programs ([cmd/pgcli], [cmd/pgmap])

    From the arguments to what is run: which command [pgcli] dispatches to, the
    flags of the VPN daemon down to the configuration that [Daemon.createConfig]
    makes of them, those of the file sharing, and the configuration a server runs
    with.  Reading numbers, durations and the configuration file is outside. *)

From S2P Require Import Prelude Text GoTime Flags Fileshare Disco DiscoUdp P2p Auth Peermap Daemon.

(** ** The version *)

(** [debug.ReadBuildInfo]: nil when the program was built without it. *)
Record BuildInfo := MkBuildInfo { GoVersion : bytes; Settings : list (bytes * bytes) }.
Definition last_setting (key : bytes) (info : BuildInfo) : bytes :=
  fold_left (fun v kv => if bool_decide (kv.1 = key) then kv.2 else v) (Settings info) [].

(** [readBinaryInfo] of [pgcli]: the commit, the time and the version of Go; the
    information is dereferenced whether it is there or not. *)
Definition readBinaryInfo (info : option BuildInfo) : res Empty_set (bytes * bytes * bytes) :=
  match info with
  | None => Panic
  | Some i => Ok (last_setting (bs "vcs.revision") i, last_setting (bs "vcs.time") i, GoVersion i)
  end.
Definition newline : bytes := [z2b 10].
Definition tabs (n : nat) : bytes := repeat (z2b 9) n.
Definition printVersion (Version : bytes) (info : option BuildInfo) : res Empty_set bytes :=
  '(commit, buildTime, goVersion) ← readBinaryInfo info;
  Ok (goVersion ++ newline ++ bs "version" ++ tabs 2 ++ Version ++ newline ++
      bs "build_time" ++ tabs 1 ++ buildTime ++ newline ++ bs "commit" ++ tabs 1 ++ commit ++ newline).
(** That of [pgmap] looks at the information's presence, but prints it all the same. *)
Definition map_printVersion (Version : bytes) (info : option BuildInfo) : res Empty_set bytes :=
  let '(buildTime, commit) := match info with
    | Some i => (last_setting (bs "vcs.time") i, last_setting (bs "vcs.revision") i)
    | None => ([], []) end in
  match info with
  | None => Panic
  | Some i => Ok (GoVersion i ++ newline ++ bs "version " ++ Version ++ newline ++
                  bs "build_time " ++ buildTime ++ newline ++ bs "commit " ++ commit ++ newline)
  end.

(** ** Keys *)

(** [curve25519.Run]: the generated pair in base58, one line each. *)
Definition curve25519_Run (b58_Encode : bytes -> bytes) (GenerateKey : option (bytes * bytes)) : option bytes :=
  '(priv, pub) ← GenerateKey;
  Some (bs "priv" ++ tabs 1 ++ b58_Encode priv ++ newline ++ bs "pub" ++ tabs 1 ++ b58_Encode pub ++ newline).

(** ** [pgcli] *)

(** What the program runs, with the arguments it hands on. *)
Inductive command :=
| RunAdmin (args : list bytes) | RunCurve25519 | RunDownload (args : list bytes) | RunShare (args : list bytes)
| RunVpn (args : list bytes) | ShowUsage | ExitWith (code : Z).

Section Commands.
Context (ParseInt0 : bytes -> option Z) (ParseDuration : bytes -> option Z) (ParseRate : bytes -> option Z).
Context (Getenv : bytes -> bytes).

Definition global_flags : list (flag Z) :=
  [ValueVar ParseInt0 (bs "loglevel") (fun x _ => x); BoolFunc (bs "v"); BoolFunc (bs "version")].

(** [run] with the arguments of the process; [rest] are those that the flags leave. *)
Definition run (args rest : list bytes) : command :=
  let sub := Arg 0 rest in
  if bool_decide (sub = bs "admin") then RunAdmin (tail rest)
  else if bool_decide (sub = bs "curve25519") then RunCurve25519
  else if bool_decide (sub = bs "download") then RunDownload (tail rest)
  else if bool_decide (sub = bs "share") then RunShare (tail rest)
  else if bool_decide (sub = bs "vpn") then RunVpn (tail args)
  else ShowUsage.
(** [main]: [base] is the name the program is called by. *)
Definition main (base : bytes) (args : list bytes) : command :=
  if bool_decide (base = bs "pgvpn") then RunVpn args
  else match Parse global_flags args 0 with
       | Parsed _ rest => run args rest
       | Exited code => ExitWith code
       end.

(** ** [pgcli vpn] *)

Definition on_cfg (g : Config -> Config) (f : parsed) : parsed :=
  MkParsed (g (p_cfg f)) (ignoredInterfaces f) (forwards f) (proxyUsers f) (nodeLabels f) (cryptoAlgo f) (forcePeerRelay f) (forceServerRelay f).
Definition on_disco (g : DiscoConfig -> DiscoConfig) : parsed -> parsed := on_cfg (fun c =>
  MkConfig (NIC_IPv4 c) (NIC_IPv6 c) (NIC_MTU c) (NIC_Name c) (Proxy_Listen c) (Proxy_Users c) (g (Disco_Config c)) (IgnoredInterfaces c)
    (cfg_UDPPort c) (PrivateKey c) (cfg_Secret c) (cfg_SecretFile c) (Server c) (AuthQR c) (P2pTransportMode c) (Forwards c) (Labels c)
    (QueryPeers c) (QueryNodeInfo c)).
(** The fields of the card, and those of the connection. *)
Definition on_nic (i4 i6 name listen : bytes -> bytes) (mtu : Z -> Z) : parsed -> parsed := on_cfg (fun c =>
  MkConfig (i4 (NIC_IPv4 c)) (i6 (NIC_IPv6 c)) (mtu (NIC_MTU c)) (name (NIC_Name c)) (listen (Proxy_Listen c)) (Proxy_Users c)
    (Disco_Config c) (IgnoredInterfaces c) (cfg_UDPPort c) (PrivateKey c) (cfg_Secret c) (cfg_SecretFile c) (Server c) (AuthQR c)
    (P2pTransportMode c) (Forwards c) (Labels c) (QueryPeers c) (QueryNodeInfo c)).
Definition on_conn (port : Z -> Z) (key secret file server : bytes -> bytes) (qr peers info : bool -> bool) : parsed -> parsed := on_cfg (fun c =>
  MkConfig (NIC_IPv4 c) (NIC_IPv6 c) (NIC_MTU c) (NIC_Name c) (Proxy_Listen c) (Proxy_Users c) (Disco_Config c) (IgnoredInterfaces c)
    (port (cfg_UDPPort c)) (key (PrivateKey c)) (secret (cfg_Secret c)) (file (cfg_SecretFile c)) (server (Server c)) (qr (AuthQR c))
    (P2pTransportMode c) (Forwards c) (Labels c) (peers (QueryPeers c)) (info (QueryNodeInfo c))).
Definition on_lists (ignored fwd users labels : list bytes -> list bytes) (algo : bytes -> bytes) (pr sr : bool -> bool) (f : parsed) : parsed :=
  MkParsed (p_cfg f) (ignored (ignoredInterfaces f)) (fwd (forwards f)) (users (proxyUsers f)) (labels (nodeLabels f))
    (algo (cryptoAlgo f)) (pr (forcePeerRelay f)) (sr (forceServerRelay f)).

Notation I := (fun x => x) (only parsing).
(** [stringSlice.Set] appends. *)
Definition push (x : bytes) (l : list bytes) : list bytes := l ++ [x].

Definition vpn_flags : list (flag parsed) :=
  [BoolFunc (bs "v"); BoolFunc (bs "version");
   ValueVar ParseInt0 (bs "loglevel") (fun _ f => f); ValueVar ParseInt0 (bs "V") (fun _ f => f);
   ValueVar ParseInt0 (bs "disco-port-scan-offset") (fun x => on_disco (fun d => MkDiscoConfig x (PortScanCount d) (PortScanDuration d) (ChallengesRetry d) (ChallengesInitialInterval d) (ChallengesBackoffRate100 d)));
   ValueVar ParseInt0 (bs "disco-port-scan-count") (fun x => on_disco (fun d => MkDiscoConfig (PortScanOffset d) x (PortScanDuration d) (ChallengesRetry d) (ChallengesInitialInterval d) (ChallengesBackoffRate100 d)));
   ValueVar ParseDuration (bs "disco-port-scan-duration") (fun x => on_disco (fun d => MkDiscoConfig (PortScanOffset d) (PortScanCount d) x (ChallengesRetry d) (ChallengesInitialInterval d) (ChallengesBackoffRate100 d)));
   ValueVar ParseInt0 (bs "disco-challenges-retry") (fun x => on_disco (fun d => MkDiscoConfig (PortScanOffset d) (PortScanCount d) (PortScanDuration d) x (ChallengesInitialInterval d) (ChallengesBackoffRate100 d)));
   ValueVar ParseDuration (bs "disco-challenges-initial-interval") (fun x => on_disco (fun d => MkDiscoConfig (PortScanOffset d) (PortScanCount d) (PortScanDuration d) (ChallengesRetry d) x (ChallengesBackoffRate100 d)));
   ValueVar ParseRate (bs "disco-challenges-backoff-rate") (fun x => on_disco (fun d => MkDiscoConfig (PortScanOffset d) (PortScanCount d) (PortScanDuration d) (ChallengesRetry d) (ChallengesInitialInterval d) x));
   StringVar (bs "disco-ignored-interface") (fun x => on_lists (push x) I I I I I I);
   StringVar (bs "ipv4") (fun x => on_nic (fun _ => x) I I I I); StringVar (bs "4") (fun x => on_nic (fun _ => x) I I I I);
   StringVar (bs "ipv6") (fun x => on_nic I (fun _ => x) I I I); StringVar (bs "6") (fun x => on_nic I (fun _ => x) I I I);
   ValueVar ParseInt0 (bs "mtu") (fun x => on_nic I I I I (fun _ => x));
   StringVar (bs "tun") (fun x => on_nic I I (fun _ => x) I I);
   StringVar (bs "forward") (fun x => on_lists I (push x) I I I I I);
   StringVar (bs "proxy-listen") (fun x => on_nic I I I (fun _ => x) I);
   StringVar (bs "proxy-user") (fun x => on_lists I I (push x) I I I I);
   StringVar (bs "key") (fun x => on_conn I (fun _ => x) I I I I I I);
   StringVar (bs "secret") (fun x => on_conn I I (fun _ => x) I I I I I);
   StringVar (bs "secret-file") (fun x => on_conn I I I (fun _ => x) I I I I); StringVar (bs "f") (fun x => on_conn I I I (fun _ => x) I I I I);
   BoolVar (bs "auth-qr") (fun x => on_conn I I I I I (fun _ => x) I I);
   StringVar (bs "server") (fun x => on_conn I I I I (fun _ => x) I I I); StringVar (bs "s") (fun x => on_conn I I I I (fun _ => x) I I I);
   BoolVar (bs "peers") (fun x => on_conn I I I I I I (fun _ => x) I); BoolVar (bs "nodeinfo") (fun x => on_conn I I I I I I I (fun _ => x));
   StringVar (bs "udp-crypto") (fun x => on_lists I I I I (fun _ => x) I I);
   ValueVar ParseInt0 (bs "udp-port") (fun x => on_conn (fun _ => x) I I I I I I I);
   BoolVar (bs "force-peer-relay") (fun x => on_lists I I I I I (fun _ => x) I);
   BoolVar (bs "force-server-relay") (fun x => on_lists I I I I I I (fun _ => x));
   StringVar (bs "label") (fun x => on_lists I I I (push x) I I I); StringVar (bs "l") (fun x => on_lists I I I (push x) I I I)].

(** [Run]: a query of the daemon, or the daemon. *)
Inductive vpn_action := PrintPeers | PrintNodeInfo | RunNode (c : Config) (a : option algo) | VpnError (text : bytes) | VpnExit (code : Z).
Definition vpn_Run (defaultTunName : bytes) (args : list bytes) : vpn_action :=
  match Parse vpn_flags args (default_flags defaultTunName (Getenv (bs "PG_SERVER"))) with
  | Exited code => VpnExit code
  | Parsed f _ =>
      match createConfig f with
      | (_, Some e, _) => VpnError e
      | (c, None, a) => if QueryPeers c then PrintPeers else if QueryNodeInfo c then PrintNodeInfo else RunNode c a
      end
  end.

(** ** [pgcli share] and [pgcli download] *)

Record share_vars := MkShareVars { sh_Server : bytes; sh_Network : bytes; sh_PrivateKey : bytes }.
Definition share_defaults : share_vars := MkShareVars [] (bs "public") [].
Definition download_flags : list (flag share_vars) :=
  [StringVar (bs "s") (fun x v => MkShareVars x (sh_Network v) (sh_PrivateKey v));
   StringVar (bs "pubnet") (fun x v => MkShareVars (sh_Server v) x (sh_PrivateKey v));
   ValueVar ParseInt0 (bs "loglevel") (fun _ v => v)].
Definition share_flags : list (flag share_vars) :=
  download_flags ++ [StringVar (bs "key") (fun x v => MkShareVars (sh_Server v) (sh_Network v) x)].

(** [PublicNetwork] and the secret of its [ListenPacket]: the name of the network is the secret. *)
Record PublicNetwork_ := MkPublicNetwork { pn_Name : bytes; pn_Server : bytes; pn_PrivateKey : bytes; pn_UDPPort : Z }.
Definition pn_secret (pn : PublicNetwork_) : NetworkSecret :=
  let network := if bool_decide (pn_Name pn = []) then bs "pubnet" else pn_Name pn in MkNetworkSecret network network 0.

(** What the commands do with their arguments: share these files, request this URL. *)
Inductive share_action := Sharing (pn : PublicNetwork_) (rest : list bytes) | NoServer | ShareExit (code : Z).
Definition share_Run (fs : list (flag share_vars)) (port : Z) (args : list bytes) : share_action :=
  match Parse fs args share_defaults with
  | Exited code => ShareExit code
  | Parsed v rest =>
      let server := if bool_decide (sh_Server v = []) then Getenv (bs "PG_SERVER") else sh_Server v in
      if bool_decide (server = []) then NoServer else Sharing (MkPublicNetwork (sh_Network v) server (sh_PrivateKey v) port) rest
  end.
Definition share : list bytes -> share_action := share_Run share_flags 28878.
Definition download (args : list bytes) : share_action :=
  match share_Run download_flags 28879 args with Sharing pn rest => Sharing pn [Arg 0 rest] | r => r end.

(** The rest of [share.Run]: the files that can be added, the network, the links. *)
Inductive sharing := ListenFailed | NothingToShare | Serving (urls : list bytes) (files : gmap Z bytes).
Definition share_files (add : bytes -> Index.FileManager -> bool * Index.FileManager) (paths : list bytes) : Index.FileManager :=
  fold_left (fun fm p => (add p fm).2) paths Index.empty_manager.
Definition share_start (add : bytes -> Index.FileManager -> bool * Index.FileManager) (ListenNetwork : option bytes)
    (paths : list bytes) : sharing :=
  let fm := share_files add paths in
  match ListenNetwork with
  | None => ListenFailed
  | Some peerID =>
      match Link.SharedURLs peerID (Index.files fm) with
      | None => NothingToShare
      | Some urls => Serving urls (Index.files fm)
      end
  end.

(** ** [pgmap] *)

Record map_vars := MkMapVars { mv_configPath : bytes; mv_Listen : bytes; mv_SecretKey : bytes; mv_PublicNetwork : bytes; mv_STUNs : list bytes }.
Definition map_defaults : map_vars := MkMapVars (bs "config.yml") (bs "127.0.0.1:9987") [] [] [].
Definition set_configPath (x : bytes) (v : map_vars) : map_vars := MkMapVars x (mv_Listen v) (mv_SecretKey v) (mv_PublicNetwork v) (mv_STUNs v).
Definition set_Listen (x : bytes) (v : map_vars) : map_vars := MkMapVars (mv_configPath v) x (mv_SecretKey v) (mv_PublicNetwork v) (mv_STUNs v).
Definition map_flags : list (flag map_vars) :=
  [StringVar (bs "config") set_configPath; StringVar (bs "c") set_configPath;
   ValueVar ParseInt0 (bs "loglevel") (fun _ v => v);
   StringVar (bs "stun") (fun x v => MkMapVars (mv_configPath v) (mv_Listen v) (mv_SecretKey v) (mv_PublicNetwork v) (push x (mv_STUNs v)));
   StringVar (bs "listen") set_Listen; StringVar (bs "l") set_Listen;
   StringVar (bs "secret-key") (fun x v => MkMapVars (mv_configPath v) (mv_Listen v) x (mv_PublicNetwork v) (mv_STUNs v));
   StringVar (bs "pubnet") (fun x v => MkMapVars (mv_configPath v) (mv_Listen v) (mv_SecretKey v) x (mv_STUNs v));
   BoolFunc (bs "version"); BoolFunc (bs "v")].
Definition command_config (v : map_vars) : Auth.Config :=
  Auth.MkConfig (mv_Listen v) (mv_SecretKey v) (mv_STUNs v) (mv_PublicNetwork v) [] None 0 0.

(** [ReadConfig]: the file's text, decoded; a decoder that fails has filled in what it
    could. *)
Definition zero_config : Auth.Config := Auth.MkConfig [] [] [] [] [] None 0 0.
Definition ReadConfig (open : bytes -> option bytes) (Decode : bytes -> Auth.Config * bool) (configFile : bytes) : Auth.Config * bool :=
  match open configFile with
  | None => (zero_config, true)
  | Some text => Decode text
  end.

(** [run]: [ReadConfig] gives what it has decoded and an error, which is dropped. *)
Definition map_run (ReadConfig : bytes -> Auth.Config * bool) (hex_key : bytes) (v : map_vars) : res config_error PeerMap :=
  New hex_key (Overwrite (ReadConfig (mv_configPath v)).1 (command_config v)).
Definition pgmap (ReadConfig : bytes -> Auth.Config * bool) (hex_key : bytes) (args : list bytes) : res config_error PeerMap + Z :=
  match Parse map_flags args map_defaults with
  | Exited code => inr code
  | Parsed v _ => inl (map_run ReadConfig hex_key v)
  end.

(** ** What a command line says *)

(** The values of the flags with these names, in order; the last of them, or the
    default; whether one of these switches is given. *)
Definition given (names : list bytes) (x : setting) : option bytes :=
  match x with WithValue n y => if bool_decide (n ∈ names) then Some y else None | Switch _ => None end.
Definition values (names : list bytes) (l : list setting) : list bytes := omap (given names) l.
Definition last_value (names : list bytes) (dflt : bytes) (l : list setting) : bytes :=
  fold_left (fun acc x => default acc (given names x)) l dflt.
Definition switches (names : list bytes) (x : setting) : bool :=
  match x with Switch n => bool_decide (n ∈ names) | WithValue _ _ => false end.
Definition switched (names : list bytes) (l : list setting) : bool :=
  fold_left (fun acc x => acc || switches names x) l false.

(** The variables of [createConfig] after these settings. *)
Record says (PG_SERVER : bytes) (l : list setting) (f : parsed) : Prop := {
  says_ipv4 : NIC_IPv4 (p_cfg f) = last_value [bs "ipv4"; bs "4"] [] l;
  says_ipv6 : NIC_IPv6 (p_cfg f) = last_value [bs "ipv6"; bs "6"] [] l;
  says_listen : Proxy_Listen (p_cfg f) = last_value [bs "proxy-listen"] [] l;
  says_key : PrivateKey (p_cfg f) = last_value [bs "key"] [] l;
  says_server : Server (p_cfg f) = last_value [bs "server"; bs "s"] PG_SERVER l;
  says_file : cfg_SecretFile (p_cfg f) = last_value [bs "secret-file"; bs "f"] [] l;
  says_secret : cfg_Secret (p_cfg f) = last_value [bs "secret"] [] l;
  says_peers : QueryPeers (p_cfg f) = switched [bs "peers"] l;
  says_info : QueryNodeInfo (p_cfg f) = switched [bs "nodeinfo"] l;
  says_mode : P2pTransportMode (p_cfg f) = MODE_DEFAULT;
  says_forwards : forwards f = values [bs "forward"] l;
  says_users : proxyUsers f = values [bs "proxy-user"] l;
  says_labels : nodeLabels f = values [bs "label"; bs "l"] l;
  says_ignored : ignoredInterfaces f = values [bs "disco-ignored-interface"] l;
  says_algo : cryptoAlgo f = last_value [bs "udp-crypto"] (bs "chacha20poly1305") l;
  says_pr : forcePeerRelay f = switched [bs "force-peer-relay"] l;
  says_sr : forceServerRelay f = switched [bs "force-server-relay"] l
}.

Lemma values_snoc names l x : values names (l ++ [x]) = values names l ++ from_option (fun y => [y]) [] (given names x).
Proof. unfold values. rewrite omap_app. cbn. by destruct (given names x). Qed.
Lemma last_value_snoc names dflt l x : last_value names dflt (l ++ [x]) = default (last_value names dflt l) (given names x).
Proof. unfold last_value. by rewrite fold_left_app. Qed.
Lemma switched_snoc names l x : switched names (l ++ [x]) = switched names l || switches names x.
Proof. unfold switched. by rewrite fold_left_app. Qed.

Ltac decide_names := repeat match goal with
  | |- context [bool_decide (?a ∈ ?l)] => let b := eval vm_compute in (bool_decide (a ∈ l)) in change (bool_decide (a ∈ l)) with b
  end.

Lemma says_step PG_SERVER l x f f' :
  says PG_SERVER l f -> apply_setting vpn_flags (Some f) x = Some f' -> says PG_SERVER (l ++ [x]) f'.
Proof.
  intros Hs. unfold apply_setting. cbn [mbind option_bind]. destruct (lookup_flag (setting_name x) vpn_flags) as [fl|] eqn:El; [|done].
  apply List.find_some in El as [Hin Hname%bool_decide_eq_true]. cbn [mbind option_bind].
  destruct Hs as [H1 H2 H3 H4 H5 H6 H7 H8 H9 H10 H11 H12 H13 H14 H15 H16 H17].
  unfold vpn_flags in Hin. cbn [List.In] in Hin.
  repeat (destruct Hin as [<-|Hin];
    [cbn in Hname; destruct x as [n y|n]; cbn [setting_name] in Hname; subst n; cbn -[ParseBool]; try done;
     try (match goal with |- context [ParseBool ?x] => let b := eval vm_compute in (ParseBool x) in change (ParseBool x) with b end); cbn; try (match goal with |- context [match ?o with Some _ => _ | None => _ end] => destruct o end; cbn; try done);
     intros [= <-];
     split; rewrite ?values_snoc, ?last_value_snoc, ?switched_snoc, <- ?H1, <- ?H2, <- ?H3, <- ?H4, <- ?H5, <- ?H6, <- ?H7,
       <- ?H8, <- ?H9, <- ?H11, <- ?H12, <- ?H13, <- ?H14, <- ?H15, <- ?H16, <- ?H17; unfold given, switches, push; decide_names; cbn;
       rewrite ?app_nil_r, ?orb_false_r, ?orb_true_r; done|]).
  done.
Qed.

Lemma says_all tun PG_SERVER l f :
  fold_left (apply_setting vpn_flags) l (Some (default_flags tun PG_SERVER)) = Some f -> says PG_SERVER l f.
Proof.
  revert f. induction l as [|x l IH] using rev_ind; intros f Hf.
  - cbn [fold_left] in Hf. injection Hf as <-. by split.
  - rewrite fold_left_app in Hf. cbn [fold_left] in Hf. destruct (fold_left _ l _) as [f1|] eqn:E.
    + by eapply says_step; [apply IH|].
    + discriminate Hf.
Qed.
End Commands.

(** A command line is read as it was made: plain names, and what follows is no flag. *)
Definition readable (l : list setting) (rest : list bytes) : Prop :=
  Forall (fun x => plain_name (setting_name x) = true) l /\ (forall a, head rest = Some a -> read_flag a = NoFlag).

(** ** Properties *)

(** The command line of the daemon.  Of settings that are accepted, the last one
    of a flag or of its short form counts, and the lists have all of theirs in
    order; a query is made when one is asked for; otherwise a server and a prefix
    are needed, and the node runs with them, without a device exactly when a forward
    or a proxy is given, and through a peer's relay when both relays are forced. *)
Theorem vpn_command_line (ParseInt0 ParseDuration ParseRate : bytes -> option Z) (Getenv : bytes -> bytes) tun l rest f :
  readable l rest ->
  fold_left (apply_setting (vpn_flags ParseInt0 ParseDuration ParseRate)) l (Some (default_flags tun (Getenv (bs "PG_SERVER")))) = Some f ->
  let server := last_value [bs "server"; bs "s"] (Getenv (bs "PG_SERVER")) l in
  let ipv4 := last_value [bs "ipv4"; bs "4"] [] l in
  let ipv6 := last_value [bs "ipv6"; bs "6"] [] l in
  exists c a, vpn_Run ParseInt0 ParseDuration ParseRate Getenv tun (command_line l rest) =
    (if switched [bs "peers"] l then PrintPeers else if switched [bs "nodeinfo"] l then PrintNodeInfo
     else if bool_decide (server = []) then VpnError (bs "flag server not set")
     else if bool_decide (ipv4 = [] /\ ipv6 = []) then VpnError (bs "at least one of the flags in the group [ipv4 ipv6] is required")
     else RunNode c a) /\
    Server c = server /\ NIC_IPv4 c = ipv4 /\ NIC_IPv6 c = ipv6 /\
    cfg_SecretFile c = last_value [bs "secret-file"; bs "f"] [] l /\ PrivateKey c = last_value [bs "key"] [] l /\
    Forwards c = values [bs "forward"] l /\ Proxy_Users c = values [bs "proxy-user"] l /\ Labels c = values [bs "label"; bs "l"] l /\
    rootlessMode c = bool_decide (values [bs "forward"] l <> [] \/ last_value [bs "proxy-listen"] [] l <> []) /\
    P2pTransportMode c = (if switched [bs "force-peer-relay"] l then MODE_FORCE_PEER_RELAY
                          else if switched [bs "force-server-relay"] l then MODE_FORCE_RELAY else MODE_DEFAULT).
Proof.
  intros [Hl Hr] Hf server ipv4 ipv6. unfold vpn_Run. rewrite (parse_settings _ _ _ _ f Hl Hr Hf).
  destruct (says_all _ _ _ _ _ _ _ Hf) as [H1 H2 H3 H4 H5 H6 H7 H8 H9 H10 H11 H12 H13 H14 H15 H16 H17].
  set (c0 := with_lists f).
  set (c1 := if forcePeerRelay f then with_mode MODE_FORCE_PEER_RELAY c0 else c0).
  set (c2 := if forceServerRelay f && negb (forcePeerRelay f) then with_mode MODE_FORCE_RELAY c1 else c1).
  exists c2, (if bool_decide (cryptoAlgo f = bs "chacha20poly1305") then Some Chacha20poly1305
              else if bool_decide (cryptoAlgo f = bs "aescbc") then Some AesCbc else None).
  split.
  - unfold createConfig. change (QueryPeers (with_lists f)) with (QueryPeers (p_cfg f)).
    change (QueryNodeInfo (with_lists f)) with (QueryNodeInfo (p_cfg f)).
    change (Server (with_lists f)) with (Server (p_cfg f)). change (NIC_IPv4 (with_lists f)) with (NIC_IPv4 (p_cfg f)).
    change (NIC_IPv6 (with_lists f)) with (NIC_IPv6 (p_cfg f)).
    assert (Hq : forall m (c : Config), QueryPeers (with_mode m c) = QueryPeers c /\ QueryNodeInfo (with_mode m c) = QueryNodeInfo c) by done.
    rewrite H8, H9, H5, H1, H2. fold server ipv4 ipv6. destruct (switched [bs "peers"] l) eqn:E1; cbn [orb].
    { cbn. by rewrite H8. }
    destruct (switched [bs "nodeinfo"] l) eqn:E2; cbn [orb].
    { cbn. by rewrite H8, H9. }
    case_bool_decide; [done|]. case_bool_decide; [done|]. fold c0 c1 c2.
    assert (E3 : QueryPeers c2 = false /\ QueryNodeInfo c2 = false).
    { unfold c2, c1. destruct (forcePeerRelay f), (forceServerRelay f); cbn; by rewrite H8, H9. }
    destruct E3 as [-> ->]. done.
  - unfold c2, c1, rootlessMode. rewrite <- H11, <- H3, <- H16, <- H17, <- H12, <- H13, <- H4, <- H6, <- H10.
    unfold server, ipv4, ipv6. rewrite <- H5, <- H1, <- H2.
    destruct (forcePeerRelay f), (forceServerRelay f); by cbn.
Qed.

(** The command that runs.  With settings of the global flags before it, each
    command gets the arguments behind its name, but for [vpn], which gets all
    arguments except the first of the process: with any global flag it does not get
    its own. *)
Theorem main_dispatch (ParseInt0 : bytes -> option Z) l sub rest base x :
  base <> bs "pgvpn" -> readable l (sub :: rest) -> fold_left (apply_setting (global_flags ParseInt0)) l (Some 0) = Some x ->
  let r := main ParseInt0 base (command_line l (sub :: rest)) in
  (sub = bs "admin" -> r = RunAdmin rest) /\ (sub = bs "download" -> r = RunDownload rest) /\ (sub = bs "share" -> r = RunShare rest) /\
  (sub = bs "vpn" -> (r = RunVpn rest <-> l = [])).
Proof.
  intros Hb [Hl Hr] Hf r. unfold r, main. rewrite bool_decide_false by done. rewrite (parse_settings _ _ _ _ x Hl Hr Hf).
  unfold run, Arg. cbn [lookup list_lookup default tail]. split_and!; intros ->; try (vm_compute; reflexivity).
  repeat (rewrite (bool_decide_false (bs "vpn" = _)) by (vm_compute; discriminate)). rewrite bool_decide_true by done.
  destruct l as [|y l]; [done|]. split; [|done]. intros [= He]. exfalso.
  assert (Ht : forall k : list bytes, length (tail k) = pred (length k)) by by intros [].
  apply (f_equal length) in He. unfold command_line in He. rewrite Ht, length_app in He. cbn [fmap list_fmap concat] in He.
  rewrite length_app in He. assert (0 < length (set_args y))%nat by (destruct y; cbn; lia). cbn [length] in He. lia.
Qed.

(** The first that is not empty. *)
Fixpoint first_nonempty (l : list bytes) : bytes :=
  match l with [] => [] | x :: l => if bool_decide (x = []) then first_nonempty l else x end.

Lemma zlen_positive {A} (l : list A) : bool_decide (zlen l > 0) = negb (bool_decide (l = [])).
Proof. destruct l; [done|]. rewrite zlen_cons, (bool_decide_true (_ > 0)); [done|]. pose proof (zlen_nonneg l). lia. Qed.

(** What a server runs with.  The address of the configuration file is used only
    when the flag is given as the empty string, for the flag has a default; the key,
    the public network and the STUN servers of the file are used when their flags
    are not given; what cannot be read of the file is dropped without an error: a
    server without a key in either place has a new one. *)
Theorem map_configuration ReadConfig hex_key v s :
  map_run ReadConfig hex_key v = Ok s ->
  let file := (ReadConfig (mv_configPath v)).1 in
  Listen (cfg s) = first_nonempty [mv_Listen v; Listen file; bs "127.0.0.1:9987"] /\
  (mv_Listen v = mv_Listen map_defaults -> Listen (cfg s) = bs "127.0.0.1:9987") /\
  SecretKey (cfg s) = first_nonempty [mv_SecretKey v; SecretKey file; hex_key] /\
  PublicNetwork (cfg s) = first_nonempty [mv_PublicNetwork v; PublicNetwork file] /\
  STUNs (cfg s) = (if bool_decide (mv_STUNs v = []) then STUNs file else mv_STUNs v) /\
  config_ok (cfg s).
Proof.
  intros H file. unfold map_run, New in H. destruct (ApplyDefaults hex_key _) as [[c ps]|e|] eqn:E; [|done..]. injection H as <-.
  cbn [cfg]. pose proof (ApplyDefaults_ok _ _ _ _ E) as Hok. unfold ApplyDefaults, Overwrite in E. fold file in E.
  cbn [Listen SecretKey STUNs PublicNetwork OIDCProviders RateLimits SecretRotationPeriod SecretValidityPeriod command_config] in E.
  rewrite !zlen_positive in E. destruct (RateLimits file ≫= rate_check); [done|]. case_bool_decide; [done|]. injection E as <- <-.
  cbn [Listen SecretKey STUNs PublicNetwork first_nonempty]. rewrite !if_negb in Hok |- *. split_and!; [| | | |done|exact Hok].
  - destruct (bool_decide (mv_Listen v = [])) eqn:E; [by case_bool_decide as E2; rewrite ?E2|by rewrite E].
  - intros ->. reflexivity.
  - destruct (bool_decide (mv_SecretKey v = [])) eqn:E; [|by rewrite E].
    repeat case_bool_decide; congruence.
  - destruct (bool_decide (mv_PublicNetwork v = [])) eqn:E; rewrite ?E; [|done]. repeat case_bool_decide; congruence.
Qed.

(** ** Witnesses *)

Module Examples.

Definition number (s : bytes) : option Z := ParseInt 64 s.
Definition no_number (_ : bytes) : option Z := None.
Definition no_env (_ : bytes) : bytes := [].

(** [vpn -s wss://example.org/pg -4 100.99.0.1/24 -label a -force-peer-relay -l b] *)
Definition node_settings : list setting :=
  [WithValue (bs "s") (bs "wss://example.org/pg"); WithValue (bs "4") (bs "100.99.0.1/24"); WithValue (bs "label") (bs "a");
   Switch (bs "force-peer-relay"); WithValue (bs "l") (bs "b")].
Definition node_vars : parsed :=
  default (default_flags (bs "pg0") []) (fold_left (apply_setting (vpn_flags number no_number no_number)) node_settings (Some (default_flags (bs "pg0") []))).

Lemma vpn_command_line_witness :
  exists c a, vpn_Run number no_number no_number no_env (bs "pg0") (command_line node_settings []) = RunNode c a /\
    Server c = bs "wss://example.org/pg" /\ Labels c = [bs "a"; bs "b"] /\ P2pTransportMode c = MODE_FORCE_PEER_RELAY.
Proof.
  assert (Hr : readable node_settings []) by (split; [repeat constructor|done]).
  assert (Hf : fold_left (apply_setting (vpn_flags number no_number no_number)) node_settings
    (Some (default_flags (bs "pg0") (no_env (bs "PG_SERVER")))) = Some node_vars) by (vm_compute; reflexivity).
  destruct (vpn_command_line number no_number no_number no_env (bs "pg0") node_settings [] node_vars Hr Hf)
    as (c & a & H1 & H2 & _ & _ & _ & _ & _ & _ & H3 & _ & H4).
  exists c, a. rewrite H1, H2, H3, H4. vm_compute. done.
Defined.

(** [pgcli -loglevel 1 vpn -4 100.99.0.1/24] hands [vpn] the arguments from "1" on. *)
Lemma main_dispatch_witness :
  main number (bs "pgcli") (command_line [WithValue (bs "loglevel") (bs "1")] [bs "vpn"; bs "-4"; bs "100.99.0.1/24"]) <>
    RunVpn [bs "-4"; bs "100.99.0.1/24"] /\
  main number (bs "pgcli") (command_line [WithValue (bs "loglevel") (bs "1")] [bs "admin"; bs "peers"]) = RunAdmin [bs "peers"].
Proof.
  assert (Hr : forall sub rest, sub = bs "vpn" \/ sub = bs "admin" -> readable [WithValue (bs "loglevel") (bs "1")] (sub :: rest)).
  { intros sub rest Hs. split; [repeat constructor|]. intros a [= <-]. destruct Hs as [-> | ->]; reflexivity. }
  split.
  - intros H. apply (proj2 (proj2 (proj2 (main_dispatch number [WithValue (bs "loglevel") (bs "1")] (bs "vpn") [bs "-4"; bs "100.99.0.1/24"]
      (bs "pgcli") 1 ltac:(discriminate) (Hr _ _ (or_introl eq_refl)) eq_refl))) eq_refl) in H. discriminate H.
  - apply (proj1 (main_dispatch number [WithValue (bs "loglevel") (bs "1")] (bs "admin") [bs "peers"]
      (bs "pgcli") 1 ltac:(discriminate) (Hr _ _ (or_intror eq_refl)) eq_refl) eq_refl).
Defined.

(** A configuration file that asks for another address and is read without trouble. *)
Definition file_config : Auth.Config := Auth.MkConfig (bs "0.0.0.0:443") (bs "key") [] [] [] None 0 0.
Definition started : res config_error PeerMap := map_run (fun _ => (file_config, false)) (bs "00") map_defaults.

Lemma map_configuration_witness :
  exists s, started = Ok s /\ Listen (cfg s) = bs "127.0.0.1:9987" /\ SecretKey (cfg s) = bs "key".
Proof.
  destruct started as [s|e|] eqn:E; [|vm_compute in E; discriminate E..]. exists s. split; [done|].
  destruct (map_configuration (fun _ => (file_config, false)) (bs "00") map_defaults s E) as (_ & H1 & H2 & _).
  split; [by apply H1|]. rewrite H2. vm_compute. reflexivity.
Defined.
End Examples.
