(* ===== verification/Join.v ===== *)
(** * Join: the links of a login ([peermap/network], [peermap/oidc/http.go], the routes of [peermap.go], [peermap/ui])

    A node that needs a secret draws a state, shows a link and waits at another
    one; a person follows the link over the page of providers to the provider and
    back.  The links are read by the server's mux; what happens between the
    requests is in [Login.v].  Every other path is one of a static file. *)

From S2P Require Import Prelude Text Url Disco Login Exporter.

(** ** The node *)

Record JoinIntent := MkJoinIntent { ji_state : bytes; ji_authURL : bytes; ji_host : bytes }.
(** [JoinOIDC]: [host] is that of the server's URL, [None] when it does not parse;
    [random] is the text of the twelve bytes drawn. *)
Definition JoinOIDC (random : bytes) (oidcProvider : bytes) (host : option bytes) : option JoinIntent :=
  h ← host; Some (MkJoinIntent random (bs "https://" ++ h ++ join_path oidcProvider) h).
Definition JoinIntent_AuthURL (i : JoinIntent) : bytes := ji_authURL i ++ bs "?state=" ++ ji_state i.
Definition tokenURL (i : JoinIntent) : bytes := token_url (ji_host i) (ji_state i).

(** [Wait]: the answer is a status and what its body decodes to, or there is none. *)
Inductive wait_error := NoAnswer | WaitStatus (code : Z) | BadDocument.
Definition Wait (answer : option (Z * option NetworkSecret)) : res wait_error NetworkSecret :=
  match answer with
  | None => Err NoAnswer
  | Some (code, doc) =>
      if bool_decide (code <> 200) then Err (WaitStatus code)
      else match doc with Some s => Ok s | None => Err BadDocument end
  end.

(** [requestNetworkSecret]: what is printed, and the secret. *)
Definition requestNetworkSecret (random : bytes) (host : option bytes) (get : bytes -> option (Z * option NetworkSecret)) :
    option bytes * (res (option wait_error) NetworkSecret) :=
  match JoinOIDC random [] host with
  | None => (None, Err None)
  | Some join => (Some (JoinIntent_AuthURL join),
                  match Wait (get (tokenURL join)) with Ok s => Ok s | Err e => Err (Some e) | Panic => Panic end)
  end.

(** ** The server *)

(** What the mux finds below "/oidc"; a fixed pattern goes before one with a wildcard. *)
Inductive oidc_target := Selector | ListProviders | AwaitSecret | AuthURLOf (provider : bytes) | Callback (provider : bytes) | Elsewhere.
Definition oidc_route (p : bytes) : oidc_target :=
  match Split (z2b 47) p with
  | [e; o] => if bool_decide (e = [] /\ o = bs "oidc") then Selector else Elsewhere
  | [e; o; x] =>
      if bool_decide (e = [] /\ o = bs "oidc" /\ x <> []) then
        (if bool_decide (x = bs "providers") then ListProviders
         else if bool_decide (x = bs "secret") then AwaitSecret else AuthURLOf x)
      else Elsewhere
  | [e; o; a; x] => if bool_decide (e = [] /\ o = bs "oidc" /\ a = bs "authorize" /\ x <> []) then Callback x else Elsewhere
  | _ => Elsewhere
  end.

(** [path.Clean] of a path that is not rooted: elements that lead out of it stay. *)
Definition rel_step (acc : list bytes) (x : bytes) : list bytes :=
  if bool_decide (x = [] \/ x = bs ".") then acc
  else if bool_decide (x = bs "..") then
    (if bool_decide (acc = [] \/ last acc = Some (bs "..")) then acc ++ [x] else removelast acc)
  else acc ++ [x].
Definition Clean_relative (s : bytes) : bytes :=
  let l := fold_left rel_step (Split (z2b 47) s) [] in if bool_decide (l = []) then bs "." else join [z2b 47] l.

(** [HandleStaticFiles]: the file of the path in the embedded tree, and the start page
    for whatever is not in it. *)
Definition HandleStaticFiles (staticFiles : bytes -> bool) (urlpath : bytes) : bytes :=
  let filePath := Clean_relative (bs "dist/" ++ (if HasPrefix urlpath (bs "/") then drop 1 urlpath else urlpath)) in
  if staticFiles filePath then filePath else bs "dist/index.html".
Example start_page : HandleStaticFiles (fun _ => false) (bs "/networks/7") = bs "dist/index.html".
Proof. reflexivity. Qed.
Example an_asset : HandleStaticFiles (fun _ => true) (bs "/assets/../app.js") = bs "dist/app.js".
Proof. vm_compute. reflexivity. Qed.
Example out_of_it : HandleStaticFiles (fun p => bool_decide (p = bs "dist/app.js")) (bs "/../../dist/app.js") = bs "dist/index.html".
Proof. vm_compute. reflexivity. Qed.

(** [OIDCAuthURL]: the provider's page for the state, or a 400. *)
Definition OIDCAuthURL {E} (AuthCodeURL : oauth_config E -> bytes -> bytes) (providers : gmap bytes (OIDCProvider E)) (name state : bytes) :
    option bytes :=
  p ← providers !! name; Some (AuthCodeURL (oAuthConfig p) state).

(** [OIDCProviders] *)
Definition name_le (a b : bytes) : Prop := str_Compare a b <= 0.
#[export] Instance name_le_dec a b : Decision (name_le a b).
Proof. unfold name_le. apply _. Defined.
Definition OIDCProviders {E} (providers : gmap bytes (OIDCProvider E)) : list bytes :=
  merge_sort name_le (fst <$> map_to_list providers).

(** ** Opening a link *)

(** The host, the path and the query that a client requests for a link. *)
Definition open_link (scheme : bytes) (u : bytes) : option (bytes * bytes * bytes) :=
  if HasPrefix u (scheme ++ bs "//") then
    let rest := drop (length (scheme ++ bs "//")) u in
    match index_byte (z2b 47) rest with
    | Some i => let '(p, q) := Cut (z2b 63) (drop i rest) in Some (take i rest, p, q)
    | None => None
    end
  else None.
Definition state_of (query : bytes) : bytes := vals_Get (ParseQuery query).1 (bs "state").

(** A state that needs no escaping, as a base58 text. *)
Definition plain_state (s : bytes) : Prop := forallb unreserved s = true.

Lemma unreserved_escape c : unreserved c = true -> escape_byte c = [c].
Proof. unfold escape_byte. by intros ->. Qed.
Lemma plain_escape s : plain_state s -> QueryEscape s = s.
Proof.
  unfold plain_state. induction s as [|c s IH]; [done|]. cbn [forallb]. intros [Hc Hs]%andb_prop.
  rewrite QueryEscape_cons, unreserved_escape, IH by done. done.
Qed.

Lemma state_query s : plain_state s -> state_of (bs "state=" ++ s) = s.
Proof.
  intros Hs. unfold state_of. assert (He : bs "state=" ++ s = Encode {[bs "state" := [s]]}).
  { unfold Encode, entries. rewrite map_to_list_singleton. cbn. unfold pair_text. rewrite (plain_escape s Hs). reflexivity. }
  rewrite He, ParseQuery_Encode by (apply map_Forall_singleton; discriminate). cbn [fst].
  unfold vals_Get. by rewrite lookup_singleton_eq.
Qed.

Lemma open_link_at scheme host p st :
  z2b 47 ∉ host -> z2b 63 ∉ bs "/" ++ p ->
  open_link scheme (scheme ++ bs "//" ++ host ++ bs "/" ++ p ++ bs "?state=" ++ st) = Some (host, bs "/" ++ p, bs "state=" ++ st).
Proof.
  intros Hh Hp. unfold open_link, HasPrefix. rewrite app_assoc, take_app_length, bool_decide_true, drop_app_length by done.
  change (bs "/" ++ p ++ bs "?state=" ++ st) with (z2b 47 :: (p ++ bs "?state=" ++ st)). rewrite index_byte_app by done.
  rewrite take_app_length, drop_app_length.
  change (z2b 47 :: p ++ bs "?state=" ++ st) with ((bs "/" ++ p) ++ z2b 63 :: (bs "state=" ++ st)).
  unfold Cut. rewrite index_byte_app by done. rewrite take_app_length.
  by rewrite drop_past.
Qed.

(** The link of a provider on the page of [OIDCSelector]. *)
Definition provider_link (host urlpath state name : bytes) : bytes :=
  bs "//" ++ host ++ Clean (urlpath ++ bs "/" ++ name) ++ bs "?state=" ++ state.
Lemma selector_link_href host urlpath state name :
  selector_link host urlpath state name = bs "<a href=" ++ quote ++ provider_link host urlpath state name ++ quote ++ bs ">" ++ name ++ bs "</a><br />".
Proof. unfold selector_link, provider_link. by rewrite <- !app_assoc. Qed.

Lemma Clean_provider name : element name -> Clean (bs "/oidc/" ++ name) = bs "/" ++ bs "oidc/" ++ name.
Proof.
  intros (H1 & H2 & H3 & H4). unfold Clean. change (bs "/oidc/" ++ name) with (join [z2b 47] [[]; bs "oidc"; name]).
  rewrite Split_join; [|done|].
  2:{ repeat (apply Forall_cons; split; [first [exact H4|apply no_slash; vm_compute; reflexivity]|]). constructor. }
  cbn [fold_left]. unfold clean_step at 1. rewrite (bool_decide_false (name = [] \/ name = bs ".")) by tauto.
  rewrite (bool_decide_false (name = bs "..")) by done. reflexivity.
Qed.

Lemma provider_route name : element name ->
  oidc_route (bs "/" ++ bs "oidc/" ++ name) =
    (if bool_decide (name = bs "providers") then ListProviders else if bool_decide (name = bs "secret") then AwaitSecret else AuthURLOf name).
Proof.
  intros (H1 & H2 & H3 & H4). unfold oidc_route.
  change (bs "/" ++ bs "oidc/" ++ name) with (join [z2b 47] [[]; bs "oidc"; name]).
  rewrite Split_join; [|done|].
  2:{ repeat (apply Forall_cons; split; [first [exact H4|apply no_slash; vm_compute; reflexivity]|]). constructor. }
  by rewrite (bool_decide_true ([] = [] /\ _)).
Qed.

(** ** Properties *)

(** The links of a login lead back to the node.  What a node prints leads to the
    page of the providers, each link there to the address of its provider, and all
    of them, like the one where the node waits, carry the state of the node; but a
    provider called [secret] or [providers] cannot be reached: the link of the
    first would wait for the secret in the node's place. *)
Theorem login_links st host :
  plain_state st -> z2b 47 ∉ host ->
  exists j, JoinOIDC st [] (Some host) = Some j /\
    open_link (bs "https:") (JoinIntent_AuthURL j) = Some (host, bs "/oidc", bs "state=" ++ st) /\
    oidc_route (bs "/oidc") = Selector /\
    open_link (bs "https:") (tokenURL j) = Some (host, bs "/oidc/secret", bs "state=" ++ st) /\
    oidc_route (bs "/oidc/secret") = AwaitSecret /\
    state_of (bs "state=" ++ st) = st /\
    forall name, element name -> z2b 63 ∉ name ->
      open_link [] (provider_link host (bs "/oidc") st name) = Some (host, bs "/oidc/" ++ name, bs "state=" ++ st) /\
      oidc_route (bs "/oidc/" ++ name) =
        (if bool_decide (name = bs "providers") then ListProviders
         else if bool_decide (name = bs "secret") then AwaitSecret else AuthURLOf name).
Proof.
  intros Hs Hh. eexists. split; [reflexivity|].
  assert (Hq : forall p : bytes, bool_decide (z2b 63 ∈ p) = false -> z2b 63 ∉ p) by (intros p; apply bool_decide_eq_false_1).
  split_and!; [| | | |by apply state_query|].
  - unfold JoinIntent_AuthURL. cbn [ji_authURL ji_state]. unfold join_path. rewrite bool_decide_true by done.
    rewrite <- !app_assoc. exact (open_link_at (bs "https:") host (bs "oidc") st Hh (Hq (bs "/oidc") eq_refl)).
  - vm_compute. reflexivity.
  - unfold tokenURL, token_url. cbn [ji_host ji_state].
    exact (open_link_at (bs "https:") host (bs "oidc/secret") st Hh (Hq (bs "/oidc/secret") eq_refl)).
  - vm_compute. reflexivity.
  - intros name Hn Hm. change (bs "/oidc/" ++ name) with (bs "/" ++ bs "oidc/" ++ name). split; [|by apply provider_route].
    unfold provider_link. change (bs "/oidc" ++ bs "/" ++ name) with (bs "/oidc/" ++ name). rewrite Clean_provider by done.
    rewrite <- app_assoc. apply (open_link_at [] host (bs "oidc/" ++ name) st Hh).
    rewrite app_assoc, elem_of_app. intros [H|H]; [|done]. revert H. apply Hq. vm_compute. reflexivity.
Qed.

(** ** Witness *)

Module Examples.
Definition st1 : bytes := bs "3mJr7AoUXx2Wqd".

Lemma login_links_witness :
  exists j, JoinOIDC st1 [] (Some (bs "example.org")) = Some j /\
    open_link (bs "https:") (JoinIntent_AuthURL j) = Some (bs "example.org", bs "/oidc", bs "state=" ++ st1).
Proof.
  assert (Hp : plain_state st1) by (vm_compute; reflexivity).
  assert (Hh : z2b 47 ∉ bs "example.org") by (apply no_slash; vm_compute; reflexivity).
  destruct (login_links st1 (bs "example.org") Hp Hh) as (j & H1 & H2 & _). by exists j.
Defined.

(** A wait that the server ends without an answer. *)
Example refused_login : (requestNetworkSecret st1 (Some (bs "example.org")) (fun _ => Some (502, None))).2 = Err (Some (WaitStatus 502)).
Proof. reflexivity. Qed.
End Examples.
